(** * midjourney-api examples: the asset-generation pipelines

    A shallow embedding of the three pipelines under [example/]:

    - [ExampleScript]: the class [AnimeSceneGenerator] of
      [example/exampleScript.ts] (variations, metadata, in-memory
      character references, no ledger);
    - [AnimeV1]: the first [AnimeSceneGenerator] of [example/anime.ts], its
      prompt builders and its pipeline ([generateImage], the two phases,
      [generate]);
    - [Storyboard]: the second program of [example/anime.ts] ([story],
      [loadProgress], [generateCharacter], [generateScene], [main]) with its
      progress ledger.

    Asynchronous code is sequential here (every promise is awaited at once),
    so it is written in a state-and-exception monad over an explicit
    [World]; the Midjourney client, the network and the failures of the file
    system are oracles of an [Env]. *)

From Stdlib Require Import String Ascii List ZArith Bool Lia.
From stdpp Require Import base option list gmap strings pretty.

Local Open Scope string_scope.
Local Open Scope list_scope.

(** ** JavaScript strings and arrays *)

(** [Array.prototype.filter(Boolean)] on an array of strings and
    [undefined]s: a value is kept when it is a non-empty string. *)
Definition truthy (s : string) : bool := negb (String.eqb s "").

Definition Boolean (v : option string) : bool :=
  match v with
  | Some s => truthy s
  | None => false
  end.

Fixpoint filter_Boolean (l : list (option string)) : list string :=
  match l with
  | [] => []
  | Some s :: l' => if truthy s then s :: filter_Boolean l' else filter_Boolean l'
  | None :: l' => filter_Boolean l'
  end.

(** [Array.prototype.join] on strings is [String.concat]. *)
Definition join (sep : string) (l : list string) : string := String.concat sep l.

(** [a || ""] on an optional string. *)
Definition or_empty (v : option string) : string :=
  match v with
  | Some s => s
  | None => ""
  end.

(** [String.prototype.toLowerCase] on ASCII text, where it changes the
    letters [A] to [Z] only. On other text the method follows the case
    tables of Unicode, which are not written out here: the method itself is
    a collaborator of the [Env] below. *)
Definition lower_ascii (c : ascii) : ascii :=
  let n := nat_of_ascii c in
  if (65 <=? n)%nat && (n <=? 90)%nat then ascii_of_nat (n + 32) else c.

Fixpoint toLowerCase_ascii (s : string) : string :=
  match s with
  | EmptyString => EmptyString
  | String c s' => String (lower_ascii c) (toLowerCase_ascii s')
  end.

(** [String.prototype.padStart(targetLength, padString)] for a one-character
    [padString]. *)
Fixpoint replicate_char (n : nat) (c : ascii) : string :=
  match n with
  | O => EmptyString
  | S n' => String c (replicate_char n' c)
  end.

Definition padStart (targetLength : nat) (padChar : ascii) (s : string) : string :=
  replicate_char (targetLength - String.length s) padChar +:+ s.

(** [s] occurs in [t]. *)
Definition contains (s t : string) : Prop :=
  exists pre post, t = pre +:+ s +:+ post.

Fixpoint includesb (s t : string) : bool :=
  String.prefix s t ||
  match t with
  | EmptyString => false
  | String _ t' => includesb s t'
  end.

(** [Array.prototype.forEach((x, index) => ...)] updating one local
    variable: a left fold that carries the index. *)
Fixpoint forEach_from {A S : Type} (f : S -> A -> nat -> S) (index : nat)
    (l : list A) (acc : S) : S :=
  match l with
  | [] => acc
  | x :: l' => forEach_from f (Datatypes.S index) l' (f acc x index)
  end.

Definition forEach {A S : Type} (f : S -> A -> nat -> S) (l : list A)
    (acc : S) : S :=
  forEach_from f 0 l acc.

(** ** Data model *)

Record Character := {
  name : string;
  description : string;
  stylePrompt : string;
}.

Record Scene := {
  sceneNumber : Z;
  scene_description : string;
  scene_characters : list string;
  setting : string;
  mood : string;
  cameraAngle : option string;
  action : string;
}.

Record AnimeScript := {
  title : string;
  style : string;
  artStyle : string;
  characters : list Character;
  scenes : list Scene;
}.

Record Variation := {
  var_id : string;
  var_hash : string;
  var_uri : string;
}.

Record MJResponse := {
  id : option string;
  hash : option string;
  flags : option Z;
  uri : option string;
  options : option (list Variation);
}.

(** The metadata object of [generateAndSelectVariation]. *)
Record Metadata := {
  md_prompt : string;
  imagineId : option string;
  selectedVariation : string;
  allVariations : list (string * string);
  localPath : string;
  timestamp : string;
}.

(** The metadata object of [generateImage], in the first generator of
    [anime.ts]. *)
Record ImageMetadata := {
  im_prompt : string;
  im_imagineId : option string;
  upscaleId : option string;
  im_timestamp : string;
}.

Record ProgressState := {
  completedCharacters : list string;
  completedScenes : list string;
}.

(** The object of [character_references.json]. *)
Record References := {
  uris : gmap string string;
  files : gmap string string;
}.

Definition Buffer := list Byte.byte.

(** What a file holds: the bytes of an image, which are no JSON text, or
    JSON text, kept as the value it encodes. These are the values the three
    programs write. *)
Inductive FileContent :=
| CBuffer (b : Buffer)
| CMetadata (m : Metadata)
| CImageMetadata (m : ImageMetadata)
| CProgress (p : ProgressState)
| CReferences (r : References)
| CScript (s : AnimeScript).

(** ** The world and its observable events *)

(** What an awaited call gives: a value, or an exception (a rejected
    promise). *)
Inductive Res (A : Type) :=
| Ok (a : A)
| Thrown (err : string).
Arguments Ok {A} a.
Arguments Thrown {A} err.

Inductive Event :=
| EConnect
| EClose
| EImagine (prompt : string) (res : Res (option MJResponse))
| EUpscale (index : Z) (msgId hash : option string) (fl : option Z)
    (res : Res (option MJResponse))
| EMkdir (dir : string) (ok : bool)
| EFetch (url : string) (body : option Buffer)
| EWriteFile (path : string) (content : FileContent) (ok : bool)
| ELog (msg : string)
| EError (msg : string)
| EDelay (ms : Z).

Record World := {
  clock : nat;
  fs : gmap string FileContent;
}.

(** The collaborators outside the repository: the Midjourney client, the
    network, the clock, Node's [path.join], [String.prototype.toLowerCase]
    and the failures of the file system. Every answer of the client, the
    network, the clock and the file system may depend on the world, whose
    [clock] advances at every call. *)
Record Env := {
  path_join : list string -> string;
  toLowerCase : string -> string;
  toISOString : World -> string;
  Imagine_o : World -> string -> Res (option MJResponse);
  Upscale_o : World -> Z -> option string -> option string -> option Z ->
              Res (option MJResponse);
  Connect_o : World -> bool;
  fetch_o : World -> string -> option Buffer;
  writeFile_o : World -> string -> bool;
  mkdir_o : World -> string -> bool;
}.

(** ** The monad of awaited effects *)

Definition M (A : Type) : Type := World -> Res A * World * list Event.

Definition ret {A} (a : A) : M A := fun w => (Ok a, w, []).

Definition bind {A B} (m : M A) (k : A -> M B) : M B := fun w =>
  match m w with
  | (Ok a, w1, e1) =>
      match k a w1 with
      | (r, w2, e2) => (r, w2, e1 ++ e2)
      end
  | (Thrown err, w1, e1) => (Thrown err, w1, e1)
  end.

Definition throw {A} (err : string) : M A := fun w => (Thrown err, w, []).

(** [try { m } catch (error) { h error }] *)
Definition try_catch {A} (m : M A) (h : string -> M A) : M A := fun w =>
  match m w with
  | (Ok a, w1, e1) => (Ok a, w1, e1)
  | (Thrown err, w1, e1) =>
      match h err w1 with
      | (r, w2, e2) => (r, w2, e1 ++ e2)
      end
  end.

(** [try { m } finally { f }] *)
Definition try_finally {A} (m : M A) (f : M unit) : M A := fun w =>
  match m w with
  | (r, w1, e1) =>
      match f w1 with
      | (Ok _, w2, e2) => (r, w2, e1 ++ e2)
      | (Thrown err, w2, e2) => (Thrown err, w2, e1 ++ e2)
      end
  end.

Declare Scope js_scope.
Delimit Scope js_scope with js.
Notation "x <- m ;; k" := (bind m (fun x => k))
  (at level 100, m at next level, right associativity) : js_scope.
Notation "m ;; k" := (bind m (fun _ => k))
  (at level 100, right associativity) : js_scope.
Local Open Scope js_scope.

(** [for (const x of xs) { body }], where the body updates the variables
    [s] and may raise, which leaves the loop. *)
Fixpoint for_of {X S : Type} (body : X -> S -> M S) (xs : list X) (s : S) : M S :=
  match xs with
  | [] => ret s
  | x :: xs' => s' <- body x s ;; for_of body xs' s'
  end.

Definition result {A} (x : Res A * World * list Event) : Res A := fst (fst x).
Definition world {A} (x : Res A * World * list Event) : World := snd (fst x).
Definition events {A} (x : Res A * World * list Event) : list Event := snd x.
Arguments result {A} !x /.
Arguments world {A} !x /.
Arguments events {A} !x /.

Definition tick (w : World) : World :=
  {| clock := S (clock w); fs := fs w |}.

Definition emit (e : Event) : M unit := fun w => (Ok tt, w, [e]).
Definition console_log (msg : string) : M unit := emit (ELog msg).
Definition console_error (msg : string) : M unit := emit (EError msg).

(** [await new Promise((resolve) => setTimeout(resolve, ms))] *)
Definition delay (ms : Z) : M unit := fun w => (Ok tt, tick w, [EDelay ms]).

Section Primitives.
Variable env : Env.

(** [client.Imagine(prompt, loading)]; the progress callback only logs and
    is called as the backend pleases, it is left out. *)
Definition Imagine (prompt : string) : M (option MJResponse) := fun w =>
  (Imagine_o env w prompt, tick w, [EImagine prompt (Imagine_o env w prompt)]).

Definition Upscale (index : Z) (msgId hash_ : option string)
    (flags_ : option Z) : M (option MJResponse) := fun w =>
  (Upscale_o env w index msgId hash_ flags_, tick w,
   [EUpscale index msgId hash_ flags_
      (Upscale_o env w index msgId hash_ flags_)]).

Definition Connect : M unit := fun w =>
  if Connect_o env w then (Ok tt, tick w, [EConnect])
  else (Thrown "Connect", tick w, []).

Definition Close : M unit := emit EClose.

Definition mkdir (dir : string) : M unit := fun w =>
  if mkdir_o env w dir then (Ok tt, tick w, [EMkdir dir true])
  else (Thrown "mkdir", tick w, [EMkdir dir false]).

Definition writeFile (path : string) (content : FileContent) : M unit :=
  fun w =>
    if writeFile_o env w path then
      (Ok tt, {| clock := S (clock w); fs := <[path := content]> (fs w) |},
       [EWriteFile path content true])
    else (Thrown "writeFile", tick w, [EWriteFile path content false]).

(** [axios({url, method: "GET", responseType: "arraybuffer"})], and
    [fetch(url)] followed by [arrayBuffer()]. *)
Definition http_get (url : string) : M Buffer := fun w =>
  match fetch_o env w url with
  | Some b => (Ok b, tick w, [EFetch url (Some b)])
  | None => (Thrown "fetch", tick w, [EFetch url None])
  end.

Definition now : M string := fun w => (Ok (toISOString env w), w, []).
End Primitives.

(** [JSON.parse(await fs.readFile(path, "utf-8"))]: the value that the text
    of the file encodes, whatever its shape. The read raises when there is
    no file, the parse when the file holds the bytes of an image. *)
Definition readJSON (path : string) : M FileContent := fun w =>
  match fs w !! path with
  | None => (Thrown "ENOENT: no such file or directory", tick w, [])
  | Some (CBuffer _) => (Thrown "SyntaxError", tick w, [])
  | Some value => (Ok value, tick w, [])
  end.

(** ** [example/exampleScript.ts] *)

Module ExampleScript.

Definition baseOutputDir : string := "./anime_output".

Inductive GenType := character | scene.

Definition type_name (type : GenType) : string :=
  match type with
  | character => "character"
  | scene => "scene"
  end.

Definition buildCharacterPrompt (c : Character) : string :=
  "masterpiece, high quality, anime character design, " +:+ description c
  +:+ ", " +:+ stylePrompt c
  +:+ ", full body character sheet, full body reference, multiple angles, detailed facial features, high detail, professional character design --v 6 --style raw".

(** The callback of [scene.characters.map] in [buildScenePrompt]. *)
Definition characterDetail (script : AnimeScript) (charName : string) : string :=
  match find (fun c => String.eqb (name c) charName) (characters script) with
  | Some char =>
      name char +:+ " (" +:+ description char +:+ ", " +:+ stylePrompt char +:+ ")"
  | None => charName
  end.

(** The callback of [scene.characters.forEach] in [buildScenePrompt]. *)
Definition addReference (characterRefs : gmap string string)
    (finalPrompt : string) (charName : string) (index : nat) : string :=
  match characterRefs !! charName with
  | Some charRef =>
      if truthy charRef then
        finalPrompt +:+ " --cref " +:+ charRef
        +:+ (if Nat.eqb index 0 then " --cw 1" else "")
      else finalPrompt
  | None => finalPrompt
  end.

(** The constant [prompt] of [buildScenePrompt]. *)
Definition basePrompt (sc : Scene) (script : AnimeScript) : string :=
  let characterDetails :=
    join " and " (map (characterDetail script) (scene_characters sc)) in
  join ", "
    (filter_Boolean
       [ Some "masterpiece, best quality";
         Some characterDetails;
         Some (action sc);
         Some ("in " +:+ setting sc);
         Some (mood sc);
         cameraAngle sc;
         Some (artStyle script);
         Some "detailed lighting, perfect composition";
         Some "--ar 16:9 --v 6 --style raw" ]).

(** [this.characterRefs] is the third argument. *)
Definition buildScenePrompt (sc : Scene) (script : AnimeScript)
    (characterRefs : gmap string string) : string :=
  let prompt := basePrompt sc script in
  forEach (addReference characterRefs) (scene_characters sc) prompt.

Section WithEnv.
Variable env : Env.

Definition createDirectoryStructure : M unit :=
  let dirs :=
    [ baseOutputDir;
      path_join env [baseOutputDir; "characters"];
      path_join env [baseOutputDir; "characters/variations"];
      path_join env [baseOutputDir; "scenes"];
      path_join env [baseOutputDir; "scenes/variations"] ] in
  (fix loop (ds : list string) : M unit :=
     match ds with
     | [] => ret tt
     | dir :: ds' => mkdir env dir ;; loop ds'
     end) dirs.

Definition downloadImage (imageUrl outputPath : string) : M unit :=
  try_catch
    (response <- http_get env imageUrl ;;
     writeFile env outputPath (CBuffer response) ;;
     console_log ("Image saved successfully to: " +:+ outputPath))
    (fun error =>
       console_error ("Error downloading image from " +:+ imageUrl +:+ ":")).

(** The loop [for (let i = 0; i < imagine.options.length; i++)]. *)
Fixpoint saveVariations (variationsDir : string) (i : nat)
    (opts : list Variation) : M unit :=
  match opts with
  | [] => ret tt
  | variation :: opts' =>
      downloadImage (var_uri variation)
        (path_join env
           [variationsDir; "variation_" +:+ pretty (i + 1)%nat +:+ ".png"]) ;;
      saveVariations variationsDir (S i) opts'
  end.

Definition generateAndSelectVariation (prompt outputName : string)
    (type : GenType) : M (option MJResponse) :=
  try_catch
    (console_log
       ("Generating " +:+ type_name type +:+ " with prompt: " +:+ prompt) ;;
     imagine <- Imagine env prompt ;;
     match imagine with
     | Some (Build_MJResponse _ _ _ _ (Some (selected :: rest)) as imagine) =>
         let opts := selected :: rest in
         let variationsDir :=
           path_join env
             [ baseOutputDir;
               match type with
               | character => "characters/variations"
               | scene => "scenes/variations"
               end;
               outputName ] in
         mkdir env variationsDir ;;
         saveVariations variationsDir 0 opts ;;
         let selectedVariation := selected in
         let mainPath :=
           path_join env
             [ baseOutputDir;
               match type with
               | character => "characters"
               | scene => "scenes"
               end;
               outputName +:+ ".png" ] in
         downloadImage (var_uri selectedVariation) mainPath ;;
         let metadataPath :=
           path_join env
             [ baseOutputDir;
               match type with
               | character => "characters"
               | scene => "scenes"
               end;
               outputName +:+ "_metadata.json" ] in
         ts <- now env ;;
         let metadata :=
           {| md_prompt := prompt;
              imagineId := id imagine;
              selectedVariation := var_id selectedVariation;
              allVariations := map (fun opt => (var_id opt, var_uri opt)) opts;
              localPath := mainPath;
              timestamp := ts |} in
         writeFile env metadataPath (CMetadata metadata) ;;
         ret (Some {| id := id imagine;
                      hash := hash imagine;
                      flags := flags imagine;
                      uri := Some (var_uri selectedVariation);
                      options := options imagine |})
     | _ =>
         console_error ("Failed to generate variations for " +:+ outputName) ;;
         ret None
     end)
    (fun error =>
       console_error ("Error generating " +:+ outputName +:+ ":") ;;
       ret None).

(** [response?.uri] as a condition. *)
Definition response_uri (response : option MJResponse) : option string :=
  match response with
  | Some r =>
      match uri r with
      | Some u => if truthy u then Some u else None
      | None => None
      end
  | None => None
  end.

(** The body of the loop of [generateCharacterReferences]. *)
Definition generateCharacterReference (c : Character)
    (characterRefs : gmap string string) : M (gmap string string) :=
  let prompt := buildCharacterPrompt c in
  response <- generateAndSelectVariation prompt
                ("character_" +:+ toLowerCase env (name c)) character ;;
  characterRefs' <-
    match response_uri response with
    | Some u =>
        console_log ("Generated reference for " +:+ name c +:+ ": " +:+ u) ;;
        ret (<[name c := u]> characterRefs)
    | None => ret characterRefs
    end ;;
  delay 2000 ;;
  ret characterRefs'.

Definition generateCharacterReferences (script : AnimeScript)
    (characterRefs : gmap string string) : M (gmap string string) :=
  console_log "Generating character references..." ;;
  for_of generateCharacterReference (characters script) characterRefs.

(** The body of the loop of [generateScenes]. *)
Definition generateSceneImage (script : AnimeScript) (sc : Scene)
    (characterRefs : gmap string string) : M (gmap string string) :=
  let prompt := buildScenePrompt sc script characterRefs in
  generateAndSelectVariation prompt
    ("scene_" +:+ padStart 3 "0" (pretty (sceneNumber sc))) scene ;;
  delay 2000 ;;
  ret characterRefs.

Definition generateScenes (script : AnimeScript)
    (characterRefs : gmap string string) : M (gmap string string) :=
  console_log "Generating scenes..." ;;
  for_of (generateSceneImage script) (scenes script) characterRefs.

(** [generate], from the [characterRefs] of the instance it is called
    on; it returns the map the instance is left with. The value parsed
    from the file is used as a script without a check: when it is JSON
    of another shape, [script.characters] is [undefined] and the loop of
    [generateCharacterReferences] raises after its log. *)
Definition generate (scriptPath : string)
    (characterRefs : gmap string string) : M (gmap string string) :=
  try_catch
    (script <- readJSON scriptPath ;;
     createDirectoryStructure ;;
     Connect env ;;
     match script with
     | CScript script =>
         characterRefs' <- generateCharacterReferences script characterRefs ;;
         generateScenes script characterRefs' ;;
         Close ;;
         ret characterRefs'
     | _ =>
         console_log "Generating character references..." ;;
         throw "TypeError: script.characters is not iterable"
     end)
    (fun error =>
       console_error "Error in generate:" ;;
       Close ;;
       ret characterRefs).
End WithEnv.

(** The constant [scriptExample]. *)
Definition scriptExample : AnimeScript :=
  {| title := "Whispers of the Heart: A High School Romance";
     style := "anime";
     artStyle :=
       "soft anime art style, blend of Studio Ghibli and Makoto Shinkai, warm and dreamy lighting";
     characters :=
     [
       {| name := "Rin";
          description :=
            "16-year-old female protagonist with short, wavy auburn hair and expressive green eyes";
          stylePrompt :=
            "wearing a classic school uniform, often seen with a notebook, curious yet shy expression, gentle demeanor" |};
       {| name := "Kaito";
          description :=
            "17-year-old male deuteragonist with tousled black hair and intense blue eyes";
          stylePrompt :=
            "wearing casual school attire with a hint of rebellion, aloof expression, carries a mysterious notebook" |};
       {| name := "Hana";
          description :=
            "Rin's cheerful best friend with long brown hair and hazel eyes";
          stylePrompt :=
            "always dressed in vibrant colors, wears a hairpin, playful expression, lively demeanor" |};
       {| name := "Sora";
          description :=
            "18-year-old senior and student council president with neat black hair and serious demeanor";
          stylePrompt :=
            "wearing a formal school uniform with a badge, glasses, calm and composed expression" |} ];
     scenes :=
     [
       {| sceneNumber := 1;
          scene_description :=
            "Rin stumbles upon Kaito in the library after school";
          scene_characters := ["Rin"; "Kaito"];
          setting :=
            "quiet school library at dusk";
          mood := "curious and slightly mysterious";
          cameraAngle :=
            Some "close-up of Rin’s surprised expression";
          action :=
            "Rin accidentally drops a book, drawing Kaito's attention as he looks up, their eyes meeting briefly" |};
       {| sceneNumber := 2;
          scene_description :=
            "Kaito catches Rin on the school rooftop, gazing at the sunset";
          scene_characters := ["Rin"; "Kaito"];
          setting :=
            "school rooftop at sunset";
          mood := "serene and introspective";
          cameraAngle :=
            Some "wide shot capturing the view and Rin’s silhouette";
          action :=
            "Kaito quietly approaches Rin and comments on the sunset, sparking a casual conversation" |};
       {| sceneNumber := 3;
          scene_description :=
            "Hana teases Rin about her mysterious ‘new friend’";
          scene_characters := ["Rin"; "Hana"];
          setting :=
            "school courtyard during lunch break";
          mood := "playful and lighthearted";
          cameraAngle :=
            Some "close-up of Hana’s teasing grin as Rin blushes";
          action :=
            "Hana nudges Rin, making her realize she’s been thinking about Kaito more than she realized" |};
       {| sceneNumber := 4;
          scene_description :=
            "Sora introduces himself to Kaito, curious about his recent activities";
          scene_characters := ["Kaito"; "Sora"];
          setting :=
            "school hallway, near the student council room";
          mood := "tense and formal";
          cameraAngle :=
            Some "medium shot showing Sora’s composed demeanor and Kaito’s guarded expression";
          action :=
            "Sora subtly warns Kaito to be mindful of his actions, hinting he’s noticed something" |};
       {| sceneNumber := 5;
          scene_description :=
            "Rin finds a hidden note in her locker";
          scene_characters := ["Rin"];
          setting :=
            "school hallway, near Rin’s locker";
          mood := "intriguing and suspenseful";
          cameraAngle :=
            Some "close-up of Rin’s hand holding the note";
          action :=
            "Rin unfolds the note, which reads: ‘Meet me by the garden after school,’ signed with a mysterious symbol" |};
       {| sceneNumber := 6;
          scene_description :=
            "Rin and Kaito meet in the hidden garden for the first time";
          scene_characters := ["Rin"; "Kaito"];
          setting :=
            "a hidden rooftop garden, filled with flowers and dappled sunlight";
          mood := "magical and enchanting";
          cameraAngle :=
            Some "wide shot showing the garden in full bloom";
          action :=
            "Kaito leads Rin through the doorway, revealing a beautiful hidden space, leaving her in awe" |};
       {| sceneNumber := 7;
          scene_description :=
            "Hana questions Rin about her secret disappearances";
          scene_characters := ["Rin"; "Hana"];
          setting :=
            "school cafeteria, busy with students";
          mood := "curious and probing";
          cameraAngle :=
            Some "medium shot of Hana leaning forward with an intrigued expression";
          action :=
            "Hana presses Rin to reveal her secret, but Rin laughs it off, keeping her promise to Kaito" |};
       {| sceneNumber := 8;
          scene_description :=
            "Sora confronts Kaito in the hidden garden";
          scene_characters := ["Kaito"; "Sora"];
          setting :=
            "hidden rooftop garden in the evening";
          mood := "tense and confrontational";
          cameraAngle :=
            Some "low angle showing Sora’s stern expression as he confronts Kaito";
          action :=
            "Sora warns Kaito that he's breaking the rules by bringing someone else here, but Kaito stands his ground" |};
       {| sceneNumber := 9;
          scene_description :=
            "Rin overhears a rumor about Kaito";
          scene_characters := ["Rin"];
          setting :=
            "school hallway, filled with students chatting";
          mood := "surprised and conflicted";
          cameraAngle :=
            Some "close-up of Rin’s face showing mixed emotions";
          action :=
            "Rin overhears classmates gossiping about Kaito’s ‘dark past,’ making her question their friendship" |};
       {| sceneNumber := 10;
          scene_description :=
            "Kaito reassures Rin in the hidden garden";
          scene_characters := ["Rin"; "Kaito"];
          setting :=
            "hidden rooftop garden at dusk, with a soft glow in the air";
          mood := "gentle and reassuring";
          cameraAngle :=
            Some "close-up of Kaito’s hand reaching out to Rin’s";
          action :=
            "Kaito confides in Rin, sharing his past and reassuring her of his intentions" |};
       {| sceneNumber := 11;
          scene_description :=
            "Rin and Kaito share a heartfelt moment under the stars";
          scene_characters := ["Rin"; "Kaito"];
          setting :=
            "rooftop garden at night, with stars visible above";
          mood := "romantic and intimate";
          cameraAngle :=
            Some "wide shot showing both of them gazing at the stars";
          action :=
            "Kaito points out constellations, and they share a quiet, intimate moment" |};
       {| sceneNumber := 12;
          scene_description :=
            "Sora warns Rin to stay away from Kaito";
          scene_characters := ["Rin"; "Sora"];
          setting :=
            "empty classroom after school";
          mood := "tense and serious";
          cameraAngle :=
            Some "medium shot of Sora’s serious expression";
          action :=
            "Sora advises Rin to keep her distance from Kaito, hinting at potential danger" |};
       {| sceneNumber := 13;
          scene_description :=
            "Hana discovers the hidden garden and confronts Rin";
          scene_characters := ["Rin"; "Hana"];
          setting :=
            "hidden rooftop garden, lush and peaceful";
          mood := "confrontational but caring";
          cameraAngle :=
            Some "close-up of Hana’s hurt expression";
          action :=
            "Hana feels betrayed for being kept out of the secret, but Rin reassures her" |};
       {| sceneNumber := 14;
          scene_description :=
            "Kaito defends Rin from a group of classmates";
          scene_characters := ["Kaito"; "Rin"];
          setting :=
            "school courtyard, crowded with students";
          mood := "tense and protective";
          cameraAngle :=
            Some "wide shot showing Kaito standing between Rin and the group";
          action :=
            "Kaito steps in to protect Rin from classmates’ harsh words, showing his loyalty" |};
       {| sceneNumber := 15;
          scene_description :=
            "Sora and Kaito come to an understanding";
          scene_characters := ["Kaito"; "Sora"];
          setting :=
            "hidden rooftop garden at dusk";
          mood := "respectful and conciliatory";
          cameraAngle :=
            Some "close-up of both characters shaking hands";
          action :=
            "After a heartfelt talk, Sora acknowledges Kaito’s feelings for Rin and steps back" |};
       {| sceneNumber := 16;
          scene_description :=
            "Rin and Kaito share a fun day at the school festival";
          scene_characters := ["Rin"; "Kaito"; "Hana"; "Sora"];
          setting :=
            "school festival, lively and bustling with activity";
          mood := "joyful and carefree";
          cameraAngle :=
            Some "wide shot capturing the festival atmosphere";
          action :=
            "The group enjoys games and food stalls, strengthening their bond" |};
       {| sceneNumber := 17;
          scene_description :=
            "Rin realizes her feelings for Kaito";
          scene_characters := ["Rin"];
          setting :=
            "her bedroom, with a view of the moon from the window";
          mood := "reflective and romantic";
          cameraAngle :=
            Some "close-up of Rin’s expression as she gazes at the moon";
          action :=
            "Rin reflects on her memories with Kaito and finally understands her feelings" |};
       {| sceneNumber := 18;
          scene_description :=
            "Kaito leaves a final note in Rin’s locker";
          scene_characters := ["Rin"; "Kaito"];
          setting :=
            "school hallway, with Rin standing by her locker";
          mood := "mysterious and anticipatory";
          cameraAngle :=
            Some "close-up of Rin’s hand opening the note";
          action :=
            "The note reads: ‘Meet me at the garden, one last time.’" |};
       {| sceneNumber := 19;
          scene_description :=
            "Rin and Kaito confess their feelings";
          scene_characters := ["Rin"; "Kaito"];
          setting :=
            "hidden rooftop garden at night, under a sky full of stars";
          mood := "romantic and tender";
          cameraAngle :=
            Some "close-up of both characters holding hands";
          action :=
            "Rin and Kaito share their feelings, sealing their bond under the stars" |};
       {| sceneNumber := 20;
          scene_description :=
            "The four friends gather in the hidden garden, promising to keep it a secret";
          scene_characters := ["Rin"; "Kaito"; "Hana"; "Sora"];
          setting :=
            "hidden rooftop garden in the morning light";
          mood := "warm and hopeful";
          cameraAngle :=
            Some "wide shot capturing all four friends in the garden, smiling";
          action :=
            "They promise to keep the garden their special place, preserving the magic of their friendship" |} ] |}.

Section Main.
Variable env : Env.

(** [saveExampleScript], for any script in place of [scriptExample]. *)
Definition saveExampleScript_of (script : AnimeScript) : M unit :=
  writeFile env "./anime_script.json" (CScript script).

(** [main], for any script in place of [scriptExample]; the generator
    is new, its [characterRefs] is the empty map. *)
Definition main_of (script : AnimeScript) : M (gmap string string) :=
  saveExampleScript_of script ;;
  generate env "./anime_script.json" ∅.

Definition saveExampleScript : M unit := saveExampleScript_of scriptExample.

Definition main : M (gmap string string) := main_of scriptExample.
End Main.

End ExampleScript.

(** ** [example/anime.ts], the first generator *)

Module AnimeV1.

Definition outputDir : string := "./anime_output".

Definition buildCharacterPrompt (c : Character) : string :=
  description c +:+ ", " +:+ stylePrompt c
  +:+ ", full body character reference sheet, character design, high detail --v 6 --style raw".

Definition characterPrompt (script : AnimeScript) (charName : string) : string :=
  match find (fun c => String.eqb (name c) charName) (characters script) with
  | Some char => name char +:+ " " +:+ description char
  | None => charName
  end.

(** The prompt before the references are added. *)
Definition basePrompt (sc : Scene) (script : AnimeScript) : string :=
  let characterPrompts :=
    join ", " (map (characterPrompt script) (scene_characters sc)) in
  action sc +:+ ", " +:+ setting sc +:+ ", " +:+ mood sc +:+ ", "
  +:+ characterPrompts +:+ ", " +:+ or_empty (cameraAngle sc) +:+ ", "
  +:+ artStyle script
  +:+ ", highly detailed, professional lighting --ar 16:9 --v 6 --style raw".

Section WithEnv.
Variable env : Env.

(** [fs] is the module [fs/promises] here, which has no [existsSync]:
    [fs.existsSync] is [undefined], and the call raises before the file
    system is asked anything. *)
Definition fs_existsSync (path : string) : M bool :=
  throw "TypeError: fs.existsSync is not a function".

Definition buildScenePrompt (sc : Scene) (script : AnimeScript)
    (characterRefs : list string) : M string :=
  let prompt := basePrompt sc script in
  let prompt :=
    forEach (fun prompt ref index => prompt +:+ " --cref " +:+ ref)
      characterRefs prompt in
  if (1 <? sceneNumber sc)%Z then
    let firstSceneRef := path_join env [outputDir; "scene_001.png"] in
    found <- fs_existsSync firstSceneRef ;;
    if found : bool then ret (prompt +:+ " --sref " +:+ firstSceneRef)
    else ret prompt
  else ret prompt.
End WithEnv.

(** The pipeline of the first generator. *)

(** [characterRefs.get(charName)] for every name of the scene, the
    [undefined] ones filtered out. *)
Definition relevantRefs (sc : Scene) (characterRefs : gmap string string)
    : list string :=
  omap (fun charName => characterRefs !! charName) (scene_characters sc).

Section Pipeline.
Variable env : Env.

Definition createOutputDirectory : M unit :=
  try_catch (mkdir env outputDir)
    (fun error => console_error "Error creating output directory:").

Definition generateImage (prompt outputPath : string) : M (option string) :=
  try_catch
    (imagine <- Imagine env prompt ;;
     match imagine with
     | None =>
         console_error "Failed to generate image" ;;
         ret None
     | Some imagine =>
         upscale <- Upscale env 1 (id imagine) (hash imagine) (flags imagine) ;;
         ts <- now env ;;
         let metadata :=
           {| im_prompt := prompt;
              im_imagineId := id imagine;
              upscaleId :=
                match upscale with
                | Some upscale => id upscale
                | None => None
                end;
              im_timestamp := ts |} in
         writeFile env (outputPath +:+ ".json") (CImageMetadata metadata) ;;
         console_log ("Generated image saved: " +:+ outputPath) ;;
         ret (Some (outputPath +:+ ".png"))
     end)
    (fun error =>
       console_error "Error generating image:" ;;
       ret None).

(** The body of the loop of [generateCharacterReferences]. *)
Definition generateCharacterReference (c : Character)
    (characterRefs : gmap string string) : M (gmap string string) :=
  let prompt := buildCharacterPrompt c in
  let outputPath := outputDir +:+ "/character_" +:+ toLowerCase env (name c) in
  imagePath <- generateImage prompt outputPath ;;
  match imagePath with
  | Some imagePath =>
      if truthy imagePath then ret (<[name c := imagePath]> characterRefs)
      else ret characterRefs
  | None => ret characterRefs
  end.

Definition generateCharacterReferences (script : AnimeScript)
    : M (gmap string string) :=
  for_of generateCharacterReference (characters script) ∅.

(** The body of the loop of [generateScenes]. *)
Definition generateSceneImage (script : AnimeScript)
    (characterRefs : gmap string string) (sc : Scene) (_ : unit) : M unit :=
  prompt <- buildScenePrompt env sc script (relevantRefs sc characterRefs) ;;
  let outputPath :=
    outputDir +:+ "/scene_" +:+ padStart 3 "0" (pretty (sceneNumber sc)) in
  generateImage prompt outputPath ;;
  delay 2000.

Definition generateScenes (script : AnimeScript)
    (characterRefs : gmap string string) : M unit :=
  for_of (generateSceneImage script characterRefs) (scenes script) tt.

(** As in [exampleScript.ts], the value parsed from the file is used
    without a check: when it is JSON of another shape the loop of
    [generateCharacterReferences] raises. *)
Definition generate (scriptPath : string) : M unit :=
  try_catch
    (script <- readJSON scriptPath ;;
     createOutputDirectory ;;
     Connect env ;;
     console_log "Generating character references..." ;;
     match script with
     | CScript script =>
         characterRefs <- generateCharacterReferences script ;;
         console_log "Generating scenes..." ;;
         generateScenes script characterRefs ;;
         Close
     | _ => throw "TypeError: script.characters is not iterable"
     end)
    (fun error =>
       console_error "Error in generate:" ;;
       Close).
End Pipeline.

End AnimeV1.

(** ** [example/anime.ts], the storyboard program with its progress ledger *)

Module Storyboard.

(** A template literal over [charRefs]: text and [${charRefs.<name>}]. *)
Inductive Piece :=
| Lit (text : string)
| Ref (charName : string).

Record StoryCharacter := {
  name : string;
  description : string;
  prompt : string;
}.

Record StoryScene := {
  scene_title : string;
  scene_prompt : list Piece;
}.

Record Story := {
  title : string;
  artStyle : string;
  mainCharacters : list StoryCharacter;
  scenes : list StoryScene;
}.

(** A property that is not set reads as [undefined], which a template
    literal prints as the text [undefined]. *)
Definition interpolate (charRefs : gmap string string) (p : Piece) : string :=
  match p with
  | Lit text => text
  | Ref charName =>
      match charRefs !! charName with
      | Some handle => handle
      | None => "undefined"
      end
  end.

Fixpoint render (charRefs : gmap string string) (t : list Piece) : string :=
  match t with
  | [] => ""
  | p :: t' => interpolate charRefs p +:+ render charRefs t'
  end.

Definition story : Story :=
  {| title := "Seasons of the Heart";
     artStyle :=
       "Generate a photo-realistic image with ultra-high detail and cinematic lighting, capturing lifelike skin textures, natural expressions, and realistic shadows. Aim for a sharp, DSLR-quality look that emphasizes authentic human features and rich color tones.";
     mainCharacters :=
     [
       {| name := "Zoey";
          description :=
            "A beautiful woman in her early thirties with tired eyes and worry lines. Professional attire suggesting her career as an interior designer. Exhausted but determined expression.";
          prompt :=
            "Beautiful woman in early thirties, tired eyes, professional attire, exhausted but determined expression, interior designer appearance --style raw --ar 1:1 --v 6" |};
       {| name := "Blaine";
          description :=
            "A handsome surgeon in his mid-thirties wearing professional medical attire. Charismatic appearance with subtle signs of emotional pain. Wealthy and sophisticated demeanor.";
          prompt :=
            "Handsome male surgeon in mid-thirties, sophisticated appearance, professional medical attire, charismatic yet melancholic expression --style raw --ar 1:1 --v 6" |};
       {| name := "Max";
          description :=
            "A brave four-year-old boy with pale skin due to illness. Bright eyes full of hope despite medical equipment around him. Gentle smile and thinning hair.";
          prompt :=
            "Four-year-old boy with pale skin, bright hopeful eyes, gentle smile, thinning hair, medical patient appearance --style raw --ar 1:1 --v 6" |};
       {| name := "Sophia";
          description :=
            "A beautiful woman in her early thirties from a wealthy background. Initially kind appearance masking growing inner conflict. Sophisticated and well-dressed.";
          prompt :=
            "Beautiful sophisticated woman in early thirties, wealthy appearance, kind face with hint of inner conflict, designer clothing --style raw --ar 1:1 --v 6" |};
       {| name := "Mother";
          description :=
            "A kind and worried woman in her late fifties. Gentle features with concern etched on her face. Casual but elegant attire.";
          prompt :=
            "Kind worried woman in late fifties, gentle features, concerned expression, casual elegant clothing --style raw --ar 1:1 --v 6" |} ];
     scenes :=
     [
       {| scene_title := "The Passionate Reunion";
          scene_prompt :=
            [ Lit "Intimate hospital room setting, Zoey (wearing professional attire, vulnerable expression) turning away from Blaine (in doctor's coat, intense gaze). Tension-filled atmosphere with medical equipment in background, dramatic shadows emphasizing their emotional connection, warm lighting highlighting their faces. Close physical proximity suggesting unresolved feelings --cref ";
              Ref "Zoey";
              Lit " ";
              Ref "Blaine";
              Lit " --ar 1:1 --v 6" ] |};
       {| scene_title := "The Necklace Confrontation";
          scene_prompt :=
            [ Lit "Night scene at Blaine's doorstep, Zoey (distressed, desperate expression) facing Blaine (conflicted, holding a meaningful necklace). Dramatic porch lighting casting shadows on their faces, urban background with city lights, emphasis on the emotional tension between them --cref ";
              Ref "Zoey";
              Lit " ";
              Ref "Blaine";
              Lit " --ar 1:1 --v 6" ] |};
       {| scene_title := "Sofia's Discovery";
          scene_prompt :=
            [ Lit "Elegant living room, Sofia (wearing the contested necklace, defiant expression) confronting Blaine (tense, angry stance). Rich interior decor reflecting wealth, dramatic lighting emphasizing the conflict, focus on the necklace around Sofia's neck --cref ";
              Ref "Sophia";
              Lit " ";
              Ref "Blaine";
              Lit " --ar 1:1 --v 6" ] |};
       {| scene_title := "The Secret Escape";
          scene_prompt :=
            [ Lit "Hospital corridor at night, Blaine (in doctor's coat, gentle expression) crouching down to Max's level (pale but excited young patient in hospital gown). Warm lighting from overhead, medical equipment in background, intimate moment between them as they plan their adventure --cref ";
              Ref "Blaine";
              Lit " ";
              Ref "Max";
              Lit " --ar 1:1 --v 6" ] |};
       {| scene_title := "The Pet Store Mission";
          scene_prompt :=
            [ Lit "Colorful pet store interior, Blaine (caring expression, casual clothes) helping Max (excited despite illness, wearing comfortable clothes) choose a pet. Vibrant display of animal cages and supplies, warm lighting emphasizing their bonding moment --cref ";
              Ref "Blaine";
              Lit " ";
              Ref "Max";
              Lit " --ar 1:1 --v 6" ] |};
       {| scene_title := "Mother's Comfort";
          scene_prompt :=
            [ Lit "Hospital waiting area, Zoey (exhausted, emotional) being comforted by her mother (concerned, supportive stance). Soft ambient lighting, medical facility backdrop, focus on their emotional interaction as they discuss Max's treatment --cref ";
              Ref "Zoey";
              Lit " ";
              Ref "Mother";
              Lit " --ar 1:1 --v 6" ] |};
       {| scene_title := "The Shocking Discovery";
          scene_prompt :=
            [ Lit "Hospital hallway intersection, Zoey (frozen in shock) witnessing Blaine (protective stance) with Max (happy despite illness). Medical equipment and signage visible, dramatic lighting highlighting Zoey's realization, multiple perspective view capturing all three characters' expressions --cref ";
              Ref "Zoey";
              Lit " ";
              Ref "Blaine";
              Lit " ";
              Ref "Max";
              Lit " --ar 1:1 --v 6" ] |} ] |}.

(** [Array.prototype.includes] *)
Definition includes (l : list string) (x : string) : bool :=
  existsb (String.eqb x) l.

(** [Object.assign(target, source)] *)
Definition Object_assign (target source : gmap string string) : gmap string string :=
  source ∪ target.

(** The three variables the loops of [main] update. *)
Record State := {
  progress : ProgressState;
  characterRefs : gmap string string;
  characterFiles : gmap string string;
}.

Definition push_character (p : ProgressState) (x : string) : ProgressState :=
  {| completedCharacters := completedCharacters p ++ [x];
     completedScenes := completedScenes p |}.

Definition push_scene (p : ProgressState) (x : string) : ProgressState :=
  {| completedCharacters := completedCharacters p;
     completedScenes := completedScenes p ++ [x] |}.

Section WithEnv.
Variable env : Env.

Definition progress_json : string := path_join env ["output"; "progress.json"].

Definition character_references_json : string :=
  path_join env ["output"; "character_references.json"].

(** [loadProgress] returns what [JSON.parse] gives without a check:
    [None] stands for a value that is no ledger, whose
    [completedCharacters] and [completedScenes] are [undefined]. *)
Definition loadProgress : M (option ProgressState) :=
  try_catch
    (data <- readJSON progress_json ;;
     ret match data with
         | CProgress p => Some p
         | _ => None
         end)
    (fun error =>
       ret (Some {| completedCharacters := []; completedScenes := [] |})).

Definition saveProgress (p : ProgressState) : M unit :=
  writeFile env progress_json (CProgress p).

Definition ensureDirectories : M unit :=
  mkdir env "output/character_images" ;;
  mkdir env "output/scene_images".

Definition downloadImage (url filepath : string) : M unit :=
  buffer <- http_get env url ;;
  writeFile env filepath (CBuffer buffer) ;;
  console_log ("Downloaded image to " +:+ filepath).

(** [upscaled?.uri] as a condition. *)
Definition upscaled_uri (upscaled : option MJResponse) : option string :=
  match upscaled with
  | Some r =>
      match uri r with
      | Some u => if truthy u then Some u else None
      | None => None
      end
  | None => None
  end.

Definition generateCharacter (c : StoryCharacter) : M (string * string) :=
  console_log ("Generating character: " +:+ name c) ;;
  result <- Imagine env (prompt c) ;;
  match result with
  | None => throw ("Failed to generate character " +:+ name c)
  | Some result =>
      upscaled <- Upscale env 1 (id result) (hash result) (flags result) ;;
      match upscaled_uri upscaled with
      | None => throw ("Failed to upscale character " +:+ name c)
      | Some u =>
          let filepath :=
            path_join env ["output/character_images"; name c +:+ ".png"] in
          downloadImage u filepath ;;
          ret (u, filepath)
      end
  end.

Definition generateScene (sc : StoryScene)
    (characterRefs : gmap string string) : M string :=
  console_log ("Generating scene: " +:+ scene_title sc) ;;
  let prompt := render characterRefs (scene_prompt sc) in
  console_log ("Scene prompt: " +:+ prompt) ;;
  result <- Imagine env prompt ;;
  match result with
  | None => throw ("Failed to generate scene " +:+ scene_title sc)
  | Some result =>
      upscaled <- Upscale env 1 (id result) (hash result) (flags result) ;;
      match upscaled_uri upscaled with
      | None => throw ("Failed to upscale scene " +:+ scene_title sc)
      | Some u =>
          let filepath :=
            path_join env ["output/scene_images"; scene_title sc +:+ ".png"] in
          downloadImage u filepath ;;
          ret filepath
      end
  end.

(** [existingRefs.uris] and [existingRefs.files] as sources of
    [Object.assign]: a value of another shape has neither, and
    [Object.assign] copies nothing from [undefined]. *)
Definition existing_uris (existingRefs : FileContent) : gmap string string :=
  match existingRefs with
  | CReferences r => uris r
  | _ => ∅
  end.

Definition existing_files (existingRefs : FileContent) : gmap string string :=
  match existingRefs with
  | CReferences r => files r
  | _ => ∅
  end.

(** The body of the loop over [story.mainCharacters]. *)
Definition character_iteration (c : StoryCharacter) (st : State) : M State :=
  if negb (includes (completedCharacters (progress st)) (name c)) then
    result <- generateCharacter c ;;
    let characterRefs' := <[name c := fst result]> (characterRefs st) in
    let characterFiles' := <[name c := snd result]> (characterFiles st) in
    let progress' := push_character (progress st) (name c) in
    saveProgress progress' ;;
    console_log ("Generated " +:+ name c +:+ ":") ;;
    delay 5000 ;;
    ret {| progress := progress';
           characterRefs := characterRefs';
           characterFiles := characterFiles' |}
  else
    console_log ("Skipping already generated character: " +:+ name c) ;;
    ret st.


(** The body of the loop over [story.scenes]. *)
Definition scene_iteration (sc : StoryScene) (st : State) : M State :=
  if negb (includes (completedScenes (progress st)) (scene_title sc)) then
    filepath <- generateScene sc (characterRefs st) ;;
    let progress' := push_scene (progress st) (scene_title sc) in
    saveProgress progress' ;;
    console_log
      ("Generated scene " +:+ scene_title sc +:+ " at " +:+ filepath) ;;
    delay 5000 ;;
    ret {| progress := progress';
           characterRefs := characterRefs st;
           characterFiles := characterFiles st |}
  else
    console_log ("Skipping already generated scene: " +:+ scene_title sc) ;;
    ret st.


(** "Load existing character references if available". *)
Definition loadReferences (p : ProgressState) : M State :=
  try_catch
    (existingRefs <- readJSON character_references_json ;;
     ret {| progress := p;
            characterRefs := Object_assign ∅ (existing_uris existingRefs);
            characterFiles := Object_assign ∅ (existing_files existingRefs) |})
    (fun error =>
       console_log "No existing character references found, starting fresh" ;;
       ret {| progress := p; characterRefs := ∅; characterFiles := ∅ |}).

(** The [try] block of [main]. *)
Definition storyboard (st : Story) (p : ProgressState) : M unit :=
  s0 <- loadReferences p ;;
  s1 <- for_of character_iteration (mainCharacters st) s0 ;;
  s2 <- for_of scene_iteration (scenes st) s1 ;;
  writeFile env character_references_json
    (CReferences {| uris := characterRefs s2; files := characterFiles s2 |}).

(** The [try] block of [main] when [progress] is no ledger: the test
    [progress.completedCharacters.includes(...)], or
    [progress.completedScenes.includes(...)], raises at the first
    iteration of the first loop that has one. *)
Definition storyboard_untyped (st : Story) : M unit :=
  s0 <- loadReferences {| completedCharacters := []; completedScenes := [] |} ;;
  for_of
    (fun (_ : StoryCharacter) (_ : State) =>
       throw "TypeError: Cannot read properties of undefined (reading 'includes')")
    (mainCharacters st) s0 ;;
  for_of
    (fun (_ : StoryScene) (_ : State) =>
       throw "TypeError: Cannot read properties of undefined (reading 'includes')")
    (scenes st) s0 ;;
  writeFile env character_references_json
    (CReferences {| uris := characterRefs s0; files := characterFiles s0 |}).

(** [main], for any story in place of the constant [story]. *)
Definition main_of (st : Story) : M unit :=
  ensureDirectories ;;
  progress <- loadProgress ;;
  Connect env ;;
  try_finally
    (try_catch
       match progress with
       | Some p => storyboard st p
       | None => storyboard_untyped st
       end
       (fun error => console_error "Error generating storyboard:"))
    Close.

Definition main : M unit := main_of story.
End WithEnv.

End Storyboard.

(** ** Reading a trace *)

(** The prompts submitted to the backend, in order. *)
Definition imagine_prompts (evs : list Event) : list string :=
  flat_map (fun e => match e with EImagine p _ => [p] | _ => [] end) evs.

(** A backend submission is a call of [Imagine] or of [Upscale]. *)
Definition is_submission (e : Event) : bool :=
  match e with
  | EImagine _ _ | EUpscale _ _ _ _ _ => true
  | _ => false
  end.

Definition submissions (evs : list Event) : list Event :=
  List.filter is_submission evs.

(** The ledgers handed to [saveProgress], in order. *)
Definition ledger_writes (evs : list Event) : list ProgressState :=
  flat_map
    (fun e => match e with EWriteFile _ (CProgress p) _ => [p] | _ => [] end)
    evs.

(** A write of a metadata record or of the reference summary. *)
Definition is_record_write (e : Event) : bool :=
  match e with
  | EWriteFile _ (CMetadata _) _ | EWriteFile _ (CImageMetadata _) _
  | EWriteFile _ (CReferences _) _ => true
  | _ => false
  end.

(** An image written to disk. *)
Definition is_artifact_write (e : Event) : bool :=
  match e with
  | EWriteFile _ (CBuffer _) true => true
  | _ => false
  end.

(** Each ledger of the list is the one before it with one more entry. *)
Fixpoint ledger_chain (p : ProgressState) (l : list ProgressState) : Prop :=
  match l with
  | [] => True
  | q :: l' =>
      (exists x, q = Storyboard.push_character p x \/ q = Storyboard.push_scene p x)
      /\ ledger_chain q l'
  end.

(** ** Reference handles in [buildScenePrompt] of [exampleScript.ts] *)

(** The handle [buildScenePrompt] finds for a name: a non-empty entry of
    [characterRefs]. *)
Definition resolved (characterRefs : gmap string string) (charName : string)
    : option string :=
  match characterRefs !! charName with
  | Some charRef => if truthy charRef then Some charRef else None
  | None => None
  end.

Definition cref_directive (characterRefs : gmap string string)
    (charName : string) : string :=
  match resolved characterRefs charName with
  | Some charRef => " --cref " +:+ charRef
  | None => ""
  end.

Fixpoint cref_directives (characterRefs : gmap string string)
    (charNames : list string) : string :=
  match charNames with
  | [] => ""
  | charName :: rest =>
      cref_directive characterRefs charName +:+ cref_directives characterRefs rest
  end.

(** ** Sample collaborators and inputs *)

(** Node's [path.join] on a POSIX system: the non-empty arguments are
    joined by [/] and the result is normalised: empty segments and [.] are
    dropped, [..] takes back the segment before it. *)
Fixpoint split_slash (s : string) : list string :=
  match s with
  | EmptyString => [EmptyString]
  | String c s' =>
      if Ascii.eqb c "/" then EmptyString :: split_slash s'
      else
        match split_slash s' with
        | segment :: segments => String c segment :: segments
        | [] => [String c EmptyString]
        end
  end.

(** One step of [normalizeString]: [res] is kept in reverse. *)
Definition push_segment (allowAboveRoot : bool) (res : list string)
    (segment : string) : list string :=
  if String.eqb segment "" || String.eqb segment "." then res
  else if String.eqb segment ".." then
    match res with
    | last :: before => if String.eqb last ".." then segment :: res else before
    | [] => if allowAboveRoot then [segment] else []
    end
  else segment :: res.

Definition ends_with_slash (s : string) : bool :=
  match rev (list_ascii_of_string s) with
  | c :: _ => Ascii.eqb c "/"
  | [] => false
  end.

Definition posix_normalize (path : string) : string :=
  if String.eqb path "" then "."
  else
    let isAbsolute := String.prefix "/" path in
    let trailingSeparator := ends_with_slash path in
    let normalized :=
      String.concat "/"
        (rev (fold_left (push_segment (negb isAbsolute)) (split_slash path) [])) in
    if String.eqb normalized "" then
      if isAbsolute then "/" else if trailingSeparator then "./" else "."
    else
      (if isAbsolute then "/" else "") +:+ normalized
      +:+ (if trailingSeparator then "/" else "").

Definition posix_join (segments : list string) : string :=
  match List.filter (fun segment => negb (String.eqb segment "")) segments with
  | [] => "."
  | joined => posix_normalize (String.concat "/" joined)
  end.

Definition sample_variation (n : string) : Variation :=
  {| var_id := "variation-" +:+ n;
     var_hash := "hash-" +:+ n;
     var_uri := "https://cdn.example/" +:+ n +:+ ".png" |}.

Definition sample_response : MJResponse :=
  {| id := Some "message-1";
     hash := Some "hash-1";
     flags := Some 0%Z;
     uri := Some "https://cdn.example/grid.png";
     options :=
       Some [sample_variation "0"; sample_variation "1"; sample_variation "2"] |}.

Definition sample_upscaled : MJResponse :=
  {| id := Some "message-2";
     hash := Some "hash-2";
     flags := Some 0%Z;
     uri := Some "https://cdn.example/upscaled.png";
     options := None |}.

(** A backend that answers [imagine prompt], a network that is [online] or
    not, a disk on which exactly the paths accepted by [writable] can be
    written. The names of the sample inputs are ASCII text. *)
Definition sample_env (imagine : string -> Res (option MJResponse))
    (online : bool) (writable : string -> bool) : Env :=
  {| path_join := posix_join;
     toLowerCase := toLowerCase_ascii;
     toISOString := fun _ => "2024-01-01T00:00:00.000Z";
     Imagine_o := fun _ prompt => imagine prompt;
     Upscale_o := fun _ _ _ _ _ => Ok (Some sample_upscaled);
     Connect_o := fun _ => true;
     fetch_o := fun _ _ => if online then Some [Byte.x89; Byte.x50] else None;
     writeFile_o := fun _ path => writable path;
     mkdir_o := fun _ _ => true |}.

Definition always_succeeds : string -> Res (option MJResponse) :=
  fun _ => Ok (Some sample_response).

Definition always_null : string -> Res (option MJResponse) :=
  fun _ => Ok None.

Definition null_for (bad : string) : string -> Res (option MJResponse) :=
  fun prompt => if String.eqb prompt bad then Ok None else Ok (Some sample_response).

Definition any_path : string -> bool := fun _ => true.

Definition empty_world : World := {| clock := 0; fs := ∅ |}.

Definition Rin : Character :=
  {| name := "Rin";
     description :=
       "16-year-old female protagonist with short, wavy auburn hair and expressive green eyes";
     stylePrompt :=
       "wearing a classic school uniform, often seen with a notebook, curious yet shy expression, gentle demeanor" |}.

Definition Kaito : Character :=
  {| name := "Kaito";
     description :=
       "17-year-old male deuteragonist with tousled black hair and intense blue eyes";
     stylePrompt :=
       "wearing casual school attire with a hint of rebellion, aloof expression, carries a mysterious notebook" |}.

(** Scene 1 of [scriptExample], with an ASCII apostrophe. *)
Definition library_scene : Scene :=
  {| sceneNumber := 1;
     scene_description := "Rin stumbles upon Kaito in the library after school";
     scene_characters := ["Rin"; "Kaito"];
     setting := "quiet school library at dusk";
     mood := "curious and slightly mysterious";
     cameraAngle := Some "close-up of Rin's surprised expression";
     action :=
       "Rin accidentally drops a book, drawing Kaito's attention as he looks up, their eyes meeting briefly" |}.

(** A first scene without a camera angle that lists a name the script
    lacks. *)
Definition prologue_scene : Scene :=
  {| sceneNumber := 1;
     scene_description := "Rin walks to school";
     scene_characters := ["Rin"; "Ghost"];
     setting := "street lined with cherry trees";
     mood := "calm and bright";
     cameraAngle := None;
     action := "Rin walks to school" |}.

(** A later scene without a camera angle that lists a name the script
    lacks. *)
Definition rooftop_scene : Scene :=
  {| sceneNumber := 2;
     scene_description := "Kaito catches Rin on the school rooftop";
     scene_characters := ["Rin"; "Ghost"];
     setting := "school rooftop at sunset";
     mood := "serene and introspective";
     cameraAngle := None;
     action := "Kaito quietly approaches Rin" |}.

Definition sample_script : AnimeScript :=
  {| title := "Whispers of the Heart: A High School Romance";
     style := "anime";
     artStyle :=
       "soft anime art style, blend of Studio Ghibli and Makoto Shinkai, warm and dreamy lighting";
     characters := [Rin; Kaito];
     scenes := [library_scene; rooftop_scene] |}.

(** ** Vocabulary of the statements *)

(** What [buildScenePrompt] of [exampleScript.ts] adds after the base
    prompt. *)
Definition reference_directives (characterRefs : gmap string string)
    (charNames : list string) : string :=
  match charNames with
  | [] => ""
  | first :: rest =>
      match resolved characterRefs first with
      | Some charRef => " --cref " +:+ charRef +:+ " --cw 1"
      | None => ""
      end +:+ cref_directives characterRefs rest
  end.

(** The response [generateAndSelectVariation] can use: a result with a
    first variation. *)
Definition usable (res : Res (option MJResponse))
    : option (MJResponse * Variation * list Variation) :=
  match res with
  | Ok (Some r) =>
      match options r with
      | Some (v0 :: rest) => Some (r, v0, rest)
      | _ => None
      end
  | _ => None
  end.

(** The image at [url] was fetched and its bytes written to [path]. *)
Definition persisted (url path : string) (evs : list Event) : Prop :=
  exists b pre post,
    evs = pre ++ EFetch url (Some b) :: EWriteFile path (CBuffer b) true :: post.

(** The file at [path] gives [JSON.parse] nothing to return: it is missing,
    or it holds bytes that are no JSON text. *)
Definition no_json (w : World) (path : string) : Prop :=
  match fs w !! path with
  | None | Some (CBuffer _) => True
  | Some _ => False
  end.

(** The file at [path] holds JSON that is no script. *)
Definition other_json (w : World) (path : string) : Prop :=
  match fs w !! path with
  | None | Some (CBuffer _) | Some (CScript _) => False
  | Some _ => True
  end.

(** The ledger [main] starts from in a world: the one [progress.json]
    holds; the empty one when the file is missing or is no JSON text, which
    is what [loadProgress] returns then, and when the file holds a value
    that is no ledger, which has no entry for the loops to find. *)
Definition loaded_ledger (env : Env) (w : World) : ProgressState :=
  match fs w !! Storyboard.progress_json env with
  | Some (CProgress p) => p
  | _ => {| completedCharacters := []; completedScenes := [] |}
  end.

(** The handle the reference summary of a world has for a name, if the
    summary exists. *)
Definition loaded_handle (env : Env) (w : World) (charName : string)
    : option string :=
  match fs w !! Storyboard.character_references_json env with
  | Some (CReferences r) => uris r !! charName
  | _ => None
  end.

(** Every write of the ledger comes right after the download of the image of
    the item it adds. *)
Definition artifact_precedes_ledger (env : Env) (evs : list Event) : Prop :=
  forall pre path p ok post,
    evs = pre ++ EWriteFile path (CProgress p) ok :: post ->
    exists pre' u buf item ipath p0,
      pre = pre' ++ [ EFetch u (Some buf);
                      EWriteFile ipath (CBuffer buf) true;
                      ELog ("Downloaded image to " +:+ ipath) ]
      /\ ((p = Storyboard.push_character p0 item
           /\ ipath = path_join env ["output/character_images"; item +:+ ".png"])
          \/ (p = Storyboard.push_scene p0 item
              /\ ipath = path_join env ["output/scene_images"; item +:+ ".png"])).

(** Every image that is written is followed at once by the log of its
    download and by the save of the ledger in the file [ledger]. *)
Definition ledger_follows_artifact (ledger : string) (evs : list Event) : Prop :=
  forall pre ipath buf post,
    evs = pre ++ EWriteFile ipath (CBuffer buf) true :: post ->
    exists p ok post',
      post = ELog ("Downloaded image to " +:+ ipath)
             :: EWriteFile ledger (CProgress p) ok :: post'.

(** The only record written is the reference summary, after every write of
    the ledger. *)
Definition summary_after_ledger (env : Env) (evs : list Event) : Prop :=
  forall pre e post,
    evs = pre ++ e :: post -> is_record_write e = true ->
    ledger_writes post = []
    /\ exists r ok,
         e = EWriteFile (Storyboard.character_references_json env) (CReferences r) ok.

(** A network and a disk that do not fail. *)
Definition reliable_io (env : Env) : Prop :=
  (forall w url, fetch_o env w url <> None)
  /\ (forall w path, writeFile_o env w path = true)
  /\ (forall w dir, mkdir_o env w dir = true).

(** More sample inputs. *)

Definition one_character_story : Storyboard.Story :=
  {| Storyboard.title := "Seasons of the Heart";
     Storyboard.artStyle := "";
     Storyboard.mainCharacters := firstn 1 (Storyboard.mainCharacters Storyboard.story);
     Storyboard.scenes := [] |}.

Definition all_characters_done : ProgressState :=
  {| completedCharacters := ["Zoey"; "Blaine"; "Max"; "Sophia"; "Mother"];
     completedScenes := [] |}.

Definition all_done : ProgressState :=
  {| completedCharacters := ["Zoey"; "Blaine"; "Max"; "Sophia"; "Mother"];
     completedScenes :=
       map Storyboard.scene_title (Storyboard.scenes Storyboard.story) |}.

Definition world_with (files : list (string * FileContent)) : World :=
  {| clock := 0; fs := list_to_map files |}.

(** What [downloadImage] emits. *)
Definition is_download_event (e : Event) : bool :=
  match e with
  | EFetch _ _ | EWriteFile _ (CBuffer _) _ | ELog _ | EError _ => true
  | _ => false
  end.

(** A disk that accepts the metadata files and rejects every image. *)
Definition only_metadata : string -> bool :=
  fun path => includesb "_metadata.json" path.

(** [upscaled?.uri] for what [Upscale] gave. *)
Definition upscale_uri (up : Res (option MJResponse)) : option string :=
  match up with
  | Ok upscaled => Storyboard.upscaled_uri upscaled
  | Thrown _ => None
  end.

(** The events of [generateCharacter] and of [generateScene] after their
    logs, with the address of the upscaled image or the exception they end
    with: the backend gave no image, the upscale gave no address, the fetch
    failed, the write of the image failed, or the image was written. *)
Inductive generation_trace (prompt ipath : string)
    : Res string -> list Event -> Prop :=
| gt_no_image res err :
    (forall r, res <> Ok (Some r)) ->
    generation_trace prompt ipath (Thrown err) [EImagine prompt res]
| gt_no_upscale r up err :
    upscale_uri up = None ->
    generation_trace prompt ipath (Thrown err)
      [ EImagine prompt (Ok (Some r)); EUpscale 1 (id r) (hash r) (flags r) up ]
| gt_no_fetch r up u err :
    upscale_uri up = Some u ->
    generation_trace prompt ipath (Thrown err)
      [ EImagine prompt (Ok (Some r)); EUpscale 1 (id r) (hash r) (flags r) up;
        EFetch u None ]
| gt_no_write r up u b err :
    upscale_uri up = Some u ->
    generation_trace prompt ipath (Thrown err)
      [ EImagine prompt (Ok (Some r)); EUpscale 1 (id r) (hash r) (flags r) up;
        EFetch u (Some b); EWriteFile ipath (CBuffer b) false ]
| gt_written r up u b :
    upscale_uri up = Some u ->
    generation_trace prompt ipath (Ok u)
      [ EImagine prompt (Ok (Some r)); EUpscale 1 (id r) (hash r) (flags r) up;
        EFetch u (Some b); EWriteFile ipath (CBuffer b) true;
        ELog ("Downloaded image to " +:+ ipath) ].

(** The events of one iteration of a loop of [main]: the item is skipped; or
    its generation fails; or its image is written and the ledger [p'], with
    the item added, is saved ([ok]) or not. [logs] are the logs that come
    before the generation. *)
Inductive iteration_trace (skip_log : string) (logs : list Event)
    (prompt ipath : string) (ledger : string) (p' : ProgressState)
    (done_log : string) : option (option string) -> list Event -> Prop :=
| it_skipped :
    iteration_trace skip_log logs prompt ipath ledger p' done_log
      (Some None) [ELog skip_log]
| it_failed err evs :
    generation_trace prompt ipath (Thrown err) evs ->
    iteration_trace skip_log logs prompt ipath ledger p' done_log
      None (logs ++ evs)
| it_not_saved u evs :
    generation_trace prompt ipath (Ok u) evs ->
    iteration_trace skip_log logs prompt ipath ledger p' done_log
      None (logs ++ evs ++ [EWriteFile ledger (CProgress p') false])
| it_saved u evs :
    generation_trace prompt ipath (Ok u) evs ->
    iteration_trace skip_log logs prompt ipath ledger p' done_log
      (Some (Some u))
      (logs ++ evs ++ [ EWriteFile ledger (CProgress p') true;
                        ELog done_log; EDelay 5000 ]).

(** No prompt of the trace got a null result. *)
Definition no_null_result (evs : list Event) : Prop :=
  forall P, ~ In (EImagine P (Ok None)) evs.

(** A null result, if any, is the last event of the trace. *)
Definition null_result_last (evs : list Event) : Prop :=
  forall pre P post, evs = pre ++ EImagine P (Ok None) :: post -> post = [].

(** The maps [main] starts from: those of the reference summary, if it can
    be read. *)
Definition loaded_state (env : Env) (p : ProgressState) (w : World)
    : Storyboard.State :=
  match fs w !! Storyboard.character_references_json env with
  | Some (CReferences r) =>
      {| Storyboard.progress := p;
         Storyboard.characterRefs := uris r;
         Storyboard.characterFiles := files r |}
  | _ =>
      {| Storyboard.progress := p;
         Storyboard.characterRefs := ∅;
         Storyboard.characterFiles := ∅ |}
  end.

(** The ledgers saved during [e] form a chain from the ledger of [s], which
    ends at the ledger of [s']. *)
Definition chain_to (s : Storyboard.State) (e : list Event)
    (s' : Storyboard.State) : Prop :=
  ledger_chain (Storyboard.progress s) (ledger_writes e)
  /\ Storyboard.progress s' = List.last (ledger_writes e) (Storyboard.progress s).

Definition chain_from (s : Storyboard.State) (e : list Event) : Prop :=
  ledger_chain (Storyboard.progress s) (ledger_writes e).

Definition first_character : Storyboard.StoryCharacter :=
  hd {| Storyboard.name := ""; Storyboard.description := ""; Storyboard.prompt := "" |}
    (Storyboard.mainCharacters Storyboard.story).

Definition fresh_state : Storyboard.State :=
  {| Storyboard.progress := {| completedCharacters := []; completedScenes := [] |};
     Storyboard.characterRefs := ∅;
     Storyboard.characterFiles := ∅ |}.

(** ** Vocabulary of the properties of the single functions *)

(** The addresses requested from the network, in order. *)
Definition fetched (evs : list Event) : list string :=
  flat_map (fun e => match e with EFetch url _ => [url] | _ => [] end) evs.

(** Console output, directories, downloads and writes: what a generation
    does besides its calls of the backend. *)
Definition is_io_event (e : Event) : bool :=
  match e with
  | EMkdir _ _ | EFetch _ _ | EWriteFile _ _ _ | ELog _ | EError _ => true
  | _ => false
  end.

Definition is_close (e : Event) : bool :=
  match e with
  | EClose => true
  | _ => false
  end.

(** Between two calls of [Imagine] the run waits [ms] milliseconds. *)
Definition paced (ms : Z) (evs : list Event) : Prop :=
  forall pre p r mid q r' post,
    evs = pre ++ EImagine p r :: mid ++ EImagine q r' :: post ->
    In (EDelay ms) mid.

(** The same, as a scan of the trace: [rested] tells whether the run has
    waited since the last call of [Imagine]; the scan fails at a call that
    comes too early. *)
Fixpoint pace (ms : Z) (rested : bool) (evs : list Event) : option bool :=
  match evs with
  | [] => Some rested
  | EImagine _ _ :: evs' => if rested then pace ms false evs' else None
  | EDelay d :: evs' => pace ms (rested || Z.eqb d ms) evs'
  | _ :: evs' => pace ms rested evs'
  end.

(** Opening and closing the connection to the backend. *)
Definition is_session_event (e : Event) : bool :=
  match e with
  | EConnect | EClose => true
  | _ => false
  end.

(** The trace of a phase: no connection is opened or closed, and every call
    of [Imagine] but the first comes after a wait of [ms] milliseconds. *)
Definition phase_trace (ms : Z) (evs : list Event) : Prop :=
  Forall (fun e => is_session_event e = false) evs
  /\ pace ms true evs = Some true.

(** Handles are only added or replaced, and only for the characters of the
    script: a name that has a handle in [s] has one in [s'], and a name that
    is not a character of the script has the same handle, or none, in
    both. *)
Definition kept (script : AnimeScript) (s s' : gmap string string) : Prop :=
  forall n : string,
    (is_Some (s !! n) -> is_Some (s' !! n))
    /\ ((forall c, In c (characters script) -> name c <> n) ->
        s' !! n = s !! n).

(** The ledger file of the world holds the ledger of the state. *)
Definition ledger_synced (env : Env) (s : Storyboard.State) (w : World) : Prop :=
  loaded_ledger env w = Storyboard.progress s.

(** Every entry of the ledger [p] is an entry of the ledger [p']. *)
Definition ledger_grows (p p' : ProgressState) : Prop :=
  (forall n, In n (completedCharacters p) -> In n (completedCharacters p'))
  /\ (forall n, In n (completedScenes p) -> In n (completedScenes p')).

(** Every call of [Upscale] comes right after a call of [Imagine] that
    returned a response, and asks for the first image of that response
    (index 1), with its id, hash and flags. *)
Definition upscale_follows_imagine (evs : list Event) : Prop :=
  forall pre i a b f up post,
    evs = pre ++ EUpscale i a b f up :: post ->
    exists pre' P r,
      pre = pre' ++ [EImagine P (Ok (Some r))]
      /\ i = 1%Z /\ a = id r /\ b = hash r /\ f = flags r.

(** The prompt of a scene in the first generator of [anime.ts] when no style
    reference is added: the base prompt and a [--cref] directive for every
    handle the scene's characters have. *)
Definition v1_scene_prompt (script : AnimeScript)
    (characterRefs : gmap string string) (sc : Scene) : string :=
  AnimeV1.basePrompt sc script
  +:+ String.concat ""
        (map (fun ref => " --cref " +:+ ref) (AnimeV1.relevantRefs sc characterRefs)).

(** The path of the image and the handle of a character in the first
    generator. *)
Definition v1_character_path (env : Env) (charName : string) : string :=
  AnimeV1.outputDir +:+ "/character_" +:+ toLowerCase env charName +:+ ".png".

(** A world with the sample script at [script.json]. *)
Definition scripted_world : World :=
  world_with [("script.json", CScript sample_script)].

(** A world that an earlier run of the storyboard program has left with
    every character in the ledger and a handle for each in the reference
    summary. *)
Definition resumed_world : World :=
  world_with
    [ ("output/progress.json", CProgress all_characters_done);
      ("output/character_references.json",
       CReferences
         {| uris :=
              list_to_map
                [ ("Zoey", "https://cdn.example/zoey.png");
                  ("Blaine", "https://cdn.example/blaine.png");
                  ("Max", "https://cdn.example/max.png");
                  ("Sophia", "https://cdn.example/sophia.png");
                  ("Mother", "https://cdn.example/mother.png") ];
            files := ∅ |}) ].

(** The items of a list that a ledger does not hold, in the order of the
    list: [key] gives the identifier of an item. *)
Definition pending {X : Type} (key : X -> string) (completed : list string)
    (xs : list X) : list X :=
  List.filter (fun x => negb (Storyboard.includes completed (key x))) xs.

(** * Theorems *)

(** ** Strings *)

Lemma append_cons c s t : String c s +:+ t = String c (s +:+ t).
Proof. reflexivity. Qed.

Lemma append_nil_r s : s +:+ "" = s.
Proof. induction s as [|c s IH]; [reflexivity|]. by rewrite append_cons, IH. Qed.

Lemma append_assoc s t u : (s +:+ t) +:+ u = s +:+ t +:+ u.
Proof.
  induction s as [|c s IH]; [reflexivity|].
  by rewrite !append_cons, IH.
Qed.

Lemma contains_append_l s t u : contains s t -> contains s (u +:+ t).
Proof.
  intros (pre & post & ->). exists (u +:+ pre), post.
  by rewrite append_assoc.
Qed.

Lemma contains_append_r s t u : contains s t -> contains s (t +:+ u).
Proof.
  intros (pre & post & ->). exists pre, (post +:+ u).
  by rewrite !append_assoc.
Qed.

Lemma contains_here s u : contains s (s +:+ u).
Proof. by exists "", u. Qed.

(** ** Lists and traces *)

(** Where an element of [l1 ++ l2] lies. *)
Lemma app_eq_cons_app {A} (l1 l2 pre post : list A) x :
  l1 ++ l2 = pre ++ x :: post ->
  (exists post1, l1 = pre ++ x :: post1 /\ post = post1 ++ l2)
  \/ (exists pre2, pre = l1 ++ pre2 /\ l2 = pre2 ++ x :: post).
Proof.
  revert pre. induction l1 as [|a l1 IH]; intros pre H; simpl in H.
  - right. by exists pre.
  - destruct pre as [|b pre]; simpl in H; injection H as -> H.
    + left. by exists l1.
    + destruct (IH _ H) as [(post1 & -> & ->)|(pre2 & -> & ->)].
      * left. by exists post1.
      * right. by exists pre2.
Qed.

Lemma imagine_prompts_app e1 e2 :
  imagine_prompts (e1 ++ e2) = imagine_prompts e1 ++ imagine_prompts e2.
Proof. apply flat_map_app. Qed.

Lemma imagine_prompts_cons e evs :
  imagine_prompts (e :: evs) = imagine_prompts [e] ++ imagine_prompts evs.
Proof. apply (imagine_prompts_app [e]). Qed.

Lemma ledger_writes_app e1 e2 :
  ledger_writes (e1 ++ e2) = ledger_writes e1 ++ ledger_writes e2.
Proof. apply flat_map_app. Qed.

Lemma submissions_app e1 e2 :
  submissions (e1 ++ e2) = submissions e1 ++ submissions e2.
Proof. unfold submissions. apply List.filter_app. Qed.

Lemma in_imagine_prompts P evs :
  In P (imagine_prompts evs) <-> exists res, In (EImagine P res) evs.
Proof.
  unfold imagine_prompts. rewrite in_flat_map. split.
  - intros (e & He & HP). destruct e; simpl in HP; try done.
    destruct HP as [->|[]]. eauto.
  - intros (res & He). exists (EImagine P res). simpl. auto.
Qed.

(** ** The monad *)

Lemma bind_run {A B} (m : M A) (k : A -> M B) w :
  bind m k w
  = match m w with
    | (Ok a, w1, e1) => (result (k a w1), world (k a w1), e1 ++ events (k a w1))
    | (Thrown err, w1, e1) => (Thrown err, w1, e1)
    end.
Proof.
  unfold bind. destruct (m w) as [[[a|err] w1] e1]; [|done].
  by destruct (k a w1) as [[r w2] e2].
Qed.

(** The rule of [for_of]: [R] relates the variables before and after some
    iterations to the events they emit, [F] describes iterations that end
    with an exception. *)
Lemma for_of_rule {X S} (body : X -> S -> M S)
    (R : S -> list Event -> S -> Prop) (F : S -> list Event -> Prop) xs :
  (forall s, R s [] s) ->
  (forall s e1 s1 e2 s2, R s e1 s1 -> R s1 e2 s2 -> R s (e1 ++ e2) s2) ->
  (forall s e1 s1 e2, R s e1 s1 -> F s1 e2 -> F s (e1 ++ e2)) ->
  (forall x s w, In x xs ->
     match body x s w with
     | (Ok s', _, e) => R s e s'
     | (Thrown _, _, e) => F s e
     end) ->
  forall s w,
    match for_of body xs s w with
    | (Ok s', _, e) => R s e s'
    | (Thrown _, _, e) => F s e
    end.
Proof.
  intros Hnil Hseq Hfail. induction xs as [|x xs IH]; intros Hbody s w.
  - simpl. apply Hnil.
  - cbn [for_of]. rewrite bind_run.
    specialize (Hbody x s w (or_introl eq_refl)) as Hx.
    destruct (body x s w) as [[[s1|err] w1] e1]; [|done].
    assert (Hrest : forall y s w, In y xs ->
              match body y s w with
              | (Ok s', _, e) => R s e s'
              | (Thrown _, _, e) => F s e
              end) by (intros; apply Hbody; by right).
    specialize (IH Hrest s1 w1).
    destruct (for_of body xs s1 w1) as [[[s2|err] w2] e2]; simpl; eauto.
Qed.

(** ** [exampleScript.ts]: one generation *)

Section ExampleScriptFacts.
Variable env : Env.

Lemma downloadImage_cases url path w :
  (exists b,
     fetch_o env w url = Some b /\ writeFile_o env (tick w) path = true /\
     ExampleScript.downloadImage env url path w
     = (Ok tt,
        {| clock := S (S (clock w)); fs := <[path := CBuffer b]> (fs w) |},
        [ EFetch url (Some b); EWriteFile path (CBuffer b) true;
          ELog ("Image saved successfully to: " +:+ path) ]))
  \/ (exists b,
        fetch_o env w url = Some b /\ writeFile_o env (tick w) path = false /\
        ExampleScript.downloadImage env url path w
        = (Ok tt, tick (tick w),
           [ EFetch url (Some b); EWriteFile path (CBuffer b) false;
             EError ("Error downloading image from " +:+ url +:+ ":") ]))
  \/ (fetch_o env w url = None /\
      ExampleScript.downloadImage env url path w
      = (Ok tt, tick w,
         [ EFetch url None;
           EError ("Error downloading image from " +:+ url +:+ ":") ])).
Proof.
  unfold ExampleScript.downloadImage, try_catch, bind, http_get, writeFile,
    console_log, console_error, emit.
  destruct (fetch_o env w url) as [b|] eqn:Hf.
  - destruct (writeFile_o env (tick w) path) eqn:Hw.
    + left. exists b. simpl. auto.
    + right; left. exists b. auto.
  - right; right. auto.
Qed.

Lemma downloadImage_quiet url path w :
  result (ExampleScript.downloadImage env url path w) = Ok tt
  /\ Forall (fun e => is_download_event e = true)
       (events (ExampleScript.downloadImage env url path w)).
Proof.
  destruct (downloadImage_cases url path w)
    as [(b & _ & _ & ->)|[(b & _ & _ & ->)|(_ & ->)]];
    (split; [done|repeat constructor]).
Qed.

Lemma saveVariations_quiet dir i opts w :
  result (ExampleScript.saveVariations env dir i opts w) = Ok tt
  /\ Forall (fun e => is_download_event e = true)
       (events (ExampleScript.saveVariations env dir i opts w)).
Proof.
  revert i w. induction opts as [|v opts IH]; intros i w.
  - split; [done|constructor].
  - cbn [ExampleScript.saveVariations]. rewrite bind_run.
    generalize (downloadImage_quiet (var_uri v)
                  (path_join env [dir; "variation_" +:+ pretty (i + 1) +:+ ".png"]) w).
    destruct (ExampleScript.downloadImage env _ _ w) as [[r w1] e1].
    intros [Hr He]. simpl in Hr, He. subst r.
    destruct (IH (S i) w1) as [Hr' He']. split; [done|].
    simpl. by apply Forall_app.
Qed.

Lemma download_events_no_prompt evs :
  Forall (fun e => is_download_event e = true) evs -> imagine_prompts evs = [].
Proof.
  induction 1 as [|e evs He _ IH]; [done|].
  destruct e; try done; simpl; exact IH.
Qed.

(** Every outcome of [generateAndSelectVariation]. *)
Lemma generateAndSelectVariation_spec prompt outputName type w :
  exists res w' tail,
    ExampleScript.generateAndSelectVariation env prompt outputName type w
    = (Ok res, w',
       ELog ("Generating " +:+ ExampleScript.type_name type
             +:+ " with prompt: " +:+ prompt)
       :: EImagine prompt (Imagine_o env w prompt) :: tail)
    /\ match usable (Imagine_o env w prompt) with
       | None => res = None /\ exists msg, tail = [EError msg]
       | Some (r, v0, rest) =>
           let area :=
             match type with
             | ExampleScript.character => "characters"
             | ExampleScript.scene => "scenes"
             end in
           let variationsDir :=
             path_join env
               [ ExampleScript.baseOutputDir;
                 match type with
                 | ExampleScript.character => "characters/variations"
                 | ExampleScript.scene => "scenes/variations"
                 end;
                 outputName ] in
           let mainPath :=
             path_join env
               [ExampleScript.baseOutputDir; area; outputName +:+ ".png"] in
           let metadataPath :=
             path_join env
               [ExampleScript.baseOutputDir; area; outputName +:+ "_metadata.json"] in
           (res = None
            /\ mkdir_o env (tick w) variationsDir = false
            /\ tail = [ EMkdir variationsDir false;
                        EError ("Error generating " +:+ outputName +:+ ":") ])
           \/ (exists w3 w4 ts ok,
                 let md :=
                   {| md_prompt := prompt;
                      imagineId := id r;
                      selectedVariation := var_id v0;
                      allVariations :=
                        map (fun opt => (var_id opt, var_uri opt)) (v0 :: rest);
                      localPath := mainPath;
                      timestamp := ts |} in
                 tail
                 = EMkdir variationsDir true
                   :: (events (ExampleScript.saveVariations env variationsDir 0
                                 (v0 :: rest) (tick (tick w)))
                       ++ events (ExampleScript.downloadImage env (var_uri v0)
                                    mainPath w3))
                   ++ EWriteFile metadataPath (CMetadata md) ok
                      :: (if ok then []
                          else [EError ("Error generating " +:+ outputName +:+ ":")])
                 /\ w3 = world (ExampleScript.saveVariations env variationsDir 0
                                  (v0 :: rest) (tick (tick w)))
                 /\ ok = writeFile_o env w4 metadataPath
                 /\ res = if ok then
                            Some {| id := id r; hash := hash r; flags := flags r;
                                    uri := Some (var_uri v0);
                                    options := options r |}
                          else None)
       end.
Proof.
  unfold ExampleScript.generateAndSelectVariation, try_catch, bind,
    console_log, console_error, emit, Imagine, mkdir, now, writeFile, ret.
  destruct (Imagine_o env w prompt) as [[r|]|err] eqn:HI; cbn [usable].
  2,3: do 3 eexists; (split; [reflexivity|]); (split; [done|]); by eexists.
  destruct r as [i h f u [[|v0 rest]|]]; cbn [options].
  1,3: do 3 eexists; (split; [reflexivity|]); (split; [done|]); by eexists.
  remember (v0 :: rest) as opts eqn:Hopts.
  destruct (mkdir_o env (tick w) _) eqn:Hmk.
  2:{ do 3 eexists. split; [reflexivity|]. left. by subst opts. }
  generalize (saveVariations_quiet
                (path_join env
                   [ ExampleScript.baseOutputDir;
                     match type with
                     | ExampleScript.character => "characters/variations"
                     | ExampleScript.scene => "scenes/variations"
                     end;
                     outputName ]) 0 opts (tick (tick w))).
  destruct (ExampleScript.saveVariations env _ 0 opts (tick (tick w)))
    as [[rs w3] e3].
  intros [Hsv _]. simpl in Hsv. subst rs.
  generalize (downloadImage_quiet (var_uri v0)
                (path_join env
                   [ ExampleScript.baseOutputDir;
                     match type with
                     | ExampleScript.character => "characters"
                     | ExampleScript.scene => "scenes"
                     end;
                     outputName +:+ ".png" ]) w3).
  destruct (ExampleScript.downloadImage env (var_uri v0) _ w3)
    as [[rd w4] e4] eqn:Hd4.
  intros [Hdl _]. simpl in Hdl. subst rd.
  destruct (writeFile_o env w4 _) eqn:Hwr;
    cbn [app]; rewrite <- ?app_assoc; cbn [app].
  - do 3 eexists. split; [reflexivity|]. right.
    exists w3, w4, (toISOString env w4), true. cbn [id hash flags options].
    split; [|by repeat split]. rewrite Hd4. cbn [result world events fst snd].
    rewrite <- ?app_assoc. reflexivity.
  - do 3 eexists. split; [reflexivity|]. right.
    exists w3, w4, (toISOString env w4), false. cbn [id hash flags options].
    split; [|by repeat split]. rewrite Hd4. cbn [result world events fst snd].
    rewrite <- ?app_assoc. reflexivity.
Qed.
End ExampleScriptFacts.

(** ** [exampleScript.ts]: items and phases *)

Section ExampleScriptPhases.
Variable env : Env.

Lemma generateAndSelectVariation_total prompt outputName type w :
  exists res,
    result (ExampleScript.generateAndSelectVariation env prompt outputName type w)
    = Ok res
    /\ imagine_prompts
         (events (ExampleScript.generateAndSelectVariation env prompt
                    outputName type w))
       = [prompt].
Proof.
  destruct (generateAndSelectVariation_spec env prompt outputName type w)
    as (res & w' & tail & -> & Hcase).
  exists res. split; [done|]. cbn [result world events fst snd].
  change (imagine_prompts (?a :: ?b :: tail)) with (prompt :: imagine_prompts tail).
  enough (imagine_prompts tail = []) as -> by done.
  destruct (usable _) as [[[r v0] rest]|].
  - destruct Hcase as [(_ & _ & ->)|(w3 & w4 & ts & ok & -> & _)]; [done|].
    rewrite imagine_prompts_cons, !imagine_prompts_app.
    rewrite (download_events_no_prompt _ (proj2 (saveVariations_quiet env _ _ _ _))).
    rewrite (download_events_no_prompt _ (proj2 (downloadImage_quiet env _ _ _))).
    by destruct ok.
  - by destruct Hcase as (_ & msg & ->).
Qed.

(** A response without a first variation leaves the item without a
    result. *)
Lemma generateAndSelectVariation_unusable prompt outputName type w :
  usable (Imagine_o env w prompt) = None ->
  result (ExampleScript.generateAndSelectVariation env prompt outputName type w)
  = Ok None.
Proof.
  intros Hu.
  destruct (generateAndSelectVariation_spec env prompt outputName type w)
    as (res & w' & tail & -> & Hcase).
  rewrite Hu in Hcase. by destruct Hcase as [-> _].
Qed.

(** A result is the backend's response with the first variation's
    address. *)
Lemma generateAndSelectVariation_some prompt outputName type w r' :
  result (ExampleScript.generateAndSelectVariation env prompt outputName type w)
  = Ok (Some r') ->
  exists r v0 rest,
    Imagine_o env w prompt = Ok (Some r)
    /\ options r = Some (v0 :: rest)
    /\ uri r' = Some (var_uri v0).
Proof.
  destruct (generateAndSelectVariation_spec env prompt outputName type w)
    as (res & w' & tail & -> & Hcase).
  cbn [result world events fst snd]. intros [= ->].
  destruct (Imagine_o env w prompt) as [[r|]|err]; cbn [usable] in Hcase;
    try by destruct Hcase as [? _].
  destruct (options r) as [[|v0 rest]|] eqn:Ho;
    try by destruct Hcase as [? _].
  destruct Hcase as [(? & _)|(w3 & w4 & ts & ok & _ & _ & _ & Hres)]; [done|].
  destruct ok; [|done]. injection Hres as ->.
  by exists r, v0, rest.
Qed.

(** One iteration of the loop of [generateCharacterReferences]. *)
Lemma generateCharacterReference_spec c characterRefs w :
  let run := ExampleScript.generateCharacterReference env c characterRefs w in
  exists characterRefs',
    result run = Ok characterRefs'
    /\ imagine_prompts (events run) = [ExampleScript.buildCharacterPrompt c]
    /\ (characterRefs' = characterRefs
        \/ exists r v0 rest,
             In (EImagine (ExampleScript.buildCharacterPrompt c) (Ok (Some r)))
                (events run)
             /\ options r = Some (v0 :: rest)
             /\ characterRefs' = <[name c := var_uri v0]> characterRefs)
    /\ (usable (Imagine_o env w (ExampleScript.buildCharacterPrompt c)) = None ->
        characterRefs' = characterRefs).
Proof.
  unfold ExampleScript.generateCharacterReference. cbv zeta.
  set (prompt := ExampleScript.buildCharacterPrompt c).
  set (outputName := "character_" +:+ toLowerCase env (name c)).
  destruct (generateAndSelectVariation_total prompt outputName
              ExampleScript.character w) as (res & Hres & Hp).
  pose proof (generateAndSelectVariation_unusable prompt outputName
                ExampleScript.character w) as Hun.
  pose proof (generateAndSelectVariation_some prompt outputName
                ExampleScript.character w) as Hsome.
  pose proof (generateAndSelectVariation_spec env prompt outputName
                ExampleScript.character w) as (res0 & w0 & tail & Heq & _).
  rewrite Heq in *. cbn [result world events fst snd] in *. injection Hres as ->.
  unfold bind. rewrite Heq.
  destruct res as [r'|]; cbn [ExampleScript.response_uri].
  - destruct (Hsome r' eq_refl) as (r & v0 & rest & HI & Ho & Hu).
    rewrite Hu. destruct (truthy (var_uri v0)).
    + unfold console_log, emit, ret, delay. cbn [result world events fst snd].
      eexists. split; [reflexivity|]. split.
      { rewrite !imagine_prompts_app, Hp. done. }
      split.
      * right. exists r, v0, rest. rewrite HI. split; [|done].
        right. by left.
      * intros Hnone. specialize (Hun Hnone). done.
    + unfold ret, delay. cbn [result world events fst snd].
      eexists. split; [reflexivity|]. split.
      { rewrite !imagine_prompts_app, Hp. done. }
      split; [by left|done].
  - unfold ret, delay. cbn [result world events fst snd].
    eexists. split; [reflexivity|]. split.
    { rewrite !imagine_prompts_app, Hp. done. }
    split; [by left|done].
Qed.

(** One iteration of the loop of [generateScenes]. *)
Lemma generateSceneImage_spec script sc characterRefs w :
  let run := ExampleScript.generateSceneImage env script sc characterRefs w in
  result run = Ok characterRefs
  /\ imagine_prompts (events run)
     = [ExampleScript.buildScenePrompt sc script characterRefs].
Proof.
  unfold ExampleScript.generateSceneImage. cbv zeta.
  set (prompt := ExampleScript.buildScenePrompt sc script characterRefs).
  set (outputName := "scene_" +:+ padStart 3 "0" (pretty (sceneNumber sc))).
  destruct (generateAndSelectVariation_total prompt outputName
              ExampleScript.scene w) as (res & Hres & Hp).
  unfold bind.
  destruct (ExampleScript.generateAndSelectVariation env prompt outputName
              ExampleScript.scene w) as [[r w1] e1].
  cbn [result world events fst snd] in *. subst r.
  unfold ret, delay. cbn [result world events fst snd].
  split; [done|]. rewrite !imagine_prompts_app, Hp. done.
Qed.

(** A loop whose iterations do not raise and submit one prompt each
    submits the prompts of all its items, in order. *)
Lemma for_of_total {X S} (body : X -> S -> M S) (I : S -> Prop)
    (g : X -> string) xs :
  (forall x s w, I s ->
     exists s', result (body x s w) = Ok s' /\ I s'
                /\ imagine_prompts (events (body x s w)) = [g x]) ->
  forall s w, I s ->
    exists s', result (for_of body xs s w) = Ok s' /\ I s'
               /\ imagine_prompts (events (for_of body xs s w)) = map g xs.
Proof.
  intros Hbody. induction xs as [|x xs IH]; intros s w Hs.
  - by exists s.
  - cbn [for_of]. rewrite bind_run.
    destruct (Hbody x s w Hs) as (s1 & Hr & Hs1 & Hp).
    destruct (body x s w) as [[r w1] e1]. cbn [result world events fst snd] in *. subst r.
    destruct (IH s1 w1 Hs1) as (s2 & Hr2 & Hs2 & Hp2).
    exists s2. cbn [result world events fst snd]. split; [done|]. split; [done|].
    by rewrite imagine_prompts_app, Hp, Hp2.
Qed.

Lemma generateCharacterReferences_total script characterRefs w :
  let run := ExampleScript.generateCharacterReferences env script characterRefs w in
  exists characterRefs',
    result run = Ok characterRefs'
    /\ imagine_prompts (events run)
       = map ExampleScript.buildCharacterPrompt (characters script).
Proof.
  unfold ExampleScript.generateCharacterReferences, bind, console_log, emit.
  destruct (for_of_total (ExampleScript.generateCharacterReference env)
              (fun _ => True) ExampleScript.buildCharacterPrompt
              (characters script)) with (s := characterRefs) (w := w)
    as (refs' & Hr & _ & Hp); [|done|].
  { intros c s w0 _.
    destruct (generateCharacterReference_spec c s w0) as (s' & ? & ? & _).
    by exists s'. }
  destruct (for_of _ _ _ w) as [[r w1] e1]. cbn [result world events fst snd] in *.
  by exists refs'.
Qed.

Lemma generateScenes_total script characterRefs w :
  let run := ExampleScript.generateScenes env script characterRefs w in
  result run = Ok characterRefs
  /\ imagine_prompts (events run)
     = map (fun sc => ExampleScript.buildScenePrompt sc script characterRefs)
         (scenes script).
Proof.
  unfold ExampleScript.generateScenes, bind, console_log, emit.
  destruct (for_of_total (ExampleScript.generateSceneImage env script)
              (fun s => s = characterRefs)
              (fun sc => ExampleScript.buildScenePrompt sc script characterRefs)
              (scenes script)) with (s := characterRefs) (w := w)
    as (refs' & Hr & -> & Hp); [|done|].
  { intros sc s w0 ->.
    destruct (generateSceneImage_spec script sc characterRefs w0) as [? ?].
    by exists characterRefs. }
  destruct (for_of _ _ _ w) as [[r w1] e1]. cbn [result world events fst snd] in *.
  by subst r.
Qed.
End ExampleScriptPhases.

(** ** The prompt builders *)

Lemma addReference_later characterRefs finalPrompt charName n :
  ExampleScript.addReference characterRefs finalPrompt charName (S n)
  = finalPrompt +:+ cref_directive characterRefs charName.
Proof.
  unfold ExampleScript.addReference, cref_directive, resolved.
  destruct (characterRefs !! charName) as [charRef|]; [|by rewrite append_nil_r].
  destruct (truthy charRef); [|by rewrite append_nil_r].
  simpl. by rewrite append_nil_r.
Qed.

Lemma forEach_addReference_later characterRefs charNames n finalPrompt :
  forEach_from (ExampleScript.addReference characterRefs) (S n) charNames finalPrompt
  = finalPrompt +:+ cref_directives characterRefs charNames.
Proof.
  revert n finalPrompt.
  induction charNames as [|charName rest IH]; intros n finalPrompt; simpl.
  - by rewrite append_nil_r.
  - by rewrite IH, addReference_later, append_assoc.
Qed.

Lemma buildScenePrompt_split sc script characterRefs :
  ExampleScript.buildScenePrompt sc script characterRefs
  = ExampleScript.basePrompt sc script
    +:+ reference_directives characterRefs (scene_characters sc).
Proof.
  unfold ExampleScript.buildScenePrompt, forEach, reference_directives.
  destruct (scene_characters sc) as [|first rest]; simpl.
  - by rewrite append_nil_r.
  - rewrite forEach_addReference_later.
    unfold ExampleScript.addReference, resolved.
    destruct (characterRefs !! first) as [charRef|]; [|done].
    destruct (truthy charRef); [|done].
    simpl. by rewrite !append_assoc.
Qed.

(** C9. In [buildScenePrompt] of [exampleScript.ts] the weight directive
    [--cw 1] is appended only for the first-listed character of the scene,
    and only when that character has a resolved handle. When the first-listed
    character is unresolved, what follows the base prompt is exactly the
    [--cref] directives of the later-listed characters that are resolved: no
    weight directive is added, and none moves to the first resolved
    reference. *)
Theorem weight_only_for_first_listed
    (sc : Scene) (script : AnimeScript) (characterRefs : gmap string string) :
  ExampleScript.buildScenePrompt sc script characterRefs
  = ExampleScript.basePrompt sc script
    +:+ match scene_characters sc with
        | [] => ""
        | first :: rest =>
            match resolved characterRefs first with
            | Some charRef => " --cref " +:+ charRef +:+ " --cw 1"
            | None => ""
            end
            +:+ cref_directives characterRefs rest
        end.
Proof. apply buildScenePrompt_split. Qed.

(** The first-listed character of the rooftop scene is resolved, the second
    is not; in the other order no weight directive is written. *)
Example weight_on_first_listed :
  ExampleScript.buildScenePrompt rooftop_scene sample_script
    {[ "Rin" := "https://cdn.example/rin.png" ]}
  = ExampleScript.basePrompt rooftop_scene sample_script
    +:+ " --cref https://cdn.example/rin.png --cw 1".
Proof. reflexivity. Qed.

Example no_weight_when_first_unresolved :
  ExampleScript.buildScenePrompt rooftop_scene sample_script
    {[ "Ghost" := "https://cdn.example/ghost.png" ]}
  = ExampleScript.basePrompt rooftop_scene sample_script
    +:+ " --cref https://cdn.example/ghost.png"
  /\ includesb "--cw"
       (ExampleScript.buildScenePrompt rooftop_scene sample_script
          {[ "Ghost" := "https://cdn.example/ghost.png" ]}) = false.
Proof. split; vm_compute; reflexivity. Qed.

Lemma filter_Boolean_or_empty l :
  filter_Boolean l = List.filter truthy (map or_empty l).
Proof.
  induction l as [|[s|] l IH]; simpl; [done| |done].
  destruct (truthy s); by rewrite IH.
Qed.

Lemma characterDetail_found script charName c :
  find (fun c => String.eqb (name c) charName) (characters script) = Some c ->
  ExampleScript.characterDetail script charName
  = name c +:+ " (" +:+ description c +:+ ", " +:+ stylePrompt c +:+ ")".
Proof. unfold ExampleScript.characterDetail. by intros ->. Qed.

Lemma find_by_name_none (cs : list Character) charName :
  (forall c, In c cs -> name c <> charName) ->
  find (fun c => String.eqb (name c) charName) cs = None.
Proof.
  intros H. destruct (find _ cs) as [c|] eqn:Hf; [|done].
  apply find_some in Hf as [Hin Heq].
  apply String.eqb_eq in Heq. by destruct (H c Hin).
Qed.

Lemma characterDetail_missing script charName :
  (forall c, In c (characters script) -> name c <> charName) ->
  ExampleScript.characterDetail script charName = charName.
Proof.
  intros H. unfold ExampleScript.characterDetail.
  by rewrite find_by_name_none.
Qed.

Lemma basePrompt_full sc script c :
  cameraAngle sc = Some c ->
  truthy (join " and " (map (ExampleScript.characterDetail script)
                          (scene_characters sc))) = true ->
  truthy (action sc) = true -> truthy (mood sc) = true -> truthy c = true ->
  truthy (artStyle script) = true ->
  ExampleScript.basePrompt sc script
  = "masterpiece, best quality, "
    +:+ join " and " (map (ExampleScript.characterDetail script) (scene_characters sc))
    +:+ ", " +:+ action sc +:+ ", in " +:+ setting sc +:+ ", " +:+ mood sc
    +:+ ", " +:+ c +:+ ", " +:+ artStyle script
    +:+ ", detailed lighting, perfect composition, --ar 16:9 --v 6 --style raw".
Proof.
  intros Hc Hd Ha Hm Hcam Hs.
  unfold ExampleScript.basePrompt. rewrite Hc.
  cbn [filter_Boolean]. rewrite Hd, Ha, Hm, Hcam, Hs.
  change (truthy ("in " +:+ setting sc)) with true.
  change (truthy "masterpiece, best quality") with true.
  change (truthy "detailed lighting, perfect composition") with true.
  change (truthy "--ar 16:9 --v 6 --style raw") with true.
  cbv iota. unfold join. cbn [String.concat].
  rewrite !append_assoc. reflexivity.
Qed.

Lemma basePrompt_without_camera sc script :
  or_empty (cameraAngle sc) = "" ->
  truthy (join " and " (map (ExampleScript.characterDetail script)
                          (scene_characters sc))) = true ->
  truthy (action sc) = true -> truthy (mood sc) = true ->
  truthy (artStyle script) = true ->
  ExampleScript.basePrompt sc script
  = "masterpiece, best quality, "
    +:+ join " and " (map (ExampleScript.characterDetail script) (scene_characters sc))
    +:+ ", " +:+ action sc +:+ ", in " +:+ setting sc +:+ ", " +:+ mood sc
    +:+ ", " +:+ artStyle script
    +:+ ", detailed lighting, perfect composition, --ar 16:9 --v 6 --style raw".
Proof.
  intros Hc Hd Ha Hm Hs.
  unfold ExampleScript.basePrompt. rewrite filter_Boolean_or_empty.
  cbn [map]. rewrite Hc. cbn [or_empty List.filter].
  rewrite Hd, Ha, Hm, Hs.
  change (truthy ("in " +:+ setting sc)) with true.
  change (truthy "masterpiece, best quality") with true.
  change (truthy "detailed lighting, perfect composition") with true.
  change (truthy "--ar 16:9 --v 6 --style raw") with true.
  change (truthy "") with false.
  cbv iota. unfold join. cbn [String.concat].
  rewrite !append_assoc. reflexivity.
Qed.

(** What the first generator of [anime.ts] adds for its references. *)
Lemma forEach_cref_from n (refs1 : list string) prompt :
  forEach_from (fun prompt ref (index : nat) => prompt +:+ " --cref " +:+ ref)
    n refs1 prompt
  = prompt +:+ String.concat "" (map (fun ref => " --cref " +:+ ref) refs1).
Proof.
  revert n prompt. induction refs1 as [|ref rest IH]; intros n prompt.
  - simpl. by rewrite append_nil_r.
  - cbn [forEach_from map]. rewrite IH.
    destruct rest as [|ref' rest'].
    + simpl. by rewrite !append_nil_r.
    + cbn [String.concat map]. by rewrite !append_assoc.
Qed.

Section FirstGenerator.
Variable env : Env.

(** [buildScenePrompt] of the first generator of [anime.ts]: for a scene
    numbered 1 or less it returns the base prompt with the references; for
    a later scene the call of [fs.existsSync] raises. The world is left as
    it is. *)
Lemma AnimeV1_buildScenePrompt_run sc script refs1 w :
  AnimeV1.buildScenePrompt env sc script refs1 w
  = (if (1 <? sceneNumber sc)%Z
     then Thrown "TypeError: fs.existsSync is not a function"
     else Ok (AnimeV1.basePrompt sc script
              +:+ String.concat "" (map (fun ref => " --cref " +:+ ref) refs1)),
     w, []).
Proof.
  unfold AnimeV1.buildScenePrompt, forEach. cbv zeta.
  rewrite forEach_cref_from.
  by destruct (1 <? sceneNumber sc)%Z.
Qed.
End FirstGenerator.

Lemma AnimeV1_empty_token sc script :
  or_empty (cameraAngle sc) = "" ->
  contains ", , " (AnimeV1.basePrompt sc script).
Proof.
  intros Hc. unfold AnimeV1.basePrompt. cbv zeta. rewrite Hc.
  do 7 apply contains_append_l.
  change (", " +:+ "" +:+ ", " +:+ ?s) with (", , " +:+ s).
  apply contains_here.
Qed.

Lemma AnimeV1_characterPrompt_found script charName c :
  find (fun c => String.eqb (name c) charName) (characters script) = Some c ->
  AnimeV1.characterPrompt script charName = name c +:+ " " +:+ description c.
Proof. intros H. unfold AnimeV1.characterPrompt. by rewrite H. Qed.

Lemma AnimeV1_characterPrompt_missing script charName :
  (forall c, In c (characters script) -> name c <> charName) ->
  AnimeV1.characterPrompt script charName = charName.
Proof.
  intros H. unfold AnimeV1.characterPrompt.
  by rewrite (find_by_name_none (characters script) charName H).
Qed.





(** Two runs of the builder of the first generator on the rooftop scene, in
    two environments and in two worlds that differ in the very file the
    builder names. *)
Example rooftop_prompt_twice :
  result
    (AnimeV1.buildScenePrompt (sample_env always_null true any_path)
       rooftop_scene sample_script [] empty_world)
  = result
      (AnimeV1.buildScenePrompt (sample_env always_succeeds false any_path)
         rooftop_scene sample_script []
         (world_with [("anime_output/scene_001.png", CBuffer [])])).
Proof. reflexivity. Qed.

(** ** Variations and failed writes in [exampleScript.ts] *)

Lemma persisted_app_r url path evs post :
  persisted url path evs -> persisted url path (evs ++ post).
Proof.
  intros (b & pre & post' & ->). exists b, pre, (post' ++ post).
  by rewrite <- app_assoc.
Qed.

Lemma persisted_app_l url path pre evs :
  persisted url path evs -> persisted url path (pre ++ evs).
Proof.
  intros (b & pre' & post & ->). exists b, (pre ++ pre'), post.
  by rewrite <- app_assoc.
Qed.

Lemma persisted_cons url path e evs :
  persisted url path evs -> persisted url path (e :: evs).
Proof. apply (persisted_app_l url path [e]). Qed.

Section Variations.
Variable env : Env.
Hypothesis reliable : reliable_io env.

Lemma downloadImage_reliable url path w :
  persisted url path (events (ExampleScript.downloadImage env url path w)).
Proof.
  destruct reliable as (Hfetch & Hwrite & _).
  destruct (downloadImage_cases env url path w)
    as [(b & _ & _ & ->)|[(b & _ & Hw & _)|(Hf & _)]].
  - by exists b, [], [ELog ("Image saved successfully to: " +:+ path)].
  - by rewrite Hwrite in Hw.
  - by destruct (Hfetch w url).
Qed.

Lemma saveVariations_persisted dir i opts w j vj :
  opts !! j = Some vj ->
  persisted (var_uri vj)
    (path_join env [dir; "variation_" +:+ pretty (i + j + 1) +:+ ".png"])
    (events (ExampleScript.saveVariations env dir i opts w)).
Proof.
  revert i w j. induction opts as [|v opts IH]; intros i w j Hj; [done|].
  cbn [ExampleScript.saveVariations]. rewrite bind_run.
  generalize (downloadImage_quiet env (var_uri v)
                (path_join env [dir; "variation_" +:+ pretty (i + 1) +:+ ".png"]) w).
  generalize (downloadImage_reliable (var_uri v)
                (path_join env [dir; "variation_" +:+ pretty (i + 1) +:+ ".png"]) w).
  destruct (ExampleScript.downloadImage env _ _ w) as [[r w1] e1].
  cbn [result world events fst snd]. intros Hp [-> _].
  destruct j as [|j]; cbn [result world events fst snd].
  - injection Hj as ->. replace (i + 0 + 1) with (i + 1) by lia.
    by apply persisted_app_r.
  - replace (i + S j + 1) with (S i + j + 1) by lia.
    apply persisted_app_l. by apply IH.
Qed.

(** With a network and a disk that do not fail, a usable response always
    gives a result. *)
Lemma generateAndSelectVariation_reliable prompt outputName type w r v0 rest :
  Imagine_o env w prompt = Ok (Some r) ->
  options r = Some (v0 :: rest) ->
  let area :=
    match type with
    | ExampleScript.character => "characters"
    | ExampleScript.scene => "scenes"
    end in
  let variationsDir :=
    path_join env
      [ ExampleScript.baseOutputDir;
        match type with
        | ExampleScript.character => "characters/variations"
        | ExampleScript.scene => "scenes/variations"
        end;
        outputName ] in
  let mainPath :=
    path_join env [ExampleScript.baseOutputDir; area; outputName +:+ ".png"] in
  let metadataPath :=
    path_join env
      [ExampleScript.baseOutputDir; area; outputName +:+ "_metadata.json"] in
  exists w' w3 ts,
    ExampleScript.generateAndSelectVariation env prompt outputName type w
    = (Ok (Some {| id := id r; hash := hash r; flags := flags r;
                   uri := Some (var_uri v0); options := options r |}),
       w',
       ELog ("Generating " +:+ ExampleScript.type_name type
             +:+ " with prompt: " +:+ prompt)
       :: EImagine prompt (Ok (Some r))
       :: EMkdir variationsDir true
       :: (events (ExampleScript.saveVariations env variationsDir 0
                     (v0 :: rest) (tick (tick w)))
           ++ events (ExampleScript.downloadImage env (var_uri v0) mainPath w3))
       ++ [ EWriteFile metadataPath
              (CMetadata
                 {| md_prompt := prompt;
                    imagineId := id r;
                    selectedVariation := var_id v0;
                    allVariations :=
                      map (fun opt => (var_id opt, var_uri opt)) (v0 :: rest);
                    localPath := mainPath;
                    timestamp := ts |}) true ]).
Proof.
  intros HI Ho. cbv zeta.
  destruct reliable as (_ & Hwrite & Hmkdir).
  destruct (generateAndSelectVariation_spec env prompt outputName type w)
    as (res & w' & tail & -> & Hcase).
  rewrite HI in *. cbn [usable] in Hcase. rewrite Ho in Hcase.
  destruct Hcase as [(_ & Hmk & _)|(w3 & w4 & ts & ok & -> & _ & Hok & ->)].
  { by rewrite Hmkdir in Hmk. }
  rewrite Hwrite in Hok. subst ok. by exists w', w3, ts.
Qed.
End Variations.

Section FailedWrites.
Variable env : Env.

Lemma download_events_no_metadata evs mpath md ok :
  Forall (fun e => is_download_event e = true) evs ->
  ~ In (EWriteFile mpath (CMetadata md) ok) evs.
Proof.
  intros Hall Hin. rewrite List.Forall_forall in Hall.
  by specialize (Hall _ Hin).
Qed.

(** A failed write of the metadata ends the generation without a result,
    after the error is logged. *)
Lemma generateAndSelectVariation_metadata_failure prompt outputName type w
    mpath md :
  In (EWriteFile mpath (CMetadata md) false)
     (events (ExampleScript.generateAndSelectVariation env prompt outputName
                type w)) ->
  result (ExampleScript.generateAndSelectVariation env prompt outputName type w)
  = Ok None
  /\ In (EError ("Error generating " +:+ outputName +:+ ":"))
        (events (ExampleScript.generateAndSelectVariation env prompt outputName
                   type w)).
Proof.
  destruct (generateAndSelectVariation_spec env prompt outputName type w)
    as (res & w' & tail & -> & Hcase).
  cbn [result world events fst snd].
  intros [Hin|[Hin|Hin]]; [done|done|].
  destruct (usable _) as [[[r v0] rest]|].
  - destruct Hcase as [(-> & _ & ->)|(w3 & w4 & ts & ok & -> & _ & _ & ->)].
    + destruct Hin as [Hin|[Hin|[]]]; done.
    + destruct Hin as [Hin|Hin]; [done|].
      apply in_app_or in Hin as [Hin|Hin].
      { apply in_app_or in Hin as [Hin|Hin]; exfalso;
          eapply download_events_no_metadata; try exact Hin.
        - apply saveVariations_quiet.
        - apply downloadImage_quiet. }
      destruct ok.
      { destruct Hin as [Hin|[]]; done. }
      split; [done|]. do 3 right. apply in_or_app. right. right. by left.
  - destruct Hcase as (_ & msg & ->). destruct Hin as [Hin|[]]; done.
Qed.
End FailedWrites.


Section Selection.
Variable env : Env.

(** A response without a first variation: one error is logged, nothing is
    fetched and nothing is written. *)
Lemma generateAndSelectVariation_nothing prompt outputName type w :
  usable (Imagine_o env w prompt) = None ->
  exists w' msg,
    ExampleScript.generateAndSelectVariation env prompt outputName type w
    = (Ok None, w',
       [ ELog ("Generating " +:+ ExampleScript.type_name type
               +:+ " with prompt: " +:+ prompt);
         EImagine prompt (Imagine_o env w prompt); EError msg ]).
Proof.
  intros Hu.
  destruct (generateAndSelectVariation_spec env prompt outputName type w)
    as (res & w' & tail & -> & Hcase).
  rewrite Hu in Hcase. destruct Hcase as (-> & msg & ->). by exists w', msg.
Qed.

(** Every metadata record of a generation names the first variation of
    the response, and every variation by its position. *)
Lemma generateAndSelectVariation_metadata prompt outputName type w r v0 rest
    path md ok :
  Imagine_o env w prompt = Ok (Some r) ->
  options r = Some (v0 :: rest) ->
  In (EWriteFile path (CMetadata md) ok)
     (events (ExampleScript.generateAndSelectVariation env prompt outputName
                type w)) ->
  md_prompt md = prompt
  /\ imagineId md = id r
  /\ selectedVariation md = var_id v0
  /\ allVariations md = map (fun opt => (var_id opt, var_uri opt)) (v0 :: rest)
  /\ localPath md
     = path_join env
         [ ExampleScript.baseOutputDir;
           match type with
           | ExampleScript.character => "characters"
           | ExampleScript.scene => "scenes"
           end;
           outputName +:+ ".png" ].
Proof.
  intros HI Ho.
  destruct (generateAndSelectVariation_spec env prompt outputName type w)
    as (res & w' & tail & -> & Hcase).
  rewrite HI in Hcase. cbn [usable] in Hcase. rewrite Ho in Hcase.
  cbn [events snd]. intros [Hin|[Hin|Hin]]; [done|done|].
  destruct Hcase as [(_ & _ & ->)|(w3 & w4 & ts & ok' & -> & _ & _ & _)].
  { destruct Hin as [Hin|[Hin|[]]]; done. }
  destruct Hin as [Hin|Hin]; [done|].
  apply in_app_or in Hin as [Hin|Hin].
  { apply in_app_or in Hin as [Hin|Hin]; exfalso;
      eapply download_events_no_metadata; try exact Hin.
    - apply saveVariations_quiet.
    - apply downloadImage_quiet. }
  destruct Hin as [Hin|Hin].
  - by injection Hin as _ <- _.
  - destruct ok'; [done|]. destruct Hin as [Hin|[]]. done.
Qed.

(** The result of a generation, when there is one, is the response with
    the address of its first variation. *)
Lemma generateAndSelectVariation_result prompt outputName type w r v0 rest :
  Imagine_o env w prompt = Ok (Some r) ->
  options r = Some (v0 :: rest) ->
  result (ExampleScript.generateAndSelectVariation env prompt outputName type w)
  = Ok None
  \/ result (ExampleScript.generateAndSelectVariation env prompt outputName
               type w)
     = Ok (Some {| id := id r; hash := hash r; flags := flags r;
                   uri := Some (var_uri v0); options := options r |}).
Proof.
  intros HI Ho.
  destruct (generateAndSelectVariation_spec env prompt outputName type w)
    as (res & w' & tail & -> & Hcase).
  rewrite HI in Hcase. cbn [usable] in Hcase. rewrite Ho in Hcase.
  cbn [result fst].
  destruct Hcase as [(-> & _)|(w3 & w4 & ts & ok & _ & _ & _ & ->)];
    [by left|]. destruct ok; [by right|by left].
Qed.

(** What an iteration of the character phase records: the address the
    generation returned, when it is not empty. *)
Lemma generateCharacterReference_result c characterRefs w :
  result (ExampleScript.generateCharacterReference env c characterRefs w)
  = Ok match result
               (ExampleScript.generateAndSelectVariation env
                  (ExampleScript.buildCharacterPrompt c)
                  ("character_" +:+ toLowerCase env (name c))
                  ExampleScript.character w) with
       | Ok response =>
           match ExampleScript.response_uri response with
           | Some u => <[name c := u]> characterRefs
           | None => characterRefs
           end
       | Thrown _ => characterRefs
       end.
Proof.
  unfold ExampleScript.generateCharacterReference. cbv zeta.
  destruct (generateAndSelectVariation_spec env
              (ExampleScript.buildCharacterPrompt c)
              ("character_" +:+ toLowerCase env (name c))
              ExampleScript.character w) as (res & w' & tail & Hrun & _).
  unfold bind. rewrite Hrun. cbn [result fst].
  by destruct (ExampleScript.response_uri res).
Qed.
End Selection.




Section MetadataWrites.
Variable env : Env.

(** A metadata record that is written: the generation returns the
    response with the address of the first variation, whatever happened to
    the images. *)
Lemma generateAndSelectVariation_metadata_success prompt outputName type w
    mpath md :
  In (EWriteFile mpath (CMetadata md) true)
     (events (ExampleScript.generateAndSelectVariation env prompt outputName
                type w)) ->
  exists r v0 rest,
    Imagine_o env w prompt = Ok (Some r)
    /\ options r = Some (v0 :: rest)
    /\ result (ExampleScript.generateAndSelectVariation env prompt outputName
                 type w)
       = Ok (Some {| id := id r; hash := hash r; flags := flags r;
                     uri := Some (var_uri v0); options := options r |}).
Proof.
  destruct (generateAndSelectVariation_spec env prompt outputName type w)
    as (res & w' & tail & -> & Hcase).
  cbn [result events fst snd].
  intros [Hin|[Hin|Hin]]; [done|done|].
  destruct (Imagine_o env w prompt) as [[r|]|err] eqn:HI; cbn [usable] in Hcase.
  2,3: destruct Hcase as (_ & msg & ->); destruct Hin as [Hin|[]]; done.
  destruct (options r) as [[|v0 rest]|] eqn:Ho.
  1,3: destruct Hcase as (_ & msg & ->); destruct Hin as [Hin|[]]; done.
  destruct Hcase as [(-> & _ & ->)|(w3 & w4 & ts & ok & -> & _ & _ & ->)].
  { destruct Hin as [Hin|[Hin|[]]]; done. }
  destruct Hin as [Hin|Hin]; [done|].
  apply in_app_or in Hin as [Hin|Hin].
  { apply in_app_or in Hin as [Hin|Hin]; exfalso;
      eapply download_events_no_metadata; try exact Hin.
    - apply saveVariations_quiet.
    - apply downloadImage_quiet. }
  destruct ok.
  - by exists r, v0, rest.
  - destruct Hin as [Hin|[Hin|[]]]; done.
Qed.

(** The metadata records of an iteration of the character phase are those
    of its generation. *)
Lemma generateCharacterReference_metadata c characterRefs w mpath md ok :
  In (EWriteFile mpath (CMetadata md) ok)
     (events (ExampleScript.generateCharacterReference env c characterRefs w)) ->
  In (EWriteFile mpath (CMetadata md) ok)
     (events (ExampleScript.generateAndSelectVariation env
                (ExampleScript.buildCharacterPrompt c)
                ("character_" +:+ toLowerCase env (name c))
                ExampleScript.character w)).
Proof.
  unfold ExampleScript.generateCharacterReference. cbv zeta.
  destruct (generateAndSelectVariation_spec env
              (ExampleScript.buildCharacterPrompt c)
              ("character_" +:+ toLowerCase env (name c))
              ExampleScript.character w) as (res & w' & tail & Hrun & _).
  unfold bind. rewrite Hrun. cbn [events snd].
  destruct (ExampleScript.response_uri res);
    unfold console_log, emit, ret, delay; cbn [events snd];
    rewrite ?app_nil_r; intros Hin;
    change (ELog ?a :: EImagine ?b ?c :: tail)
      with ([ELog a; EImagine b c] ++ tail) in *;
    repeat (apply in_app_or in Hin as [Hin|Hin]);
    try (apply in_or_app; by auto);
    repeat (destruct Hin as [Hin|Hin]; [discriminate Hin|]); done.
Qed.
End MetadataWrites.

(** C6, as amended. A failed write of the metadata makes the item fail: the
    error is logged, the generation returns [null] and the character is not
    recorded. A failed download or write of an image is logged by
    [downloadImage] and goes no further: [downloadImage] never raises, so
    the failure alone does not make the item fail, and the character is
    recorded, with the address of the first variation, whenever the write of
    the metadata succeeds. In both cases the loop goes on: the character
    phase never raises and submits every character. *)
Theorem write_failure_marking (env : Env) (c : Character) (script : AnimeScript)
    (characterRefs : gmap string string) (prompt outputName : string)
    (type : ExampleScript.GenType) (url path : string) (w : World) :
  (forall mpath md,
     In (EWriteFile mpath (CMetadata md) false)
        (events (ExampleScript.generateAndSelectVariation env prompt outputName
                   type w)) ->
     result (ExampleScript.generateAndSelectVariation env prompt outputName type w)
     = Ok None
     /\ In (EError ("Error generating " +:+ outputName +:+ ":"))
           (events (ExampleScript.generateAndSelectVariation env prompt
                      outputName type w)))
  /\ (forall mpath md,
        In (EWriteFile mpath (CMetadata md) false)
           (events (ExampleScript.generateCharacterReference env c characterRefs w)) ->
        result (ExampleScript.generateCharacterReference env c characterRefs w)
        = Ok characterRefs
        /\ In (EError ("Error generating " +:+ "character_"
                       +:+ toLowerCase env (name c) +:+ ":"))
              (events (ExampleScript.generateCharacterReference env c
                         characterRefs w)))
  /\ (forall mpath md,
        In (EWriteFile mpath (CMetadata md) true)
           (events (ExampleScript.generateCharacterReference env c characterRefs w)) ->
        exists r v0 rest,
          Imagine_o env w (ExampleScript.buildCharacterPrompt c) = Ok (Some r)
          /\ options r = Some (v0 :: rest)
          /\ result (ExampleScript.generateCharacterReference env c characterRefs w)
             = Ok (if truthy (var_uri v0)
                   then <[name c := var_uri v0]> characterRefs
                   else characterRefs))
  /\ result (ExampleScript.downloadImage env url path w) = Ok tt
  /\ (fetch_o env w url = None \/ writeFile_o env (tick w) path = false ->
      In (EError ("Error downloading image from " +:+ url +:+ ":"))
         (events (ExampleScript.downloadImage env url path w))
      /\ forall b, ~ In (EWriteFile path (CBuffer b) true)
                        (events (ExampleScript.downloadImage env url path w)))
  /\ (exists characterRefs',
        result (ExampleScript.generateCharacterReferences env script characterRefs w)
        = Ok characterRefs'
        /\ imagine_prompts
             (events (ExampleScript.generateCharacterReferences env script
                        characterRefs w))
           = map ExampleScript.buildCharacterPrompt (characters script)).
Proof.
  repeat apply conj.
  - intros mpath md. apply generateAndSelectVariation_metadata_failure.
  - intros mpath md Hin.
    apply generateCharacterReference_metadata in Hin.
    destruct (generateAndSelectVariation_metadata_failure env _ _ _ _ _ _ Hin)
      as [Hres Herr].
    split.
    + by rewrite generateCharacterReference_result, Hres.
    + unfold ExampleScript.generateCharacterReference. cbv zeta.
      rewrite bind_run.
      destruct (ExampleScript.generateAndSelectVariation env _ _ _ w)
        as [[[res|err] w1] e1]; cbn [result events fst snd] in *;
        [|discriminate Hres].
      apply in_or_app. by left.
  - intros mpath md Hin.
    apply generateCharacterReference_metadata in Hin.
    destruct (generateAndSelectVariation_metadata_success env _ _ _ _ _ _ Hin)
      as (r & v0 & rest & HI & Ho & Hres).
    exists r, v0, rest. split; [done|]. split; [done|].
    rewrite generateCharacterReference_result, Hres.
    cbn [ExampleScript.response_uri uri]. by destruct (truthy (var_uri v0)).
  - apply downloadImage_quiet.
  - intros Hfail.
    destruct (downloadImage_cases env url path w)
      as [(b & Hf & Hw & _)|[(b & _ & _ & ->)|(_ & ->)]].
    + destruct Hfail as [Hfail|Hfail]; congruence.
    + split; [right; right; by left|].
      intros b' Hin. repeat destruct Hin as [Hin|Hin]; done.
    + split; [right; by left|].
      intros b' Hin. repeat destruct Hin as [Hin|Hin]; done.
  - apply generateCharacterReferences_total.
Qed.

(** On a disk that rejects every image, Rin's image is never written, and
    Rin is recorded in [characterRefs] all the same: C6 does not hold of a
    failed artifact write. *)
Lemma write_failure_marking_counterexample :
  let run :=
    ExampleScript.generateCharacterReference
      (sample_env always_succeeds true only_metadata) Rin ∅ empty_world in
  In (EWriteFile "anime_output/characters/character_rin.png"
        (CBuffer [Byte.x89; Byte.x50]) false) (events run)
  /\ List.filter is_artifact_write (events run) = []
  /\ result run = Ok {[ "Rin" := "https://cdn.example/0.png" ]}.
Proof.
  cbv zeta. split; [|split].
  - vm_compute. repeat (try (left; reflexivity); right).
  - vm_compute. reflexivity.
  - vm_compute. reflexivity.
Qed.

Lemma write_failure_marking_witness :
  result
    (ExampleScript.generateCharacterReference
       (sample_env always_succeeds true (fun _ => false)) Rin ∅ empty_world)
  = Ok ∅
  /\ (exists r v0 rest,
        Imagine_o (sample_env always_succeeds true only_metadata) empty_world
          (ExampleScript.buildCharacterPrompt Rin)
        = Ok (Some r)
        /\ options r = Some (v0 :: rest)
        /\ result
             (ExampleScript.generateCharacterReference
                (sample_env always_succeeds true only_metadata) Rin ∅ empty_world)
           = Ok (if truthy (var_uri v0) then <["Rin" := var_uri v0]> ∅ else ∅))
  /\ In (EError "Error downloading image from https://cdn.example/0.png:")
        (events
           (ExampleScript.downloadImage
              (sample_env always_succeeds true (fun _ => false))
              "https://cdn.example/0.png" "rin.png" empty_world)).
Proof.
  pose (md :=
          {| md_prompt := ExampleScript.buildCharacterPrompt Rin;
             imagineId := Some "message-1";
             selectedVariation := "variation-0";
             allVariations :=
               [ ("variation-0", "https://cdn.example/0.png");
                 ("variation-1", "https://cdn.example/1.png");
                 ("variation-2", "https://cdn.example/2.png") ];
             localPath := "anime_output/characters/character_rin.png";
             timestamp := "2024-01-01T00:00:00.000Z" |}).
  split; [|split].
  - destruct (write_failure_marking
                (sample_env always_succeeds true (fun _ => false)) Rin
                sample_script ∅ "" "" ExampleScript.character
                "https://cdn.example/0.png" "rin.png" empty_world)
      as (_ & Hmeta & _).
    apply (Hmeta "anime_output/characters/character_rin_metadata.json" md).
    vm_compute. repeat (try (left; reflexivity); right).
  - destruct (write_failure_marking
                (sample_env always_succeeds true only_metadata) Rin
                sample_script ∅ "" "" ExampleScript.character
                "https://cdn.example/0.png" "rin.png" empty_world)
      as (_ & _ & Hrecorded & _).
    apply (Hrecorded "anime_output/characters/character_rin_metadata.json" md).
    vm_compute. repeat (try (left; reflexivity); right).
  - destruct (write_failure_marking
                (sample_env always_succeeds true (fun _ => false)) Rin
                sample_script ∅ "" "" ExampleScript.character
                "https://cdn.example/0.png" "rin.png" empty_world)
      as (_ & _ & _ & _ & Hdownload & _).
    apply Hdownload. right. reflexivity.
Defined.

(** ** The storyboard program of [anime.ts]: one item *)

Section StoryboardItems.
Variable env : Env.

(** The code shared by [generateCharacter] and [generateScene]: from
    [Imagine] to the end of [downloadImage]. *)
Lemma generation_run {A} (prompt ipath : string) (fail1 fail2 : string)
    (k : string -> A) w :
  exists r w' evs,
    generation_trace prompt ipath r evs
    /\ (result0 <- Imagine env prompt ;;
        match result0 with
        | None => throw fail1
        | Some result0 =>
            upscaled <- Upscale env 1 (id result0) (hash result0) (flags result0) ;;
            match Storyboard.upscaled_uri upscaled with
            | None => throw fail2
            | Some u =>
                Storyboard.downloadImage env u ipath ;;
                ret (k u)
            end
        end) w
       = (match r with Ok u => Ok (k u) | Thrown err => Thrown err end, w', evs).
Proof.
  unfold bind, Imagine, Upscale, Storyboard.downloadImage, bind, http_get,
    writeFile, console_log, emit, throw, ret.
  destruct (Imagine_o env w prompt) as [[r|]|err] eqn:HI.
  2:{ exists (Thrown fail1), (tick w), [EImagine prompt (Ok None)].
      split; [by constructor|done]. }
  2:{ exists (Thrown err), (tick w), [EImagine prompt (Thrown err)].
      split; [by constructor|done]. }
  destruct (Upscale_o env (tick w) 1 (id r) (hash r) (flags r))
    as [up|err] eqn:HU.
  2:{ eexists (Thrown err), _, _. split; [|reflexivity].
      by apply (gt_no_upscale _ _ r (Thrown err)). }
  destruct (Storyboard.upscaled_uri up) as [u|] eqn:Hu.
  2:{ eexists (Thrown fail2), _, _. split; [|reflexivity].
      by apply (gt_no_upscale _ _ r (Ok up)). }
  destruct (fetch_o env (tick (tick w)) u) as [b|] eqn:Hf.
  2:{ eexists (Thrown "fetch"), _, _. split; [|reflexivity].
      by apply (gt_no_fetch _ _ r (Ok up)). }
  destruct (writeFile_o env (tick (tick (tick w))) ipath) eqn:Hw.
  - eexists (Ok u), _, _. split; [|reflexivity].
    by apply (gt_written _ _ r (Ok up)).
  - eexists (Thrown "writeFile"), _, _. split; [|reflexivity].
    by apply (gt_no_write _ _ r (Ok up)).
Qed.

Lemma generateCharacter_run c w :
  let ipath :=
    path_join env ["output/character_images"; Storyboard.name c +:+ ".png"] in
  exists r w' evs,
    generation_trace (Storyboard.prompt c) ipath r evs
    /\ Storyboard.generateCharacter env c w
       = (match r with Ok u => Ok (u, ipath) | Thrown err => Thrown err end, w',
          ELog ("Generating character: " +:+ Storyboard.name c) :: evs).
Proof.
  cbv zeta. unfold Storyboard.generateCharacter.
  destruct (generation_run (Storyboard.prompt c)
              (path_join env ["output/character_images";
                              Storyboard.name c +:+ ".png"])
              ("Failed to generate character " +:+ Storyboard.name c)
              ("Failed to upscale character " +:+ Storyboard.name c)
              (fun u => (u, path_join env ["output/character_images";
                                           Storyboard.name c +:+ ".png"])) w)
    as (r & w' & evs & Htrace & Heq).
  exists r, w', evs. split; [done|].
  unfold bind at 1. unfold console_log, emit.
  rewrite Heq. by destruct r.
Qed.

Lemma generateScene_run sc characterRefs w :
  let ipath :=
    path_join env ["output/scene_images"; Storyboard.scene_title sc +:+ ".png"] in
  let prompt := Storyboard.render characterRefs (Storyboard.scene_prompt sc) in
  exists r w' evs,
    generation_trace prompt ipath r evs
    /\ Storyboard.generateScene env sc characterRefs w
       = (match r with Ok u => Ok ipath | Thrown err => Thrown err end, w',
          ELog ("Generating scene: " +:+ Storyboard.scene_title sc)
          :: ELog ("Scene prompt: " +:+ prompt) :: evs).
Proof.
  cbv zeta. unfold Storyboard.generateScene.
  destruct (generation_run
              (Storyboard.render characterRefs (Storyboard.scene_prompt sc))
              (path_join env ["output/scene_images";
                              Storyboard.scene_title sc +:+ ".png"])
              ("Failed to generate scene " +:+ Storyboard.scene_title sc)
              ("Failed to upscale scene " +:+ Storyboard.scene_title sc)
              (fun _ => path_join env ["output/scene_images";
                                       Storyboard.scene_title sc +:+ ".png"]) w)
    as (r & w' & evs & Htrace & Heq).
  exists r, w', evs. split; [done|].
  unfold bind at 1. unfold console_log at 1, emit at 1.
  unfold bind at 1. unfold console_log at 1, emit at 1.
  rewrite Heq. by destruct r.
Qed.

(** One iteration of the loop over the characters. *)
Lemma character_iteration_run c s w :
  let ipath :=
    path_join env ["output/character_images"; Storyboard.name c +:+ ".png"] in
  let p' := Storyboard.push_character (Storyboard.progress s) (Storyboard.name c) in
  exists outcome err w' evs,
    iteration_trace
      ("Skipping already generated character: " +:+ Storyboard.name c)
      [ELog ("Generating character: " +:+ Storyboard.name c)]
      (Storyboard.prompt c) ipath (Storyboard.progress_json env) p'
      ("Generated " +:+ Storyboard.name c +:+ ":") outcome evs
    /\ (outcome = Some None <->
        Storyboard.includes (completedCharacters (Storyboard.progress s))
          (Storyboard.name c) = true)
    /\ Storyboard.character_iteration env c s w
       = (match outcome with
          | Some None => Ok s
          | Some (Some u) =>
              Ok {| Storyboard.progress := p';
                    Storyboard.characterRefs :=
                      <[Storyboard.name c := u]> (Storyboard.characterRefs s);
                    Storyboard.characterFiles :=
                      <[Storyboard.name c := ipath]> (Storyboard.characterFiles s) |}
          | None => Thrown err
          end, w', evs).
Proof.
  cbv zeta. unfold Storyboard.character_iteration.
  destruct (Storyboard.includes _ _) eqn:Hinc; cbn [negb].
  { eexists (Some None), "", w, _. split; [constructor|]. by repeat split. }
  destruct (generateCharacter_run c w) as (r & w1 & evs & Htrace & Heq).
  unfold bind at 1. rewrite Heq.
  destruct r as [u|err].
  - cbn [fst snd]. unfold Storyboard.saveProgress, bind, writeFile.
    destruct (writeFile_o env w1 (Storyboard.progress_json env)) eqn:Hw.
    + eexists (Some (Some u)), "", _, _. split; [by apply (it_saved _ [_])|].
      split; [split; discriminate|reflexivity].
    + eexists None, _, _, _. split; [by apply (it_not_saved _ [_] _ _ _ _ _ u)|].
      split; [split; [discriminate|congruence]|reflexivity].
  - eexists None, _, _, _. split; [by apply (it_failed _ [_] _ _ _ _ _ err)|].
    split; [split; [discriminate|congruence]|reflexivity].
Qed.

(** One iteration of the loop over the scenes. *)
Lemma scene_iteration_run sc s w :
  let ipath :=
    path_join env ["output/scene_images"; Storyboard.scene_title sc +:+ ".png"] in
  let prompt :=
    Storyboard.render (Storyboard.characterRefs s) (Storyboard.scene_prompt sc) in
  let p' := Storyboard.push_scene (Storyboard.progress s) (Storyboard.scene_title sc) in
  exists outcome err w' evs,
    iteration_trace
      ("Skipping already generated scene: " +:+ Storyboard.scene_title sc)
      [ ELog ("Generating scene: " +:+ Storyboard.scene_title sc);
        ELog ("Scene prompt: " +:+ prompt) ]
      prompt ipath (Storyboard.progress_json env) p'
      ("Generated scene " +:+ Storyboard.scene_title sc +:+ " at " +:+ ipath)
      outcome evs
    /\ (outcome = Some None <->
        Storyboard.includes (completedScenes (Storyboard.progress s))
          (Storyboard.scene_title sc) = true)
    /\ Storyboard.scene_iteration env sc s w
       = (match outcome with
          | Some None => Ok s
          | Some (Some u) =>
              Ok {| Storyboard.progress := p';
                    Storyboard.characterRefs := Storyboard.characterRefs s;
                    Storyboard.characterFiles := Storyboard.characterFiles s |}
          | None => Thrown err
          end, w', evs).
Proof.
  cbv zeta. unfold Storyboard.scene_iteration.
  destruct (Storyboard.includes _ _) eqn:Hinc; cbn [negb].
  { eexists (Some None), "", w, _. split; [constructor|]. by repeat split. }
  destruct (generateScene_run sc (Storyboard.characterRefs s) w)
    as (r & w1 & evs & Htrace & Heq).
  unfold bind at 1. rewrite Heq.
  destruct r as [u|err].
  - cbn [fst snd]. unfold Storyboard.saveProgress, bind, writeFile.
    destruct (writeFile_o env w1 (Storyboard.progress_json env)) eqn:Hw.
    + eexists (Some (Some u)), "", _, _.
      split; [by apply (it_saved _ [_; _])|].
      split; [split; discriminate|reflexivity].
    + eexists None, _, _, _.
      split; [by apply (it_not_saved _ [_; _] _ _ _ _ _ u)|].
      split; [split; [discriminate|congruence]|reflexivity].
  - eexists None, _, _, _.
    split; [by apply (it_failed _ [_; _] _ _ _ _ _ err)|].
    split; [split; [discriminate|congruence]|reflexivity].
Qed.
End StoryboardItems.

(** ** The storyboard program: properties of the traces of an item *)

Lemma ledger_writes_none pre path p ok post :
  ledger_writes (pre ++ EWriteFile path (CProgress p) ok :: post) <> [].
Proof.
  rewrite ledger_writes_app. simpl.
  intros H. apply app_eq_nil in H as [_ H]. discriminate H.
Qed.

Lemma artifact_precedes_ledger_none env evs :
  ledger_writes evs = [] -> artifact_precedes_ledger env evs.
Proof.
  intros H pre path p ok post ->. by destruct (ledger_writes_none pre path p ok post).
Qed.

Lemma artifact_precedes_ledger_app env e1 e2 :
  artifact_precedes_ledger env e1 -> artifact_precedes_ledger env e2 ->
  artifact_precedes_ledger env (e1 ++ e2).
Proof.
  intros H1 H2 pre path p ok post Heq.
  apply app_eq_cons_app in Heq as [(post1 & -> & ->)|(pre2 & -> & ->)].
  - by apply (H1 pre path p ok post1).
  - destruct (H2 pre2 path p ok post eq_refl)
      as (pre' & u & buf & item & ipath & p0 & -> & Hitem).
    exists (e1 ++ pre'), u, buf, item, ipath, p0.
    split; [by rewrite app_assoc|done].
Qed.

Lemma no_null_result_last evs : no_null_result evs -> null_result_last evs.
Proof.
  intros H pre P post ->. destruct (H P). apply in_or_app. right. by left.
Qed.

Lemma no_null_result_app e1 e2 :
  no_null_result e1 -> no_null_result e2 -> no_null_result (e1 ++ e2).
Proof.
  intros H1 H2 P Hin. apply in_app_or in Hin as [Hin|Hin]; [by apply (H1 P)|by apply (H2 P)].
Qed.

Lemma null_result_last_app e1 e2 :
  no_null_result e1 -> null_result_last e2 -> null_result_last (e1 ++ e2).
Proof.
  intros H1 H2 pre P post Heq.
  apply app_eq_cons_app in Heq as [(post1 & -> & ->)|(pre2 & -> & ->)].
  - destruct (H1 P). apply in_or_app. right. by left.
  - by apply (H2 pre2 P post).
Qed.

Lemma last_cons_default {A} (a : A) l d d' :
  List.last (a :: l) d = List.last (a :: l) d'.
Proof. revert a. induction l as [|b l IH]; intros a; [done|exact (IH b)]. Qed.

Lemma last_default_app {A} (l1 l2 : list A) d :
  List.last (l1 ++ l2) d = List.last l2 (List.last l1 d).
Proof.
  revert d. induction l1 as [|a l1 IH]; intros d; [done|].
  destruct l1 as [|b l1].
  - destruct l2 as [|c l2]; [done|]. apply (last_cons_default c l2).
  - exact (IH d).
Qed.

Lemma ledger_chain_app p l1 l2 :
  ledger_chain p (l1 ++ l2) <-> ledger_chain p l1 /\ ledger_chain (List.last l1 p) l2.
Proof.
  revert p. induction l1 as [|q l1 IH]; intros p.
  - simpl. tauto.
  - change ((q :: l1) ++ l2) with (q :: (l1 ++ l2)).
    cbn [ledger_chain]. rewrite IH.
    replace (List.last (q :: l1) p) with (List.last l1 q); [tauto|].
    destruct l1 as [|r l1]; [done|]. apply (last_cons_default r l1).
Qed.

Lemma only_logs_ledger_writes logs :
  Forall (fun e => exists msg, e = ELog msg) logs -> ledger_writes logs = [].
Proof. induction 1 as [|e l [msg ->] _ IH]; [done|exact IH]. Qed.

Section ItemTraces.
Context (prompt ipath : string).

Lemma generation_trace_ledger_writes r evs :
  generation_trace prompt ipath r evs -> ledger_writes evs = [].
Proof. by destruct 1. Qed.

Lemma generation_trace_no_record r evs :
  generation_trace prompt ipath r evs ->
  Forall (fun e => is_record_write e = false) evs.
Proof. destruct 1; repeat constructor. Qed.

Lemma generation_trace_null r evs :
  generation_trace prompt ipath r evs ->
  match r with
  | Ok _ => no_null_result evs
  | Thrown _ => null_result_last evs
  end.
Proof.
  destruct 1 as [res err Hres| | | |].
  - intros pre P post Heq.
    destruct pre as [|e pre]; [by injection Heq|].
    by destruct pre.
  - apply no_null_result_last. intros P [Hin|[Hin|[]]]; done.
  - apply no_null_result_last. intros P [Hin|[Hin|[Hin|[]]]]; done.
  - apply no_null_result_last. intros P [Hin|[Hin|[Hin|[Hin|[]]]]]; done.
  - intros P [Hin|[Hin|[Hin|[Hin|[Hin|[]]]]]]; done.
Qed.

Lemma generation_trace_prompts r evs P res :
  generation_trace prompt ipath r evs -> In (EImagine P res) evs -> P = prompt.
Proof.
  destruct 1; intros Hin;
    repeat (destruct Hin as [Hin|Hin]; [by simplify_eq|]); done.
Qed.

Lemma generation_trace_upscaled u evs :
  generation_trace prompt ipath (Ok u) evs ->
  exists i a b f up, In (EUpscale i a b f up) evs /\ upscale_uri up = Some u.
Proof.
  inversion 1; subst. do 5 eexists. split; [right; by left|done].
Qed.

(** An image that is written comes with its download, right before the
    end of the generation. *)
Lemma generation_trace_written u evs :
  generation_trace prompt ipath (Ok u) evs ->
  exists pre buf,
    evs = pre ++ [ EFetch u (Some buf); EWriteFile ipath (CBuffer buf) true;
                   ELog ("Downloaded image to " +:+ ipath) ].
Proof.
  inversion 1; subst.
  by eexists [_; _], _.
Qed.

Context (skip_log : string) (logs : list Event) (ledger : string)
  (p' : ProgressState) (done_log : string).
Hypothesis logs_are_logs : Forall (fun e => exists msg, e = ELog msg) logs.

Lemma logs_ledger_writes : ledger_writes logs = [].
Proof. by apply only_logs_ledger_writes. Qed.

Lemma logs_no_null : no_null_result logs.
Proof.
  intros P Hin. rewrite List.Forall_forall in logs_are_logs.
  by destruct (logs_are_logs _ Hin).
Qed.

Lemma iteration_trace_ledger_writes outcome evs :
  iteration_trace skip_log logs prompt ipath ledger p' done_log outcome evs ->
  match outcome with
  | Some None => ledger_writes evs = []
  | Some (Some _) => ledger_writes evs = [p']
  | None => ledger_writes evs = [] \/ ledger_writes evs = [p']
  end.
Proof.
  destruct 1 as [|err evs Hgen|u evs Hgen|u evs Hgen];
    rewrite ?ledger_writes_app, ?logs_ledger_writes,
      ?(generation_trace_ledger_writes _ _ Hgen); auto.
Qed.

Lemma iteration_trace_no_record outcome evs :
  iteration_trace skip_log logs prompt ipath ledger p' done_log outcome evs ->
  Forall (fun e => is_record_write e = false) evs.
Proof.
  assert (Hlogs : Forall (fun e => is_record_write e = false) logs).
  { eapply List.Forall_impl; [|exact logs_are_logs]. by intros e [msg ->]. }
  destruct 1 as [|err evs Hgen|u evs Hgen|u evs Hgen];
    repeat first [apply Forall_app; split | by repeat constructor
                 | by eapply generation_trace_no_record | done ].
Qed.

Lemma iteration_trace_null outcome evs :
  iteration_trace skip_log logs prompt ipath ledger p' done_log outcome evs ->
  match outcome with
  | Some _ => no_null_result evs
  | None => null_result_last evs
  end.
Proof.
  destruct 1 as [|err evs Hgen|u evs Hgen|u evs Hgen].
  - intros P [Hin|[]]; done.
  - apply null_result_last_app; [apply logs_no_null|].
    apply (generation_trace_null _ _ Hgen).
  - apply no_null_result_last.
    apply no_null_result_app; [apply logs_no_null|].
    apply no_null_result_app; [apply (generation_trace_null _ _ Hgen)|].
    intros P [Hin|[]]; done.
  - apply no_null_result_app; [apply logs_no_null|].
    apply no_null_result_app; [apply (generation_trace_null _ _ Hgen)|].
    intros P [Hin|[Hin|[Hin|[]]]]; done.
Qed.

Lemma iteration_trace_prompts outcome evs P res :
  iteration_trace skip_log logs prompt ipath ledger p' done_log outcome evs ->
  In (EImagine P res) evs ->
  P = prompt /\ outcome <> Some None.
Proof.
  rewrite List.Forall_forall in logs_are_logs.
  destruct 1 as [|err evs Hgen|u evs Hgen|u evs Hgen]; intros Hin.
  - by destruct Hin as [Hin|[]].
  - apply in_app_or in Hin as [Hin|Hin]; [by destruct (logs_are_logs _ Hin)|].
    split; [by eapply generation_trace_prompts|done].
  - apply in_app_or in Hin as [Hin|Hin]; [by destruct (logs_are_logs _ Hin)|].
    apply in_app_or in Hin as [Hin|[Hin|[]]]; [|done].
    split; [by eapply generation_trace_prompts|done].
  - apply in_app_or in Hin as [Hin|Hin]; [by destruct (logs_are_logs _ Hin)|].
    apply in_app_or in Hin as [Hin|[Hin|[Hin|[Hin|[]]]]]; try done.
    split; [by eapply generation_trace_prompts|done].
Qed.

Lemma iteration_trace_upscaled u evs :
  iteration_trace skip_log logs prompt ipath ledger p' done_log
    (Some (Some u)) evs ->
  exists i a b f up, In (EUpscale i a b f up) evs /\ upscale_uri up = Some u.
Proof.
  inversion 1 as [| | |u' evs' Hgen]; subst.
  destruct (generation_trace_upscaled _ _ Hgen) as (i & a & b & f & up & Hin & Hu).
  exists i, a, b, f, up. split; [|done].
  apply in_or_app. right. apply in_or_app. by left.
Qed.

Lemma iteration_trace_artifact env outcome evs item p0 :
  iteration_trace skip_log logs prompt ipath ledger p' done_log outcome evs ->
  (p' = Storyboard.push_character p0 item
   /\ ipath = path_join env ["output/character_images"; item +:+ ".png"])
  \/ (p' = Storyboard.push_scene p0 item
      /\ ipath = path_join env ["output/scene_images"; item +:+ ".png"]) ->
  artifact_precedes_ledger env evs.
Proof.
  intros Htrace Hitem.
  assert (Hsave : forall u gen ok tail,
            generation_trace prompt ipath (Ok u) gen ->
            ledger_writes tail = [] ->
            artifact_precedes_ledger env
              (logs ++ gen ++ EWriteFile ledger (CProgress p') ok :: tail)).
  { intros u gen ok tail Hgen Htail pre path p ok' post Heq.
    destruct (generation_trace_written _ _ Hgen) as (gpre & buf & ->).
    apply app_eq_cons_app in Heq as [(post1 & Heq & _)|(pre2 & -> & Heq)].
    { pose proof logs_ledger_writes as Hl. rewrite Heq in Hl.
      by destruct (ledger_writes_none _ _ _ _ _ Hl). }
    apply app_eq_cons_app in Heq as [(post1 & Heq & _)|(pre3 & -> & Heq)].
    { pose proof (generation_trace_ledger_writes _ _ Hgen) as Hl.
      rewrite Heq in Hl. by destruct (ledger_writes_none _ _ _ _ _ Hl). }
    destruct pre3 as [|e pre3].
    - injection Heq as H1 H2 H3 H4. subst path p ok' post.
      exists (logs ++ gpre), u, buf, item, ipath, p0.
      split; [|done]. by rewrite app_nil_r, app_assoc.
    - injection Heq as H1 Heq. rewrite Heq in Htail.
      by destruct (ledger_writes_none _ _ _ _ _ Htail). }
  destruct Htrace as [|err evs Hgen|u evs Hgen|u evs Hgen].
  - by apply artifact_precedes_ledger_none.
  - apply artifact_precedes_ledger_none.
    by rewrite ledger_writes_app, logs_ledger_writes,
      (generation_trace_ledger_writes _ _ Hgen).
  - by apply (Hsave u).
  - by apply (Hsave u).
Qed.
End ItemTraces.

(** ** The storyboard program: loops and phases *)

Section StoryboardRuns.
Variable env : Env.

Abbreviation character_trace c s :=
  (iteration_trace
     ("Skipping already generated character: " +:+ Storyboard.name c)
     [ELog ("Generating character: " +:+ Storyboard.name c)]
     (Storyboard.prompt c)
     (path_join env ["output/character_images"; Storyboard.name c +:+ ".png"])
     (Storyboard.progress_json env)
     (Storyboard.push_character (Storyboard.progress s) (Storyboard.name c))
     ("Generated " +:+ Storyboard.name c +:+ ":")).

Abbreviation scene_trace sc s :=
  (iteration_trace
     ("Skipping already generated scene: " +:+ Storyboard.scene_title sc)
     [ ELog ("Generating scene: " +:+ Storyboard.scene_title sc);
       ELog ("Scene prompt: "
             +:+ Storyboard.render (Storyboard.characterRefs s)
                   (Storyboard.scene_prompt sc)) ]
     (Storyboard.render (Storyboard.characterRefs s) (Storyboard.scene_prompt sc))
     (path_join env ["output/scene_images"; Storyboard.scene_title sc +:+ ".png"])
     (Storyboard.progress_json env)
     (Storyboard.push_scene (Storyboard.progress s) (Storyboard.scene_title sc))
     ("Generated scene " +:+ Storyboard.scene_title sc +:+ " at "
      +:+ path_join env ["output/scene_images";
                         Storyboard.scene_title sc +:+ ".png"])).

(** What an iteration over a character gives, by its result. *)
Lemma character_iteration_trace c s w :
  match Storyboard.character_iteration env c s w with
  | (Ok s', w', evs) =>
      (character_trace c s (Some None) evs /\ s' = s
       /\ Storyboard.includes (completedCharacters (Storyboard.progress s))
            (Storyboard.name c) = true)
      \/ (exists u,
            character_trace c s (Some (Some u)) evs
            /\ Storyboard.includes (completedCharacters (Storyboard.progress s))
                 (Storyboard.name c) = false
            /\ s' = {| Storyboard.progress :=
                         Storyboard.push_character (Storyboard.progress s)
                           (Storyboard.name c);
                       Storyboard.characterRefs :=
                         <[Storyboard.name c := u]> (Storyboard.characterRefs s);
                       Storyboard.characterFiles :=
                         <[Storyboard.name c :=
                             path_join env ["output/character_images";
                                            Storyboard.name c +:+ ".png"]]>
                           (Storyboard.characterFiles s) |})
  | (Thrown _, _, evs) =>
      character_trace c s None evs
      /\ Storyboard.includes (completedCharacters (Storyboard.progress s))
           (Storyboard.name c) = false
  end.
Proof.
  destruct (character_iteration_run env c s w)
    as (outcome & err & w' & evs & Htrace & Hskip & ->).
  destruct (Storyboard.includes _ _) eqn:Hinc.
  - rewrite (proj2 Hskip eq_refl) in *. by left.
  - destruct outcome as [[u|]|].
    + right. by exists u.
    + discriminate (proj1 Hskip eq_refl).
    + done.
Qed.

(** What an iteration over a scene gives, by its result. *)
Lemma scene_iteration_trace sc s w :
  match Storyboard.scene_iteration env sc s w with
  | (Ok s', w', evs) =>
      (scene_trace sc s (Some None) evs /\ s' = s
       /\ Storyboard.includes (completedScenes (Storyboard.progress s))
            (Storyboard.scene_title sc) = true)
      \/ (exists u,
            scene_trace sc s (Some (Some u)) evs
            /\ Storyboard.includes (completedScenes (Storyboard.progress s))
                 (Storyboard.scene_title sc) = false
            /\ s' = {| Storyboard.progress :=
                         Storyboard.push_scene (Storyboard.progress s)
                           (Storyboard.scene_title sc);
                       Storyboard.characterRefs := Storyboard.characterRefs s;
                       Storyboard.characterFiles := Storyboard.characterFiles s |})
  | (Thrown _, _, evs) =>
      scene_trace sc s None evs
      /\ Storyboard.includes (completedScenes (Storyboard.progress s))
           (Storyboard.scene_title sc) = false
  end.
Proof.
  destruct (scene_iteration_run env sc s w)
    as (outcome & err & w' & evs & Htrace & Hskip & ->).
  destruct (Storyboard.includes _ _) eqn:Hinc.
  - rewrite (proj2 Hskip eq_refl) in *. by left.
  - destruct outcome as [[u|]|].
    + right. by exists u.
    + discriminate (proj1 Hskip eq_refl).
    + done.
Qed.

Lemma character_logs c :
  Forall (fun e => exists msg, e = ELog msg)
    [ELog ("Generating character: " +:+ Storyboard.name c)].
Proof. repeat constructor. by eexists. Qed.

Lemma scene_logs sc refs :
  Forall (fun e => exists msg, e = ELog msg)
    [ ELog ("Generating scene: " +:+ Storyboard.scene_title sc);
      ELog ("Scene prompt: " +:+ Storyboard.render refs (Storyboard.scene_prompt sc)) ].
Proof. repeat constructor; by eexists. Qed.

(** A property of traces that holds of every item, skipped, completed or
    failed, holds of a loop. *)
Lemma loop_traces {X} (body : X -> Storyboard.State -> M Storyboard.State)
    (T : list Event -> Prop) xs :
  T [] ->
  (forall e1 e2, T e1 -> T e2 -> T (e1 ++ e2)) ->
  (forall x s w, In x xs -> T (events (body x s w))) ->
  forall s w, T (events (for_of body xs s w)).
Proof.
  intros Hnil Happ Hbody s w.
  pose proof (for_of_rule body (fun _ e _ => T e) (fun _ e => T e) xs) as Hrule.
  specialize (Hrule (fun _ => Hnil) (fun _ e1 _ e2 _ => Happ e1 e2)
                (fun _ e1 _ e2 => Happ e1 e2)).
  assert (Hb : forall x s w, In x xs ->
               match body x s w with
               | (Ok _, _, e) => T e
               | (Thrown _, _, e) => T e
               end).
  { intros x s0 w0 Hin. specialize (Hbody x s0 w0 Hin).
    by destruct (body x s0 w0) as [[[?|?] ?] ?]. }
  specialize (Hrule Hb s w).
  by destruct (for_of body xs s w) as [[[?|?] ?] ?].
Qed.

Lemma character_iteration_some_trace c s w :
  exists outcome,
    character_trace c s outcome (events (Storyboard.character_iteration env c s w)).
Proof.
  generalize (character_iteration_trace c s w).
  destruct (Storyboard.character_iteration env c s w) as [[[s'|err] w'] evs].
  - intros [(H & _)|(u & H & _)]; eauto.
  - intros (H & _); eauto.
Qed.

Lemma scene_iteration_some_trace sc s w :
  exists outcome,
    scene_trace sc s outcome (events (Storyboard.scene_iteration env sc s w)).
Proof.
  generalize (scene_iteration_trace sc s w).
  destruct (Storyboard.scene_iteration env sc s w) as [[[s'|err] w'] evs].
  - intros [(H & _)|(u & H & _)]; eauto.
  - intros (H & _); eauto.
Qed.

(** In both loops the ledger is written right after the image of the item
    it adds, and no record is written. *)
Lemma characters_loop_artifact cs s w :
  artifact_precedes_ledger env
    (events (for_of (Storyboard.character_iteration env) cs s w)).
Proof.
  apply loop_traces.
  - by apply artifact_precedes_ledger_none.
  - apply artifact_precedes_ledger_app.
  - intros c s0 w0 _.
    destruct (character_iteration_some_trace c s0 w0) as (outcome & Htrace).
    eapply iteration_trace_artifact; [apply character_logs|exact Htrace|].
    left. split; reflexivity.
Qed.

Lemma scenes_loop_artifact scs s w :
  artifact_precedes_ledger env
    (events (for_of (Storyboard.scene_iteration env) scs s w)).
Proof.
  apply loop_traces.
  - by apply artifact_precedes_ledger_none.
  - apply artifact_precedes_ledger_app.
  - intros sc s0 w0 _.
    destruct (scene_iteration_some_trace sc s0 w0) as (outcome & Htrace).
    eapply iteration_trace_artifact; [apply scene_logs|exact Htrace|].
    right. split; reflexivity.
Qed.

Lemma characters_loop_no_record cs s w :
  Forall (fun e => is_record_write e = false)
    (events (for_of (Storyboard.character_iteration env) cs s w)).
Proof.
  apply (loop_traces _ (Forall (fun e => is_record_write e = false))).
  - constructor.
  - intros e1 e2 H1 H2. by apply Forall_app.
  - intros c s0 w0 _.
    destruct (character_iteration_some_trace c s0 w0) as (outcome & Htrace).
    eapply iteration_trace_no_record; [apply character_logs|exact Htrace].
Qed.

Lemma scenes_loop_no_record scs s w :
  Forall (fun e => is_record_write e = false)
    (events (for_of (Storyboard.scene_iteration env) scs s w)).
Proof.
  apply (loop_traces _ (Forall (fun e => is_record_write e = false))).
  - constructor.
  - intros e1 e2 H1 H2. by apply Forall_app.
  - intros sc s0 w0 _.
    destruct (scene_iteration_some_trace sc s0 w0) as (outcome & Htrace).
    eapply iteration_trace_no_record; [apply scene_logs|exact Htrace].
Qed.
End StoryboardRuns.

Section StoryboardLoops.
Variable env : Env.

Lemma includes_app l x n :
  Storyboard.includes (l ++ [x]) n
  = Storyboard.includes l n || String.eqb n x.
Proof.
  unfold Storyboard.includes. rewrite existsb_app. simpl.
  by rewrite orb_false_r.
Qed.

Lemma includes_In l n : Storyboard.includes l n = true <-> In n l.
Proof.
  unfold Storyboard.includes. rewrite existsb_exists. split.
  - intros (x & Hin & Heq). apply String.eqb_eq in Heq. by subst.
  - intros Hin. exists n. split; [done|]. apply String.eqb_refl.
Qed.

(** A null result ends the loop it occurs in. *)
Lemma characters_loop_null cs s w :
  match for_of (Storyboard.character_iteration env) cs s w with
  | (Ok _, _, e) => no_null_result e
  | (Thrown _, _, e) => null_result_last e
  end.
Proof.
  apply (for_of_rule _ (fun _ e _ => no_null_result e)
           (fun _ e => null_result_last e)).
  - intros _ P [].
  - intros _ e1 _ e2 _. apply no_null_result_app.
  - intros _ e1 _ e2. apply null_result_last_app.
  - intros c s0 w0 _. generalize (character_iteration_trace env c s0 w0).
    destruct (Storyboard.character_iteration env c s0 w0) as [[[s'|err] w'] e].
    + intros [(H & _)|(u & H & _)];
        apply (iteration_trace_null _ _ _ _ _ _ _ (character_logs c) _ _ H).
    + intros (H & _).
      apply (iteration_trace_null _ _ _ _ _ _ _ (character_logs c) _ _ H).
Qed.

Lemma scenes_loop_null scs s w :
  match for_of (Storyboard.scene_iteration env) scs s w with
  | (Ok _, _, e) => no_null_result e
  | (Thrown _, _, e) => null_result_last e
  end.
Proof.
  apply (for_of_rule _ (fun _ e _ => no_null_result e)
           (fun _ e => null_result_last e)).
  - intros _ P [].
  - intros _ e1 _ e2 _. apply no_null_result_app.
  - intros _ e1 _ e2. apply null_result_last_app.
  - intros sc s0 w0 _. generalize (scene_iteration_trace env sc s0 w0).
    destruct (Storyboard.scene_iteration env sc s0 w0) as [[[s'|err] w'] e].
    + intros [(H & _)|(u & H & _)];
        apply (iteration_trace_null _ _ _ _ _ _ _ (scene_logs sc _) _ _ H).
    + intros (H & _).
      apply (iteration_trace_null _ _ _ _ _ _ _ (scene_logs sc _) _ _ H).
Qed.

Lemma chain_to_nil s : chain_to s [] s.
Proof. by split. Qed.

Lemma chain_to_app s e1 s1 e2 s2 :
  chain_to s e1 s1 -> chain_to s1 e2 s2 -> chain_to s (e1 ++ e2) s2.
Proof.
  intros [H1 E1] [H2 E2]. unfold chain_to.
  rewrite ledger_writes_app, ledger_chain_app, <- E1. split; [done|].
  rewrite E2, E1. by rewrite last_default_app.
Qed.

Lemma chain_from_app s e1 s1 e2 :
  chain_to s e1 s1 -> chain_from s1 e2 -> chain_from s (e1 ++ e2).
Proof.
  intros [H1 E1] H2. unfold chain_from.
  by rewrite ledger_writes_app, ledger_chain_app, <- E1.
Qed.

Lemma characters_loop_chain cs s w :
  match for_of (Storyboard.character_iteration env) cs s w with
  | (Ok s', _, e) => chain_to s e s'
  | (Thrown _, _, e) => chain_from s e
  end.
Proof.
  apply (for_of_rule _ chain_to chain_from).
  - apply chain_to_nil.
  - apply chain_to_app.
  - apply chain_from_app.
  - intros c s0 w0 _. generalize (character_iteration_trace env c s0 w0).
    destruct (Storyboard.character_iteration env c s0 w0) as [[[s'|err] w'] e].
    + intros [(H & -> & _)|(u & H & _ & ->)];
        pose proof (iteration_trace_ledger_writes _ _ _ _ _ _ _
                      (character_logs c) _ _ H) as Hl;
        cbn beta iota in Hl; unfold chain_to; rewrite Hl; [done|].
      split; [|done]. split; [|done]. eexists. by left.
    + intros (H & _).
      pose proof (iteration_trace_ledger_writes _ _ _ _ _ _ _
                    (character_logs c) _ _ H) as [Hl|Hl];
        unfold chain_from; rewrite Hl; [done|].
      split; [|done]. eexists. by left.
Qed.

Lemma scenes_loop_chain scs s w :
  match for_of (Storyboard.scene_iteration env) scs s w with
  | (Ok s', _, e) => chain_to s e s'
  | (Thrown _, _, e) => chain_from s e
  end.
Proof.
  apply (for_of_rule _ chain_to chain_from).
  - apply chain_to_nil.
  - apply chain_to_app.
  - apply chain_from_app.
  - intros sc s0 w0 _. generalize (scene_iteration_trace env sc s0 w0).
    destruct (Storyboard.scene_iteration env sc s0 w0) as [[[s'|err] w'] e].
    + intros [(H & -> & _)|(u & H & _ & ->)];
        pose proof (iteration_trace_ledger_writes _ _ _ _ _ _ _
                      (scene_logs sc _) _ _ H) as Hl;
        cbn beta iota in Hl; unfold chain_to; rewrite Hl; [done|].
      split; [|done]. split; [|done]. eexists. by right.
    + intros (H & _).
      pose proof (iteration_trace_ledger_writes _ _ _ _ _ _ _
                    (scene_logs sc _) _ _ H) as [Hl|Hl];
        unfold chain_from; rewrite Hl; [done|].
      split; [|done]. eexists. by right.
Qed.

(** Items of the ledger are skipped, with a log and nothing else. *)
Lemma characters_loop_all_done cs s w :
  forallb (fun c => Storyboard.includes (completedCharacters (Storyboard.progress s))
                      (Storyboard.name c)) cs = true ->
  for_of (Storyboard.character_iteration env) cs s w
  = (Ok s, w,
     map (fun c => ELog ("Skipping already generated character: "
                         +:+ Storyboard.name c)) cs).
Proof.
  induction cs as [|c cs IH]; [done|].
  cbn [forallb]. intros [Hc Hcs]%andb_prop.
  cbn [for_of]. unfold bind at 1.
  unfold Storyboard.character_iteration at 1. rewrite Hc. cbn [negb].
  unfold bind at 1, console_log, emit, ret.
  by rewrite (IH Hcs).
Qed.

Lemma scenes_loop_all_done scs s w :
  forallb (fun sc => Storyboard.includes (completedScenes (Storyboard.progress s))
                       (Storyboard.scene_title sc)) scs = true ->
  for_of (Storyboard.scene_iteration env) scs s w
  = (Ok s, w,
     map (fun sc => ELog ("Skipping already generated scene: "
                          +:+ Storyboard.scene_title sc)) scs).
Proof.
  induction scs as [|sc scs IH]; [done|].
  cbn [forallb]. intros [Hc Hcs]%andb_prop.
  cbn [for_of]. unfold bind at 1.
  unfold Storyboard.scene_iteration at 1. rewrite Hc. cbn [negb].
  unfold bind at 1, console_log, emit, ret.
  by rewrite (IH Hcs).
Qed.
End StoryboardLoops.

Section StoryboardReferences.
Variable env : Env.

(** The character loop: a name of the ledger stays there and keeps the
    entry it has in [characterRefs], or its lack of one; every prompt
    submitted is the prompt of a character the ledger lacks; every new
    handle is the address an [Upscale] of the loop returned. *)
Lemma characters_loop_refs cs s w :
  match for_of (Storyboard.character_iteration env) cs s w with
  | (Ok s', _, e) =>
      (forall n,
         Storyboard.includes (completedCharacters (Storyboard.progress s)) n = true ->
         Storyboard.includes (completedCharacters (Storyboard.progress s')) n = true
         /\ Storyboard.characterRefs s' !! n = Storyboard.characterRefs s !! n)
      /\ (forall P res,
            In (EImagine P res) e ->
            exists c,
              In c cs /\ P = Storyboard.prompt c
              /\ Storyboard.includes (completedCharacters (Storyboard.progress s))
                   (Storyboard.name c) = false)
      /\ (forall n u,
            Storyboard.characterRefs s' !! n = Some u ->
            Storyboard.characterRefs s !! n = Some u
            \/ exists c i a b f up,
                 In c cs /\ Storyboard.name c = n
                 /\ In (EUpscale i a b f up) e /\ upscale_uri up = Some u)
  | (Thrown _, _, e) =>
      forall P res,
        In (EImagine P res) e ->
        exists c,
          In c cs /\ P = Storyboard.prompt c
          /\ Storyboard.includes (completedCharacters (Storyboard.progress s))
               (Storyboard.name c) = false
  end.
Proof.
  apply (for_of_rule _
           (fun s e s' =>
              (forall n,
                 Storyboard.includes (completedCharacters (Storyboard.progress s)) n
                 = true ->
                 Storyboard.includes (completedCharacters (Storyboard.progress s')) n
                 = true
                 /\ Storyboard.characterRefs s' !! n = Storyboard.characterRefs s !! n)
              /\ (forall P res,
                    In (EImagine P res) e ->
                    exists c,
                      In c cs /\ P = Storyboard.prompt c
                      /\ Storyboard.includes
                           (completedCharacters (Storyboard.progress s))
                           (Storyboard.name c) = false)
              /\ (forall n u,
                    Storyboard.characterRefs s' !! n = Some u ->
                    Storyboard.characterRefs s !! n = Some u
                    \/ exists c i a b f up,
                         In c cs /\ Storyboard.name c = n
                         /\ In (EUpscale i a b f up) e /\ upscale_uri up = Some u))
           (fun s e =>
              forall P res,
                In (EImagine P res) e ->
                exists c,
                  In c cs /\ P = Storyboard.prompt c
                  /\ Storyboard.includes
                       (completedCharacters (Storyboard.progress s))
                       (Storyboard.name c) = false)).
  - intros s0. split; [done|]. split; [by intros ? ? []|]. by left.
  - intros s0 e1 s1 e2 s2 (Hk1 & Hp1 & Hh1) (Hk2 & Hp2 & Hh2).
    split; [|split].
    + intros n Hn. destruct (Hk1 n Hn) as [Hn1 Hr1].
      destruct (Hk2 n Hn1) as [Hn2 Hr2]. split; [done|congruence].
    + intros P res [Hin|Hin]%in_app_or; [by apply (Hp1 P res)|].
      destruct (Hp2 P res Hin) as (c & Hc & -> & Hnot).
      exists c. split; [done|]. split; [done|].
      destruct (Storyboard.includes (completedCharacters (Storyboard.progress s0))
                  (Storyboard.name c)) eqn:Hinc; [|done].
      destruct (Hk1 _ Hinc) as [Hinc1 _]. congruence.
    + intros n u Hu. destruct (Hh2 n u Hu) as [Hu1|(c & i & a & b & f & up & ?)].
      * destruct (Hh1 n u Hu1) as [?|(c & i & a & b & f & up & ? & ? & ? & ?)];
          [by left|].
        right. exists c, i, a, b, f, up. repeat split; try done.
        apply in_or_app. by left.
      * right. exists c, i, a, b, f, up.
        destruct H as (? & ? & ? & ?). repeat split; try done.
        apply in_or_app. by right.
  - intros s0 e1 s1 e2 (Hk1 & Hp1 & Hh1) Hp2.
    intros P res [Hin|Hin]%in_app_or; [by apply (Hp1 P res)|].
    destruct (Hp2 P res Hin) as (c & Hc & -> & Hnot).
    exists c. split; [done|]. split; [done|].
    destruct (Storyboard.includes (completedCharacters (Storyboard.progress s0))
                (Storyboard.name c)) eqn:Hinc; [|done].
    destruct (Hk1 _ Hinc) as [Hinc1 _]. congruence.
  - intros c s0 w0 Hc. generalize (character_iteration_trace env c s0 w0).
    destruct (Storyboard.character_iteration env c s0 w0) as [[[s'|err] w'] e].
    + intros [(H & -> & Hinc)|(u & H & Hinc & ->)].
      * split; [done|]. split; [|by left].
        intros P res Hin.
        by destruct (iteration_trace_prompts _ _ _ _ _ _ _ (character_logs c)
                       _ _ _ _ H Hin) as [_ ?].
      * cbn [Storyboard.progress Storyboard.characterRefs
               Storyboard.push_character completedCharacters].
        split; [|split].
        -- intros n Hn. rewrite includes_app, Hn. split; [done|].
           apply lookup_insert_ne. intros <-. congruence.
        -- intros P res Hin.
           destruct (iteration_trace_prompts _ _ _ _ _ _ _ (character_logs c)
                       _ _ _ _ H Hin) as [-> _].
           by exists c.
        -- intros n u' Hu.
           destruct (decide (Storyboard.name c = n)) as [<-|Hne].
           ++ rewrite lookup_insert_eq in Hu. injection Hu as <-.
              destruct (iteration_trace_upscaled _ _ _ _ _ _ _ _ _ H)
                as (i & a & b & f & up & Hin & Hup).
              right. by exists c, i, a, b, f, up.
           ++ rewrite lookup_insert_ne in Hu by done. by left.
    + intros (H & Hinc) P res Hin.
      destruct (iteration_trace_prompts _ _ _ _ _ _ _ (character_logs c)
                  _ _ _ _ H Hin) as [-> _].
      by exists c.
Qed.

(** The scene loop leaves [characterRefs] as it is, and every prompt it
    submits is a template of a scene filled with that map. *)
Lemma scenes_loop_refs scs s w :
  match for_of (Storyboard.scene_iteration env) scs s w with
  | (Ok s', _, e) =>
      Storyboard.characterRefs s' = Storyboard.characterRefs s
      /\ forall P res,
           In (EImagine P res) e ->
           exists sc,
             In sc scs
             /\ P = Storyboard.render (Storyboard.characterRefs s)
                      (Storyboard.scene_prompt sc)
  | (Thrown _, _, e) =>
      forall P res,
        In (EImagine P res) e ->
        exists sc,
          In sc scs
          /\ P = Storyboard.render (Storyboard.characterRefs s)
                   (Storyboard.scene_prompt sc)
  end.
Proof.
  apply (for_of_rule _
           (fun s e s' =>
              Storyboard.characterRefs s' = Storyboard.characterRefs s
              /\ forall P res,
                   In (EImagine P res) e ->
                   exists sc,
                     In sc scs
                     /\ P = Storyboard.render (Storyboard.characterRefs s)
                              (Storyboard.scene_prompt sc))
           (fun s e =>
              forall P res,
                In (EImagine P res) e ->
                exists sc,
                  In sc scs
                  /\ P = Storyboard.render (Storyboard.characterRefs s)
                           (Storyboard.scene_prompt sc))).
  - intros s0. split; [done|]. by intros ? ? [].
  - intros s0 e1 s1 e2 s2 (Hr1 & Hp1) (Hr2 & Hp2).
    split; [congruence|].
    intros P res [Hin|Hin]%in_app_or; [by apply (Hp1 P res)|].
    rewrite <- Hr1. by apply (Hp2 P res).
  - intros s0 e1 s1 e2 (Hr1 & Hp1) Hp2.
    intros P res [Hin|Hin]%in_app_or; [by apply (Hp1 P res)|].
    rewrite <- Hr1. by apply (Hp2 P res).
  - intros sc s0 w0 Hsc. generalize (scene_iteration_trace env sc s0 w0).
    destruct (Storyboard.scene_iteration env sc s0 w0) as [[[s'|err] w'] e].
    + intros [(H & -> & Hinc)|(u & H & Hinc & ->)];
        (split; [done|]); intros P res Hin;
        destruct (iteration_trace_prompts _ _ _ _ _ _ _ (scene_logs sc _)
                    _ _ _ _ H Hin) as [-> ?]; [done|by exists sc].
    + intros (H & Hinc) P res Hin.
      destruct (iteration_trace_prompts _ _ _ _ _ _ _ (scene_logs sc _)
                  _ _ _ _ H Hin) as [-> _].
      by exists sc.
Qed.
End StoryboardReferences.

(** ** The storyboard program: [main] *)

Section StoryboardMain.
Variable env : Env.

Lemma loadReferences_run p w0 :
  exists e_load,
    Forall (fun e => exists msg, e = ELog msg) e_load
    /\ Storyboard.loadReferences env p w0
       = (Ok (loaded_state env p w0), tick w0, e_load).
Proof.
  unfold Storyboard.loadReferences, try_catch, bind, readJSON,
    loaded_state, console_log, emit, ret, Storyboard.Object_assign.
  destruct (fs w0 !! Storyboard.character_references_json env)
    as [[| | | |r|]|]; cbn [Storyboard.existing_uris Storyboard.existing_files];
    rewrite ?(right_id_L ∅ (∪));
    first [ by (exists []; split; [constructor|])
          | eexists; split; [|reflexivity]; repeat constructor; by eexists ].
Qed.

(** The [try] block of [main], phase by phase. *)
Lemma storyboard_run st p w0 :
  exists e_load r1 w1 e_chars,
    Forall (fun e => exists msg, e = ELog msg) e_load
    /\ for_of (Storyboard.character_iteration env) (Storyboard.mainCharacters st)
         (loaded_state env p w0) (tick w0)
       = (r1, w1, e_chars)
    /\ match r1 with
       | Thrown err =>
           Storyboard.storyboard env st p w0 = (Thrown err, w1, e_load ++ e_chars)
       | Ok s1 =>
           exists r2 w2 e_scenes,
             for_of (Storyboard.scene_iteration env) (Storyboard.scenes st) s1 w1
             = (r2, w2, e_scenes)
             /\ match r2 with
                | Thrown err =>
                    Storyboard.storyboard env st p w0
                    = (Thrown err, w2, e_load ++ e_chars ++ e_scenes)
                | Ok s2 =>
                    exists r3 w3 ok,
                      Storyboard.storyboard env st p w0
                      = (r3, w3,
                         e_load ++ e_chars ++ e_scenes
                         ++ [ EWriteFile (Storyboard.character_references_json env)
                                (CReferences
                                   {| uris := Storyboard.characterRefs s2;
                                      files := Storyboard.characterFiles s2 |})
                                ok ])
                end
       end.
Proof.
  destruct (loadReferences_run p w0) as (e_load & Hlogs & Hload).
  unfold Storyboard.storyboard, bind. rewrite Hload.
  destruct (for_of (Storyboard.character_iteration env) _ _ (tick w0))
    as [[[s1|err] w1] e_chars] eqn:Hchars.
  2:{ exists e_load, (Thrown err), w1, e_chars.
      split; [done|]. split; reflexivity. }
  exists e_load, (Ok s1), w1, e_chars. split; [done|]. split; [reflexivity|].
  destruct (for_of (Storyboard.scene_iteration env) _ s1 w1)
    as [[[s2|err] w2] e_scenes] eqn:Hscenes.
  2:{ exists (Thrown err), w2, e_scenes. split; [reflexivity|].
      by rewrite <- ?app_assoc. }
  exists (Ok s2), w2, e_scenes. split; [reflexivity|].
  unfold writeFile.
  destruct (writeFile_o env w2 _); eexists _, _, _;
    rewrite <- ?app_assoc; reflexivity.
Qed.

(** The [try] block on a value that is no ledger: with an item in the
    story it raises after the references are loaded; with none it is the
    block on the empty ledger. *)
Lemma storyboard_untyped_run st w0 :
  (exists err e_load,
     (Storyboard.mainCharacters st <> [] \/ Storyboard.scenes st <> [])
     /\ Forall (fun e => exists msg, e = ELog msg) e_load
     /\ Storyboard.storyboard_untyped env st w0 = (Thrown err, tick w0, e_load))
  \/ Storyboard.storyboard_untyped env st w0
     = Storyboard.storyboard env st
         {| completedCharacters := []; completedScenes := [] |} w0.
Proof.
  unfold Storyboard.storyboard_untyped, Storyboard.storyboard.
  destruct (loadReferences_run
              {| completedCharacters := []; completedScenes := [] |} w0)
    as (e_load & Hlogs & Hload).
  destruct (Storyboard.mainCharacters st) as [|c cs] eqn:Hcs.
  - destruct (Storyboard.scenes st) as [|sc scs] eqn:Hscs.
    + right. cbn [for_of]. unfold bind, ret. rewrite Hload. reflexivity.
    + left. exists "TypeError: Cannot read properties of undefined (reading 'includes')",
        e_load.
      split; [by right|]. split; [done|].
      cbn [for_of]. unfold bind, ret, throw. rewrite Hload.
      by rewrite !app_nil_r.
  - left. exists "TypeError: Cannot read properties of undefined (reading 'includes')",
      e_load.
    split; [by left|]. split; [done|].
    cbn [for_of]. unfold bind, throw. rewrite Hload. by rewrite !app_nil_r.
Qed.

Lemma loadProgress_run w :
  Storyboard.loadProgress env w
  = (Ok match fs w !! Storyboard.progress_json env with
        | Some (CProgress p) => Some p
        | Some (CBuffer _) | None =>
            Some {| completedCharacters := []; completedScenes := [] |}
        | Some _ => None
        end, tick w, []).
Proof.
  unfold Storyboard.loadProgress, try_catch, bind, readJSON, ret.
  by destruct (fs w !! Storyboard.progress_json env) as [[]|].
Qed.

(** [try { m } catch { log } finally { Close }] *)
Lemma try_block_run (m : M unit) w0 :
  try_finally
    (try_catch m (fun error => console_error "Error generating storyboard:"))
    Close w0
  = (Ok tt, world (m w0),
     events (m w0)
     ++ match result (m w0) with
        | Ok _ => []
        | Thrown _ => [EError "Error generating storyboard:"]
        end
     ++ [EClose]).
Proof.
  unfold try_finally, try_catch, Close, console_error, emit.
  destruct (m w0) as [[[[]|err] w1] e]; cbn [result world events fst snd app].
  - done.
  - by rewrite <- app_assoc.
Qed.

Lemma ensureDirectories_run w :
  Storyboard.ensureDirectories env w
  = if mkdir_o env w "output/character_images" then
      if mkdir_o env (tick w) "output/scene_images" then
        (Ok tt, tick (tick w),
         [ EMkdir "output/character_images" true;
           EMkdir "output/scene_images" true ])
      else
        (Thrown "mkdir", tick (tick w),
         [ EMkdir "output/character_images" true;
           EMkdir "output/scene_images" false ])
    else (Thrown "mkdir", tick w, [EMkdir "output/character_images" false]).
Proof.
  unfold Storyboard.ensureDirectories, bind, mkdir.
  destruct (mkdir_o env w "output/character_images"); [|done].
  by destruct (mkdir_o env (tick w) "output/scene_images").
Qed.

Lemma main_of_run st w :
  (exists err w' e,
     Storyboard.main_of env st w = (Thrown err, w', e)
     /\ Forall (fun e => exists dir ok, e = EMkdir dir ok) e)
  \/ (exists w0 r w1 e,
        fs w0 = fs w
        /\ Storyboard.storyboard env st (loaded_ledger env w) w0 = (r, w1, e)
        /\ Storyboard.main_of env st w
           = (Ok tt, w1,
              [ EMkdir "output/character_images" true;
                EMkdir "output/scene_images" true; EConnect ]
              ++ e
              ++ match r with
                 | Ok _ => []
                 | Thrown _ => [EError "Error generating storyboard:"]
                 end
              ++ [EClose]))
  \/ (exists w1 e_load,
        loaded_ledger env w
        = {| completedCharacters := []; completedScenes := [] |}
        /\ (Storyboard.mainCharacters st <> [] \/ Storyboard.scenes st <> [])
        /\ Forall (fun e => exists msg, e = ELog msg) e_load
        /\ fs w1 = fs w
        /\ Storyboard.main_of env st w
           = (Ok tt, w1,
              [ EMkdir "output/character_images" true;
                EMkdir "output/scene_images" true; EConnect ]
              ++ e_load
              ++ [EError "Error generating storyboard:"; EClose])).
Proof.
  unfold Storyboard.main_of.
  rewrite bind_run, ensureDirectories_run.
  destruct (mkdir_o env w "output/character_images").
  2:{ left. do 3 eexists. split; [reflexivity|]. repeat constructor. by do 2 eexists. }
  destruct (mkdir_o env (tick w) "output/scene_images").
  2:{ left. do 3 eexists. split; [reflexivity|].
      repeat constructor; by do 2 eexists. }
  rewrite bind_run, loadProgress_run. cbn [result world events fst snd app].
  rewrite bind_run. unfold Connect.
  destruct (Connect_o env (tick (tick (tick w)))).
  2:{ left. do 3 eexists. split; [reflexivity|]. cbn [app].
      repeat constructor; by do 2 eexists. }
  rewrite try_block_run. cbn [result world events fst snd app].
  set (w0 := tick (tick (tick (tick w)))).
  change (fs (tick (tick w))) with (fs w).
  assert (exists p, loaded_ledger env w = p) as [p0 Hl] by by eexists.
  rewrite Hl. unfold loaded_ledger in Hl.
  destruct (fs w !! Storyboard.progress_json env) as [[b|m|im|p|r|sc]|] eqn:Hfs;
    subst p0.
  1,4,7:
    right; left; exists w0;
    match goal with
    | |- context [world (Storyboard.storyboard ?a ?b ?p ?c)] =>
        destruct (Storyboard.storyboard a b p c) as [[r' w1] e] eqn:Hs
    end;
    exists r', w1, e; (split; [done|]); (split; [done|]); reflexivity.
  all: destruct (storyboard_untyped_run st w0)
         as [(err & e_load & Hitems & Hlogs & ->)| ->];
    [ right; right; exists (tick w0), e_load;
      split; [done|]; split; [done|]; split; [done|];
      split; [done|]; cbn [result world events fst snd app];
      by rewrite <- ?app_assoc
    | right; left; exists w0;
      match goal with
      | |- context [world (Storyboard.storyboard ?a ?b ?p ?c)] =>
          destruct (Storyboard.storyboard a b p c) as [[r' w1] e] eqn:Hs
      end;
      exists r', w1, e; (split; [done|]); (split; [done|]); reflexivity ].
Qed.
Lemma loaded_state_handle p w0 w n :
  fs w0 = fs w ->
  Storyboard.characterRefs (loaded_state env p w0) !! n = loaded_handle env w n.
Proof.
  intros Hfs. unfold loaded_state, loaded_handle. rewrite Hfs.
  by destruct (fs w !! _) as [[| | | |r|]|].
Qed.

Lemma loaded_state_progress p w0 :
  Storyboard.progress (loaded_state env p w0) = p.
Proof.
  unfold loaded_state. by destruct (fs w0 !! _) as [[| | | |r|]|].
Qed.
End StoryboardMain.

Section StoryboardFailure.
Variable env : Env.

Lemma only_logs_no_null logs :
  Forall (fun e => exists msg, e = ELog msg) logs -> no_null_result logs.
Proof.
  intros Hlogs P Hin. rewrite List.Forall_forall in Hlogs.
  by destruct (Hlogs _ Hin).
Qed.

(** A null result ends the [try] block of [main] with an exception. *)
Lemma storyboard_null st p w0 :
  match Storyboard.storyboard env st p w0 with
  | (Ok _, _, e) => no_null_result e
  | (Thrown _, _, e) => null_result_last e
  end.
Proof.
  destruct (storyboard_run env st p w0)
    as (e_load & r1 & w1 & e_chars & Hlogs & Hchars & Hrest).
  pose proof (characters_loop_null env (Storyboard.mainCharacters st)
                (loaded_state env p w0) (tick w0)) as Hnull1.
  rewrite Hchars in Hnull1.
  pose proof (only_logs_no_null _ Hlogs) as Hload.
  destruct r1 as [s1|err].
  2:{ rewrite Hrest. by apply null_result_last_app. }
  destruct Hrest as (r2 & w2 & e_scenes & Hscenes & Hrest).
  pose proof (scenes_loop_null env (Storyboard.scenes st) s1 w1) as Hnull2.
  rewrite Hscenes in Hnull2.
  destruct r2 as [s2|err].
  2:{ rewrite Hrest. apply null_result_last_app; [done|].
      by apply null_result_last_app. }
  destruct Hrest as (r3 & w3 & ok & ->).
  assert (Hall : no_null_result
                   (e_load ++ e_chars ++ e_scenes
                    ++ [ EWriteFile (Storyboard.character_references_json env)
                           (CReferences
                              {| uris := Storyboard.characterRefs s2;
                                 files := Storyboard.characterFiles s2 |}) ok ])).
  { repeat (apply no_null_result_app; [done|]). intros P [Hin|[]]. done. }
  destruct r3; [done|by apply no_null_result_last].
Qed.
End StoryboardFailure.




(** ** Resuming from the ledger *)

Lemma no_submission_events evs :
  Forall (fun e => is_submission e = false) evs -> submissions evs = [].
Proof.
  induction 1 as [|e evs He _ IH]; [done|].
  unfold submissions in *. simpl. by rewrite He.
Qed.

(** C2. An item whose identifier is in the ledger is skipped: its iteration
    logs the skip, changes nothing and submits nothing. So a run of [main]
    that loads a ledger with every character and every scene of the story
    makes no backend submission at all. *)
Theorem resume_idempotence (env : Env) (st : Storyboard.Story) (w : World) :
  (forall c s w',
     Storyboard.includes (completedCharacters (Storyboard.progress s))
       (Storyboard.name c) = true ->
     Storyboard.character_iteration env c s w'
     = (Ok s, w',
        [ELog ("Skipping already generated character: " +:+ Storyboard.name c)]))
  /\ (forall sc s w',
        Storyboard.includes (completedScenes (Storyboard.progress s))
          (Storyboard.scene_title sc) = true ->
        Storyboard.scene_iteration env sc s w'
        = (Ok s, w',
           [ELog ("Skipping already generated scene: " +:+ Storyboard.scene_title sc)]))
  /\ (forallb (fun c => Storyboard.includes
                          (completedCharacters (loaded_ledger env w))
                          (Storyboard.name c))
        (Storyboard.mainCharacters st) = true ->
      forallb (fun sc => Storyboard.includes
                           (completedScenes (loaded_ledger env w))
                           (Storyboard.scene_title sc))
        (Storyboard.scenes st) = true ->
      submissions (events (Storyboard.main_of env st w)) = []).
Proof.
  repeat apply conj.
  - intros c s w' Hinc. unfold Storyboard.character_iteration.
    by rewrite Hinc.
  - intros sc s w' Hinc. unfold Storyboard.scene_iteration.
    by rewrite Hinc.
  - intros Hcs Hscs.
    destruct (main_of_run env st w)
      as [(err & w' & e & -> & Hsetup)
         |[(w0 & r & w1 & e & _ & Hstory & ->)
          |(w1 & e_load & _ & _ & Hlogs & _ & ->)]];
      cbn [events snd].
    { apply no_submission_events.
      eapply List.Forall_impl; [|exact Hsetup]. by intros ? (dir & ok & ->). }
    2:{ apply no_submission_events.
        repeat (apply Forall_app; split).
        - by repeat constructor.
        - eapply List.Forall_impl; [|exact Hlogs]. by intros ? (msg & ->).
        - by repeat constructor. }
    destruct (storyboard_run env st (loaded_ledger env w) w0)
      as (e_load & r1 & w1' & e_chars & Hlogs & Hchars & Hrest).
    rewrite characters_loop_all_done in Hchars
      by (by rewrite loaded_state_progress).
    injection Hchars as <- <- <-.
    destruct Hrest as (r2 & w2 & e_scenes & Hscenes & Hrest).
    rewrite scenes_loop_all_done in Hscenes
      by (by rewrite loaded_state_progress).
    injection Hscenes as <- <- <-.
    destruct Hrest as (r3 & w3 & ok & Heq).
    rewrite Heq in Hstory. injection Hstory as <- <- <-.
    apply no_submission_events.
    repeat (apply Forall_app; split).
    + by repeat constructor.
    + eapply List.Forall_impl; [|exact Hlogs]. by intros ? (msg & ->).
    + apply List.Forall_forall. intros e [c [<- _]]%in_map_iff. done.
    + apply List.Forall_forall. intros e [sc [<- _]]%in_map_iff. done.
    + by repeat constructor.
    + destruct r3; by repeat constructor.
    + by repeat constructor.
Qed.

Lemma resume_idempotence_witness :
  forallb
    (fun c =>
       Storyboard.includes
         (completedCharacters
            (loaded_ledger (sample_env always_succeeds true any_path)
               (world_with [("output/progress.json", CProgress all_done)])))
         (Storyboard.name c))
    (Storyboard.mainCharacters Storyboard.story) = true
  /\ submissions
       (events
          (Storyboard.main_of (sample_env always_succeeds true any_path)
             Storyboard.story
             (world_with [("output/progress.json", CProgress all_done)])))
     = [].
Proof.
  split; [reflexivity|].
  destruct (resume_idempotence (sample_env always_succeeds true any_path)
              Storyboard.story
              (world_with [("output/progress.json", CProgress all_done)]))
    as (_ & _ & Hrun).
  apply Hrun; reflexivity.
Defined.

(** ** The ledger and the artifacts *)

Lemma record_write_absent A pre y post :
  Forall (fun e => is_record_write e = false) A ->
  A = pre ++ y :: post -> is_record_write y = true -> False.
Proof.
  intros HA -> Hy. rewrite List.Forall_forall in HA.
  rewrite HA in Hy; [done|]. apply in_or_app. right. by left.
Qed.

Lemma record_write_position A x B pre y post :
  Forall (fun e => is_record_write e = false) A ->
  Forall (fun e => is_record_write e = false) B ->
  A ++ x :: B = pre ++ y :: post -> is_record_write y = true ->
  y = x /\ post = B.
Proof.
  intros HA HB Heq Hy.
  apply app_eq_cons_app in Heq as [(post1 & Heq & _)|(pre2 & -> & Heq)].
  { by destruct (record_write_absent _ _ _ _ HA Heq Hy). }
  destruct pre2 as [|e pre2].
  - by injection Heq as -> ->.
  - injection Heq as _ Heq.
    by destruct (record_write_absent _ _ _ _ HB Heq Hy).
Qed.

Section StoryboardLedger.
Variable env : Env.

Lemma only_logs_no_record logs :
  Forall (fun e => exists msg, e = ELog msg) logs ->
  Forall (fun e => is_record_write e = false) logs.
Proof. apply List.Forall_impl. by intros e [msg ->]. Qed.

(** The [try] block of [main]: the ledger is written right after the image
    of the item it adds, one entry at a time, and no record is written but
    the reference summary, last. *)
Lemma storyboard_ledger st p w0 :
  let e := events (Storyboard.storyboard env st p w0) in
  artifact_precedes_ledger env e
  /\ ledger_chain p (ledger_writes e)
  /\ exists A tail,
       e = A ++ tail
       /\ Forall (fun e => is_record_write e = false) A
       /\ (tail = []
           \/ exists r ok,
                tail = [ EWriteFile (Storyboard.character_references_json env)
                           (CReferences r) ok ]).
Proof.
  cbv zeta.
  destruct (storyboard_run env st p w0)
    as (e_load & r1 & w1 & e_chars & Hlogs & Hchars & Hrest).
  pose proof (characters_loop_artifact env (Storyboard.mainCharacters st)
                (loaded_state env p w0) (tick w0)) as Ha1.
  pose proof (characters_loop_chain env (Storyboard.mainCharacters st)
                (loaded_state env p w0) (tick w0)) as Hc1.
  pose proof (characters_loop_no_record env (Storyboard.mainCharacters st)
                (loaded_state env p w0) (tick w0)) as Hn1.
  rewrite Hchars in Ha1, Hc1, Hn1. cbn [events snd] in Ha1, Hn1.
  unfold chain_to, chain_from in Hc1. rewrite loaded_state_progress in Hc1.
  pose proof (artifact_precedes_ledger_none env e_load
                (only_logs_ledger_writes _ Hlogs)) as Ha0.
  pose proof (only_logs_no_record _ Hlogs) as Hn0.
  pose proof (only_logs_ledger_writes _ Hlogs) as Hl0.
  destruct r1 as [s1|err].
  2:{ rewrite Hrest. cbn [events snd]. split; [|split].
      - by apply artifact_precedes_ledger_app.
      - by rewrite ledger_writes_app, Hl0.
      - exists (e_load ++ e_chars), []. rewrite app_nil_r.
        split; [done|]. split; [by apply Forall_app|by left]. }
  destruct Hrest as (r2 & w2 & e_scenes & Hscenes & Hrest).
  destruct Hc1 as [Hc1 Hp1].
  pose proof (scenes_loop_artifact env (Storyboard.scenes st) s1 w1) as Ha2.
  pose proof (scenes_loop_chain env (Storyboard.scenes st) s1 w1) as Hc2.
  pose proof (scenes_loop_no_record env (Storyboard.scenes st) s1 w1) as Hn2.
  rewrite Hscenes in Ha2, Hc2, Hn2. cbn [events snd] in Ha2, Hn2.
  unfold chain_to, chain_from in Hc2. rewrite Hp1 in Hc2.
  assert (Hchain : ledger_chain p (ledger_writes (e_load ++ e_chars ++ e_scenes))).
  { rewrite !ledger_writes_app, Hl0. cbn [app].
    apply ledger_chain_app. split; [done|].
    destruct r2; [apply Hc2|exact Hc2]. }
  destruct r2 as [s2|err].
  2:{ rewrite Hrest. cbn [events snd]. split; [|split].
      - by repeat apply artifact_precedes_ledger_app.
      - done.
      - exists (e_load ++ e_chars ++ e_scenes), []. rewrite app_nil_r.
        split; [done|]. split; [by repeat (apply Forall_app; split)|by left]. }
  destruct Hrest as (r3 & w3 & ok & ->). cbn [events snd]. split; [|split].
  - repeat (apply artifact_precedes_ledger_app; [done|]).
    by apply artifact_precedes_ledger_none.
  - rewrite !app_assoc, ledger_writes_app, <- !app_assoc. cbn [ledger_writes flat_map].
    by rewrite app_nil_r.
  - eexists (e_load ++ e_chars ++ e_scenes), _.
    split; [by rewrite <- !app_assoc|].
    split; [by repeat (apply Forall_app; split)|].
    right. by eexists _, _.
Qed.
End StoryboardLedger.


(** ** The phases of a run *)

Section ExampleScriptRun.
Variable env : Env.

Lemma createDirectoryStructure_run w :
  Forall (fun e => exists dir ok, e = EMkdir dir ok)
    (events (ExampleScript.createDirectoryStructure env w)).
Proof.
  unfold ExampleScript.createDirectoryStructure, bind, mkdir, ret.
  repeat match goal with
         | |- context [mkdir_o env ?w ?d] => destruct (mkdir_o env w d)
         end;
    cbn [events snd app]; repeat constructor; by do 2 eexists.
Qed.

Lemma mkdir_events_no_prompt evs :
  Forall (fun e => exists dir ok, e = EMkdir dir ok) evs ->
  imagine_prompts evs = [].
Proof. induction 1 as [|? ? (dir & ok & ->) _ IH]; [done|exact IH]. Qed.

(** Every handle of the character phase is the address of the first
    variation of a response the phase got for that character. *)
Lemma generateCharacterReferences_provenance script characterRefs w :
  match ExampleScript.generateCharacterReferences env script characterRefs w with
  | (Ok characterRefs', _, e) =>
      forall n u,
        characterRefs' !! n = Some u ->
        characterRefs !! n = Some u
        \/ exists c r v0 rest,
             In c (characters script) /\ name c = n
             /\ In (EImagine (ExampleScript.buildCharacterPrompt c) (Ok (Some r))) e
             /\ options r = Some (v0 :: rest) /\ u = var_uri v0
  | (Thrown _, _, _) => False
  end.
Proof.
  unfold ExampleScript.generateCharacterReferences, bind, console_log, emit.
  pose proof (for_of_rule (ExampleScript.generateCharacterReference env)
                (fun refs e refs' =>
                   forall n u,
                     refs' !! n = Some u ->
                     refs !! n = Some u
                     \/ exists c r v0 rest,
                          In c (characters script) /\ name c = n
                          /\ In (EImagine (ExampleScript.buildCharacterPrompt c)
                                   (Ok (Some r))) e
                          /\ options r = Some (v0 :: rest) /\ u = var_uri v0)
                (fun _ _ => False) (characters script)) as Hrule.
  assert (Hloop : match for_of (ExampleScript.generateCharacterReference env)
                          (characters script) characterRefs w with
                  | (Ok refs', _, e) =>
                      forall n u,
                        refs' !! n = Some u ->
                        characterRefs !! n = Some u
                        \/ exists c r v0 rest,
                             In c (characters script) /\ name c = n
                             /\ In (EImagine (ExampleScript.buildCharacterPrompt c)
                                      (Ok (Some r))) e
                             /\ options r = Some (v0 :: rest) /\ u = var_uri v0
                  | (Thrown _, _, _) => False
                  end).
  { apply Hrule; clear Hrule.
    - intros refs n u Hu. by left.
    - intros refs e1 refs1 e2 refs2 H1 H2 n u Hu.
      destruct (H2 n u Hu) as [Hu1|(c & r & v0 & rest & ? & ? & ? & ? & ?)].
      + destruct (H1 n u Hu1) as [?|(c & r & v0 & rest & ? & ? & ? & ? & ?)];
          [by left|].
        right. exists c, r, v0, rest. repeat split; try done.
        apply in_or_app. by left.
      + right. exists c, r, v0, rest. repeat split; try done.
        apply in_or_app. by right.
    - by intros.
    - intros c refs w0 Hc.
      generalize (generateCharacterReference_spec env c refs w0). cbv zeta.
      destruct (ExampleScript.generateCharacterReference env c refs w0)
        as [[[refs'|err] w'] e]; cbn [result events fst snd].
      + intros (refs'' & [= <-] & _ & Hcase & _) n u Hu.
        destruct Hcase as [->|(r & v0 & rest & Hin & Ho & ->)]; [by left|].
        destruct (decide (name c = n)) as [<-|Hne].
        * rewrite lookup_insert_eq in Hu. injection Hu as <-.
          right. by exists c, r, v0, rest.
        * rewrite lookup_insert_ne in Hu by done. by left.
      + by intros (refs'' & [=] & _). }
  destruct (for_of _ _ _ w) as [[[refs'|err] w'] e]; [|done].
  intros n u Hu.
  destruct (Hloop n u Hu) as [?|(c & r & v0 & rest & ? & ? & ? & ? & ?)];
    [by left|].
  right. exists c, r, v0, rest. repeat split; try done. by right.
Qed.

(** [generate] on a new generator. Nothing is submitted when the file
    holds no script or the connection is not opened; otherwise the
    directories are created, the connection is opened at [w_c], every
    character is submitted, then every scene with the handles the
    character phase returned, and the connection is closed. *)
Lemma generate_run scriptPath w :
  exists r w' e,
    ExampleScript.generate env scriptPath ∅ w = (r, w', e)
    /\ ((imagine_prompts e = []
         /\ r = Ok ∅
         /\ ((forall script, fs w !! scriptPath <> Some (CScript script))
             \/ ~ In EConnect e))
        \/ exists script characterRefs' e_dirs w_c w_s e_chars e_scenes,
             fs w !! scriptPath = Some (CScript script)
             /\ r = Ok characterRefs'
             /\ e = e_dirs ++ [EConnect] ++ e_chars ++ e_scenes ++ [EClose]
             /\ Forall (fun e => exists dir ok, e = EMkdir dir ok) e_dirs
             /\ ExampleScript.generateCharacterReferences env script ∅ w_c
                = (Ok characterRefs', w_s, e_chars)
             /\ events (ExampleScript.generateScenes env script characterRefs' w_s)
                = e_scenes
             /\ imagine_prompts e_chars
                = map ExampleScript.buildCharacterPrompt (characters script)
             /\ imagine_prompts e_scenes
                = map (fun sc =>
                         ExampleScript.buildScenePrompt sc script characterRefs')
                    (scenes script)).
Proof.
  unfold ExampleScript.generate, try_catch.
  unfold bind at 1. unfold readJSON.
  destruct (fs w !! scriptPath) as [[b|m|im|p|r|script]|] eqn:Hfs;
    try (do 3 eexists; split; [reflexivity|left; split; [done|];
         split; [done|]; left; by intros]).
  1-4:
    unfold bind at 1;
    pose proof (createDirectoryStructure_run (tick w)) as Hdirs;
    destruct (ExampleScript.createDirectoryStructure env (tick w))
      as [[[[]|err] w1] e1]; cbn [events snd] in Hdirs;
    [ unfold bind at 1; unfold Connect;
      destruct (Connect_o env w1);
      do 3 eexists; (split; [reflexivity|]); left;
      (split; [cbn; rewrite ?imagine_prompts_app;
               by rewrite (mkdir_events_no_prompt _ Hdirs)|]);
      (split; [done|]); left; by intros
    | do 3 eexists; (split; [reflexivity|]); left;
      (split; [cbn; rewrite ?imagine_prompts_app;
               by rewrite (mkdir_events_no_prompt _ Hdirs)|]);
      (split; [done|]); left; by intros ].
  assert (Hnc : forall e1 tail,
            Forall (fun e => exists dir ok, e = EMkdir dir ok) e1 ->
            ~ In EConnect (e1 ++ EError tail :: [EClose])).
  { intros e1 tail He1 [Hin|Hin]%in_app_or.
    - rewrite List.Forall_forall in He1. by destruct (He1 _ Hin) as (? & ? & ?).
    - by destruct Hin as [|[|]]. }
  unfold bind at 1.
  pose proof (createDirectoryStructure_run (tick w)) as Hdirs.
  destruct (ExampleScript.createDirectoryStructure env (tick w))
    as [[[[]|err] w1] e1]; cbn [events snd] in Hdirs.
  2:{ do 3 eexists. split; [reflexivity|]. left. cbn [app].
      split; [rewrite imagine_prompts_app;
              by rewrite (mkdir_events_no_prompt _ Hdirs)|].
      split; [done|]. right. by apply Hnc. }
  unfold bind at 1. unfold Connect.
  destruct (Connect_o env w1).
  2:{ do 3 eexists. split; [reflexivity|]. left. cbn [app].
      rewrite app_nil_r.
      split; [rewrite imagine_prompts_app;
              by rewrite (mkdir_events_no_prompt _ Hdirs)|].
      split; [done|]. right. by apply Hnc. }
  unfold bind at 1.
  generalize (generateCharacterReferences_total env script ∅ (tick w1)).
  cbv zeta.
  destruct (ExampleScript.generateCharacterReferences env script ∅ (tick w1))
    as [[[refs'|err] w2] e2] eqn:Hchars; [|by intros (? & [=] & _)].
  cbn [result events fst snd]. intros (refs'' & _ & Hp2).
  unfold bind at 1.
  generalize (generateScenes_total env script refs' w2). cbv zeta.
  destruct (ExampleScript.generateScenes env script refs' w2)
    as [[r3 w3] e3] eqn:Hscenes. cbn [result events fst snd]. intros [-> Hp3].
  unfold bind, Close, emit, ret. cbn [result events fst snd app].
  do 3 eexists. split; [reflexivity|].
  right. exists script, refs', e1, (tick w1), w2, e2, e3.
  split; [done|]. split; [done|].
  split; [by rewrite <- ?app_assoc, ?app_nil_r|]. split; [done|].
  split; [done|]. by rewrite Hscenes.
Qed.
End ExampleScriptRun.

Section StoryboardPhases.
Variable env : Env.

Lemma only_logs_no_prompt logs :
  Forall (fun e => exists msg, e = ELog msg) logs -> imagine_prompts logs = [].
Proof. induction 1 as [|? ? (msg & ->) _ IH]; [done|exact IH]. Qed.

(** A run of [main] in its phases: what comes before the character loop,
    the character loop, the scene loop, what comes after; and the map
    [refs1] that every scene prompt is filled with. *)
Lemma main_phases st w :
  exists e_before e_chars e_scenes e_after refs1,
    events (Storyboard.main_of env st w)
    = e_before ++ e_chars ++ e_scenes ++ e_after
    /\ imagine_prompts e_before = []
    /\ imagine_prompts e_after = []
    /\ (forall P res,
          In (EImagine P res) e_chars ->
          exists c,
            In c (Storyboard.mainCharacters st) /\ P = Storyboard.prompt c
            /\ Storyboard.includes (completedCharacters (loaded_ledger env w))
                 (Storyboard.name c) = false)
    /\ (forall P res,
          In (EImagine P res) e_scenes ->
          exists sc,
            In sc (Storyboard.scenes st)
            /\ P = Storyboard.render refs1 (Storyboard.scene_prompt sc))
    /\ (forall n,
          Storyboard.includes (completedCharacters (loaded_ledger env w)) n = true ->
          refs1 !! n = loaded_handle env w n)
    /\ (forall n u,
          refs1 !! n = Some u ->
          loaded_handle env w n = Some u
          \/ exists c i a b f up,
               In c (Storyboard.mainCharacters st) /\ Storyboard.name c = n
               /\ In (EUpscale i a b f up) e_chars /\ upscale_uri up = Some u).
Proof.
  destruct (main_of_run env st w)
    as [(err & w' & e & -> & Hsetup)
       |[(w0 & r & w1 & e & Hfs & Hstory & ->)
        |(w1 & e_load & _ & _ & Hlogs & _ & ->)]];
    cbn [events snd].
  3:{ exists ([ EMkdir "output/character_images" true;
                EMkdir "output/scene_images" true; EConnect ]
              ++ e_load ++ [EError "Error generating storyboard:"; EClose]),
        [], [], [],
        (Storyboard.characterRefs (loaded_state env (loaded_ledger env w) w)).
      rewrite !app_nil_r. split; [done|].
      split; [by rewrite !imagine_prompts_app, (only_logs_no_prompt _ Hlogs)|].
      split; [done|].
      split; [by intros ? ? []|]. split; [by intros ? ? []|].
      split; [intros n _; by apply loaded_state_handle|].
      intros n u Hu. left.
      by rewrite <- (loaded_state_handle env (loaded_ledger env w) w w n eq_refl). }
  { exists e, [], [],
      [], (Storyboard.characterRefs (loaded_state env (loaded_ledger env w) w)).
    rewrite !app_nil_r. split; [done|].
    split; [by apply mkdir_events_no_prompt|]. split; [done|].
    split; [by intros ? ? []|]. split; [by intros ? ? []|].
    split; [intros n _; by apply loaded_state_handle|].
    intros n u Hu. left.
    by rewrite <- (loaded_state_handle env (loaded_ledger env w) w w n eq_refl). }
  set (p := loaded_ledger env w) in *.
  set (closing := match r with
                  | Ok _ => []
                  | Thrown _ => [EError "Error generating storyboard:"]
                  end ++ [EClose]).
  assert (Hcl : imagine_prompts closing = []) by (subst closing; by destruct r).
  destruct (storyboard_run env st p w0)
    as (e_load & r1 & w1' & e_chars & Hlogs & Hchars & Hrest).
  pose proof (characters_loop_refs env (Storyboard.mainCharacters st)
                (loaded_state env p w0) (tick w0)) as Hrefs1.
  rewrite Hchars in Hrefs1. rewrite loaded_state_progress in Hrefs1.
  pose proof (only_logs_no_prompt _ Hlogs) as Hl0.
  destruct r1 as [s1|err].
  2:{ rewrite Hrest in Hstory. injection Hstory as <- <- <-.
      exists ([ EMkdir "output/character_images" true;
                EMkdir "output/scene_images" true; EConnect ] ++ e_load),
        e_chars, [], closing, (Storyboard.characterRefs (loaded_state env p w0)).
      split; [by rewrite <- !app_assoc|].
      split; [by rewrite imagine_prompts_app, Hl0|]. split; [done|].
      split; [done|]. split; [by intros ? ? []|].
      split; [intros n _; by apply loaded_state_handle|].
      intros n u Hu. left. by rewrite <- (loaded_state_handle env p w0 w n Hfs). }
  destruct Hrefs1 as (Hkeep & Hprompts & Hprov).
  destruct Hrest as (r2 & w2 & e_scenes & Hscenes & Hrest).
  pose proof (scenes_loop_refs env (Storyboard.scenes st) s1 w1') as Hrefs2.
  rewrite Hscenes in Hrefs2.
  assert (Hsc : forall P res,
            In (EImagine P res) e_scenes ->
            exists sc,
              In sc (Storyboard.scenes st)
              /\ P = Storyboard.render (Storyboard.characterRefs s1)
                       (Storyboard.scene_prompt sc))
    by (destruct r2; [apply Hrefs2|exact Hrefs2]).
  assert (Hk : forall n,
            Storyboard.includes (completedCharacters p) n = true ->
            Storyboard.characterRefs s1 !! n = loaded_handle env w n).
  { intros n Hn. destruct (Hkeep n Hn) as [_ ->].
    by apply loaded_state_handle. }
  assert (Hpv : forall n u,
            Storyboard.characterRefs s1 !! n = Some u ->
            loaded_handle env w n = Some u
            \/ exists c i a b f up,
                 In c (Storyboard.mainCharacters st) /\ Storyboard.name c = n
                 /\ In (EUpscale i a b f up) e_chars /\ upscale_uri up = Some u).
  { intros n u Hu. destruct (Hprov n u Hu) as [Hl|?]; [|by right].
    left. by rewrite <- (loaded_state_handle env p w0 w n Hfs). }
  destruct r2 as [s2|err].
  2:{ rewrite Hrest in Hstory. injection Hstory as <- <- <-.
      exists ([ EMkdir "output/character_images" true;
                EMkdir "output/scene_images" true; EConnect ] ++ e_load),
        e_chars, e_scenes, closing, (Storyboard.characterRefs s1).
      split; [by rewrite <- !app_assoc|].
      split; [by rewrite imagine_prompts_app, Hl0|]. by repeat split. }
  destruct Hrest as (r3 & w3 & ok & Heq).
  rewrite Heq in Hstory. injection Hstory as <- <- <-.
  eexists ([ EMkdir "output/character_images" true;
             EMkdir "output/scene_images" true; EConnect ] ++ e_load),
    e_chars, e_scenes, (_ :: closing), (Storyboard.characterRefs s1).
  split; [by rewrite <- !app_assoc|].
  split; [by rewrite imagine_prompts_app, Hl0|].
  split; [by rewrite imagine_prompts_cons, Hcl|]. by repeat split.
Qed.
End StoryboardPhases.


(** ** Resuming without the reference summary *)

Lemma render_undefined charRefs t charName :
  charRefs !! charName = None ->
  In (Storyboard.Ref charName) t ->
  contains "undefined" (Storyboard.render charRefs t).
Proof.
  intros Hnone. induction t as [|p t IH]; [done|].
  intros [->|Hin]; cbn [Storyboard.render].
  - cbn [Storyboard.interpolate]. rewrite Hnone. apply contains_here.
  - by apply contains_append_l, IH.
Qed.

(** ** Properties of the single functions *)

(** *** Traces *)

Lemma for_of_Forall {X S} (body : X -> S -> M S) (P : Event -> Prop) xs :
  (forall x s w, In x xs -> Forall P (events (body x s w))) ->
  forall s w, Forall P (events (for_of body xs s w)).
Proof.
  induction xs as [|x xs IH]; intros Hbody s w.
  - constructor.
  - cbn [for_of]. unfold bind.
    pose proof (Hbody x s w (or_introl eq_refl)) as Hx.
    destruct (body x s w) as [[[s'|err] w1] e1]; cbn [events snd] in Hx; [|exact Hx].
    pose proof (IH (fun y s0 w0 Hy => Hbody y s0 w0 (or_intror Hy)) s' w1) as Hxs.
    destruct (for_of body xs s' w1) as [[r w2] e2]. cbn [events snd] in *.
    by apply Forall_app.
Qed.

Lemma fetched_app e1 e2 : fetched (e1 ++ e2) = fetched e1 ++ fetched e2.
Proof. unfold fetched. by rewrite flat_map_app. Qed.

Lemma io_events_no_prompt evs :
  Forall (fun e => is_io_event e = true) evs -> imagine_prompts evs = [].
Proof.
  induction 1 as [|e evs He _ IH]; [done|].
  destruct e; try done; simpl; exact IH.
Qed.

Lemma io_events_no_submission evs :
  Forall (fun e => is_io_event e = true) evs -> submissions evs = [].
Proof.
  induction 1 as [|e evs He _ IH]; [done|].
  destruct e; try done; simpl; exact IH.
Qed.

Lemma download_events_io evs :
  Forall (fun e => is_download_event e = true) evs ->
  Forall (fun e => is_io_event e = true) evs.
Proof. apply List.Forall_impl. by intros []. Qed.

(** *** The scan of the waits *)

Lemma pace_app ms b e1 e2 :
  pace ms b (e1 ++ e2)
  = match pace ms b e1 with
    | Some b1 => pace ms b1 e2
    | None => None
    end.
Proof.
  revert b. induction e1 as [|e e1 IH]; intros b; [done|].
  destruct e; cbn [app pace]; try apply IH.
  destruct b; [apply IH|done].
Qed.

Lemma pace_io ms b evs :
  Forall (fun e => is_io_event e = true) evs -> pace ms b evs = Some b.
Proof.
  induction 1 as [|e evs He _ IH]; [done|].
  destruct e; try done; exact IH.
Qed.

Lemma pace_tired_rested ms evs :
  pace ms false evs = Some true -> In (EDelay ms) evs.
Proof.
  induction evs as [|e evs IH]; [done|].
  destruct e; cbn [pace]; try (intros H; right; by apply IH); try done.
  cbn [orb]. destruct (Z.eqb_spec ms0 ms) as [->|Hne].
  - intros _. by left.
  - intros H. right. by apply IH.
Qed.

Lemma pace_paced ms b evs b' : pace ms b evs = Some b' -> paced ms evs.
Proof.
  intros H pre p r mid q r' post ->.
  rewrite pace_app in H.
  destruct (pace ms b pre) as [b1|]; [|done].
  cbn [pace] in H. destruct b1; [|done].
  rewrite pace_app in H.
  destruct (pace ms false mid) as [b2|] eqn:Hmid; [|done].
  cbn [pace] in H. destruct b2; [|done].
  by apply pace_tired_rested.
Qed.

(** A trace without a given error log, by computation. *)
Lemma no_error_check msg evs :
  forallb (fun e => match e with
                    | EError m => negb (String.eqb m msg)
                    | _ => true
                    end) evs = true ->
  ~ In (EError msg) evs.
Proof.
  intros H Hin. rewrite forallb_forall in H. specialize (H _ Hin).
  cbn in H. by rewrite String.eqb_refl in H.
Qed.

(** *** [exampleScript.ts]: what one generation does *)

Section ExampleScriptEffects.
Variable env : Env.

Lemma downloadImage_fetched url path w :
  fetched (events (ExampleScript.downloadImage env url path w)) = [url].
Proof.
  destruct (downloadImage_cases env url path w)
    as [(b & _ & _ & ->)|[(b & _ & _ & ->)|(_ & ->)]]; reflexivity.
Qed.

Lemma saveVariations_fetched dir i opts w :
  fetched (events (ExampleScript.saveVariations env dir i opts w))
  = map var_uri opts.
Proof.
  revert i w. induction opts as [|v opts IH]; intros i w; [done|].
  cbn [ExampleScript.saveVariations]. rewrite bind_run.
  pose proof (downloadImage_quiet env (var_uri v)
                (path_join env [dir; "variation_" +:+ pretty (i + 1) +:+ ".png"]) w)
    as [Hr _].
  pose proof (downloadImage_fetched (var_uri v)
                (path_join env [dir; "variation_" +:+ pretty (i + 1) +:+ ".png"]) w)
    as Hf.
  destruct (ExampleScript.downloadImage env _ _ w) as [[r w1] e1].
  cbn [result fst] in Hr. subst r. cbn [events snd] in *.
  by rewrite fetched_app, Hf, IH.
Qed.

(** A generation logs, calls [Imagine] once, and then only reads the
    network, writes files and logs. *)
Lemma generateAndSelectVariation_trace prompt outputName type w :
  exists res w' tail,
    ExampleScript.generateAndSelectVariation env prompt outputName type w
    = (Ok res, w',
       ELog ("Generating " +:+ ExampleScript.type_name type
             +:+ " with prompt: " +:+ prompt)
       :: EImagine prompt (Imagine_o env w prompt) :: tail)
    /\ Forall (fun e => is_io_event e = true) tail.
Proof.
  destruct (generateAndSelectVariation_spec env prompt outputName type w)
    as (res & w' & tail & Hrun & Hcase).
  exists res, w', tail. split; [exact Hrun|].
  destruct (usable (Imagine_o env w prompt)) as [[[r v0] rest]|].
  - cbv zeta in Hcase.
    destruct Hcase as [(_ & _ & ->)|(w3 & w4 & ts & ok & -> & _)].
    + repeat constructor.
    + constructor; [done|]. apply Forall_app. split.
      * apply Forall_app. split; apply download_events_io.
        -- apply saveVariations_quiet.
        -- apply downloadImage_quiet.
      * constructor; [done|]. destruct ok; repeat constructor.
  - destruct Hcase as (_ & msg & ->). repeat constructor.
Qed.
End ExampleScriptEffects.

(** X1. [downloadImage] of [exampleScript.ts] never rejects. It changes the
    disk at [outputPath] only, and only to the bytes fetched from [imageUrl];
    it logs the success when those bytes are written and an error when the
    fetch or the write fails, in which case the disk is as before. *)
Theorem downloadImage_only_outputPath (env : Env) (imageUrl outputPath : string)
    (w : World) :
  let run := ExampleScript.downloadImage env imageUrl outputPath w in
  result run = Ok tt
  /\ (forall p, p <> outputPath -> fs (world run) !! p = fs w !! p)
  /\ ((exists b,
         fetch_o env w imageUrl = Some b
         /\ fs (world run) !! outputPath = Some (CBuffer b)
         /\ events run
            = [ EFetch imageUrl (Some b); EWriteFile outputPath (CBuffer b) true;
                ELog ("Image saved successfully to: " +:+ outputPath) ])
      \/ (fs (world run) = fs w
          /\ last (events run)
             = Some (EError ("Error downloading image from " +:+ imageUrl +:+ ":"))
          /\ forall b, ~ In (EWriteFile outputPath (CBuffer b) true) (events run))).
Proof.
  cbv zeta.
  destruct (downloadImage_cases env imageUrl outputPath w)
    as [(b & Hf & Hw & ->)|[(b & Hf & Hw & ->)|(Hf & ->)]];
    cbn [result world events fst snd fs].
  - split; [done|]. split.
    + intros p Hp. by rewrite lookup_insert_ne.
    + left. exists b. by rewrite lookup_insert_eq.
  - split; [done|]. split; [done|]. right. split; [done|]. split; [done|].
    intros b' [H|[H|[H|[]]]]; discriminate H.
  - split; [done|]. split; [done|]. right. split; [done|]. split; [done|].
    intros b' [H|[H|[]]]; discriminate H.
Qed.

(** X2. When the backend gives nothing [generateAndSelectVariation] can use
    (an exception, [null], a response without [options] or with an empty
    [options]), the generation returns [null] without touching the disk or
    the network: it only logs the prompt, calls [Imagine] and logs one
    error. *)
Theorem no_variation_no_effect (env : Env) (prompt outputName : string)
    (type : ExampleScript.GenType) (w : World) :
  usable (Imagine_o env w prompt) = None ->
  ExampleScript.generateAndSelectVariation env prompt outputName type w
  = (Ok None, tick w,
     [ ELog ("Generating " +:+ ExampleScript.type_name type
             +:+ " with prompt: " +:+ prompt);
       EImagine prompt (Imagine_o env w prompt);
       EError match Imagine_o env w prompt with
              | Ok _ => "Failed to generate variations for " +:+ outputName
              | Thrown _ => "Error generating " +:+ outputName +:+ ":"
              end ]).
Proof.
  unfold ExampleScript.generateAndSelectVariation, try_catch, bind,
    console_log, console_error, emit, Imagine, ret.
  destruct (Imagine_o env w prompt) as [[r|]|err]; cbn [usable]; try done.
  destruct r as [i h f u [[|v0 rest]|]]; cbn [options]; done.
Qed.

Lemma no_variation_no_effect_witness :
  ExampleScript.generateAndSelectVariation
    (sample_env
       (fun _ => Ok (Some {| id := Some "message-1"; hash := None; flags := None;
                             uri := None; options := Some [] |}))
       true any_path)
    "a prompt" "character_rin" ExampleScript.character empty_world
  = (Ok None, tick empty_world,
     [ ELog "Generating character with prompt: a prompt";
       EImagine "a prompt"
         (Ok (Some {| id := Some "message-1"; hash := None; flags := None;
                      uri := None; options := Some [] |}));
       EError "Failed to generate variations for character_rin" ]).
Proof.
  exact (no_variation_no_effect
           (sample_env
              (fun _ => Ok (Some {| id := Some "message-1"; hash := None;
                                    flags := None; uri := None;
                                    options := Some [] |}))
              true any_path)
           "a prompt" "character_rin" ExampleScript.character empty_world eq_refl).
Defined.

(** X3. Once the directory of the variations exists, a generation requests
    every variation once, in the order of [options], and then the first
    variation a second time for the main image, whether or not a download
    or a write fails on the way; when the directory cannot be created it
    requests nothing. *)
Theorem variations_requested_in_order (env : Env) (prompt outputName : string)
    (type : ExampleScript.GenType) (w : World) (r : MJResponse)
    (v0 : Variation) (rest : list Variation) :
  usable (Imagine_o env w prompt) = Some (r, v0, rest) ->
  let variationsDir :=
    path_join env
      [ ExampleScript.baseOutputDir;
        match type with
        | ExampleScript.character => "characters/variations"
        | ExampleScript.scene => "scenes/variations"
        end;
        outputName ] in
  fetched (events (ExampleScript.generateAndSelectVariation env prompt outputName
                     type w))
  = if mkdir_o env (tick w) variationsDir
    then map var_uri (v0 :: rest) ++ [var_uri v0]
    else [].
Proof.
  intros Hu. cbv zeta.
  unfold ExampleScript.generateAndSelectVariation, try_catch, bind,
    console_log, console_error, emit, Imagine, mkdir, now, writeFile, ret.
  destruct (Imagine_o env w prompt) as [[r0|]|err]; cbn [usable] in Hu; try done.
  destruct r0 as [i h f u [[|v rest']|]]; cbn [options] in Hu; try done.
  injection Hu as <- <- <-.
  destruct (mkdir_o env (tick w) _); [|done].
  pose proof (saveVariations_quiet env
                (path_join env
                   [ ExampleScript.baseOutputDir;
                     match type with
                     | ExampleScript.character => "characters/variations"
                     | ExampleScript.scene => "scenes/variations"
                     end;
                     outputName ]) 0 (v :: rest') (tick (tick w))) as [Hsv _].
  pose proof (saveVariations_fetched env
                (path_join env
                   [ ExampleScript.baseOutputDir;
                     match type with
                     | ExampleScript.character => "characters/variations"
                     | ExampleScript.scene => "scenes/variations"
                     end;
                     outputName ]) 0 (v :: rest') (tick (tick w))) as Hfs.
  destruct (ExampleScript.saveVariations env _ 0 (v :: rest') (tick (tick w)))
    as [[rs w3] e3].
  cbn [result events fst snd] in Hsv, Hfs. subst rs.
  pose proof (downloadImage_quiet env (var_uri v)
                (path_join env
                   [ ExampleScript.baseOutputDir;
                     match type with
                     | ExampleScript.character => "characters"
                     | ExampleScript.scene => "scenes"
                     end;
                     outputName +:+ ".png" ]) w3) as [Hdl _].
  pose proof (downloadImage_fetched env (var_uri v)
                (path_join env
                   [ ExampleScript.baseOutputDir;
                     match type with
                     | ExampleScript.character => "characters"
                     | ExampleScript.scene => "scenes"
                     end;
                     outputName +:+ ".png" ]) w3) as Hfd.
  destruct (ExampleScript.downloadImage env (var_uri v) _ w3) as [[rd w4] e4].
  cbn [result events fst snd] in Hdl, Hfd. subst rd.
  destruct (writeFile_o env w4 _); cbn [events snd];
    repeat (rewrite ?fetched_app; cbn [app]);
    change (fetched (ELog ?m :: ?l)) with (fetched l);
    change (fetched (EImagine ?a ?b :: ?l)) with (fetched l);
    change (fetched (EMkdir ?a ?b :: ?l)) with (fetched l);
    rewrite ?fetched_app, Hfs, Hfd; cbn; by rewrite ?app_nil_r.
Qed.

Lemma variations_requested_in_order_witness :
  fetched
    (events
       (ExampleScript.generateAndSelectVariation
          (sample_env always_succeeds false (fun _ => false))
          "a prompt" "scene_001" ExampleScript.scene empty_world))
  = [ "https://cdn.example/0.png"; "https://cdn.example/1.png";
      "https://cdn.example/2.png"; "https://cdn.example/0.png" ].
Proof.
  exact (variations_requested_in_order
           (sample_env always_succeeds false (fun _ => false))
           "a prompt" "scene_001" ExampleScript.scene empty_world
           sample_response (sample_variation "0")
           [sample_variation "1"; sample_variation "2"] eq_refl).
Defined.

(** *** [exampleScript.ts]: the two phases and [generate] *)

Lemma phase_trace_nil ms : phase_trace ms [].
Proof. split; [constructor|done]. Qed.

Lemma phase_trace_app ms e1 e2 :
  phase_trace ms e1 -> phase_trace ms e2 -> phase_trace ms (e1 ++ e2).
Proof.
  intros [H1 P1] [H2 P2]. split; [by apply Forall_app|].
  by rewrite pace_app, P1.
Qed.

Lemma io_events_no_session evs :
  Forall (fun e => is_io_event e = true) evs ->
  Forall (fun e => is_session_event e = false) evs.
Proof. apply List.Forall_impl. by intros []. Qed.

Lemma phase_trace_io ms evs :
  Forall (fun e => is_io_event e = true) evs -> phase_trace ms evs.
Proof.
  intros H. split; [by apply io_events_no_session|by apply pace_io].
Qed.

(** One call of [Imagine], then input and output, then the wait. *)
Lemma phase_trace_item ms log prompt res tail logs :
  Forall (fun e => is_io_event e = true) tail ->
  Forall (fun e => is_io_event e = true) logs ->
  phase_trace ms
    (ELog log :: EImagine prompt res :: tail ++ logs ++ [EDelay ms]).
Proof.
  intros Ht Hl. split.
  - constructor; [done|]. constructor; [done|].
    apply Forall_app. split; [by apply io_events_no_session|].
    apply Forall_app. split; [by apply io_events_no_session|].
    by repeat constructor.
  - cbn [pace]. rewrite pace_app, (pace_io _ _ _ Ht).
    rewrite pace_app, (pace_io _ _ _ Hl). cbn [pace orb].
    by rewrite Z.eqb_refl.
Qed.

Section ExampleScriptTraces.
Variable env : Env.

Lemma generateCharacterReference_trace c characterRefs w :
  match ExampleScript.generateCharacterReference env c characterRefs w with
  | (Ok characterRefs', _, e) =>
      phase_trace 2000 e
      /\ (characterRefs' = characterRefs
          \/ exists u, characterRefs' = <[name c := u]> characterRefs)
  | (Thrown _, _, _) => False
  end.
Proof.
  unfold ExampleScript.generateCharacterReference. cbv zeta.
  rewrite bind_run.
  destruct (generateAndSelectVariation_trace env
              (ExampleScript.buildCharacterPrompt c)
              ("character_" +:+ toLowerCase env (name c)) ExampleScript.character w)
    as (res & w1 & tail & -> & Htail).
  unfold bind, console_log, emit, delay, ret.
  destruct (ExampleScript.response_uri res) as [u|]; cbn [result events fst snd].
  - split; [|right; by exists u].
    cbn [app].
    change (tail ++ [ELog ?l; EDelay 2000])
      with (tail ++ [ELog l] ++ [EDelay 2000]).
    apply phase_trace_item; [done|by repeat constructor].
  - split; [|by left].
    cbn [app]. replace (tail ++ [EDelay 2000]) with (tail ++ [] ++ [EDelay 2000]) by done.
    apply phase_trace_item; [done|constructor].
Qed.

Lemma generateSceneImage_trace script sc characterRefs w :
  match ExampleScript.generateSceneImage env script sc characterRefs w with
  | (Ok characterRefs', _, e) =>
      phase_trace 2000 e /\ characterRefs' = characterRefs
  | (Thrown _, _, _) => False
  end.
Proof.
  unfold ExampleScript.generateSceneImage. cbv zeta.
  rewrite bind_run.
  destruct (generateAndSelectVariation_trace env
              (ExampleScript.buildScenePrompt sc script characterRefs)
              ("scene_" +:+ padStart 3 "0" (pretty (sceneNumber sc)))
              ExampleScript.scene w)
    as (res & w1 & tail & -> & Htail).
  unfold bind, delay, ret. cbn [result events fst snd]. split; [|done].
  cbn [app]. replace (tail ++ [EDelay 2000]) with (tail ++ [] ++ [EDelay 2000]) by done.
  apply phase_trace_item; [done|constructor].
Qed.

(** The character phase never raises. *)
Lemma generateCharacterReferences_trace script characterRefs w :
  match ExampleScript.generateCharacterReferences env script characterRefs w with
  | (Ok characterRefs', _, e) =>
      phase_trace 2000 e /\ kept script characterRefs characterRefs'
  | (Thrown _, _, _) => False
  end.
Proof.
  unfold ExampleScript.generateCharacterReferences, bind, console_log, emit.
  pose proof (for_of_rule (ExampleScript.generateCharacterReference env)
                (fun s e s' => phase_trace 2000 e /\ kept script s s')
                (fun _ _ => False) (characters script)) as Hrule.
  cbv beta in Hrule.
  specialize (Hrule
    (fun s => conj (phase_trace_nil 2000)
                (fun n => conj (fun H => H) (fun _ => eq_refl)))).
  assert (forall (s : gmap string string) e1 (s1 : gmap string string) e2
                 (s2 : gmap string string),
            phase_trace 2000 e1 /\ kept script s s1 ->
            phase_trace 2000 e2 /\ kept script s1 s2 ->
            phase_trace 2000 (e1 ++ e2) /\ kept script s s2) as Hcomp.
  { intros s e1 s1 e2 s2 [T1 K1] [T2 K2]. split; [by apply phase_trace_app|].
    intros n. destruct (K1 n) as [A1 B1], (K2 n) as [A2 B2]. split.
    - intros H. by apply A2, A1.
    - intros H. by rewrite B2, B1. }
  specialize (Hrule Hcomp (fun _ _ _ _ _ H => H)).
  assert (forall x (s : gmap string string) w0, In x (characters script) ->
            match ExampleScript.generateCharacterReference env x s w0 with
            | (Ok s', _, e) => phase_trace 2000 e /\ kept script s s'
            | (Thrown _, _, _) => False
            end) as Hbody.
  { intros x s w0 Hx.
    pose proof (generateCharacterReference_trace x s w0) as H.
    destruct (ExampleScript.generateCharacterReference env x s w0)
      as [[[s'|err] w1] e]; [|done].
    destruct H as [T [->|[u ->]]].
    - split; [done|]. intros n. by split.
    - split; [done|]. intros n. split.
      + intros H. destruct (decide (name x = n)) as [<-|Hne].
        * rewrite lookup_insert_eq. by eexists.
        * by rewrite lookup_insert_ne.
      + intros H. rewrite lookup_insert_ne; [done|]. by apply H. }
  specialize (Hrule Hbody characterRefs w).
  destruct (for_of _ (characters script) characterRefs w) as [[[s'|err] w1] e];
    [|done].
  destruct Hrule as [T K]. split; [|exact K].
  change (phase_trace 2000 ([ELog "Generating character references..."] ++ e)).
  apply phase_trace_app; [|done]. apply phase_trace_io. by repeat constructor.
Qed.

Lemma generateScenes_trace script characterRefs w :
  match ExampleScript.generateScenes env script characterRefs w with
  | (Ok characterRefs', _, e) =>
      phase_trace 2000 e /\ characterRefs' = characterRefs
  | (Thrown _, _, _) => False
  end.
Proof.
  unfold ExampleScript.generateScenes, bind, console_log, emit.
  pose proof (for_of_rule (ExampleScript.generateSceneImage env script)
                (fun s e s' => phase_trace 2000 e /\ s' = s)
                (fun _ _ => False) (scenes script)) as Hrule.
  specialize (Hrule (fun s => conj (phase_trace_nil 2000) eq_refl)).
  assert (forall (s : gmap string string) e1 s1 e2 s2,
            phase_trace 2000 e1 /\ s1 = s -> phase_trace 2000 e2 /\ s2 = s1 ->
            phase_trace 2000 (e1 ++ e2) /\ s2 = s) as Hcomp.
  { intros s e1 s1 e2 s2 [T1 ->] [T2 ->]. split; [by apply phase_trace_app|done]. }
  specialize (Hrule Hcomp (fun _ _ _ _ _ H => H)).
  specialize (Hrule (fun x s w0 _ => generateSceneImage_trace script x s w0)
                characterRefs w).
  destruct (for_of _ (scenes script) characterRefs w) as [[[s'|err] w1] e];
    [|done].
  destruct Hrule as [T ->]. split; [|done].
  change (phase_trace 2000 ([ELog "Generating scenes..."] ++ e)).
  apply phase_trace_app; [|done]. apply phase_trace_io. by repeat constructor.
Qed.
End ExampleScriptTraces.

Section ExampleScriptGenerate.
Variable env : Env.

(** Every run of [generate]: it stops before the connection; or the file
    holds JSON that is no script, and the run stops after the first log
    of the character phase; or it runs the two phases. It always
    closes. *)
Lemma generate_structure scriptPath characterRefs w :
  exists r w' e,
    ExampleScript.generate env scriptPath characterRefs w = (r, w', e)
    /\ exists e_dirs,
         Forall (fun e => exists dir ok, e = EMkdir dir ok) e_dirs
         /\ ((r = Ok characterRefs
              /\ e = e_dirs ++ [EError "Error in generate:"; EClose]
              /\ (no_json w scriptPath -> e_dirs = [] /\ w' = tick w))
             \/ (other_json w scriptPath
                 /\ r = Ok characterRefs
                 /\ e = e_dirs
                        ++ [ EConnect;
                             ELog "Generating character references...";
                             EError "Error in generate:"; EClose ])
             \/ (exists script characterRefs' e_chars e_scenes,
                   fs w !! scriptPath = Some (CScript script)
                   /\ r = Ok characterRefs'
                   /\ e = e_dirs ++ EConnect :: e_chars ++ e_scenes ++ [EClose]
                   /\ phase_trace 2000 e_chars
                   /\ phase_trace 2000 e_scenes
                   /\ kept script characterRefs characterRefs'
                   /\ imagine_prompts e_chars
                      = map ExampleScript.buildCharacterPrompt (characters script)
                   /\ imagine_prompts e_scenes
                      = map (fun sc =>
                               ExampleScript.buildScenePrompt sc script
                                 characterRefs')
                          (scenes script))).
Proof.
  unfold ExampleScript.generate, try_catch.
  unfold bind at 1. unfold readJSON, no_json, other_json.
  destruct (fs w !! scriptPath) as [[b|m|im|p|r|script]|] eqn:Hfs;
    try (do 3 eexists; split; [reflexivity|]; exists []; split; [constructor|];
         left; done).
  1-4:
    unfold bind at 1;
    pose proof (createDirectoryStructure_run env (tick w)) as Hdirs;
    destruct (ExampleScript.createDirectoryStructure env (tick w))
      as [[[[]|err] w1] e1]; cbn [events snd] in Hdirs;
    [ unfold bind at 1; unfold Connect;
      destruct (Connect_o env w1);
      do 3 eexists; (split; [reflexivity|]); exists e1; (split; [done|]);
      [ right; left; split; [done|]; split; [done|];
        cbn [result world events fst snd app]; by rewrite <- ?app_assoc
      | left; split; [done|]; split; [cbn [app]; by rewrite ?app_nil_r|done] ]
    | do 3 eexists; (split; [reflexivity|]); exists e1; (split; [done|]);
      left; by repeat split ].
  unfold bind at 1.
  pose proof (createDirectoryStructure_run env (tick w)) as Hdirs.
  destruct (ExampleScript.createDirectoryStructure env (tick w))
    as [[[[]|err] w1] e1]; cbn [events snd] in Hdirs.
  2:{ do 3 eexists. split; [reflexivity|]. exists e1. split; [done|]. left.
      by repeat split. }
  unfold bind at 1. unfold Connect.
  destruct (Connect_o env w1).
  2:{ do 3 eexists. split; [reflexivity|]. exists e1. split; [done|]. left.
      split; [done|]. split; [cbn [app]; by rewrite ?app_nil_r|done]. }
  unfold bind at 1.
  pose proof (generateCharacterReferences_trace env script characterRefs (tick w1))
    as Hchars.
  pose proof (generateCharacterReferences_total env script characterRefs (tick w1))
    as (refs0 & _ & Hp2).
  destruct (ExampleScript.generateCharacterReferences env script characterRefs
              (tick w1)) as [[[refs'|err] w2] e2]; [|done].
  destruct Hchars as [T2 K2]. cbn [events snd] in Hp2.
  unfold bind at 1.
  pose proof (generateScenes_trace env script refs' w2) as Hscenes.
  pose proof (generateScenes_total env script refs' w2) as [_ Hp3].
  destruct (ExampleScript.generateScenes env script refs' w2)
    as [[[refs''|err] w3] e3]; [|done].
  destruct Hscenes as [T3 ->]. cbn [events snd] in Hp3.
  unfold bind, Close, emit, ret. cbn [app].
  do 3 eexists. split; [reflexivity|]. exists e1. split; [done|]. right. right.
  exists script, refs', e2, e3.
  split; [done|]. split; [done|]. split; [|done].
  rewrite <- ?app_assoc. cbn [app]. by rewrite ?app_nil_r.
Qed.
End ExampleScriptGenerate.

Lemma mkdir_events_io evs :
  Forall (fun e => exists dir ok, e = EMkdir dir ok) evs ->
  Forall (fun e => is_io_event e = true) evs.
Proof. apply List.Forall_impl. by intros ? (dir & ok & ->). Qed.

Lemma filter_close_none evs :
  Forall (fun e => is_session_event e = false) evs ->
  List.filter is_close evs = [].
Proof.
  induction 1 as [|e evs He _ IH]; [done|].
  destruct e; try done; exact IH.
Qed.

Lemma no_session_no_connect evs :
  Forall (fun e => is_session_event e = false) evs -> ~ In EConnect evs.
Proof.
  intros H Hin. rewrite List.Forall_forall in H. by specialize (H _ Hin).
Qed.

Lemma last_snoc {A} (l : list A) x : last (l ++ [x]) = Some x.
Proof. by rewrite last_app. Qed.

(** X4. [generate] of [exampleScript.ts] never rejects and always closes the
    client, exactly once and as its last action, whether the run stops at
    the script, at the directories or at the connection, or goes through
    both phases. *)
Theorem generate_closes_once (env : Env) (scriptPath : string)
    (characterRefs : gmap string string) (w : World) :
  let run := ExampleScript.generate env scriptPath characterRefs w in
  (exists characterRefs', result run = Ok characterRefs')
  /\ List.filter is_close (events run) = [EClose]
  /\ last (events run) = Some EClose.
Proof.
  cbv zeta.
  destruct (generate_structure env scriptPath characterRefs w)
    as (r & w' & e & -> & e_dirs & Hdirs
        & [(-> & -> & _)
          |[(_ & -> & ->)
           |(script & refs' & e2 & e3 & _ & -> & -> & [S2 _] & [S3 _] & _)]]);
    cbn [result events fst snd].
  - split; [by eexists|]. split.
    + rewrite List.filter_app.
      by rewrite (filter_close_none _ (io_events_no_session _ (mkdir_events_io _ Hdirs))).
    + change (e_dirs ++ [EError "Error in generate:"; EClose])
        with (e_dirs ++ [EError "Error in generate:"] ++ [EClose]).
      by rewrite app_assoc, last_snoc.
  - split; [by eexists|]. split.
    + rewrite List.filter_app.
      by rewrite (filter_close_none _ (io_events_no_session _ (mkdir_events_io _ Hdirs))).
    + change (e_dirs ++ [ EConnect; ELog "Generating character references...";
                          EError "Error in generate:"; EClose ])
        with (e_dirs ++ [ EConnect; ELog "Generating character references...";
                          EError "Error in generate:" ] ++ [EClose]).
      by rewrite app_assoc, last_snoc.
  - split; [by eexists|]. split.
    + rewrite List.filter_app. cbn [List.filter is_close].
      rewrite !List.filter_app.
      rewrite (filter_close_none _ (io_events_no_session _ (mkdir_events_io _ Hdirs))).
      by rewrite (filter_close_none _ S2), (filter_close_none _ S3).
    + change (e_dirs ++ EConnect :: e2 ++ e3 ++ [EClose])
        with (e_dirs ++ (EConnect :: e2) ++ e3 ++ [EClose]).
      by rewrite !app_assoc, last_snoc.
Qed.

(** X5. A run of [generate] that does not open the connection (the script
    cannot be read, a directory cannot be created, or [Connect] fails)
    submits nothing to the backend and fetches nothing: after the
    directories it could create it only logs the error and closes, and the
    references of the instance are as before. When the file is missing or
    holds no JSON text, not even a directory is created. When it holds JSON
    that is no script, the run goes on as far as the character phase: it
    creates the directories and, if it connects, logs the start of the
    phase and fails there, with nothing submitted, and closes. *)
Theorem generate_setup_failure (env : Env) (scriptPath : string)
    (characterRefs : gmap string string) (w : World) :
  let run := ExampleScript.generate env scriptPath characterRefs w in
  (~ In EConnect (events run) ->
   result run = Ok characterRefs
   /\ submissions (events run) = []
   /\ fetched (events run) = []
   /\ exists e_dirs,
        events run = e_dirs ++ [EError "Error in generate:"; EClose]
        /\ Forall (fun e => exists dir ok, e = EMkdir dir ok) e_dirs)
  /\ (no_json w scriptPath ->
      run = (Ok characterRefs, tick w, [EError "Error in generate:"; EClose]))
  /\ (other_json w scriptPath ->
      result run = Ok characterRefs
      /\ submissions (events run) = []
      /\ fetched (events run) = []
      /\ exists e_dirs,
           Forall (fun e => exists dir ok, e = EMkdir dir ok) e_dirs
           /\ ((~ In EConnect (events run)
                /\ events run = e_dirs ++ [EError "Error in generate:"; EClose])
               \/ events run
                  = e_dirs
                    ++ [ EConnect; ELog "Generating character references...";
                         EError "Error in generate:"; EClose ])).
Proof.
  cbv zeta.
  assert (Hnf : forall e_dirs,
            Forall (fun e => exists dir ok, e = EMkdir dir ok) e_dirs ->
            fetched e_dirs = []).
  { intros e_dirs H. induction H as [|? ? (dir & ok & ->) _ IH]; [done|exact IH]. }
  assert (Hnc : forall e_dirs,
            Forall (fun e => exists dir ok, e = EMkdir dir ok) e_dirs ->
            ~ In EConnect (e_dirs ++ [EError "Error in generate:"; EClose])).
  { intros e_dirs H [Hin|Hin]%in_app_or.
    - rewrite List.Forall_forall in H. by destruct (H _ Hin) as (? & ? & ?).
    - by destruct Hin as [|[|]]. }
  destruct (generate_structure env scriptPath characterRefs w)
    as (r & w' & e & Hrun & e_dirs & Hdirs
        & [(-> & -> & Hbad)
          |[(Hother & -> & ->)
           |(script & refs' & e2 & e3 & Hfs & -> & -> & _)]]);
    rewrite Hrun; cbn [result events fst snd]; (split; [|split]).
  - intros _. split; [done|]. split; [|split].
    + rewrite submissions_app.
      by rewrite (io_events_no_submission _ (mkdir_events_io _ Hdirs)).
    + by rewrite fetched_app, (Hnf _ Hdirs).
    + by exists e_dirs.
  - intros H. by destruct (Hbad H) as [-> ->].
  - intros _. split; [done|]. split; [|split].
    + rewrite submissions_app.
      by rewrite (io_events_no_submission _ (mkdir_events_io _ Hdirs)).
    + by rewrite fetched_app, (Hnf _ Hdirs).
    + exists e_dirs. split; [done|]. left. split; [by apply Hnc|done].
  - intros Hno. exfalso. apply Hno. apply in_or_app. right. by left.
  - unfold no_json, other_json in *.
    destruct (fs w !! scriptPath) as [[]|]; done.
  - intros _. split; [done|]. split; [|split].
    + rewrite submissions_app.
      by rewrite (io_events_no_submission _ (mkdir_events_io _ Hdirs)).
    + by rewrite fetched_app, (Hnf _ Hdirs).
    + exists e_dirs. split; [done|]. by right.
  - intros Hno. exfalso. apply Hno. apply in_or_app. right. by left.
  - unfold no_json. by rewrite Hfs.
  - unfold other_json. by rewrite Hfs.
Qed.

(** X6. In a run of [generate] of [exampleScript.ts] two submissions to the
    backend are always separated by a wait of 2000 ms: the wait follows
    every item, also one that failed. *)
Theorem generate_paced (env : Env) (scriptPath : string)
    (characterRefs : gmap string string) (w : World) :
  paced 2000 (events (ExampleScript.generate env scriptPath characterRefs w)).
Proof.
  destruct (generate_structure env scriptPath characterRefs w)
    as (r & w' & e & -> & e_dirs & Hdirs
        & [(-> & -> & _)
          |[(_ & -> & ->)
           |(script & refs' & e2 & e3 & _ & -> & -> & [_ P2] & [_ P3] & _)]]);
    cbn [events snd].
  - apply (pace_paced 2000 true _ true).
    rewrite pace_app, (pace_io _ _ _ (mkdir_events_io _ Hdirs)). done.
  - apply (pace_paced 2000 true _ true).
    rewrite pace_app, (pace_io _ _ _ (mkdir_events_io _ Hdirs)). done.
  - apply (pace_paced 2000 true _ true).
    rewrite pace_app, (pace_io _ _ _ (mkdir_events_io _ Hdirs)).
    cbn [pace]. by rewrite pace_app, P2, pace_app, P3.
Qed.

(** X7. [generate] of [exampleScript.ts] never drops a reference handle of
    the instance it runs on: every name that had a handle still has one,
    and the handle of a name that is not a character of the script read is
    unchanged. *)
Theorem generate_keeps_references (env : Env) (scriptPath : string)
    (characterRefs : gmap string string) (w : World) :
  exists characterRefs',
    result (ExampleScript.generate env scriptPath characterRefs w)
    = Ok characterRefs'
    /\ (forall n, is_Some (characterRefs !! n) -> is_Some (characterRefs' !! n))
    /\ (forall script n,
          fs w !! scriptPath = Some (CScript script) ->
          (forall c, In c (characters script) -> name c <> n) ->
          characterRefs' !! n = characterRefs !! n).
Proof.
  destruct (generate_structure env scriptPath characterRefs w)
    as (r & w' & e & -> & e_dirs & Hdirs
        & [(-> & -> & _)
          |[(_ & -> & ->)
           |(script & refs' & e2 & e3 & Hfs & -> & -> & _ & _ & K & _)]]);
    cbn [result fst].
  - exists characterRefs. by repeat split.
  - exists characterRefs. by repeat split.
  - exists refs'. split; [done|]. split.
    + intros n. apply K.
    + intros script' n Hfs'. rewrite Hfs in Hfs'. injection Hfs' as <-.
      apply K.
Qed.

(** X8. [main] of [exampleScript.ts] runs the generator on the script it has
    just saved: when the write of [./anime_script.json] succeeds, the run
    reads that very script back, whatever the file held before, and once
    connected it submits the character prompts of the script and then its
    scene prompts, built with the handles the run returns. *)
Theorem main_runs_saved_script (env : Env) (script : AnimeScript) (w : World) :
  writeFile_o env w "./anime_script.json" = true ->
  exists r w' e,
    ExampleScript.main_of env script w
    = (r, w', EWriteFile "./anime_script.json" (CScript script) true :: e)
    /\ (In EConnect e ->
        exists characterRefs,
          r = Ok characterRefs
          /\ imagine_prompts e
             = map ExampleScript.buildCharacterPrompt (characters script)
               ++ map (fun sc =>
                         ExampleScript.buildScenePrompt sc script characterRefs)
                    (scenes script)).
Proof.
  intros Hw.
  unfold ExampleScript.main_of, ExampleScript.saveExampleScript_of, bind, writeFile.
  rewrite Hw.
  destruct (generate_structure env "./anime_script.json" ∅
              {| clock := S (clock w);
                 fs := <["./anime_script.json" := CScript script]> (fs w) |})
    as (r & w' & e & -> & e_dirs & Hdirs
        & [(-> & -> & _)
          |[(Hother & _)
           |(script' & refs' & e2 & e3 & Hfs & -> & -> & [S2 _] & [S3 _] & _ & P2 & P3)]]).
  2:{ exfalso. unfold other_json in Hother. cbn [fs] in Hother.
      by rewrite lookup_insert_eq in Hother. }
  - do 3 eexists. split; [reflexivity|]. intros Hin. exfalso.
    apply in_app_or in Hin as [Hin|[Hin|[Hin|[]]]]; try discriminate Hin.
    by apply (no_session_no_connect _
                (io_events_no_session _ (mkdir_events_io _ Hdirs))).
  - cbn [fs] in Hfs. rewrite lookup_insert_eq in Hfs. injection Hfs as <-.
    do 3 eexists. split; [reflexivity|]. intros _. exists refs'. split; [done|].
    rewrite imagine_prompts_app, imagine_prompts_cons, !imagine_prompts_app.
    rewrite P2, P3, (io_events_no_prompt _ (mkdir_events_io _ Hdirs)). cbn.
    by rewrite app_nil_r.
Qed.

Lemma main_runs_saved_script_witness :
  exists r w' e,
    ExampleScript.main (sample_env always_succeeds true any_path)
      (world_with [("./anime_script.json", CScript sample_script)])
    = (r, w',
       EWriteFile "./anime_script.json" (CScript ExampleScript.scriptExample) true
       :: e)
    /\ (In EConnect e ->
        exists characterRefs,
          r = Ok characterRefs
          /\ imagine_prompts e
             = map ExampleScript.buildCharacterPrompt
                 (characters ExampleScript.scriptExample)
               ++ map (fun sc =>
                         ExampleScript.buildScenePrompt sc
                           ExampleScript.scriptExample characterRefs)
                    (scenes ExampleScript.scriptExample)).
Proof.
  exact (main_runs_saved_script (sample_env always_succeeds true any_path)
           ExampleScript.scriptExample
           (world_with [("./anime_script.json", CScript sample_script)]) eq_refl).
Defined.

(** *** [anime.ts], the storyboard program: the ledger file and the images *)

(** X10. [downloadImage] of the storyboard program, unlike the one of
    [exampleScript.ts], rejects when the fetch or the write fails, and then
    leaves the disk as it was and logs nothing. When it returns, the bytes
    fetched from [url] are the content of [filepath], no other file has
    changed, and the download is logged. *)
Theorem storyboard_downloadImage_outcome (env : Env) (url filepath : string)
    (w : World) :
  let run := Storyboard.downloadImage env url filepath w in
  match result run with
  | Ok _ =>
      exists b,
        fetch_o env w url = Some b
        /\ fs (world run) = <[filepath := CBuffer b]> (fs w)
        /\ events run
           = [ EFetch url (Some b); EWriteFile filepath (CBuffer b) true;
               ELog ("Downloaded image to " +:+ filepath) ]
  | Thrown _ =>
      fs (world run) = fs w
      /\ (fetch_o env w url = None \/ writeFile_o env (tick w) filepath = false)
      /\ Forall (fun e => forall msg, e <> ELog msg) (events run)
  end.
Proof.
  cbv zeta. unfold Storyboard.downloadImage, bind, http_get, writeFile,
    console_log, emit.
  destruct (fetch_o env w url) as [b|].
  - destruct (writeFile_o env (tick w) filepath) eqn:Hw;
      cbn [result world events fst snd fs app].
    + by exists b.
    + split; [done|]. split; [by right|]. by repeat constructor.
  - cbn [result world events fst snd fs]. split; [done|]. split; [by left|].
    by repeat constructor.
Qed.

Section StoryboardWorlds.
Variable env : Env.

(** The code [generateCharacter] and [generateScene] share, with what it
    leaves on the disk. *)
Lemma generation_world {A} (prompt ipath : string) (fail1 fail2 : string)
    (k : string -> A) w :
  match (result0 <- Imagine env prompt ;;
         match result0 with
         | None => throw fail1
         | Some result0 =>
             upscaled <- Upscale env 1 (id result0) (hash result0) (flags result0) ;;
             match Storyboard.upscaled_uri upscaled with
             | None => throw fail2
             | Some u =>
                 Storyboard.downloadImage env u ipath ;;
                 ret (k u)
             end
         end) w with
  | (Ok a, w', e) =>
      exists r up u b,
        a = k u
        /\ upscale_uri up = Some u
        /\ e = [ EImagine prompt (Ok (Some r));
                 EUpscale 1 (id r) (hash r) (flags r) up;
                 EFetch u (Some b); EWriteFile ipath (CBuffer b) true;
                 ELog ("Downloaded image to " +:+ ipath) ]
        /\ fs w' = <[ipath := CBuffer b]> (fs w)
  | (Thrown _, w', e) => fs w' = fs w
  end.
Proof.
  unfold Storyboard.downloadImage, bind, Imagine, Upscale, throw, http_get,
    writeFile, console_log, emit, ret.
  destruct (Imagine_o env w prompt) as [[r|]|err]; try done.
  destruct (Upscale_o env (tick w) 1 (id r) (hash r) (flags r))
    as [up|err] eqn:Hup; [|done].
  destruct (Storyboard.upscaled_uri up) as [u|] eqn:Hu; [|done].
  destruct (fetch_o env (tick (tick w)) u) as [b|]; [|done].
  destruct (writeFile_o env (tick (tick (tick w))) ipath); [|done].
  by exists r, (Ok up), u, b.
Qed.
End StoryboardWorlds.

(** X11. [generateCharacter] and [generateScene] return only when the
    upscaled image of the item is on disk under the item's name: the trace is
    the log, one [Imagine] with a non-null result, the [Upscale] of its first
    image (index 1, with the id, hash and flags of that result), the fetch of
    the upscaled address and the write of the fetched bytes. When they
    reject, the disk is as it was. *)
Theorem generation_outcome (env : Env) (c : Storyboard.StoryCharacter)
    (sc : Storyboard.StoryScene) (characterRefs : gmap string string)
    (w : World) :
  let crun := Storyboard.generateCharacter env c w in
  let cpath :=
    path_join env ["output/character_images"; Storyboard.name c +:+ ".png"] in
  let srun := Storyboard.generateScene env sc characterRefs w in
  let spath :=
    path_join env ["output/scene_images"; Storyboard.scene_title sc +:+ ".png"] in
  let sprompt := Storyboard.render characterRefs (Storyboard.scene_prompt sc) in
  match result crun with
  | Ok (u, filepath) =>
      filepath = cpath
      /\ exists r up b,
           upscale_uri up = Some u
           /\ events crun
              = [ ELog ("Generating character: " +:+ Storyboard.name c);
                  EImagine (Storyboard.prompt c) (Ok (Some r));
                  EUpscale 1 (id r) (hash r) (flags r) up;
                  EFetch u (Some b); EWriteFile cpath (CBuffer b) true;
                  ELog ("Downloaded image to " +:+ cpath) ]
           /\ fs (world crun) = <[cpath := CBuffer b]> (fs w)
  | Thrown _ => fs (world crun) = fs w
  end
  /\ match result srun with
     | Ok filepath =>
         filepath = spath
         /\ exists r up u b,
              upscale_uri up = Some u
              /\ events srun
                 = [ ELog ("Generating scene: " +:+ Storyboard.scene_title sc);
                     ELog ("Scene prompt: " +:+ sprompt);
                     EImagine sprompt (Ok (Some r));
                     EUpscale 1 (id r) (hash r) (flags r) up;
                     EFetch u (Some b); EWriteFile spath (CBuffer b) true;
                     ELog ("Downloaded image to " +:+ spath) ]
              /\ fs (world srun) = <[spath := CBuffer b]> (fs w)
     | Thrown _ => fs (world srun) = fs w
     end.
Proof.
  cbv zeta. split.
  - unfold Storyboard.generateCharacter.
    rewrite bind_run. unfold console_log, emit.
    pose proof (generation_world env (Storyboard.prompt c)
                  (path_join env ["output/character_images";
                                  Storyboard.name c +:+ ".png"])
                  ("Failed to generate character " +:+ Storyboard.name c)
                  ("Failed to upscale character " +:+ Storyboard.name c)
                  (fun u => (u, path_join env ["output/character_images";
                                               Storyboard.name c +:+ ".png"]))
                  w) as H.
    cbv beta in H.
    match type of H with
    | match ?m with _ => _ end => destruct m as [[[a|err] w'] e]
    end; cbn [result world events fst snd].
    + destruct H as (r & up & u & b & -> & Hu & -> & Hfs).
      split; [done|]. by exists r, up, b.
    + exact H.
  - unfold Storyboard.generateScene.
    rewrite bind_run. unfold console_log, emit. rewrite bind_run.
    pose proof (generation_world env
                  (Storyboard.render characterRefs (Storyboard.scene_prompt sc))
                  (path_join env ["output/scene_images";
                                  Storyboard.scene_title sc +:+ ".png"])
                  ("Failed to generate scene " +:+ Storyboard.scene_title sc)
                  ("Failed to upscale scene " +:+ Storyboard.scene_title sc)
                  (fun _ => path_join env ["output/scene_images";
                                           Storyboard.scene_title sc +:+ ".png"])
                  w) as H.
    cbv beta in H.
    match type of H with
    | match ?m with _ => _ end => destruct m as [[[a|err] w'] e]
    end; cbn [result world events fst snd].
    + destruct H as (r & up & u & b & -> & Hu & -> & Hfs).
      split; [done|]. by exists r, up, u, b.
    + exact H.
Qed.

(** *** [anime.ts], the storyboard program: the session and the waits *)

Lemma only_logs_io logs :
  Forall (fun e => exists msg, e = ELog msg) logs ->
  Forall (fun e => is_io_event e = true) logs.
Proof. apply List.Forall_impl. by intros ? (msg & ->). Qed.

Lemma generation_trace_phase prompt ipath r evs :
  generation_trace prompt ipath r evs ->
  Forall (fun e => is_session_event e = false) evs
  /\ forall ms, pace ms true evs = Some false.
Proof. destruct 1; split; by repeat constructor. Qed.

Lemma iteration_trace_phase skip_log logs prompt ipath ledger p' done_log
    outcome evs :
  Forall (fun e => exists msg, e = ELog msg) logs ->
  iteration_trace skip_log logs prompt ipath ledger p' done_log outcome evs ->
  Forall (fun e => is_session_event e = false) evs
  /\ pace 5000 true evs
     = Some match outcome with
            | Some _ => true
            | None => false
            end.
Proof.
  intros Hlogs. pose proof (only_logs_io _ Hlogs) as Hio.
  destruct 1 as [|err evs Hg|u evs Hg|u evs Hg].
  - split; by repeat constructor.
  - destruct (generation_trace_phase _ _ _ _ Hg) as [Hs Hp]. split.
    + apply Forall_app. split; [by apply io_events_no_session|done].
    + by rewrite pace_app, (pace_io _ _ _ Hio).
  - destruct (generation_trace_phase _ _ _ _ Hg) as [Hs Hp]. split.
    + apply Forall_app. split; [by apply io_events_no_session|].
      apply Forall_app. split; [done|by repeat constructor].
    + by rewrite pace_app, (pace_io _ _ _ Hio), pace_app, Hp.
  - destruct (generation_trace_phase _ _ _ _ Hg) as [Hs Hp]. split.
    + apply Forall_app. split; [by apply io_events_no_session|].
      apply Forall_app. split; [done|by repeat constructor].
    + by rewrite pace_app, (pace_io _ _ _ Hio), pace_app, Hp.
Qed.

Lemma iteration_trace_no_error skip_log logs prompt ipath ledger p' done_log
    outcome evs :
  Forall (fun e => exists msg, e = ELog msg) logs ->
  iteration_trace skip_log logs prompt ipath ledger p' done_log outcome evs ->
  Forall (fun e => forall msg, e <> EError msg) evs.
Proof.
  intros Hlogs.
  assert (Forall (fun e => forall msg, e <> EError msg) logs) as Nlogs.
  { eapply List.Forall_impl; [|exact Hlogs]. by intros ? (m & ->). }
  destruct 1 as [|err evs Hg|u evs Hg|u evs Hg].
  - by repeat constructor.
  - apply Forall_app. split; [done|]. destruct Hg; by repeat constructor.
  - apply Forall_app. split; [done|]. apply Forall_app.
    split; [destruct Hg|]; by repeat constructor.
  - apply Forall_app. split; [done|]. apply Forall_app.
    split; [destruct Hg|]; by repeat constructor.
Qed.

(** A trace that a failure may have cut short. *)
Lemma cut_trace_app ms e1 e2 :
  phase_trace ms e1 ->
  Forall (fun e => is_session_event e = false) e2
  /\ (exists b, pace ms true e2 = Some b) ->
  Forall (fun e => is_session_event e = false) (e1 ++ e2)
  /\ exists b, pace ms true (e1 ++ e2) = Some b.
Proof.
  intros [S1 P1] [S2 P2]. split; [by apply Forall_app|].
  by rewrite pace_app, P1.
Qed.

Section StoryboardSession.
Variable env : Env.

Lemma characters_loop_phase cs s w :
  match for_of (Storyboard.character_iteration env) cs s w with
  | (Ok _, _, e) => phase_trace 5000 e
  | (Thrown _, _, e) =>
      Forall (fun e => is_session_event e = false) e
      /\ exists b, pace 5000 true e = Some b
  end.
Proof.
  apply (for_of_rule (Storyboard.character_iteration env)
           (fun _ e _ => phase_trace 5000 e)
           (fun _ e =>
              Forall (fun e => is_session_event e = false) e
              /\ exists b, pace 5000 true e = Some b)).
  - intros _. apply phase_trace_nil.
  - intros _ e1 _ e2 _. apply phase_trace_app.
  - intros _ e1 _ e2. apply cut_trace_app.
  - intros c s0 w0 _.
    pose proof (character_iteration_trace env c s0 w0) as H.
    destruct (Storyboard.character_iteration env c s0 w0)
      as [[[s'|err] w'] e].
    + destruct H as [(T & _)|(u & T & _)];
        apply iteration_trace_phase in T; try apply character_logs; exact T.
    + destruct H as [T _].
      apply iteration_trace_phase in T; [|apply character_logs].
      destruct T as [S P]. split; [done|by eexists].
Qed.

Lemma scenes_loop_phase scs s w :
  match for_of (Storyboard.scene_iteration env) scs s w with
  | (Ok _, _, e) => phase_trace 5000 e
  | (Thrown _, _, e) =>
      Forall (fun e => is_session_event e = false) e
      /\ exists b, pace 5000 true e = Some b
  end.
Proof.
  apply (for_of_rule (Storyboard.scene_iteration env)
           (fun _ e _ => phase_trace 5000 e)
           (fun _ e =>
              Forall (fun e => is_session_event e = false) e
              /\ exists b, pace 5000 true e = Some b)).
  - intros _. apply phase_trace_nil.
  - intros _ e1 _ e2 _. apply phase_trace_app.
  - intros _ e1 _ e2. apply cut_trace_app.
  - intros sc s0 w0 _.
    pose proof (scene_iteration_trace env sc s0 w0) as H.
    destruct (Storyboard.scene_iteration env sc s0 w0)
      as [[[s'|err] w'] e].
    + destruct H as [(T & _)|(u & T & _)];
        apply iteration_trace_phase in T; try apply scene_logs; exact T.
    + destruct H as [T _].
      apply iteration_trace_phase in T; [|apply scene_logs].
      destruct T as [S P]. split; [done|by eexists].
Qed.
End StoryboardSession.

Section StoryboardOutcome.
Variable env : Env.

(** The [try] block of [main], phase by phase, with its result and what
    the last write leaves on the disk. *)
Lemma storyboard_outcome st p w0 :
  exists r w3 e,
    Storyboard.storyboard env st p w0 = (r, w3, e)
    /\ exists e_load r1 w1 e1,
         Forall (fun e => exists msg, e = ELog msg) e_load
         /\ for_of (Storyboard.character_iteration env)
              (Storyboard.mainCharacters st) (loaded_state env p w0) (tick w0)
            = (r1, w1, e1)
         /\ match r1 with
            | Thrown err => r = Thrown err /\ w3 = w1 /\ e = e_load ++ e1
            | Ok s1 =>
                exists r2 w2 e2,
                  for_of (Storyboard.scene_iteration env) (Storyboard.scenes st)
                    s1 w1
                  = (r2, w2, e2)
                  /\ match r2 with
                     | Thrown err =>
                         r = Thrown err /\ w3 = w2 /\ e = e_load ++ e1 ++ e2
                     | Ok s2 =>
                         let summary :=
                           CReferences
                             {| uris := Storyboard.characterRefs s2;
                                files := Storyboard.characterFiles s2 |} in
                         let ok :=
                           writeFile_o env w2
                             (Storyboard.character_references_json env) in
                         e = e_load ++ e1 ++ e2
                             ++ [ EWriteFile
                                    (Storyboard.character_references_json env)
                                    summary ok ]
                         /\ if ok
                            then r = Ok tt
                                 /\ fs w3
                                    = <[Storyboard.character_references_json env
                                        := summary]> (fs w2)
                            else (exists err, r = Thrown err) /\ fs w3 = fs w2
                     end
            end.
Proof.
  destruct (loadReferences_run env p w0) as (e_load & Hlogs & Hload).
  unfold Storyboard.storyboard, bind. rewrite Hload.
  destruct (for_of (Storyboard.character_iteration env) _ _ (tick w0))
    as [[[s1|err] w1] e_chars] eqn:Hchars.
  2:{ do 3 eexists. split; [reflexivity|].
      exists e_load, (Thrown err), w1, e_chars. by repeat split. }
  destruct (for_of (Storyboard.scene_iteration env) _ s1 w1)
    as [[[s2|err] w2] e_scenes] eqn:Hscenes.
  2:{ do 3 eexists. split; [reflexivity|].
      exists e_load, (Ok s1), w1, e_chars. split; [done|]. split; [done|].
      exists (Thrown err), w2, e_scenes. split; [done|].
      by rewrite <- ?app_assoc. }
  unfold writeFile.
  destruct (writeFile_o env w2 _) eqn:Hok.
  - do 3 eexists. split; [reflexivity|].
    exists e_load, (Ok s1), w1, e_chars. split; [done|]. split; [done|].
    exists (Ok s2), w2, e_scenes. split; [done|]. cbv zeta. rewrite Hok.
    split; [by rewrite <- ?app_assoc|done].
  - do 3 eexists. split; [reflexivity|].
    exists e_load, (Ok s1), w1, e_chars. split; [done|]. split; [done|].
    exists (Ok s2), w2, e_scenes. split; [done|]. cbv zeta. rewrite Hok.
    split; [by rewrite <- ?app_assoc|]. split; [by eexists|done].
Qed.

(** The trace of the [try] block: no connection is opened or closed, the
    calls of [Imagine] are 5000 ms apart, and the reference summary is
    written with success exactly when the block returns, as its last
    action. *)
Lemma storyboard_trace st p w0 :
  exists r w3 e,
    Storyboard.storyboard env st p w0 = (r, w3, e)
    /\ Forall (fun e => is_session_event e = false) e
    /\ (exists b, pace 5000 true e = Some b)
    /\ match r with
       | Ok _ =>
           exists body refs,
             e = body ++ [ EWriteFile (Storyboard.character_references_json env)
                             (CReferences refs) true ]
             /\ Forall (fun e => is_record_write e = false) body
       | Thrown _ =>
           forall path refs, ~ In (EWriteFile path (CReferences refs) true) e
       end.
Proof.
  destruct (storyboard_outcome st p w0)
    as (r & w3 & e & Hrun & e_load & r1 & w1 & e1 & Hlogs & Hchars & Hrest).
  exists r, w3, e. split; [exact Hrun|].
  pose proof (phase_trace_io 5000 _ (only_logs_io _ Hlogs)) as Tload.
  pose proof (characters_loop_phase env (Storyboard.mainCharacters st)
                (loaded_state env p w0) (tick w0)) as Tchars.
  pose proof (characters_loop_no_record env (Storyboard.mainCharacters st)
                (loaded_state env p w0) (tick w0)) as Nchars.
  rewrite Hchars in Tchars, Nchars. cbn [events snd] in Nchars.
  pose proof (only_logs_no_record _ Hlogs) as Nload.
  destruct r1 as [s1|err].
  2:{ destruct Hrest as (-> & -> & ->).
      destruct (cut_trace_app 5000 _ _ Tload Tchars) as [S P].
      split; [done|]. split; [done|].
      intros path refs Hin.
      assert (Forall (fun e => is_record_write e = false) (e_load ++ e1)) as N
        by (by apply Forall_app).
      rewrite List.Forall_forall in N. by specialize (N _ Hin). }
  destruct Hrest as (r2 & w2 & e2 & Hscenes & Hrest).
  pose proof (scenes_loop_phase env (Storyboard.scenes st) s1 w1) as Tscenes.
  pose proof (scenes_loop_no_record env (Storyboard.scenes st) s1 w1) as Nscenes.
  rewrite Hscenes in Tscenes, Nscenes. cbn [events snd] in Nscenes.
  assert (Forall (fun e => is_record_write e = false) (e_load ++ e1 ++ e2)) as N
    by (repeat (apply Forall_app; split); done).
  destruct r2 as [s2|err].
  2:{ destruct Hrest as (-> & -> & ->).
      destruct (cut_trace_app 5000 _ _ (phase_trace_app _ _ _ Tload Tchars) Tscenes)
        as [S P].
      rewrite <- app_assoc in S, P.
      split; [done|]. split; [done|].
      intros path refs Hin.
      rewrite List.Forall_forall in N. by specialize (N _ Hin). }
  cbv zeta in Hrest. destruct Hrest as [-> Hok].
  pose proof (phase_trace_app _ _ _ (phase_trace_app _ _ _ Tload Tchars) Tscenes)
    as [S P].
  rewrite <- app_assoc in S, P.
  split; [|split].
  - rewrite !app_assoc. apply Forall_app. split; [|by repeat constructor].
    by rewrite <- !app_assoc.
  - exists true. rewrite !app_assoc, pace_app. rewrite <- !app_assoc. by rewrite P.
  - destruct (writeFile_o env w2 _).
    + destruct Hok as [-> _]. eexists (e_load ++ e1 ++ e2), _.
      split; [by rewrite <- !app_assoc|done].
    + destruct Hok as [[err ->] _]. intros path refs Hin.
      rewrite !app_assoc in Hin. apply in_app_or in Hin as [Hin|[Hin|[]]].
      * rewrite <- !app_assoc in Hin.
        rewrite List.Forall_forall in N. by specialize (N _ Hin).
      * discriminate Hin.
Qed.

(** Nothing in the [try] block logs an error: the error log of a run is
    the one of the [catch] of [main]. *)
Lemma storyboard_no_error st p w0 :
  Forall (fun e => forall msg, e <> EError msg)
    (events (Storyboard.storyboard env st p w0)).
Proof.
  destruct (storyboard_outcome st p w0)
    as (r & w3 & e & -> & e_load & r1 & w1 & e1 & Hlogs & Hchars & Hrest).
  cbn [events snd].
  assert (Forall (fun e => forall msg, e <> EError msg) e_load) as Nload.
  { eapply List.Forall_impl; [|exact Hlogs]. by intros ? (m & ->). }
  pose proof (for_of_Forall (Storyboard.character_iteration env)
                (fun e => forall msg, e <> EError msg)
                (Storyboard.mainCharacters st)
                (fun c s w _ =>
                   match character_iteration_some_trace env c s w with
                   | ex_intro _ _ T =>
                       iteration_trace_no_error _ _ _ _ _ _ _ _ _
                         (character_logs c) T
                   end)
                (loaded_state env p w0) (tick w0)) as Nchars.
  rewrite Hchars in Nchars. cbn [events snd] in Nchars.
  destruct r1 as [s1|err].
  { destruct Hrest as (r2 & w2 & e2 & Hscenes & Hrest).
    pose proof (for_of_Forall (Storyboard.scene_iteration env)
                  (fun e => forall msg, e <> EError msg)
                  (Storyboard.scenes st)
                  (fun sc s w _ =>
                     match scene_iteration_some_trace env sc s w with
                     | ex_intro _ _ T =>
                         iteration_trace_no_error _ _ _ _ _ _ _ _ _
                           (scene_logs sc (Storyboard.characterRefs s)) T
                     end)
                  s1 w1) as Nscenes.
    rewrite Hscenes in Nscenes. cbn [events snd] in Nscenes.
    destruct r2 as [s2|err].
    - cbv zeta in Hrest. destruct Hrest as [-> _].
      repeat (apply Forall_app; split); try done. by repeat constructor.
    - destruct Hrest as (_ & _ & ->).
      repeat (apply Forall_app; split); done. }
  destruct Hrest as (_ & _ & ->). by apply Forall_app.
Qed.
End StoryboardOutcome.

Lemma filter_session_none evs :
  Forall (fun e => is_session_event e = false) evs ->
  List.filter is_session_event evs = [].
Proof.
  induction 1 as [|e evs He _ IH]; [done|].
  cbn [List.filter]. by rewrite He.
Qed.

Lemma mkdir_events_no_session evs :
  Forall (fun e => exists dir ok, e = EMkdir dir ok) evs ->
  Forall (fun e => is_session_event e = false) evs.
Proof. intros H. by apply io_events_no_session, mkdir_events_io. Qed.

(** X12. [main] of the storyboard program rejects only before it is
    connected, when a directory cannot be created or [Connect] fails; it has
    then done nothing but try to create the directories: no connection is
    open, nothing is submitted and the client is not closed. Once connected
    [main] never rejects, and it closes the client exactly once, as its last
    action, also when the run fails. *)
Theorem main_session (env : Env) (st : Storyboard.Story) (w : World) :
  let run := Storyboard.main_of env st w in
  match result run with
  | Ok _ =>
      List.filter is_session_event (events run) = [EConnect; EClose]
      /\ last (events run) = Some EClose
  | Thrown _ =>
      Forall (fun e => exists dir ok, e = EMkdir dir ok) (events run)
      /\ List.filter is_session_event (events run) = []
      /\ submissions (events run) = []
  end.
Proof.
  cbv zeta.
  destruct (main_of_run env st w)
    as [(err & w' & e & -> & Hsetup)
       |[(w0 & r & w1 & e & _ & Hstory & ->)
        |(w1 & e_load & _ & _ & Hlogs & _ & ->)]];
    cbn [result events fst snd].
  - split; [done|]. split.
    + by apply filter_session_none, mkdir_events_no_session.
    + by apply io_events_no_submission, mkdir_events_io.
  - destruct (storyboard_trace env st (loaded_ledger env w) w0)
      as (r' & w3 & e' & Hrun & S & _).
    rewrite Hstory in Hrun. injection Hrun as <- <- <-. split.
    + cbn [app List.filter is_session_event]. rewrite !List.filter_app.
      rewrite (filter_session_none _ S). by destruct r.
    + rewrite !app_assoc. apply last_snoc.
  - split.
    + cbn [app List.filter is_session_event]. rewrite !List.filter_app.
      by rewrite (filter_session_none _
                    (io_events_no_session _ (only_logs_io _ Hlogs))).
    + change [EError "Error generating storyboard:"; EClose]
        with ([EError "Error generating storyboard:"] ++ [EClose]).
      rewrite !app_assoc. apply last_snoc.
Qed.

(** X13. The reference summary [character_references.json] is written only
    by a run of [main] that completes both loops: a run that logs the
    storyboard error writes no summary, so the handles it obtained are not
    kept, whereas a connected run that logs no error ends with the write of
    the summary followed by [Close], and writes no other record. *)
Theorem summary_only_on_success (env : Env) (st : Storyboard.Story) (w : World) :
  let evs := events (Storyboard.main_of env st w) in
  (In (EError "Error generating storyboard:") evs ->
   forall path refs, ~ In (EWriteFile path (CReferences refs) true) evs)
  /\ (In EConnect evs ->
      ~ In (EError "Error generating storyboard:") evs ->
      exists body refs,
        evs = body ++ [ EWriteFile (Storyboard.character_references_json env)
                          (CReferences refs) true; EClose ]
        /\ Forall (fun e => is_record_write e = false) body).
Proof.
  cbv zeta.
  destruct (main_of_run env st w)
    as [(err & w' & e & -> & Hsetup)
       |[(w0 & r & w1 & e & _ & Hstory & ->)
        |(w1 & e_load & _ & _ & Hlogs & _ & ->)]];
    cbn [events snd].
  3:{ split.
      - intros _ path refs Hin.
        apply in_app_or in Hin as [Hin|Hin].
        { destruct Hin as [Hin|[Hin|[Hin|[]]]]; discriminate Hin. }
        apply in_app_or in Hin as [Hin|Hin].
        { rewrite List.Forall_forall in Hlogs.
          by destruct (Hlogs _ Hin) as (msg & ?). }
        destruct Hin as [Hin|[Hin|[]]]; discriminate Hin.
      - intros _ Hno. exfalso. apply Hno.
        apply in_or_app. right. apply in_or_app. right. by left. }
  - split.
    + intros Hin. rewrite List.Forall_forall in Hsetup.
      by destruct (Hsetup _ Hin) as (dir & ok & ?).
    + intros Hin. rewrite List.Forall_forall in Hsetup.
      by destruct (Hsetup _ Hin) as (dir & ok & ?).
  - destruct (storyboard_trace env st (loaded_ledger env w) w0)
      as (r' & w3 & e' & Hrun & S & _ & Hsum).
    rewrite Hstory in Hrun. injection Hrun as <- <- <-.
    destruct r as [[]|err].
    + destruct Hsum as (body & refs & -> & N). split.
      * intros Hin. exfalso.
        apply in_app_or in Hin as [Hin|Hin].
        { destruct Hin as [Hin|[Hin|[Hin|[]]]]; discriminate Hin. }
        apply in_app_or in Hin as [Hin|Hin].
        { pose proof (storyboard_no_error env st (loaded_ledger env w) w0) as N'.
          rewrite Hstory in N'. cbn [events snd] in N'.
          rewrite List.Forall_forall in N'. by apply (N' _ Hin _ eq_refl). }
        cbn [app] in Hin. destruct Hin as [Hin|[]]. discriminate Hin.
      * intros _ _.
        exists ([ EMkdir "output/character_images" true;
                  EMkdir "output/scene_images" true; EConnect ] ++ body), refs.
        split.
        { cbn [app]. rewrite <- !app_assoc. reflexivity. }
        apply Forall_app. split; [by repeat constructor|done].
    + split.
      * intros _ path refs Hin.
        apply in_app_or in Hin as [Hin|Hin].
        { destruct Hin as [Hin|[Hin|[Hin|[]]]]; discriminate Hin. }
        apply in_app_or in Hin as [Hin|Hin]; [by apply (Hsum path refs)|].
        destruct Hin as [Hin|[Hin|[]]]; discriminate Hin.
      * intros _ Hno. exfalso. apply Hno.
        apply in_or_app. right. apply in_or_app. right. by left.
Qed.

(** X14. In a run of [main] of the storyboard program two calls of
    [Imagine] are always separated by a wait of 5000 ms: the wait follows
    every item that is generated, a skipped item submits nothing, and a
    failed item ends the run. *)
Theorem main_paced (env : Env) (st : Storyboard.Story) (w : World) :
  paced 5000 (events (Storyboard.main_of env st w)).
Proof.
  destruct (main_of_run env st w)
    as [(err & w' & e & -> & Hsetup)
       |[(w0 & r & w1 & e & _ & Hstory & ->)
        |(w1 & e_load & _ & _ & Hlogs & _ & ->)]];
    cbn [events snd].
  3:{ apply (pace_paced 5000 true _ true).
      cbn [app pace]. by rewrite pace_app, (pace_io _ _ _ (only_logs_io _ Hlogs)). }
  - apply (pace_paced 5000 true _ true).
    by apply pace_io, mkdir_events_io.
  - destruct (storyboard_trace env st (loaded_ledger env w) w0)
      as (r' & w3 & e' & Hrun & _ & [b P] & _).
    rewrite Hstory in Hrun. injection Hrun as <- <- <-.
    apply (pace_paced 5000 true _ b).
    cbn [app pace]. rewrite pace_app, P. by destruct r.
Qed.

(** *** [anime.ts], the storyboard program: from one run to the next *)

Lemma for_of_covers {X S} (body : X -> S -> M S) (I : S -> World -> Prop)
    (G : S -> S -> Prop) (C : X -> S -> Prop) xs :
  (forall s, G s s) ->
  (forall a b c, G a b -> G b c -> G a c) ->
  (forall x s s', C x s -> G s s' -> C x s') ->
  (forall x s w s' w' e,
     In x xs -> I s w -> body x s w = (Ok s', w', e) ->
     I s' w' /\ G s s' /\ C x s') ->
  forall s w s' w' e,
    I s w -> for_of body xs s w = (Ok s', w', e) ->
    I s' w' /\ G s s' /\ forall x, In x xs -> C x s'.
Proof.
  intros Grefl Gtrans Cmono. induction xs as [|x xs IH]; intros Hbody s w s' w' e Hi.
  - intros [= <- <- <-]. by repeat split.
  - cbn [for_of]. unfold bind.
    destruct (body x s w) as [[[s1|err] w1] e1] eqn:Hx; [|done].
    destruct (Hbody x s w s1 w1 e1 (or_introl eq_refl) Hi Hx) as (Hi1 & G1 & C1).
    destruct (for_of body xs s1 w1) as [[[s2|err] w2] e2] eqn:Hxs; [|done].
    intros [= <- <- <-].
    destruct (IH (fun y a b c d f Hy => Hbody y a b c d f (or_intror Hy))
                s1 w1 s2 w2 e2 Hi1 Hxs) as (Hi2 & G2 & C2).
    split; [done|]. split; [by eapply Gtrans|].
    intros y [<-|Hy]; [by eapply Cmono|by apply C2].
Qed.

Lemma ledger_grows_refl p : ledger_grows p p.
Proof. by split. Qed.

Lemma ledger_grows_trans p q r :
  ledger_grows p q -> ledger_grows q r -> ledger_grows p r.
Proof. intros [A B] [A' B']. split; intros n H; auto. Qed.

Lemma loaded_ledger_fs env w w' :
  fs w' = fs w -> loaded_ledger env w' = loaded_ledger env w.
Proof. unfold loaded_ledger. by intros ->. Qed.

Section StoryboardLedgerFile.
Variable env : Env.

(** An iteration that returns leaves its item in the ledger, and the
    ledger in the ledger file. *)
Lemma character_iteration_keeps c s w s' w' e :
  Storyboard.character_iteration env c s w = (Ok s', w', e) ->
  ledger_synced env s w ->
  ledger_synced env s' w'
  /\ ledger_grows (Storyboard.progress s) (Storyboard.progress s')
  /\ In (Storyboard.name c) (completedCharacters (Storyboard.progress s')).
Proof.
  unfold Storyboard.character_iteration.
  destruct (Storyboard.includes _ (Storyboard.name c)) eqn:Hinc; cbn [negb].
  - unfold bind, console_log, emit, ret. intros [= <- <- <-] Hs.
    split; [done|]. split; [apply ledger_grows_refl|by apply includes_In].
  - unfold Storyboard.generateCharacter, Storyboard.saveProgress,
      Storyboard.downloadImage, bind, Imagine, Upscale, throw, http_get,
      writeFile, console_log, emit, delay, ret.
    destruct (Imagine_o env w _) as [[r|]|err]; try done.
    destruct (Upscale_o env (tick w) 1 (id r) (hash r) (flags r))
      as [up|err]; [|done].
    destruct (Storyboard.upscaled_uri up) as [u|]; [|done].
    destruct (fetch_o env (tick (tick w)) u) as [b|]; [|done].
    destruct (writeFile_o env (tick (tick (tick w))) _); [|done].
    cbn [fst snd].
    destruct (writeFile_o env _ (Storyboard.progress_json env)); [|done].
    intros [= <- <- <-] Hs. split; [|split].
    + unfold ledger_synced, loaded_ledger, tick. cbn [fs Storyboard.progress].
      by rewrite lookup_insert_eq.
    + cbn [Storyboard.progress]. split; intros n Hn; cbn; [|done].
      apply in_or_app. by left.
    + cbn. apply in_or_app. right. by left.
Qed.

Lemma scene_iteration_keeps sc s w s' w' e :
  Storyboard.scene_iteration env sc s w = (Ok s', w', e) ->
  ledger_synced env s w ->
  ledger_synced env s' w'
  /\ ledger_grows (Storyboard.progress s) (Storyboard.progress s')
  /\ In (Storyboard.scene_title sc) (completedScenes (Storyboard.progress s')).
Proof.
  unfold Storyboard.scene_iteration.
  destruct (Storyboard.includes _ (Storyboard.scene_title sc)) eqn:Hinc;
    cbn [negb].
  - unfold bind, console_log, emit, ret. intros [= <- <- <-] Hs.
    split; [done|]. split; [apply ledger_grows_refl|by apply includes_In].
  - unfold Storyboard.generateScene, Storyboard.saveProgress,
      Storyboard.downloadImage, bind, Imagine, Upscale, throw, http_get,
      writeFile, console_log, emit, delay, ret.
    destruct (Imagine_o env w _) as [[r|]|err]; try done.
    destruct (Upscale_o env (tick w) 1 (id r) (hash r) (flags r))
      as [up|err]; [|done].
    destruct (Storyboard.upscaled_uri up) as [u|]; [|done].
    destruct (fetch_o env (tick (tick w)) u) as [b|]; [|done].
    destruct (writeFile_o env (tick (tick (tick w))) _); [|done].
    cbn [fst snd].
    destruct (writeFile_o env _ (Storyboard.progress_json env)); [|done].
    intros [= <- <- <-] Hs. split; [|split].
    + unfold ledger_synced, loaded_ledger, tick. cbn [fs Storyboard.progress].
      by rewrite lookup_insert_eq.
    + cbn [Storyboard.progress]. split; intros n Hn; cbn; [done|].
      apply in_or_app. by left.
    + cbn. apply in_or_app. right. by left.
Qed.
End StoryboardLedgerFile.

Section StoryboardRerun.
Variable env : Env.

Lemma characters_loop_keeps cs s w s' w' e :
  for_of (Storyboard.character_iteration env) cs s w = (Ok s', w', e) ->
  ledger_synced env s w ->
  ledger_synced env s' w'
  /\ ledger_grows (Storyboard.progress s) (Storyboard.progress s')
  /\ forall c, In c cs ->
       In (Storyboard.name c) (completedCharacters (Storyboard.progress s')).
Proof.
  intros Hrun Hs.
  refine (for_of_covers (Storyboard.character_iteration env) (ledger_synced env)
            (fun a b => ledger_grows (Storyboard.progress a) (Storyboard.progress b))
            (fun c a =>
               In (Storyboard.name c) (completedCharacters (Storyboard.progress a)))
            cs _ _ _ _ s w s' w' e Hs Hrun).
  - intros a. apply ledger_grows_refl.
  - intros a b c. apply ledger_grows_trans.
  - intros c a b Hc [G _]. by apply G.
  - intros c a wa b wb eb _ Ha Hc. by apply (character_iteration_keeps env c a wa b wb eb).
Qed.

Lemma scenes_loop_keeps scs s w s' w' e :
  for_of (Storyboard.scene_iteration env) scs s w = (Ok s', w', e) ->
  ledger_synced env s w ->
  ledger_synced env s' w'
  /\ ledger_grows (Storyboard.progress s) (Storyboard.progress s')
  /\ forall sc, In sc scs ->
       In (Storyboard.scene_title sc) (completedScenes (Storyboard.progress s')).
Proof.
  intros Hrun Hs.
  refine (for_of_covers (Storyboard.scene_iteration env) (ledger_synced env)
            (fun a b => ledger_grows (Storyboard.progress a) (Storyboard.progress b))
            (fun sc a =>
               In (Storyboard.scene_title sc)
                 (completedScenes (Storyboard.progress a)))
            scs _ _ _ _ s w s' w' e Hs Hrun).
  - intros a. apply ledger_grows_refl.
  - intros a b c. apply ledger_grows_trans.
  - intros c a b Hc [_ G]. by apply G.
  - intros c a wa b wb eb _ Ha Hc. by apply (scene_iteration_keeps env c a wa b wb eb).
Qed.

(** A run that loads a ledger with every item of the story submits
    nothing. *)
Lemma main_of_all_done st w :
  (forall c, In c (Storyboard.mainCharacters st) ->
     In (Storyboard.name c) (completedCharacters (loaded_ledger env w))) ->
  (forall sc, In sc (Storyboard.scenes st) ->
     In (Storyboard.scene_title sc) (completedScenes (loaded_ledger env w))) ->
  submissions (events (Storyboard.main_of env st w)) = [].
Proof.
  intros Hcs Hscs.
  assert (forallb (fun c => Storyboard.includes
                              (completedCharacters (loaded_ledger env w))
                              (Storyboard.name c))
            (Storyboard.mainCharacters st) = true) as Hcs'.
  { apply forallb_forall. intros c Hc. apply includes_In. by apply Hcs. }
  assert (forallb (fun sc => Storyboard.includes
                               (completedScenes (loaded_ledger env w))
                               (Storyboard.scene_title sc))
            (Storyboard.scenes st) = true) as Hscs'.
  { apply forallb_forall. intros sc Hsc. apply includes_In. by apply Hscs. }
  destruct (main_of_run env st w)
    as [(err & w' & e & -> & Hsetup)
       |[(w0 & r & w1 & e & _ & Hstory & ->)
        |(w1 & e_load & _ & _ & Hlogs & _ & ->)]];
    cbn [events snd].
  { by apply io_events_no_submission, mkdir_events_io. }
  2:{ cbn [app]. change (submissions (?a :: ?b :: ?c :: ?l)) with (submissions l).
      rewrite submissions_app.
      by rewrite (io_events_no_submission _ (only_logs_io _ Hlogs)). }
  destruct (storyboard_outcome env st (loaded_ledger env w) w0)
    as (r' & w3 & e' & Hrun & e_load & r1 & w1' & e1 & Hlogs & Hchars & Hrest).
  rewrite Hstory in Hrun. injection Hrun as <- <- <-.
  rewrite characters_loop_all_done in Hchars
    by (by rewrite loaded_state_progress).
  injection Hchars as <- <- <-.
  destruct Hrest as (r2 & w2 & e2 & Hscenes & Hrest).
  rewrite scenes_loop_all_done in Hscenes
    by (by rewrite loaded_state_progress).
  injection Hscenes as <- <- <-.
  cbv zeta in Hrest. destruct Hrest as [-> _].
  cbn [app]. change (submissions (?a :: ?b :: ?c :: ?l)) with (submissions l).
  rewrite !submissions_app.
  rewrite (io_events_no_submission _ (only_logs_io _ Hlogs)).
  rewrite (io_events_no_submission
             (map (fun c => ELog ("Skipping already generated character: "
                                  +:+ Storyboard.name c))
                (Storyboard.mainCharacters st))),
    (io_events_no_submission
       (map (fun sc => ELog ("Skipping already generated scene: "
                             +:+ Storyboard.scene_title sc))
          (Storyboard.scenes st))).
  - by destruct r.
  - apply Forall_map. by apply List.Forall_forall.
  - apply Forall_map. by apply List.Forall_forall.
Qed.
End StoryboardRerun.

(** X15. When the reference summary and the ledger are two different files:
    after a run of [main] that completes (it is connected and logs no
    storyboard error), the ledger file holds every character and every scene
    of the story and every entry it held before, so a second run from the
    world the first one left submits nothing to the backend, whatever the
    backend, the network and the disk would answer. *)
Theorem rerun_after_success (env : Env) (st : Storyboard.Story) (w : World) :
  Storyboard.character_references_json env <> Storyboard.progress_json env ->
  let run := Storyboard.main_of env st w in
  In EConnect (events run) ->
  ~ In (EError "Error generating storyboard:") (events run) ->
  (forall c, In c (Storyboard.mainCharacters st) ->
     In (Storyboard.name c) (completedCharacters (loaded_ledger env (world run))))
  /\ (forall sc, In sc (Storyboard.scenes st) ->
        In (Storyboard.scene_title sc)
          (completedScenes (loaded_ledger env (world run))))
  /\ ledger_grows (loaded_ledger env w) (loaded_ledger env (world run))
  /\ submissions (events (Storyboard.main_of env st (world run))) = [].
Proof.
  intros Hpaths. cbv zeta.
  destruct (main_of_run env st w)
    as [(err & w' & e & -> & Hsetup)
       |[(w0 & r & w1 & e & Hw0 & Hstory & ->)
        |(w1 & e_load & _ & _ & Hlogs & _ & ->)]];
    cbn [world events fst snd].
  { intros Hin. rewrite List.Forall_forall in Hsetup.
    by destruct (Hsetup _ Hin) as (dir & ok & ?). }
  2:{ intros _ Hno. exfalso. apply Hno.
      apply in_or_app. right. apply in_or_app. right. by left. }
  intros _ Hno.
  destruct (storyboard_outcome env st (loaded_ledger env w) w0)
    as (r' & w3 & e' & Hrun & e_load & r1 & w1' & e1 & Hlogs & Hchars & Hrest).
  rewrite Hstory in Hrun. injection Hrun as <- <- <-.
  destruct r as [[]|err].
  2:{ exfalso. apply Hno. apply in_or_app. right. apply in_or_app. right. by left. }
  destruct r1 as [s1|err]; [|by destruct Hrest as [? _]].
  destruct Hrest as (r2 & w2 & e2 & Hscenes & Hrest).
  destruct r2 as [s2|err]; [|by destruct Hrest as [? _]].
  cbv zeta in Hrest. destruct Hrest as [-> Hok].
  destruct (writeFile_o env w2 _); [|by destruct Hok as [[? ?] _]].
  destruct Hok as [_ Hfs].
  assert (ledger_synced env (loaded_state env (loaded_ledger env w) w0) (tick w0))
    as Hs0.
  { unfold ledger_synced. rewrite loaded_state_progress.
    by apply loaded_ledger_fs. }
  destruct (characters_loop_keeps env _ _ _ _ _ _ Hchars Hs0) as (Hs1 & G1 & C1).
  destruct (scenes_loop_keeps env _ _ _ _ _ _ Hscenes Hs1) as (Hs2 & G2 & C2).
  assert (loaded_ledger env w1 = Storyboard.progress s2) as Hfinal.
  { unfold loaded_ledger. rewrite Hfs, lookup_insert_ne by done. exact Hs2. }
  rewrite loaded_state_progress in G1.
  assert (forall c, In c (Storyboard.mainCharacters st) ->
            In (Storyboard.name c) (completedCharacters (loaded_ledger env w1)))
    as Hcs.
  { intros c Hc. rewrite Hfinal. apply G2. by apply C1. }
  assert (forall sc, In sc (Storyboard.scenes st) ->
            In (Storyboard.scene_title sc)
              (completedScenes (loaded_ledger env w1))) as Hscs.
  { intros sc Hsc. rewrite Hfinal. by apply C2. }
  split; [done|]. split; [done|]. split.
  - rewrite Hfinal. by eapply ledger_grows_trans.
  - by apply main_of_all_done.
Qed.

Lemma rerun_after_success_witness :
  submissions
    (events
       (Storyboard.main (sample_env always_succeeds true any_path)
          (world
             (Storyboard.main (sample_env always_succeeds true any_path)
                empty_world))))
  = [].
Proof.
  refine (proj2 (proj2 (proj2
            (rerun_after_success (sample_env always_succeeds true any_path)
               Storyboard.story empty_world _ _ _)))).
  - discriminate.
  - vm_compute. right. right. left. reflexivity.
  - apply no_error_check. vm_compute. reflexivity.
Defined.

(** *** [anime.ts], the storyboard program: what is upscaled *)

Lemma upscale_follows_none evs :
  submissions evs = [] -> upscale_follows_imagine evs.
Proof.
  intros H pre i a b f up post ->.
  rewrite submissions_app in H. apply app_eq_nil in H as [_ H]. discriminate H.
Qed.

Lemma upscale_follows_app e1 e2 :
  upscale_follows_imagine e1 -> upscale_follows_imagine e2 ->
  upscale_follows_imagine (e1 ++ e2).
Proof.
  intros H1 H2 pre i a b f up post Heq.
  destruct (app_eq_cons_app _ _ _ _ _ Heq)
    as [(post1 & -> & ->)|(pre2 & -> & ->)].
  - by apply (H1 pre i a b f up post1).
  - destruct (H2 pre2 i a b f up post eq_refl) as (pre' & P & r & -> & Hargs).
    exists (e1 ++ pre'), P, r. by rewrite app_assoc.
Qed.

Lemma generation_trace_upscale prompt ipath r evs :
  generation_trace prompt ipath r evs -> upscale_follows_imagine evs.
Proof.
  destruct 1 as [res err Hres|r up err Hup|r up u err Hup|r up u b err Hup|r up u b Hup];
    intros pre i a0 b0 f up0 post Heq;
    (destruct pre as [|e1 pre]; cbn [app] in Heq; [discriminate Heq|]);
    injection Heq as <- Heq;
    (destruct pre as [|e2 pre]; cbn [app] in Heq;
     [ first [ discriminate Heq
             | injection Heq as <- <- <- <- <- _; by exists [], prompt, r ]
     | exfalso;
       first [ discriminate Heq | injection Heq as <- Heq ];
       repeat (destruct pre as [|? pre]; cbn [app] in Heq;
               first [ discriminate Heq | injection Heq as <- Heq ]) ]).
Qed.

Lemma iteration_trace_upscale skip_log logs prompt ipath ledger p' done_log
    outcome evs :
  Forall (fun e => exists msg, e = ELog msg) logs ->
  iteration_trace skip_log logs prompt ipath ledger p' done_log outcome evs ->
  upscale_follows_imagine evs.
Proof.
  intros Hlogs.
  pose proof (upscale_follows_none _
                (io_events_no_submission _ (only_logs_io _ Hlogs))) as Ulogs.
  destruct 1 as [|err evs Hg|u evs Hg|u evs Hg].
  - by apply upscale_follows_none.
  - apply upscale_follows_app; [done|by eapply generation_trace_upscale].
  - apply upscale_follows_app; [done|].
    apply upscale_follows_app; [by eapply generation_trace_upscale|].
    by apply upscale_follows_none.
  - apply upscale_follows_app; [done|].
    apply upscale_follows_app; [by eapply generation_trace_upscale|].
    by apply upscale_follows_none.
Qed.

(** X16. In every run of [main] of the storyboard program, each call of
    [Upscale] comes right after a call of [Imagine] that returned a
    response, and asks for the first image of that very response: index 1,
    with the id, the hash and the flags the response carries. *)
Theorem upscale_first_image (env : Env) (st : Storyboard.Story) (w : World) :
  upscale_follows_imagine (events (Storyboard.main_of env st w)).
Proof.
  destruct (main_of_run env st w)
    as [(err & w' & e & -> & Hsetup)
       |[(w0 & r & w1 & e & _ & Hstory & ->)
        |(w1 & e_load & _ & _ & Hlogs & _ & ->)]];
    cbn [events snd].
  { by apply upscale_follows_none, io_events_no_submission, mkdir_events_io. }
  2:{ apply upscale_follows_app; [by apply upscale_follows_none|].
      apply upscale_follows_app; [|by apply upscale_follows_none].
      by apply upscale_follows_none, io_events_no_submission, only_logs_io. }
  apply upscale_follows_app; [by apply upscale_follows_none|].
  apply upscale_follows_app; [|apply upscale_follows_none; by destruct r].
  destruct (storyboard_outcome env st (loaded_ledger env w) w0)
    as (r' & w3 & e' & Hrun & e_load & r1 & w1' & e1 & Hlogs & Hchars & Hrest).
  rewrite Hstory in Hrun. injection Hrun as <- <- <-.
  pose proof (upscale_follows_none _
                (io_events_no_submission _ (only_logs_io _ Hlogs))) as Uload.
  pose proof (loop_traces (Storyboard.character_iteration env)
                upscale_follows_imagine (Storyboard.mainCharacters st)
                (upscale_follows_none [] eq_refl) upscale_follows_app
                (fun c s w _ =>
                   match character_iteration_some_trace env c s w with
                   | ex_intro _ _ T =>
                       iteration_trace_upscale _ _ _ _ _ _ _ _ _
                         (character_logs c) T
                   end)
                (loaded_state env (loaded_ledger env w) w0) (tick w0)) as Uchars.
  rewrite Hchars in Uchars. cbn [events snd] in Uchars.
  destruct r1 as [s1|err].
  2:{ destruct Hrest as (_ & _ & ->). by apply upscale_follows_app. }
  destruct Hrest as (r2 & w2 & e2 & Hscenes & Hrest).
  pose proof (loop_traces (Storyboard.scene_iteration env)
                upscale_follows_imagine (Storyboard.scenes st)
                (upscale_follows_none [] eq_refl) upscale_follows_app
                (fun sc s w _ =>
                   match scene_iteration_some_trace env sc s w with
                   | ex_intro _ _ T =>
                       iteration_trace_upscale _ _ _ _ _ _ _ _ _
                         (scene_logs sc (Storyboard.characterRefs s)) T
                   end)
                s1 w1') as Uscenes.
  rewrite Hscenes in Uscenes. cbn [events snd] in Uscenes.
  destruct r2 as [s2|err].
  - cbv zeta in Hrest. destruct Hrest as [-> _].
    repeat (apply upscale_follows_app; [done|]). by apply upscale_follows_none.
  - destruct Hrest as (_ & _ & ->).
    repeat (apply upscale_follows_app; [done|]). done.
Qed.

(** *** [anime.ts], the first generator *)

Lemma append_inj_l s a b : s +:+ a = s +:+ b -> a = b.
Proof.
  induction s as [|c s IH]; [done|].
  rewrite !append_cons. intros [= H]. by apply IH.
Qed.

Section FirstGeneratorImage.
Variable env : Env.

(** Every outcome of [generateImage]. *)
Lemma generateImage_cases prompt outputPath w :
  exists res w' e,
    AnimeV1.generateImage env prompt outputPath w = (Ok res, w', e)
    /\ match Imagine_o env w prompt with
       | Thrown err =>
           res = None /\ fs w' = fs w
           /\ e = [ EImagine prompt (Thrown err);
                    EError "Error generating image:" ]
       | Ok None =>
           res = None /\ fs w' = fs w
           /\ e = [EImagine prompt (Ok None); EError "Failed to generate image"]
       | Ok (Some imagine) =>
           let up :=
             Upscale_o env (tick w) 1 (id imagine) (hash imagine) (flags imagine) in
           match up with
           | Thrown err =>
               res = None /\ fs w' = fs w
               /\ e = [ EImagine prompt (Ok (Some imagine));
                        EUpscale 1 (id imagine) (hash imagine) (flags imagine) up;
                        EError "Error generating image:" ]
           | Ok upscale =>
               let metadata :=
                 {| im_prompt := prompt;
                    im_imagineId := id imagine;
                    upscaleId :=
                      match upscale with
                      | Some upscale => id upscale
                      | None => None
                      end;
                    im_timestamp := toISOString env (tick (tick w)) |} in
               let content := CImageMetadata metadata in
               let ok := writeFile_o env (tick (tick w)) (outputPath +:+ ".json") in
               e = [ EImagine prompt (Ok (Some imagine));
                     EUpscale 1 (id imagine) (hash imagine) (flags imagine) up;
                     EWriteFile (outputPath +:+ ".json") content ok;
                     if ok then ELog ("Generated image saved: " +:+ outputPath)
                     else EError "Error generating image:" ]
               /\ res = (if ok then Some (outputPath +:+ ".png") else None)
               /\ fs w' = if ok then <[outputPath +:+ ".json" := content]> (fs w)
                          else fs w
           end
       end.
Proof.
  unfold AnimeV1.generateImage, try_catch, bind, Imagine, Upscale, now,
    writeFile, console_log, console_error, emit, ret.
  destruct (Imagine_o env w prompt) as [[imagine|]|err].
  2,3: by do 3 eexists.
  cbv zeta.
  destruct (Upscale_o env (tick w) 1 (id imagine) (hash imagine) (flags imagine))
    as [upscale|err].
  2: by do 3 eexists.
  destruct (writeFile_o env (tick (tick w)) (outputPath +:+ ".json")).
  - by do 3 eexists.
  - by do 3 eexists.
Qed.

Lemma generateImage_trace prompt outputPath w :
  exists res w' tail,
    AnimeV1.generateImage env prompt outputPath w
    = (Ok res, w', EImagine prompt (Imagine_o env w prompt) :: tail)
    /\ imagine_prompts tail = []
    /\ Forall (fun e => is_session_event e = false) tail
    /\ Forall (fun e => forall ms, e <> EDelay ms) tail
    /\ (forall p, res = Some p -> p = outputPath +:+ ".png")
    /\ (forall p, p <> outputPath +:+ ".json" -> fs w' !! p = fs w !! p).
Proof.
  destruct (generateImage_cases prompt outputPath w)
    as (res & w' & e & Hrun & Hcase).
  destruct (Imagine_o env w prompt) as [[imagine|]|err].
  - cbv zeta in Hcase.
    destruct (Upscale_o env (tick w) 1 (id imagine) (hash imagine) (flags imagine))
      as [upscale|err].
    + destruct Hcase as (-> & Hres & Hfs).
      do 3 eexists. split; [exact Hrun|].
      destruct (writeFile_o env (tick (tick w)) (outputPath +:+ ".json")).
      * split; [done|]. split; [by repeat constructor|].
        split; [by repeat constructor|]. split.
        -- intros p. rewrite Hres. by intros [= <-].
        -- intros p Hp. by rewrite Hfs, lookup_insert_ne.
      * split; [done|]. split; [by repeat constructor|].
        split; [by repeat constructor|]. split.
        -- intros p. by rewrite Hres.
        -- intros p Hp. by rewrite Hfs.
    + destruct Hcase as (-> & Hfs & ->).
      do 3 eexists. split; [exact Hrun|].
      split; [done|]. split; [by repeat constructor|].
      split; [by repeat constructor|]. split; [done|].
      intros p _. by rewrite Hfs.
  - destruct Hcase as (-> & Hfs & ->).
    do 3 eexists. split; [exact Hrun|].
    split; [done|]. split; [by repeat constructor|].
    split; [by repeat constructor|]. split; [done|].
    intros p _. by rewrite Hfs.
  - destruct Hcase as (-> & Hfs & ->).
    do 3 eexists. split; [exact Hrun|].
    split; [done|]. split; [by repeat constructor|].
    split; [by repeat constructor|]. split; [done|].
    intros p _. by rewrite Hfs.
Qed.
End FirstGeneratorImage.

(** X17. [generateImage] of the first generator of [anime.ts] never rejects
    and never saves an image: it fetches nothing, the only file it writes is
    the metadata [<outputPath>.json], and every other file is as before. The
    path it returns on success, [<outputPath>.png], is therefore a file the
    call has not created or changed. *)
Theorem generateImage_saves_no_image (env : Env)
    (prompt outputPath : string) (w : World) :
  let run := AnimeV1.generateImage env prompt outputPath w in
  (exists res, result run = Ok res)
  /\ fetched (events run) = []
  /\ (forall path content ok,
        In (EWriteFile path content ok) (events run) ->
        path = outputPath +:+ ".json")
  /\ (forall p, p <> outputPath +:+ ".json" -> fs (world run) !! p = fs w !! p)
  /\ (forall p,
        result run = Ok (Some p) ->
        p = outputPath +:+ ".png"
        /\ fs (world run) !! p = fs w !! p
        /\ exists content,
             In (EWriteFile (outputPath +:+ ".json") content true) (events run)).
Proof.
  cbv zeta.
  destruct (generateImage_cases env prompt outputPath w)
    as (res & w' & e & -> & Hcase).
  cbn [result world events fst snd].
  assert (outputPath +:+ ".png" <> outputPath +:+ ".json") as Hpaths.
  { intros H. apply append_inj_l in H. discriminate H. }
  split; [by eexists|].
  destruct (Imagine_o env w prompt) as [[imagine|]|err].
  - cbv zeta in Hcase.
    destruct (Upscale_o env (tick w) 1 (id imagine) (hash imagine) (flags imagine))
      as [upscale|err].
    + destruct Hcase as (-> & -> & Hfs).
      destruct (writeFile_o env (tick (tick w)) (outputPath +:+ ".json")).
      * split; [done|]. split; [|split].
        -- intros path content ok [H|[H|[H|[H|[]]]]]; try discriminate H.
           by injection H as <- _ _.
        -- intros p Hp. by rewrite Hfs, lookup_insert_ne.
        -- intros p [= <-]. split; [done|]. split.
           ++ by rewrite Hfs, lookup_insert_ne.
           ++ eexists. right. right. by left.
      * split; [done|]. split; [|split].
        -- intros path content ok [H|[H|[H|[H|[]]]]]; try discriminate H.
           by injection H as <- _ _.
        -- intros p Hp. by rewrite Hfs.
        -- by intros p.
    + destruct Hcase as (-> & Hfs & ->). split; [done|]. split; [|split].
      * intros path content ok [H|[H|[H|[]]]]; discriminate H.
      * intros p _. by rewrite Hfs.
      * by intros p.
  - destruct Hcase as (-> & Hfs & ->). split; [done|]. split; [|split].
    + intros path content ok [H|[H|[]]]; discriminate H.
    + intros p _. by rewrite Hfs.
    + by intros p.
  - destruct Hcase as (-> & Hfs & ->). split; [done|]. split; [|split].
    + intros path content ok [H|[H|[]]]; discriminate H.
    + intros p _. by rewrite Hfs.
    + by intros p.
Qed.

(** X18. The two [null] results in [generateImage]: when [Imagine] returns
    [null] the item fails at once, with no call of [Upscale] and no file
    written; when [Upscale] returns [null] the item does not fail: the
    metadata is written without an [upscaleId] and, if that write succeeds,
    the path of the image is returned as for an upscaled image. *)
Theorem generateImage_null_results (env : Env)
    (prompt outputPath : string) (w : World) :
  let run := AnimeV1.generateImage env prompt outputPath w in
  (Imagine_o env w prompt = Ok None ->
   run = (Ok None, tick w,
          [EImagine prompt (Ok None); EError "Failed to generate image"]))
  /\ (forall imagine,
        Imagine_o env w prompt = Ok (Some imagine) ->
        Upscale_o env (tick w) 1 (id imagine) (hash imagine) (flags imagine)
        = Ok None ->
        writeFile_o env (tick (tick w)) (outputPath +:+ ".json") = true ->
        result run = Ok (Some (outputPath +:+ ".png"))
        /\ events run
           = [ EImagine prompt (Ok (Some imagine));
               EUpscale 1 (id imagine) (hash imagine) (flags imagine) (Ok None);
               EWriteFile (outputPath +:+ ".json")
                 (CImageMetadata
                    {| im_prompt := prompt;
                       im_imagineId := id imagine;
                       upscaleId := None;
                       im_timestamp := toISOString env (tick (tick w)) |})
                 true;
               ELog ("Generated image saved: " +:+ outputPath) ]).
Proof.
  cbv zeta. split.
  - intros HI. unfold AnimeV1.generateImage, try_catch, bind, Imagine,
      console_error, emit, ret. by rewrite HI.
  - intros imagine HI HU HW.
    destruct (generateImage_cases env prompt outputPath w)
      as (res & w' & e & -> & Hcase).
    rewrite HI in Hcase. cbv zeta in Hcase. rewrite HU, HW in Hcase.
    destruct Hcase as (-> & -> & _). done.
Qed.

Section FirstGeneratorPhases.
Variable env : Env.

Lemma v1_generateCharacterReference_trace c characterRefs w :
  exists characterRefs' w' tail,
    AnimeV1.generateCharacterReference env c characterRefs w
    = (Ok characterRefs', w',
       EImagine (AnimeV1.buildCharacterPrompt c)
         (Imagine_o env w (AnimeV1.buildCharacterPrompt c)) :: tail)
    /\ imagine_prompts tail = []
    /\ Forall (fun e => is_session_event e = false) tail
    /\ Forall (fun e => forall ms, e <> EDelay ms) tail
    /\ (characterRefs' = characterRefs
        \/ characterRefs' = <[name c := v1_character_path env (name c)]> characterRefs).
Proof.
  unfold AnimeV1.generateCharacterReference. cbv zeta. rewrite bind_run.
  destruct (generateImage_trace env (AnimeV1.buildCharacterPrompt c)
              (AnimeV1.outputDir +:+ "/character_" +:+ toLowerCase env (name c)) w)
    as (res & w' & tail & -> & Hp & Hs & Hd & Hres & _).
  destruct res as [p|].
  - rewrite (Hres p eq_refl).
    assert (truthy ((AnimeV1.outputDir +:+ "/character_" +:+ toLowerCase env (name c))
                    +:+ ".png") = true) as -> by done.
    unfold ret. cbn [result world events fst snd]. do 3 eexists.
    split; [by rewrite app_nil_r|]. repeat (split; [done|]). right.
    unfold v1_character_path. by rewrite !append_assoc.
  - unfold ret. cbn [result world events fst snd]. do 3 eexists.
    split; [by rewrite app_nil_r|]. repeat (split; [done|]). by left.
Qed.

Lemma v1_generateCharacterReferences_run script w :
  match AnimeV1.generateCharacterReferences env script w with
  | (Ok characterRefs, _, e) =>
      Forall (fun e => is_session_event e = false) e
      /\ Forall (fun e => forall ms, e <> EDelay ms) e
      /\ imagine_prompts e = map AnimeV1.buildCharacterPrompt (characters script)
      /\ forall n p,
           characterRefs !! n = Some p ->
           p = v1_character_path env n
           /\ exists c, In c (characters script) /\ name c = n
  | (Thrown _, _, _) => False
  end.
Proof.
  unfold AnimeV1.generateCharacterReferences.
  pose proof (for_of_rule
                (AnimeV1.generateCharacterReference env)
                (fun (s : gmap string string) e (s' : gmap string string) =>
                   Forall (fun e => is_session_event e = false) e
                   /\ Forall (fun e => forall ms, e <> EDelay ms) e
                   /\ forall n p,
                        s' !! n = Some p ->
                        s !! n = Some p
                        \/ (p = v1_character_path env n
                            /\ exists c, In c (characters script) /\ name c = n))
                (fun _ _ => False) (characters script)) as Hrule.
  cbv beta in Hrule.
  assert (forall x (s : gmap string string) w0, In x (characters script) ->
            match AnimeV1.generateCharacterReference env x s w0 with
            | (Ok s', _, e) =>
                Forall (fun e => is_session_event e = false) e
                /\ Forall (fun e => forall ms, e <> EDelay ms) e
                /\ forall n p,
                     s' !! n = Some p ->
                     s !! n = Some p
                     \/ (p = v1_character_path env n
                         /\ exists c, In c (characters script) /\ name c = n)
            | (Thrown _, _, _) => False
            end) as Hbody.
  { intros x s w0 Hx.
    destruct (v1_generateCharacterReference_trace x s w0)
      as (s' & w' & tail & -> & _ & Hs & Hd & Hcase).
    split; [by constructor|]. split; [by constructor|].
    intros n p. destruct Hcase as [->| ->]; [by left|].
    destruct (decide (name x = n)) as [<-|Hne].
    - rewrite lookup_insert_eq. intros [= <-]. right. split; [done|by exists x].
    - rewrite lookup_insert_ne by done. by left. }
  assert (forall s : gmap string string,
            Forall (fun e => is_session_event e = false) []
            /\ Forall (fun e : Event => forall ms, e <> EDelay ms) []
            /\ forall n p,
                 s !! n = Some p ->
                 s !! n = Some p
                 \/ (p = v1_character_path env n
                     /\ exists c, In c (characters script) /\ name c = n)) as Hnil.
  { intros s. split; [constructor|]. split; [constructor|]. intros n p H. by left. }
  specialize (Hrule Hnil).
  assert (forall (s : gmap string string) e1 (s1 : gmap string string) e2
                 (s2 : gmap string string),
            (Forall (fun e => is_session_event e = false) e1
             /\ Forall (fun e => forall ms, e <> EDelay ms) e1
             /\ forall n p,
                  s1 !! n = Some p ->
                  s !! n = Some p
                  \/ (p = v1_character_path env n
                      /\ exists c, In c (characters script) /\ name c = n)) ->
            (Forall (fun e => is_session_event e = false) e2
             /\ Forall (fun e => forall ms, e <> EDelay ms) e2
             /\ forall n p,
                  s2 !! n = Some p ->
                  s1 !! n = Some p
                  \/ (p = v1_character_path env n
                      /\ exists c, In c (characters script) /\ name c = n)) ->
            Forall (fun e => is_session_event e = false) (e1 ++ e2)
            /\ Forall (fun e => forall ms, e <> EDelay ms) (e1 ++ e2)
            /\ forall n p,
                 s2 !! n = Some p ->
                 s !! n = Some p
                 \/ (p = v1_character_path env n
                     /\ exists c, In c (characters script) /\ name c = n)) as Hcomp.
  { intros s e1 s1 e2 s2 (S1 & D1 & K1) (S2 & D2 & K2).
    split; [by apply Forall_app|]. split; [by apply Forall_app|].
    intros n p H. destruct (K2 n p H) as [H1|H1]; [by apply K1|by right]. }
  specialize (Hrule Hcomp (fun _ _ _ _ _ H => H) Hbody ∅ w).
  destruct (for_of_total (AnimeV1.generateCharacterReference env)
              (fun _ => True) AnimeV1.buildCharacterPrompt (characters script))
    with (s := (∅ : gmap string string)) (w := w) as (s'' & Hres & _ & Hprompts);
    [|done|].
  { intros x s w0 _.
    destruct (v1_generateCharacterReference_trace x s w0)
      as (s' & w' & tail & -> & Hp & _).
    exists s'. split; [done|]. split; [done|]. cbn [events snd].
    change (imagine_prompts (EImagine ?a ?b :: tail)) with (a :: imagine_prompts tail).
    by rewrite Hp. }
  destruct (for_of _ (characters script) ∅ w) as [[[s'|err] w1] e]; [|done].
  destruct Hrule as (S & D & K). cbn [events snd] in Hprompts.
  split; [done|]. split; [done|]. split; [done|].
  intros n p H. destruct (K n p H) as [H1|H1]; [|done].
  by rewrite lookup_empty in H1.
Qed.
End FirstGeneratorPhases.

(** X19. The character phase of the first generator of [anime.ts] never
    rejects and submits the prompt of every character, in order and without
    a wait between two submissions. Every handle it returns is a local path,
    [./anime_output/character_<name in lower case>.png], of a character of
    the script: it is this path, not an address of the backend, that the
    builder of the scene prompts is given for [--cref]. The lower case is
    the one [toLowerCase] of the environment gives. *)
Theorem v1_references_are_local_paths (env : Env)
    (script : AnimeScript) (w : World) :
  let run := AnimeV1.generateCharacterReferences env script w in
  exists characterRefs,
    result run = Ok characterRefs
    /\ imagine_prompts (events run)
       = map AnimeV1.buildCharacterPrompt (characters script)
    /\ Forall (fun e => forall ms, e <> EDelay ms) (events run)
    /\ forall n p,
         characterRefs !! n = Some p ->
         p = "./anime_output/character_" +:+ toLowerCase env n +:+ ".png"
         /\ exists c, In c (characters script) /\ name c = n.
Proof.
  cbv zeta.
  pose proof (v1_generateCharacterReferences_run env script w) as H.
  destruct (AnimeV1.generateCharacterReferences env script w)
    as [[[refs|err] w'] e]; [|done].
  destruct H as (_ & D & P & K). exists refs. cbn [result events fst snd].
  split; [done|]. split; [done|]. split; [done|]. exact K.
Qed.


Lemma for_of_app {X S} (body : X -> S -> M S) xs ys s w :
  for_of body (xs ++ ys) s w
  = match for_of body xs s w with
    | (Ok s1, w1, e1) =>
        (result (for_of body ys s1 w1), world (for_of body ys s1 w1),
         e1 ++ events (for_of body ys s1 w1))
    | (Thrown err, w1, e1) => (Thrown err, w1, e1)
    end.
Proof.
  revert s w. induction xs as [|x xs IH]; intros s w.
  - cbn [app for_of]. unfold ret. by destruct (for_of body ys s w) as [[r w'] e].
  - cbn [app for_of]. unfold bind.
    destruct (body x s w) as [[[s1|err] w1] e1]; [|done].
    rewrite IH.
    destruct (for_of body xs s1 w1) as [[[s2|err] w2] e2]; [|done].
    cbn [result world events fst snd].
    destruct (for_of body ys s2 w2) as [[r w3] e3]. cbn [result world events fst snd].
    by rewrite app_assoc.
Qed.

Section FirstGeneratorScenes.
Variable env : Env.

(** One iteration of the loop of [generateScenes]: for a scene numbered
    above 1 the check of the style reference raises and nothing else
    happens; a scene numbered 1 or less is submitted and the run waits. *)
Lemma v1_generateSceneImage_cases script characterRefs sc w :
  let outputPath :=
    AnimeV1.outputDir +:+ "/scene_" +:+ padStart 3 "0" (pretty (sceneNumber sc)) in
  if (1 <? sceneNumber sc)%Z then
    AnimeV1.generateSceneImage env script characterRefs sc tt w
    = (Thrown "TypeError: fs.existsSync is not a function", w, [])
  else
    let prompt := v1_scene_prompt script characterRefs sc in
    exists w' tail,
      AnimeV1.generateSceneImage env script characterRefs sc tt w
      = (Ok tt, w',
         EImagine prompt (Imagine_o env w prompt) :: tail ++ [EDelay 2000])
      /\ imagine_prompts tail = []
      /\ Forall (fun e => is_session_event e = false) tail
      /\ (forall p, p <> outputPath +:+ ".json" -> fs w' !! p = fs w !! p).
Proof.
  cbv zeta. unfold AnimeV1.generateSceneImage. rewrite bind_run.
  rewrite AnimeV1_buildScenePrompt_run.
  fold (v1_scene_prompt script characterRefs sc).
  destruct (1 <? sceneNumber sc)%Z; [done|].
  destruct (generateImage_trace env
              (v1_scene_prompt script characterRefs sc)
              (AnimeV1.outputDir +:+ "/scene_"
               +:+ padStart 3 "0" (pretty (sceneNumber sc))) w)
    as (res & w' & tail & Hrun & Hp & Hs & _ & _ & Hfs).
  unfold bind, delay. cbn [result world events fst snd app].
  rewrite Hrun. cbn [result world events fst snd app].
  exists (tick w'), tail. by rewrite ?append_nil_r, ?app_nil_r.
Qed.
End FirstGeneratorScenes.
Section FirstGeneratorLoops.
Variable env : Env.

Lemma v1_generateSceneImage_no_session script characterRefs sc w :
  Forall (fun e => is_session_event e = false)
    (events (AnimeV1.generateSceneImage env script characterRefs sc tt w)).
Proof.
  pose proof (v1_generateSceneImage_cases env script characterRefs sc w) as H.
  cbv zeta in H.
  destruct (1 <? sceneNumber sc)%Z.
  - rewrite H. constructor.
  - destruct H as (w' & tail & -> & _ & Hs & _). cbn [events snd].
    constructor; [done|]. apply Forall_app. split; [done|by repeat constructor].
Qed.

(** Scenes numbered 1 or less are submitted without any check. *)
Lemma v1_scenes_unchecked script characterRefs scs w :
  Forall (fun sc => (sceneNumber sc <= 1)%Z) scs ->
  exists w' e,
    for_of (AnimeV1.generateSceneImage env script characterRefs) scs tt w
    = (Ok tt, w', e)
    /\ imagine_prompts e = map (v1_scene_prompt script characterRefs) scs.
Proof.
  intros Hscs. revert w. induction Hscs as [|sc scs Hsc _ IH]; intros w.
  - by exists w, [].
  - cbn [for_of]. unfold bind.
    pose proof (v1_generateSceneImage_cases env script characterRefs sc w) as H.
    cbv zeta in H.
    replace (1 <? sceneNumber sc)%Z with false in H by lia.
    destruct H as (w1 & tail & -> & Hp & _).
    destruct (IH w1) as (w2 & e2 & -> & Hp2).
    do 2 eexists. split; [reflexivity|].
    cbn [app map].
    change (imagine_prompts (EImagine ?a ?b :: ?l)) with (a :: imagine_prompts l).
    by rewrite !imagine_prompts_app, Hp, Hp2.
Qed.
End FirstGeneratorLoops.

(** X21. In [anime.ts] the name [fs] is bound to [fs/promises], which has
    no [existsSync]: the check of the style reference raises. So the scene
    phase of the first generator stops at the first scene numbered above 1:
    the scenes before it, which need no check, are submitted, that scene
    and the ones after it are not, and the phase rejects with the
    [TypeError] of the check. *)
Theorem v1_scenes_stop_when_check_raises (env : Env)
    (script : AnimeScript) (characterRefs : gmap string string) (w : World)
    (pre : list Scene) (sc : Scene) (post : list Scene) :
  scenes script = pre ++ sc :: post ->
  Forall (fun sc => (sceneNumber sc <= 1)%Z) pre ->
  (1 < sceneNumber sc)%Z ->
  let run := AnimeV1.generateScenes env script characterRefs w in
  result run = Thrown "TypeError: fs.existsSync is not a function"
  /\ imagine_prompts (events run) = map (v1_scene_prompt script characterRefs) pre.
Proof.
  intros Hsplit Hpre Hsc. cbv zeta. unfold AnimeV1.generateScenes.
  rewrite Hsplit, for_of_app.
  destruct (v1_scenes_unchecked env script characterRefs pre w Hpre)
    as (w1 & e1 & -> & Hp1).
  cbn [for_of]. unfold bind.
  pose proof (v1_generateSceneImage_cases env script characterRefs sc w1) as H.
  cbv zeta in H.
  replace (1 <? sceneNumber sc)%Z with true in H by lia.
  rewrite H. cbn [result world events fst snd].
  split; [done|]. by rewrite app_nil_r.
Qed.
Lemma v1_scenes_stop_when_check_raises_witness :
  result
    (AnimeV1.generateScenes (sample_env always_succeeds true any_path)
       sample_script ∅ empty_world)
  = Thrown "TypeError: fs.existsSync is not a function"
  /\ imagine_prompts
       (events
          (AnimeV1.generateScenes (sample_env always_succeeds true any_path)
             sample_script ∅ empty_world))
     = [v1_scene_prompt sample_script ∅ library_scene].
Proof.
  refine (v1_scenes_stop_when_check_raises
            (sample_env always_succeeds true any_path)
            sample_script ∅ empty_world
            [library_scene] rooftop_scene [] _ _ _).
  - reflexivity.
  - repeat constructor. cbn. lia.
  - cbn. lia.
Defined.

Lemma no_session_no_close evs :
  Forall (fun e => is_session_event e = false) evs ->
  Forall (fun e => is_close e = false) evs.
Proof. apply List.Forall_impl. by intros []. Qed.

Lemma filter_close_nil evs :
  Forall (fun e => is_close e = false) evs -> List.filter is_close evs = [].
Proof.
  induction 1 as [|e evs He _ IH]; [done|].
  cbn [List.filter]. by rewrite He.
Qed.

Section FirstGeneratorRun.
Variable env : Env.

(** Every run of [generate] of the first generator. *)
Lemma v1_generate_structure scriptPath w :
  exists w' body,
    AnimeV1.generate env scriptPath w
    = (Ok tt, w', body ++ [EClose])
    /\ Forall (fun e => is_close e = false) body
    /\ forall script,
         fs w !! scriptPath = Some (CScript script) ->
         Connect_o env (tick (tick w)) = true ->
         exists ok rest,
           body
           = EMkdir AnimeV1.outputDir ok
             :: (if ok then [] else [EError "Error creating output directory:"])
             ++ EConnect :: ELog "Generating character references..." :: rest
           /\ exists scene_prompts,
                imagine_prompts rest
                = map AnimeV1.buildCharacterPrompt (characters script)
                  ++ scene_prompts.
Proof.
  unfold AnimeV1.generate, try_catch.
  unfold bind at 1. unfold readJSON.
  destruct (fs w !! scriptPath) as [[b|m|im|p|r|script]|] eqn:Hfs;
    try (unfold bind, console_error, Close, emit; cbn [app];
         exists (tick w), [EError "Error in generate:"];
         split; [reflexivity|]; split; [by repeat constructor|done]).
  1-4:
    unfold bind, AnimeV1.createOutputDirectory, try_catch, mkdir, Connect,
      console_log, console_error, Close, emit, throw;
    destruct (mkdir_o env (tick w) AnimeV1.outputDir);
    destruct (Connect_o env (tick (tick w)));
    cbn [app];
    match goal with
    | |- exists w' body, (_, ?w1, ?evs) = _ /\ _ => exists w1, (removelast evs)
    end;
    (split; [reflexivity|]); (split; [by repeat constructor|done]).
  unfold bind at 1.
  unfold AnimeV1.createOutputDirectory, try_catch, mkdir, console_error, emit.
  destruct (mkdir_o env (tick w) AnimeV1.outputDir) eqn:Hmk.
  - unfold bind at 1. unfold Connect.
    destruct (Connect_o env (tick (tick w))) eqn:Hc.
    2:{ unfold bind, Close, emit. cbn [app].
        exists (tick (tick (tick w))),
          [EMkdir AnimeV1.outputDir true; EError "Error in generate:"].
        split; [reflexivity|]. split; [by repeat constructor|].
        intros script' _ Hc'. discriminate Hc'. }
    unfold bind at 1. unfold console_log at 1. unfold emit at 1.
    unfold bind at 1.
    pose proof (v1_generateCharacterReferences_run env script
                  (tick (tick (tick w)))) as Hchars.
    destruct (AnimeV1.generateCharacterReferences env script
                (tick (tick (tick w)))) as [[[refs|err] w2] e2]; [|done].
    destruct Hchars as (S2 & _ & P2 & _).
    unfold bind at 1. unfold console_log at 1. unfold emit at 1.
    unfold bind at 1. unfold AnimeV1.generateScenes.
    pose proof (for_of_Forall
                  (AnimeV1.generateSceneImage env script refs)
                  (fun e => is_session_event e = false) (scenes script)
                  (fun sc s w0 _ =>
                     match s with
                     | tt => v1_generateSceneImage_no_session env
                               script refs sc w0
                     end) tt w2) as S3.
    destruct (for_of _ (scenes script) tt w2) as [[[[]|err] w3] e3];
      cbn [events snd] in S3; unfold Close, emit, console_error, emit, bind.
    + exists w3,
        ([EMkdir AnimeV1.outputDir true] ++ [EConnect]
         ++ [ELog "Generating character references..."] ++ e2
         ++ [ELog "Generating scenes..."] ++ e3).
      split; [by rewrite <- !app_assoc|]. split.
      * repeat (apply Forall_app; split); try by repeat constructor.
        all: by apply no_session_no_close.
      * intros script' [= <-] _. exists true, (e2 ++ [ELog "Generating scenes..."] ++ e3).
        split; [done|]. exists (imagine_prompts e3).
        by rewrite !imagine_prompts_app, P2.
    + exists w3,
        ([EMkdir AnimeV1.outputDir true] ++ [EConnect]
         ++ [ELog "Generating character references..."] ++ e2
         ++ [ELog "Generating scenes..."] ++ e3 ++ [EError "Error in generate:"]).
      split; [by rewrite <- !app_assoc|]. split.
      * repeat (apply Forall_app; split); try by repeat constructor.
        all: by apply no_session_no_close.
      * intros script' [= <-] _.
        exists true, (e2 ++ [ELog "Generating scenes..."] ++ e3
                      ++ [EError "Error in generate:"]).
        split; [done|]. exists (imagine_prompts e3).
        rewrite !imagine_prompts_app, P2. cbn. by rewrite app_nil_r.
  - unfold bind at 1. unfold Connect.
    destruct (Connect_o env (tick (tick w))) eqn:Hc.
    2:{ unfold bind, Close, emit. cbn [app].
        exists (tick (tick (tick w))),
          [ EMkdir AnimeV1.outputDir false;
            EError "Error creating output directory:";
            EError "Error in generate:" ].
        split; [reflexivity|]. split; [by repeat constructor|].
        intros script' _ Hc'. discriminate Hc'. }
    unfold bind at 1. unfold console_log at 1. unfold emit at 1.
    unfold bind at 1.
    pose proof (v1_generateCharacterReferences_run env script
                  (tick (tick (tick w)))) as Hchars.
    destruct (AnimeV1.generateCharacterReferences env script
                (tick (tick (tick w)))) as [[[refs|err] w2] e2]; [|done].
    destruct Hchars as (S2 & _ & P2 & _).
    unfold bind at 1. unfold console_log at 1. unfold emit at 1.
    unfold bind at 1. unfold AnimeV1.generateScenes.
    pose proof (for_of_Forall
                  (AnimeV1.generateSceneImage env script refs)
                  (fun e => is_session_event e = false) (scenes script)
                  (fun sc s w0 _ =>
                     match s with
                     | tt => v1_generateSceneImage_no_session env
                               script refs sc w0
                     end) tt w2) as S3.
    destruct (for_of _ (scenes script) tt w2) as [[[[]|err] w3] e3];
      cbn [events snd] in S3; unfold Close, emit, console_error, emit, bind.
    + exists w3,
        ([EMkdir AnimeV1.outputDir false; EError "Error creating output directory:"]
         ++ [EConnect]
         ++ [ELog "Generating character references..."] ++ e2
         ++ [ELog "Generating scenes..."] ++ e3).
      split; [by rewrite <- !app_assoc|]. split.
      * repeat (apply Forall_app; split); try by repeat constructor.
        all: by apply no_session_no_close.
      * intros script' [= <-] _. exists false, (e2 ++ [ELog "Generating scenes..."] ++ e3).
        split; [done|]. exists (imagine_prompts e3).
        by rewrite !imagine_prompts_app, P2.
    + exists w3,
        ([EMkdir AnimeV1.outputDir false; EError "Error creating output directory:"]
         ++ [EConnect]
         ++ [ELog "Generating character references..."] ++ e2
         ++ [ELog "Generating scenes..."] ++ e3 ++ [EError "Error in generate:"]).
      split; [by rewrite <- !app_assoc|]. split.
      * repeat (apply Forall_app; split); try by repeat constructor.
        all: by apply no_session_no_close.
      * intros script' [= <-] _.
        exists false, (e2 ++ [ELog "Generating scenes..."] ++ e3
                       ++ [EError "Error in generate:"]).
        split; [done|]. exists (imagine_prompts e3).
        rewrite !imagine_prompts_app, P2. cbn. by rewrite app_nil_r.
Qed.
End FirstGeneratorRun.

(** X22. [generate] of the first generator of [anime.ts] never rejects and
    always closes the client, exactly once and as its last action. A failure
    to create the output directory is logged and does not stop the run: with
    a readable script and a connection, the prompt of every character is
    submitted whether or not the directory could be created. *)
Theorem v1_generate_outcome (env : Env)
    (scriptPath : string) (w : World) :
  let run := AnimeV1.generate env scriptPath w in
  result run = Ok tt
  /\ List.filter is_close (events run) = [EClose]
  /\ last (events run) = Some EClose
  /\ forall script,
       fs w !! scriptPath = Some (CScript script) ->
       Connect_o env (tick (tick w)) = true ->
       exists ok scene_prompts,
         hd_error (events run) = Some (EMkdir AnimeV1.outputDir ok)
         /\ (ok = false ->
             In (EError "Error creating output directory:") (events run))
         /\ imagine_prompts (events run)
            = map AnimeV1.buildCharacterPrompt (characters script)
              ++ scene_prompts.
Proof.
  cbv zeta.
  destruct (v1_generate_structure env scriptPath w)
    as (w' & body & -> & Hclose & Hrun).
  cbn [result events fst snd]. split; [done|]. split; [|split].
  - rewrite List.filter_app. by rewrite (filter_close_nil _ Hclose).
  - apply last_snoc.
  - intros script Hfs Hc.
    destruct (Hrun script Hfs Hc) as (ok & rest & -> & prompts & Hp).
    exists ok, prompts. split; [done|]. split.
    + intros ->. right. by left.
    + destruct ok; cbn [app];
        repeat (rewrite imagine_prompts_cons; cbn [imagine_prompts flat_map app]);
        rewrite imagine_prompts_app, Hp; cbn; by rewrite app_nil_r.
Qed.

(** *** [anime.ts], the storyboard program: handles in the scene prompts *)

Section StoryboardHandles.
Variable env : Env.

(** After the loop over the characters every character has a handle,
    provided those of the ledger had one. *)
Lemma characters_loop_handles cs s w s' w' e :
  for_of (Storyboard.character_iteration env) cs s w = (Ok s', w', e) ->
  (forall c, In c cs ->
     Storyboard.includes (completedCharacters (Storyboard.progress s))
       (Storyboard.name c) = true ->
     is_Some (Storyboard.characterRefs s !! Storyboard.name c)) ->
  forall c, In c cs -> is_Some (Storyboard.characterRefs s' !! Storyboard.name c).
Proof.
  intros Hrun Hs.
  refine (proj2 (proj2
            (for_of_covers (Storyboard.character_iteration env)
               (fun a _ =>
                  forall c, In c cs ->
                    Storyboard.includes
                      (completedCharacters (Storyboard.progress a))
                      (Storyboard.name c) = true ->
                    is_Some (Storyboard.characterRefs a !! Storyboard.name c))
               (fun a b =>
                  forall n, is_Some (Storyboard.characterRefs a !! n) ->
                            is_Some (Storyboard.characterRefs b !! n))
               (fun c a => is_Some (Storyboard.characterRefs a !! Storyboard.name c))
               cs _ _ _ _ s w s' w' e Hs Hrun))).
  - by intros a n.
  - intros a b c Hab Hbc n H. by apply Hbc, Hab.
  - intros c a b H Hab. by apply Hab.
  - intros c a wa b wb eb Hc Ha Hrunc.
    pose proof (character_iteration_trace env c a wa) as H.
    rewrite Hrunc in H.
    destruct H as [(_ & -> & Hinc)|(u & _ & Hinc & ->)].
    + split; [done|]. split; [done|]. by apply Ha.
    + cbn [Storyboard.characterRefs Storyboard.progress].
      split; [|split].
      * intros c' Hc' Hinc'.
        destruct (decide (Storyboard.name c = Storyboard.name c')) as [Heq|Hne].
        { rewrite Heq, lookup_insert_eq. by eexists. }
        rewrite lookup_insert_ne by done. apply Ha; [done|].
        unfold Storyboard.push_character in Hinc'. cbn [completedCharacters] in Hinc'.
        rewrite includes_app in Hinc'.
        apply orb_true_iff in Hinc' as [H|H]; [done|].
        apply String.eqb_eq in H. by destruct Hne.
      * intros n Hn.
        destruct (decide (Storyboard.name c = n)) as [<-|Hne].
        { rewrite lookup_insert_eq. by eexists. }
        by rewrite lookup_insert_ne.
      * rewrite lookup_insert_eq. by eexists.
Qed.
End StoryboardHandles.


(** *** The properties on sample runs *)

Lemma generate_paced_witness :
  In (EDelay 2000)
    (firstn 17
       (skipn 9
          (events
             (ExampleScript.generate (sample_env always_succeeds true any_path)
                "script.json" ∅ scripted_world)))).
Proof.
  apply (generate_paced (sample_env always_succeeds true any_path)
           "script.json" ∅ scripted_world
           (firstn 8
              (events
                 (ExampleScript.generate (sample_env always_succeeds true any_path)
                    "script.json" ∅ scripted_world)))
           (ExampleScript.buildCharacterPrompt Rin) (Ok (Some sample_response))
           (firstn 17
              (skipn 9
                 (events
                    (ExampleScript.generate
                       (sample_env always_succeeds true any_path)
                       "script.json" ∅ scripted_world))))
           (ExampleScript.buildCharacterPrompt Kaito) (Ok (Some sample_response))
           (skipn 27
              (events
                 (ExampleScript.generate (sample_env always_succeeds true any_path)
                    "script.json" ∅ scripted_world)))).
  vm_compute. reflexivity.
Defined.

Lemma main_paced_witness :
  In (EDelay 5000)
    (firstn 8
       (skipn 6
          (events
             (Storyboard.main (sample_env always_succeeds true any_path)
                empty_world)))).
Proof.
  apply (main_paced (sample_env always_succeeds true any_path) Storyboard.story
           empty_world
           (firstn 5
              (events
                 (Storyboard.main (sample_env always_succeeds true any_path)
                    empty_world)))
           (Storyboard.prompt first_character) (Ok (Some sample_response))
           (firstn 8
              (skipn 6
                 (events
                    (Storyboard.main (sample_env always_succeeds true any_path)
                       empty_world))))
           "Handsome male surgeon in mid-thirties, sophisticated appearance, professional medical attire, charismatic yet melancholic expression --style raw --ar 1:1 --v 6"
           (Ok (Some sample_response))
           (skipn 15
              (events
                 (Storyboard.main (sample_env always_succeeds true any_path)
                    empty_world)))).
  vm_compute. reflexivity.
Defined.

Lemma upscale_first_image_witness :
  exists pre' P r,
    firstn 6
      (events
         (Storyboard.main (sample_env always_succeeds true any_path) empty_world))
    = pre' ++ [EImagine P (Ok (Some r))]
    /\ 1%Z = 1%Z
    /\ Some "message-1" = id r
    /\ Some "hash-1" = hash r
    /\ Some 0%Z = flags r.
Proof.
  apply (upscale_first_image (sample_env always_succeeds true any_path)
           Storyboard.story empty_world
           (firstn 6
              (events
                 (Storyboard.main (sample_env always_succeeds true any_path)
                    empty_world)))
           1%Z (Some "message-1") (Some "hash-1") (Some 0%Z)
           (Ok (Some sample_upscaled))
           (skipn 7
              (events
                 (Storyboard.main (sample_env always_succeeds true any_path)
                    empty_world)))).
  vm_compute. reflexivity.
Defined.


(** *** The names of the scene files *)

Lemma pretty_N_go_head (x : N) s :
  (0 < x)%N ->
  exists c rest, pretty_N_go x s = String c rest /\ c <> "0"%char.
Proof.
  revert s. induction (N.lt_wf_0 x) as [x _ IH]; intros s Hx.
  rewrite pretty_N_go_step by done.
  destruct (decide (x < 10)%N) as [Hlt|Hge].
  - rewrite N.div_small, N.mod_small by done. rewrite pretty_N_go_0.
    exists (pretty_N_char x), s. split; [done|].
    assert (x = 1 \/ x = 2 \/ x = 3 \/ x = 4 \/ x = 5 \/ x = 6
            \/ x = 7 \/ x = 8 \/ x = 9)%N as Hcases by lia.
    destruct Hcases as [->|[->|[->|[->|[->|[->|[->|[->| ->]]]]]]]]; done.
  - apply IH.
    + apply N.div_lt; lia.
    + apply N.div_str_pos. lia.
Qed.

Lemma pretty_Z_not_empty (z : Z) : pretty z <> "".
Proof.
  destruct z as [|p|p]; [done| |done].
  unfold pretty, pretty_Z, pretty, pretty_positive, pretty, pretty_N.
  destruct (decide (N.pos p = 0%N)); [done|].
  destruct (pretty_N_go_head (N.pos p) "") as (c & rest & -> & _); [lia|done].
Qed.

Lemma pretty_Z_leading_zero (z : Z) rest :
  pretty z = String "0" rest -> rest = "".
Proof.
  destruct z as [|p|p]; [by intros [= <-]| |done].
  unfold pretty, pretty_Z, pretty, pretty_positive, pretty, pretty_N.
  destruct (decide (N.pos p = 0%N)); [done|].
  destruct (pretty_N_go_head (N.pos p) "") as (c & rest' & -> & Hc); [lia|].
  intros [= -> _]. by destruct Hc.
Qed.

Lemma replicate_char_add i j c :
  replicate_char (i + j) c = replicate_char i c +:+ replicate_char j c.
Proof.
  induction i as [|i IH]; [done|].
  cbn [Nat.add replicate_char]. by rewrite append_cons, IH.
Qed.

Lemma pad_zeros_inj (n m : Z) i j :
  (i <= j)%nat ->
  replicate_char i "0" +:+ pretty n = replicate_char j "0" +:+ pretty m ->
  n = m.
Proof.
  intros Hij H.
  replace j with (i + (j - i))%nat in H by lia.
  rewrite replicate_char_add, append_assoc in H. apply append_inj_l in H.
  destruct (j - i)%nat as [|d].
  - by apply (inj pretty).
  - cbn [replicate_char] in H. rewrite append_cons in H.
    apply pretty_Z_leading_zero in H.
    destruct (replicate_char d "0"); [|done].
    by destruct (pretty_Z_not_empty m).
Qed.

Lemma length_append s t :
  String.length (s +:+ t) = (String.length s + String.length t)%nat.
Proof.
  induction s as [|c s IH]; [done|].
  rewrite append_cons. cbn [String.length]. by rewrite IH.
Qed.

Lemma replicate_char_length i c : String.length (replicate_char i c) = i.
Proof. induction i as [|i IH]; [done|]. cbn. by rewrite IH. Qed.

Lemma pretty_N_go_length_small (x : N) s :
  (x < 1000)%N -> (String.length (pretty_N_go x s) <= String.length s + 3)%nat.
Proof.
  intros Hx.
  destruct (decide (x = 0)%N) as [->|H0]; [rewrite pretty_N_go_0; lia|].
  rewrite pretty_N_go_step by (by apply N.neq_0_lt_0).
  destruct (decide (x `div` 10 = 0)%N) as [->|H1]; [rewrite pretty_N_go_0; cbn; lia|].
  rewrite pretty_N_go_step by (by apply N.neq_0_lt_0).
  destruct (decide ((x `div` 10) `div` 10 = 0)%N) as [->|H2];
    [rewrite pretty_N_go_0; cbn; lia|].
  rewrite pretty_N_go_step by (by apply N.neq_0_lt_0).
  assert (((x `div` 10) `div` 10) `div` 10 = 0)%N as ->.
  { rewrite !N.Div0.div_div. apply N.div_small. lia. }
  rewrite pretty_N_go_0. cbn. lia.
Qed.

Lemma pretty_Z_length_small (z : Z) :
  (0 <= z < 1000)%Z -> (String.length (pretty z) <= 3)%nat.
Proof.
  intros Hz. destruct z as [|p|p]; [cbn; lia| |lia].
  unfold pretty, pretty_Z, pretty, pretty_positive, pretty, pretty_N.
  destruct (decide (N.pos p = 0%N)); [done|].
  apply (pretty_N_go_length_small (N.pos p) ""). lia.
Qed.

(** X24. The name of the files of a scene, [scene_] followed by the integer
    scene number padded with zeros to three characters, determines the scene
    number: two scenes with different numbers never share their files, in
    either generator. A number from 0 to 999 is written on exactly three
    characters. *)
Theorem scene_names_distinct (sc1 sc2 : Scene) :
  ("scene_" +:+ padStart 3 "0" (pretty (sceneNumber sc1))
   = "scene_" +:+ padStart 3 "0" (pretty (sceneNumber sc2)) ->
   sceneNumber sc1 = sceneNumber sc2)
  /\ ((0 <= sceneNumber sc1 < 1000)%Z ->
      String.length (padStart 3 "0" (pretty (sceneNumber sc1))) = 3%nat).
Proof.
  split.
  - intros H. apply append_inj_l in H. unfold padStart in H.
    destruct (decide (3 - String.length (pretty (sceneNumber sc1))
                      <= 3 - String.length (pretty (sceneNumber sc2)))%nat).
    + by apply (pad_zeros_inj _ _ _ _ l).
    + symmetry. apply (pad_zeros_inj _ _ (3 - String.length (pretty (sceneNumber sc2)))
                         (3 - String.length (pretty (sceneNumber sc1)))); [lia|done].
  - intros Hn. pose proof (pretty_Z_length_small _ Hn) as Hlen.
    unfold padStart. rewrite length_append, replicate_char_length. lia.
Qed.

(** *** [anime.ts], the storyboard program: what a run attempts *)

Lemma generation_trace_one_prompt prompt ipath r evs :
  generation_trace prompt ipath r evs -> imagine_prompts evs = [prompt].
Proof. by destruct 1. Qed.

Lemma iteration_trace_one_prompt skip_log logs prompt ipath ledger p' done_log
    outcome evs :
  Forall (fun e => exists msg, e = ELog msg) logs ->
  iteration_trace skip_log logs prompt ipath ledger p' done_log outcome evs ->
  imagine_prompts evs
  = match outcome with
    | Some None => []
    | _ => [prompt]
    end.
Proof.
  intros Hlogs. pose proof (only_logs_no_prompt _ Hlogs) as Hl.
  destruct 1 as [|err evs Hg|u evs Hg|u evs Hg]; [done|..];
    rewrite !imagine_prompts_app, Hl, (generation_trace_one_prompt _ _ _ _ Hg);
    done.
Qed.

Lemma pending_skip {X} (key : X -> string) completed x xs :
  Storyboard.includes completed (key x) = true ->
  pending key completed (x :: xs) = pending key completed xs.
Proof. intros H. unfold pending. cbn [List.filter]. by rewrite H. Qed.

Lemma pending_keep {X} (key : X -> string) completed x xs :
  Storyboard.includes completed (key x) = false ->
  pending key completed (x :: xs) = x :: pending key completed xs.
Proof. intros H. unfold pending. cbn [List.filter]. by rewrite H. Qed.

Lemma pending_push {X} (key : X -> string) completed k xs :
  ~ In k (map key xs) ->
  pending key (completed ++ [k]) xs = pending key completed xs.
Proof.
  intros Hk. unfold pending. apply filter_ext_in. intros y Hy.
  rewrite includes_app.
  destruct (String.eqb_spec (key y) k) as [<-|Hne]; [|by rewrite orb_false_r].
  destruct Hk. by apply in_map.
Qed.

(** A loop of [main] submits the prompts of the pending items, in order,
    up to the first failure. *)
Lemma for_of_pending {X} (body : X -> Storyboard.State -> M Storyboard.State)
    (key : X -> string) (get : ProgressState -> list string)
    (g : Storyboard.State -> X -> string) xs :
  (forall x s w,
     match body x s w with
     | (Ok s', _, e) =>
         (Storyboard.includes (get (Storyboard.progress s)) (key x) = true
          /\ s' = s /\ imagine_prompts e = [])
         \/ (Storyboard.includes (get (Storyboard.progress s)) (key x) = false
             /\ imagine_prompts e = [g s x]
             /\ get (Storyboard.progress s') = get (Storyboard.progress s) ++ [key x]
             /\ forall y, g s' y = g s y)
     | (Thrown _, _, e) =>
         Storyboard.includes (get (Storyboard.progress s)) (key x) = false
         /\ imagine_prompts e = [g s x]
     end) ->
  NoDup (map key xs) ->
  forall s w,
    match for_of body xs s w with
    | (Ok s', _, e) =>
        imagine_prompts e
        = map (g s) (pending key (get (Storyboard.progress s)) xs)
        /\ forall y, g s' y = g s y
    | (Thrown _, _, e) =>
        imagine_prompts e
        `prefix_of` map (g s) (pending key (get (Storyboard.progress s)) xs)
    end.
Proof.
  intros Hbody. induction xs as [|x xs IH]; intros Hnd s w.
  - by cbn.
  - apply NoDup_cons in Hnd as [Hx Hnd]. cbn [map] in Hx.
    cbn [for_of]. unfold bind.
    pose proof (Hbody x s w) as Hx1.
    destruct (body x s w) as [[[s1|err] w1] e1].
    + pose proof (IH Hnd s1 w1) as Hxs.
      destruct (for_of body xs s1 w1) as [[[s2|err] w2] e2];
        rewrite imagine_prompts_app.
      * destruct Hxs as [Hp2 Hg2].
        destruct Hx1 as [(Hinc & -> & Hp1)|(Hinc & Hp1 & Hget & Hg1)].
        -- rewrite Hp1, Hp2, (pending_skip key _ x xs Hinc). done.
        -- rewrite Hp1, Hp2, Hget, (pending_keep key _ x xs Hinc).
           rewrite (pending_push key _ (key x) xs) by (by rewrite <- list_elem_of_In).
           cbn [map app]. split.
           ++ f_equal. apply map_ext. intros y. apply Hg1.
           ++ intros y. by rewrite Hg2, Hg1.
      * destruct Hx1 as [(Hinc & -> & Hp1)|(Hinc & Hp1 & Hget & Hg1)].
        -- rewrite Hp1, (pending_skip key _ x xs Hinc). done.
        -- rewrite Hp1, (pending_keep key _ x xs Hinc).
           rewrite Hget, (pending_push key _ (key x) xs) in Hxs
             by (by rewrite <- list_elem_of_In).
           cbn [map app]. apply prefix_cons.
           rewrite (map_ext (g s) (g s1)) by (intros y; by rewrite Hg1). done.
    + destruct Hx1 as [Hinc Hp1].
      rewrite Hp1, (pending_keep key _ x xs Hinc). cbn [map].
      apply prefix_cons, prefix_nil.
Qed.

Section StoryboardPending.
Variable env : Env.

Lemma characters_loop_pending cs s w :
  NoDup (map Storyboard.name cs) ->
  match for_of (Storyboard.character_iteration env) cs s w with
  | (Ok s', _, e) =>
      imagine_prompts e
      = map Storyboard.prompt
          (pending Storyboard.name
             (completedCharacters (Storyboard.progress s)) cs)
  | (Thrown _, _, e) =>
      imagine_prompts e
      `prefix_of` map Storyboard.prompt
                    (pending Storyboard.name
                       (completedCharacters (Storyboard.progress s)) cs)
  end.
Proof.
  intros Hnd.
  pose proof (for_of_pending (Storyboard.character_iteration env)
                Storyboard.name completedCharacters
                (fun _ c => Storyboard.prompt c) cs) as H.
  cbv beta in H.
  assert (forall c s0 w0,
            match Storyboard.character_iteration env c s0 w0 with
            | (Ok s', _, e) =>
                (Storyboard.includes (completedCharacters (Storyboard.progress s0))
                   (Storyboard.name c) = true
                 /\ s' = s0 /\ imagine_prompts e = [])
                \/ (Storyboard.includes
                      (completedCharacters (Storyboard.progress s0))
                      (Storyboard.name c) = false
                    /\ imagine_prompts e = [Storyboard.prompt c]
                    /\ completedCharacters (Storyboard.progress s')
                       = completedCharacters (Storyboard.progress s0)
                         ++ [Storyboard.name c]
                    /\ forall y : Storyboard.StoryCharacter,
                         Storyboard.prompt y = Storyboard.prompt y)
            | (Thrown _, _, e) =>
                Storyboard.includes (completedCharacters (Storyboard.progress s0))
                  (Storyboard.name c) = false
                /\ imagine_prompts e = [Storyboard.prompt c]
            end) as Hbody.
  { intros c s0 w0.
    pose proof (character_iteration_trace env c s0 w0) as T.
    destruct (Storyboard.character_iteration env c s0 w0) as [[[s'|err] w'] e].
    - destruct T as [(T & -> & Hinc)|(u & T & Hinc & ->)].
      + left. split; [done|]. split; [done|].
        by rewrite (iteration_trace_one_prompt _ _ _ _ _ _ _ _ _
                      (character_logs c) T).
      + right. split; [done|]. split; [|done].
        by rewrite (iteration_trace_one_prompt _ _ _ _ _ _ _ _ _
                      (character_logs c) T).
    - destruct T as [T Hinc]. split; [done|].
      by rewrite (iteration_trace_one_prompt _ _ _ _ _ _ _ _ _
                    (character_logs c) T). }
  specialize (H Hbody Hnd s w).
  destruct (for_of _ cs s w) as [[[s'|err] w'] e]; [by destruct H|done].
Qed.

Lemma scenes_loop_pending scs s w :
  NoDup (map Storyboard.scene_title scs) ->
  match for_of (Storyboard.scene_iteration env) scs s w with
  | (Ok s', _, e) =>
      imagine_prompts e
      = map (fun sc => Storyboard.render (Storyboard.characterRefs s)
                         (Storyboard.scene_prompt sc))
          (pending Storyboard.scene_title
             (completedScenes (Storyboard.progress s)) scs)
  | (Thrown _, _, e) =>
      imagine_prompts e
      `prefix_of` map (fun sc => Storyboard.render (Storyboard.characterRefs s)
                                   (Storyboard.scene_prompt sc))
                    (pending Storyboard.scene_title
                       (completedScenes (Storyboard.progress s)) scs)
  end.
Proof.
  intros Hnd.
  pose proof (for_of_pending (Storyboard.scene_iteration env)
                Storyboard.scene_title completedScenes
                (fun s0 sc => Storyboard.render (Storyboard.characterRefs s0)
                                (Storyboard.scene_prompt sc)) scs) as H.
  cbv beta in H.
  assert (forall sc s0 w0,
            match Storyboard.scene_iteration env sc s0 w0 with
            | (Ok s', _, e) =>
                (Storyboard.includes (completedScenes (Storyboard.progress s0))
                   (Storyboard.scene_title sc) = true
                 /\ s' = s0 /\ imagine_prompts e = [])
                \/ (Storyboard.includes (completedScenes (Storyboard.progress s0))
                      (Storyboard.scene_title sc) = false
                    /\ imagine_prompts e
                       = [Storyboard.render (Storyboard.characterRefs s0)
                            (Storyboard.scene_prompt sc)]
                    /\ completedScenes (Storyboard.progress s')
                       = completedScenes (Storyboard.progress s0)
                         ++ [Storyboard.scene_title sc]
                    /\ forall y,
                         Storyboard.render (Storyboard.characterRefs s')
                           (Storyboard.scene_prompt y)
                         = Storyboard.render (Storyboard.characterRefs s0)
                             (Storyboard.scene_prompt y))
            | (Thrown _, _, e) =>
                Storyboard.includes (completedScenes (Storyboard.progress s0))
                  (Storyboard.scene_title sc) = false
                /\ imagine_prompts e
                   = [Storyboard.render (Storyboard.characterRefs s0)
                        (Storyboard.scene_prompt sc)]
            end) as Hbody.
  { intros sc s0 w0.
    pose proof (scene_iteration_trace env sc s0 w0) as T.
    destruct (Storyboard.scene_iteration env sc s0 w0) as [[[s'|err] w'] e].
    - destruct T as [(T & -> & Hinc)|(u & T & Hinc & ->)].
      + left. split; [done|]. split; [done|].
        by rewrite (iteration_trace_one_prompt _ _ _ _ _ _ _ _ _
                      (scene_logs sc (Storyboard.characterRefs s0)) T).
      + right. split; [done|]. split; [|done].
        by rewrite (iteration_trace_one_prompt _ _ _ _ _ _ _ _ _
                      (scene_logs sc (Storyboard.characterRefs s0)) T).
    - destruct T as [T Hinc]. split; [done|].
      by rewrite (iteration_trace_one_prompt _ _ _ _ _ _ _ _ _
                    (scene_logs sc (Storyboard.characterRefs s0)) T). }
  specialize (H Hbody Hnd s w).
  destruct (for_of _ scs s w) as [[[s'|err] w'] e]; [by destruct H|done].
Qed.

(** The loop over the characters leaves the scenes of the ledger as they
    are. *)
Lemma characters_loop_scenes cs s w :
  match for_of (Storyboard.character_iteration env) cs s w with
  | (Ok s', _, _) =>
      completedScenes (Storyboard.progress s')
      = completedScenes (Storyboard.progress s)
  | (Thrown _, _, _) => True
  end.
Proof.
  apply (for_of_rule (Storyboard.character_iteration env)
           (fun a _ b =>
              completedScenes (Storyboard.progress b)
              = completedScenes (Storyboard.progress a))
           (fun _ _ => True)); try done.
  - intros a e1 b e2 c Hab Hbc. by rewrite Hbc.
  - intros c a wa _.
    pose proof (character_iteration_trace env c a wa) as T.
    destruct (Storyboard.character_iteration env c a wa) as [[[s'|err] w'] e];
      [|done].
    by destruct T as [(_ & -> & _)|(u & _ & _ & ->)].
Qed.
End StoryboardPending.

(** X25. When the characters of the story have different names and its
    scenes different titles, a run of [main] attempts exactly the items that
    the loaded ledger does not hold, in the order of the story and each
    once: the prompts it submits are those of the pending characters and
    then those of the pending scenes, up to the first failure. A scene is
    submitted only when every pending character has been, and a connected
    run that logs no storyboard error has submitted them all. *)
Theorem run_attempts_pending (env : Env) (st : Storyboard.Story) (w : World) :
  NoDup (map Storyboard.name (Storyboard.mainCharacters st)) ->
  NoDup (map Storyboard.scene_title (Storyboard.scenes st)) ->
  let evs := events (Storyboard.main_of env st w) in
  let pending_characters :=
    map Storyboard.prompt
      (pending Storyboard.name (completedCharacters (loaded_ledger env w))
         (Storyboard.mainCharacters st)) in
  exists charRefs character_prompts scene_prompts,
    let pending_scenes :=
      map (fun sc => Storyboard.render charRefs (Storyboard.scene_prompt sc))
        (pending Storyboard.scene_title (completedScenes (loaded_ledger env w))
           (Storyboard.scenes st)) in
    imagine_prompts evs = character_prompts ++ scene_prompts
    /\ character_prompts `prefix_of` pending_characters
    /\ scene_prompts `prefix_of` pending_scenes
    /\ (scene_prompts <> [] -> character_prompts = pending_characters)
    /\ (In EConnect evs ->
        ~ In (EError "Error generating storyboard:") evs ->
        character_prompts = pending_characters
        /\ scene_prompts = pending_scenes).
Proof.
  intros Hcs Hscs. cbv zeta.
  destruct (main_of_run env st w)
    as [(err & w' & e & -> & Hsetup)
       |[(w0 & r & w1 & e & Hw0 & Hstory & ->)
        |(w1 & e_load & _ & _ & Hllogs & _ & ->)]];
    cbn [events snd].
  3:{ exists ∅, [], [].
      assert (imagine_prompts
                ([ EMkdir "output/character_images" true;
                   EMkdir "output/scene_images" true; EConnect ]
                 ++ e_load ++ [EError "Error generating storyboard:"; EClose])
              = []) as ->.
      { rewrite !imagine_prompts_app.
        by rewrite (io_events_no_prompt _ (only_logs_io _ Hllogs)). }
      split; [done|]. split; [apply prefix_nil|]. split; [apply prefix_nil|].
      split; [done|]. intros _ Hno. exfalso. apply Hno.
      apply in_or_app. right. apply in_or_app. right. by left. }
  { exists ∅, [], []. rewrite (io_events_no_prompt _ (mkdir_events_io _ Hsetup)).
    split; [done|]. split; [apply prefix_nil|]. split; [apply prefix_nil|].
    split; [done|]. intros Hin. rewrite List.Forall_forall in Hsetup.
    by destruct (Hsetup _ Hin) as (dir & ok & ?). }
  destruct (storyboard_outcome env st (loaded_ledger env w) w0)
    as (r' & w3 & e' & Hrun & e_load & r1 & w1' & e1 & Hlogs & Hchars & Hrest).
  rewrite Hstory in Hrun. injection Hrun as <- <- <-.
  pose proof (only_logs_no_prompt _ Hlogs) as Pload.
  pose proof (characters_loop_pending env (Storyboard.mainCharacters st)
                (loaded_state env (loaded_ledger env w) w0) (tick w0) Hcs) as Pchars.
  pose proof (characters_loop_scenes env (Storyboard.mainCharacters st)
                (loaded_state env (loaded_ledger env w) w0) (tick w0)) as Hkeep.
  rewrite Hchars in Pchars, Hkeep. rewrite loaded_state_progress in Pchars, Hkeep.
  assert (forall l, imagine_prompts
                      ([ EMkdir "output/character_images" true;
                         EMkdir "output/scene_images" true; EConnect ] ++ l)
                    = imagine_prompts l) as Hsetup by done.
  assert (imagine_prompts
            (match r with
             | Ok _ => []
             | Thrown _ => [EError "Error generating storyboard:"]
             end ++ [EClose]) = []) as Hclosing by (by destruct r).
  rewrite Hsetup, imagine_prompts_app, Hclosing, app_nil_r.
  assert (forall x, r = Thrown x ->
            In (EError "Error generating storyboard:")
              ([ EMkdir "output/character_images" true;
                 EMkdir "output/scene_images" true; EConnect ] ++ e
               ++ match r with
                  | Ok _ => []
                  | Thrown _ => [EError "Error generating storyboard:"]
                  end ++ [EClose])) as Herr.
  { intros x ->. apply in_or_app. right. apply in_or_app. right. by left. }
  destruct r1 as [s1|err].
  2:{ destruct Hrest as (-> & _ & ->).
      exists ∅, (imagine_prompts e1), [].
      rewrite imagine_prompts_app, Pload, app_nil_r. cbn [app].
      split; [done|]. split; [done|]. split; [apply prefix_nil|].
      split; [done|]. intros _ Hno. by destruct (Hno (Herr err eq_refl)). }
  destruct Hrest as (r2 & w2 & e2 & Hscenes & Hrest).
  pose proof (scenes_loop_pending env (Storyboard.scenes st) s1 w1' Hscs) as Pscenes.
  rewrite Hscenes, Hkeep in Pscenes.
  exists (Storyboard.characterRefs s1), (imagine_prompts e1), (imagine_prompts e2).
  destruct r2 as [s2|err].
  - cbv zeta in Hrest. destruct Hrest as [-> _].
    rewrite !imagine_prompts_app, Pload. cbn [app].
    change (imagine_prompts [EWriteFile ?a ?b ?c]) with (@nil string).
    rewrite app_nil_r, Pchars, Pscenes. by repeat split.
  - destruct Hrest as (-> & _ & ->).
    rewrite !imagine_prompts_app, Pload. cbn [app]. rewrite Pchars.
    split; [done|]. split; [done|]. split; [done|]. split; [done|].
    intros _ Hno. by destruct (Hno (Herr err eq_refl)).
Qed.

Lemma run_attempts_pending_witness :
  exists charRefs,
    imagine_prompts
      (events
         (Storyboard.main_of (sample_env always_succeeds true any_path)
            Storyboard.story resumed_world))
    = map (fun sc => Storyboard.render charRefs (Storyboard.scene_prompt sc))
        (Storyboard.scenes Storyboard.story).
Proof.
  assert (NoDup (map Storyboard.name
                   (Storyboard.mainCharacters Storyboard.story))) as Hcs.
  { apply (bool_decide_unpack _). vm_compute. reflexivity. }
  assert (NoDup (map Storyboard.scene_title
                   (Storyboard.scenes Storyboard.story))) as Hscs.
  { apply (bool_decide_unpack _). vm_compute. reflexivity. }
  destruct (run_attempts_pending (sample_env always_succeeds true any_path)
              Storyboard.story resumed_world Hcs Hscs)
    as (charRefs & pc & ps & Hp & _ & _ & _ & Hall).
  exists charRefs. rewrite Hp.
  destruct Hall as [-> ->].
  - vm_compute. do 2 right. left. reflexivity.
  - apply no_error_check. vm_compute. reflexivity.
  - reflexivity.
Defined.

(** *** [anime.ts], the storyboard program: every image is followed by the ledger *)

Lemma ledger_follows_none ledger evs :
  Forall (fun e => is_artifact_write e = false) evs ->
  ledger_follows_artifact ledger evs.
Proof.
  intros H pre ipath buf post ->. rewrite List.Forall_forall in H.
  specialize (H (EWriteFile ipath (CBuffer buf) true)).
  discriminate H. apply in_or_app. right. by left.
Qed.

Lemma ledger_follows_app ledger e1 e2 :
  ledger_follows_artifact ledger e1 -> ledger_follows_artifact ledger e2 ->
  ledger_follows_artifact ledger (e1 ++ e2).
Proof.
  intros H1 H2 pre ipath buf post Heq.
  destruct (app_eq_cons_app _ _ _ _ _ Heq)
    as [(post1 & -> & ->)|(pre2 & -> & ->)].
  - destruct (H1 pre ipath buf post1 eq_refl) as (p & ok & post' & ->).
    by exists p, ok, (post' ++ e2).
  - by apply (H2 pre2 ipath buf post).
Qed.

Lemma only_logs_no_artifact logs :
  Forall (fun e => exists msg, e = ELog msg) logs ->
  Forall (fun e => is_artifact_write e = false) logs.
Proof. apply List.Forall_impl. by intros ? (msg & ->). Qed.

Lemma generation_trace_failed_no_artifact prompt ipath err evs :
  generation_trace prompt ipath (Thrown err) evs ->
  Forall (fun e => is_artifact_write e = false) evs.
Proof. inversion 1; subst; by repeat constructor. Qed.

Lemma generation_trace_saved prompt ipath u gen ledger p' ok tail :
  generation_trace prompt ipath (Ok u) gen ->
  Forall (fun e => is_artifact_write e = false) tail ->
  ledger_follows_artifact ledger (gen ++ EWriteFile ledger (CProgress p') ok :: tail).
Proof.
  inversion 1 as [| | | |r up u' b Hup]; subst. intros Htail.
  intros pre ipath' buf post Heq. cbn [app] in Heq.
  do 3 (destruct pre as [|? pre]; cbn [app] in Heq;
        [discriminate Heq|injection Heq as <- Heq]).
  destruct pre as [|? pre]; cbn [app] in Heq.
  { injection Heq as <- <- <-. by eexists _, _, _. }
  injection Heq as <- Heq.
  do 2 (destruct pre as [|? pre]; cbn [app] in Heq;
        [discriminate Heq|injection Heq as <- Heq]).
  exfalso. rewrite List.Forall_forall in Htail.
  specialize (Htail (EWriteFile ipath' (CBuffer buf) true)).
  discriminate Htail. rewrite Heq. apply in_or_app. right. by left.
Qed.

Lemma iteration_trace_saved skip_log logs prompt ipath ledger p' done_log
    outcome evs :
  Forall (fun e => exists msg, e = ELog msg) logs ->
  iteration_trace skip_log logs prompt ipath ledger p' done_log outcome evs ->
  ledger_follows_artifact ledger evs.
Proof.
  intros Hlogs.
  pose proof (ledger_follows_none ledger _ (only_logs_no_artifact _ Hlogs)) as Llogs.
  destruct 1 as [|err evs Hg|u evs Hg|u evs Hg].
  - apply ledger_follows_none. by repeat constructor.
  - apply ledger_follows_app; [done|].
    by eapply ledger_follows_none, generation_trace_failed_no_artifact.
  - apply ledger_follows_app; [done|].
    eapply generation_trace_saved; [exact Hg|constructor].
  - apply ledger_follows_app; [done|].
    eapply generation_trace_saved; [exact Hg|by repeat constructor].
Qed.

Section StoryboardSaves.
Variable env : Env.

Lemma storyboard_saves st p w0 :
  ledger_follows_artifact (Storyboard.progress_json env)
    (events (Storyboard.storyboard env st p w0)).
Proof.
  destruct (storyboard_outcome env st p w0)
    as (r & w3 & e & -> & e_load & r1 & w1 & e1 & Hlogs & Hchars & Hrest).
  cbn [events snd].
  pose proof (ledger_follows_none (Storyboard.progress_json env) _
                (only_logs_no_artifact _ Hlogs)) as Lload.
  pose proof (loop_traces (Storyboard.character_iteration env)
                (ledger_follows_artifact (Storyboard.progress_json env))
                (Storyboard.mainCharacters st)
                (ledger_follows_none _ [] (List.Forall_nil _))
                (ledger_follows_app _)
                (fun c s w _ =>
                   match character_iteration_some_trace env c s w with
                   | ex_intro _ _ T =>
                       iteration_trace_saved _ _ _ _ _ _ _ _ _
                         (character_logs c) T
                   end)
                (loaded_state env p w0) (tick w0)) as Lchars.
  rewrite Hchars in Lchars. cbn [events snd] in Lchars.
  destruct r1 as [s1|err].
  2:{ destruct Hrest as (_ & _ & ->). by apply ledger_follows_app. }
  destruct Hrest as (r2 & w2 & e2 & Hscenes & Hrest).
  pose proof (loop_traces (Storyboard.scene_iteration env)
                (ledger_follows_artifact (Storyboard.progress_json env))
                (Storyboard.scenes st)
                (ledger_follows_none _ [] (List.Forall_nil _))
                (ledger_follows_app _)
                (fun sc s w _ =>
                   match scene_iteration_some_trace env sc s w with
                   | ex_intro _ _ T =>
                       iteration_trace_saved _ _ _ _ _ _ _ _ _
                         (scene_logs sc (Storyboard.characterRefs s)) T
                   end)
                s1 w1) as Lscenes.
  rewrite Hscenes in Lscenes. cbn [events snd] in Lscenes.
  destruct r2 as [s2|err].
  - cbv zeta in Hrest. destruct Hrest as [-> _].
    repeat (apply ledger_follows_app; [done|]).
    apply ledger_follows_none. by repeat constructor.
  - destruct Hrest as (_ & _ & ->).
    repeat (apply ledger_follows_app; [done|]). done.
Qed.
End StoryboardSaves.

(** C3, as amended. In every run of the storyboard program: the ledger is
    written right after the image of the item it adds has been fetched and
    written; every write of the ledger adds one entry to the ledger written
    before it (to the loaded one, for the first); every image that is
    written is followed at once by the log of its download and by the save
    of the ledger, so the ledger is saved once per completed item, at once.
    There is no metadata record of an item: the only record is the reference
    summary, which comes after every write of the ledger, and a connected
    run that logs no storyboard error ends with the write of the summary
    followed by [Close], with no other record written. *)
Theorem ledger_after_artifact (env : Env) (st : Storyboard.Story) (w : World) :
  artifact_precedes_ledger env (events (Storyboard.main_of env st w))
  /\ ledger_chain (loaded_ledger env w)
       (ledger_writes (events (Storyboard.main_of env st w)))
  /\ summary_after_ledger env (events (Storyboard.main_of env st w))
  /\ ledger_follows_artifact (Storyboard.progress_json env)
       (events (Storyboard.main_of env st w))
  /\ (In EConnect (events (Storyboard.main_of env st w)) ->
      ~ In (EError "Error generating storyboard:")
          (events (Storyboard.main_of env st w)) ->
      exists body refs,
        events (Storyboard.main_of env st w)
        = body ++ [ EWriteFile (Storyboard.character_references_json env)
                      (CReferences refs) true; EClose ]
        /\ Forall (fun e => is_record_write e = false) body).
Proof.
  destruct (main_of_run env st w)
    as [(err & w' & e & -> & Hsetup)
       |[(w0 & r & w1 & e & _ & Hstory & ->)
        |(w1 & e_load & _ & _ & Hlogs & _ & ->)]];
    cbn [events snd].
  - assert (Hl : ledger_writes e = []).
    { clear -Hsetup. induction Hsetup as [|? ? (dir & ok & ->) _ IH]; [done|exact IH]. }
    split; [by apply artifact_precedes_ledger_none|]. split; [by rewrite Hl|].
    split; [|split].
    + intros pre x post -> Hx. exfalso.
      rewrite List.Forall_forall in Hsetup.
      destruct (Hsetup x) as (dir & ok & ->); [|done].
      apply in_or_app. right. by left.
    + apply ledger_follows_none.
      eapply List.Forall_impl; [|exact Hsetup]. by intros ? (dir & ok & ->).
    + intros Hin. rewrite List.Forall_forall in Hsetup.
      by destruct (Hsetup _ Hin) as (dir & ok & ?).
  - destruct (storyboard_ledger env st (loaded_ledger env w) w0)
      as (Ha & Hc & A & tail & HA & Hrec & Htail).
    pose proof (storyboard_saves env st (loaded_ledger env w) w0) as Hsaves.
    destruct (storyboard_trace env st (loaded_ledger env w) w0)
      as (r' & w3 & e' & Hrun & _ & _ & Hsum).
    rewrite Hstory in Hrun. injection Hrun as <- <- <-.
    rewrite Hstory in Ha, Hc, HA, Hsaves. cbn [events snd] in Ha, Hc, HA, Hsaves.
    set (closing := match r with
                    | Ok _ => []
                    | Thrown _ => [EError "Error generating storyboard:"]
                    end ++ [EClose]).
    assert (Hcl : ledger_writes closing = []) by (subst closing; by destruct r).
    assert (Hcr : Forall (fun e => is_record_write e = false) closing)
      by (subst closing; destruct r; by repeat constructor).
    split; [|split; [|split; [|split]]].
    + apply artifact_precedes_ledger_app; [by apply artifact_precedes_ledger_none|].
      apply artifact_precedes_ledger_app; [done|].
      by apply artifact_precedes_ledger_none.
    + by rewrite !ledger_writes_app, Hcl, app_nil_r.
    + intros pre x post Heq Hx. rewrite HA in Heq.
      set (setup := [ EMkdir "output/character_images" true;
                      EMkdir "output/scene_images" true; EConnect ]) in Heq.
      assert (Hsr : Forall (fun e => is_record_write e = false) (setup ++ A)).
      { apply Forall_app. split; [by repeat constructor|done]. }
      destruct Htail as [->|(refs & ok & ->)].
      * exfalso. eapply (record_write_absent ((setup ++ A) ++ closing)).
        -- by apply Forall_app.
        -- rewrite <- Heq. by rewrite app_nil_r, <- !app_assoc.
        -- exact Hx.
      * destruct (record_write_position (setup ++ A)
                    (EWriteFile (Storyboard.character_references_json env)
                       (CReferences refs) ok) closing pre x post Hsr Hcr)
          as [-> ->]; [|done|].
        -- rewrite <- Heq. by rewrite <- !app_assoc.
        -- split; [done|]. by eexists _, _.
    + apply ledger_follows_app; [apply ledger_follows_none; by repeat constructor|].
      apply ledger_follows_app; [done|].
      apply ledger_follows_none. subst closing. destruct r; by repeat constructor.
    + intros _ Hno. subst closing. destruct r as [[]|err].
      * destruct Hsum as (body & refs & -> & N).
        exists ([ EMkdir "output/character_images" true;
                  EMkdir "output/scene_images" true; EConnect ] ++ body), refs.
        split; [cbn [app]; by rewrite <- !app_assoc|].
        apply Forall_app. split; [by repeat constructor|done].
      * exfalso. apply Hno.
        apply in_or_app. right. apply in_or_app. right. by left.
  - assert (Hq : Forall (fun e => is_artifact_write e = false
                                  /\ is_record_write e = false)
                   ([ EMkdir "output/character_images" true;
                      EMkdir "output/scene_images" true; EConnect ]
                    ++ e_load
                    ++ [EError "Error generating storyboard:"; EClose])).
    { repeat (apply Forall_app; split); try by repeat constructor.
      eapply List.Forall_impl; [|exact Hlogs]. by intros ? (msg & ->). }
    assert (Hl : ledger_writes
                   ([ EMkdir "output/character_images" true;
                      EMkdir "output/scene_images" true; EConnect ]
                    ++ e_load
                    ++ [EError "Error generating storyboard:"; EClose]) = []).
    { rewrite !ledger_writes_app, (only_logs_ledger_writes _ Hlogs). done. }
    split; [by apply artifact_precedes_ledger_none|]. split; [by rewrite Hl|].
    split; [|split].
    + intros pre x post Heq Hx. exfalso.
      rewrite List.Forall_forall in Hq.
      destruct (Hq x) as [_ Hx']; [|congruence].
      rewrite Heq. apply in_or_app. right. by left.
    + apply ledger_follows_none.
      eapply List.Forall_impl; [|exact Hq]. by intros ? [? _].
    + intros _ Hno. exfalso. apply Hno.
      apply in_or_app. right. apply in_or_app. right. by left.
Qed.

(** A run that completes one character writes the ledger with no metadata
    record, nor any other record, written before: C3 does not hold of the
    metadata. *)
Lemma ledger_after_artifact_counterexample :
  let evs :=
    events
      (Storyboard.main_of (sample_env always_succeeds true any_path)
         one_character_story empty_world) in
  exists pre post,
    evs
    = pre
      ++ EWriteFile "output/progress.json"
           (CProgress {| completedCharacters := ["Zoey"]; completedScenes := [] |})
           true
      :: post
    /\ List.filter is_record_write pre = []
    /\ List.filter is_artifact_write pre
       = [ EWriteFile "output/character_images/Zoey.png"
             (CBuffer [Byte.x89; Byte.x50]) true ].
Proof.
  cbv zeta.
  exists (firstn 10
            (events
               (Storyboard.main_of (sample_env always_succeeds true any_path)
                  one_character_story empty_world))),
         (skipn 11
            (events
               (Storyboard.main_of (sample_env always_succeeds true any_path)
                  one_character_story empty_world))).
  repeat split; vm_compute; reflexivity.
Qed.

(** *** [anime.ts], the storyboard program: the references of the scene loop *)

Section StoryboardResolved.
Variable env : Env.

(** The loop over the characters leaves the handle of a name that is not
    the name of one of its characters as it is. *)
Lemma characters_loop_outside cs s w n :
  (forall c, In c cs -> Storyboard.name c <> n) ->
  match for_of (Storyboard.character_iteration env) cs s w with
  | (Ok s', _, _) =>
      Storyboard.characterRefs s' !! n = Storyboard.characterRefs s !! n
  | (Thrown _, _, _) => True
  end.
Proof.
  intros Hn.
  apply (for_of_rule (Storyboard.character_iteration env)
           (fun a _ b =>
              Storyboard.characterRefs b !! n = Storyboard.characterRefs a !! n)
           (fun _ _ => True)); try done.
  - intros a e1 b e2 c Hab Hbc. by rewrite Hbc.
  - intros c a wa Hc.
    pose proof (character_iteration_trace env c a wa) as T.
    destruct (Storyboard.character_iteration env c a wa) as [[[s'|err] w'] e];
      [|done].
    destruct T as [(_ & -> & _)|(u & _ & _ & ->)]; [done|].
    cbn [Storyboard.characterRefs]. apply lookup_insert_ne. by apply Hn.
Qed.

(** When the loop over the characters returns, every character of the
    list was in the ledger the loop started with, or has the handle that
    an [Upscale] of the loop returned. *)
Lemma characters_loop_resolved cs s w s' w' e :
  for_of (Storyboard.character_iteration env) cs s w = (Ok s', w', e) ->
  forall c, In c cs ->
    Storyboard.includes (completedCharacters (Storyboard.progress s))
      (Storyboard.name c) = true
    \/ exists u i a b f up,
         Storyboard.characterRefs s' !! Storyboard.name c = Some u
         /\ In (EUpscale i a b f up) e /\ upscale_uri up = Some u.
Proof.
  revert s w s' w' e. induction cs as [|x xs IH]; intros s w s' w' e; [done|].
  cbn [for_of]. unfold bind.
  pose proof (character_iteration_trace env x s w) as T.
  destruct (Storyboard.character_iteration env x s w) as [[[s1|err] w1] e1];
    [|done].
  pose proof (characters_loop_refs env xs s1 w1) as Hrefs.
  destruct (for_of (Storyboard.character_iteration env) xs s1 w1)
    as [[[s2|err] w2] e2] eqn:Hxs; [|done].
  intros [= <- <- <-]. destruct Hrefs as (Hkeep & _ & _).
  specialize (IH s1 w1 s2 w2 e2 Hxs).
  destruct T as [(_ & -> & Hinc)|(u & T & Hinc & ->)].
  - intros c [<-|Hc]; [by left|].
    destruct (IH c Hc) as [?|(u & i & a & b & f & up & ? & ? & ?)]; [by left|].
    right. exists u, i, a, b, f, up. split; [done|]. split; [|done].
    apply in_or_app. by right.
  - destruct (iteration_trace_upscaled _ _ _ _ _ _ _ _ _ T)
      as (i & a & b & f & up & Hin & Hup).
    assert (Storyboard.characterRefs s2 !! Storyboard.name x = Some u) as Hx.
    { destruct (Hkeep (Storyboard.name x)) as [_ ->].
      - cbn [Storyboard.progress Storyboard.push_character completedCharacters].
        by rewrite includes_app, String.eqb_refl, orb_true_r.
      - cbn [Storyboard.characterRefs]. apply lookup_insert_eq. }
    assert (exists u i a b f up,
              Storyboard.characterRefs s2 !! Storyboard.name x = Some u
              /\ In (EUpscale i a b f up) (e1 ++ e2) /\ upscale_uri up = Some u)
      as Hright.
    { exists u, i, a, b, f, up. split; [done|]. split; [|done].
      apply in_or_app. by left. }
    intros c [<-|Hc]; [by right|].
    destruct (IH c Hc) as [Hinc1|(u' & i' & a' & b' & f' & up' & ? & ? & ?)].
    + cbn [Storyboard.progress Storyboard.push_character completedCharacters]
        in Hinc1.
      rewrite includes_app in Hinc1.
      apply orb_true_iff in Hinc1 as [?|Heq]; [by left|].
      apply String.eqb_eq in Heq. rewrite Heq. by right.
    + right. exists u', i', a', b', f', up'. split; [done|]. split; [|done].
      apply in_or_app. by right.
Qed.

(** The loop over the scenes submits first the first scene that its
    ledger does not hold, with the references it starts with. *)
Lemma scenes_loop_first scs s w sc rest :
  pending Storyboard.scene_title (completedScenes (Storyboard.progress s)) scs
  = sc :: rest ->
  hd_error
    (imagine_prompts (events (for_of (Storyboard.scene_iteration env) scs s w)))
  = Some (Storyboard.render (Storyboard.characterRefs s)
            (Storyboard.scene_prompt sc)).
Proof.
  revert s w. induction scs as [|x xs IH]; intros s w; [done|].
  cbn [for_of]. unfold bind.
  pose proof (scene_iteration_trace env x s w) as T.
  destruct (Storyboard.includes (completedScenes (Storyboard.progress s))
              (Storyboard.scene_title x)) eqn:Hinc.
  - rewrite (pending_skip Storyboard.scene_title _ x xs Hinc). intros Hp.
    destruct (Storyboard.scene_iteration env x s w) as [[[s1|err] w1] e1].
    + destruct T as [(T & -> & _)|(u & _ & Hno & _)]; [|congruence].
      specialize (IH s w1 Hp).
      destruct (for_of (Storyboard.scene_iteration env) xs s w1)
        as [[r2 w2] e2].
      cbn [events snd] in *.
      assert (imagine_prompts (e1 ++ e2) = imagine_prompts e2) as Heq.
      { rewrite imagine_prompts_app.
        by rewrite (iteration_trace_one_prompt _ _ _ _ _ _ _ _ _
                      (scene_logs x (Storyboard.characterRefs s)) T). }
      by destruct r2; cbn [events snd]; rewrite Heq.
    + destruct T as [_ Hno]. congruence.
  - rewrite (pending_keep Storyboard.scene_title _ x xs Hinc).
    intros [= <- _].
    destruct (Storyboard.scene_iteration env x s w) as [[[s1|err] w1] e1].
    + destruct T as [(_ & _ & Hyes)|(u & T & _ & _)]; [congruence|].
      pose proof (iteration_trace_one_prompt _ _ _ _ _ _ _ _ _
                    (scene_logs x (Storyboard.characterRefs s)) T) as Hp.
      destruct (for_of (Storyboard.scene_iteration env) xs s1 w1)
        as [[[s2|err] w2] e2]; cbn [events snd];
        by rewrite imagine_prompts_app, Hp.
    + destruct T as [T _]. cbn [events snd].
      by rewrite (iteration_trace_one_prompt _ _ _ _ _ _ _ _ _
                    (scene_logs x (Storyboard.characterRefs s)) T).
Qed.

(** A run of [main] in its phases, with the references [refs1] of the
    scene loop: where they come from, which names have one, and which
    scenes are submitted. *)
Lemma main_structure st w :
  exists e_before e_chars e_scenes e_after refs1,
    events (Storyboard.main_of env st w)
    = e_before ++ e_chars ++ e_scenes ++ e_after
    /\ imagine_prompts e_before = []
    /\ imagine_prompts e_after = []
    /\ (forall P res,
          In (EImagine P res) e_chars ->
          exists c,
            In c (Storyboard.mainCharacters st) /\ P = Storyboard.prompt c
            /\ Storyboard.includes (completedCharacters (loaded_ledger env w))
                 (Storyboard.name c) = false)
    /\ (forall P res,
          In (EImagine P res) e_scenes ->
          exists sc,
            In sc (Storyboard.scenes st)
            /\ P = Storyboard.render refs1 (Storyboard.scene_prompt sc))
    /\ (forall n,
          Storyboard.includes (completedCharacters (loaded_ledger env w)) n = true
          \/ (forall c, In c (Storyboard.mainCharacters st) ->
                Storyboard.name c <> n) ->
          refs1 !! n = loaded_handle env w n)
    /\ (forall n u,
          refs1 !! n = Some u ->
          loaded_handle env w n = Some u
          \/ exists c i a b f up,
               In c (Storyboard.mainCharacters st) /\ Storyboard.name c = n
               /\ In (EUpscale i a b f up) e_chars /\ upscale_uri up = Some u)
    /\ (e_scenes <> [] ->
        forall c,
          In c (Storyboard.mainCharacters st) ->
          Storyboard.includes (completedCharacters (loaded_ledger env w))
            (Storyboard.name c) = false ->
          exists u i a b f up,
            refs1 !! Storyboard.name c = Some u
            /\ In (EUpscale i a b f up) e_chars /\ upscale_uri up = Some u)
    /\ (In EConnect (events (Storyboard.main_of env st w)) ->
        completedCharacters (loaded_ledger env w) <> [] ->
        (forall c, In c (Storyboard.mainCharacters st) ->
           Storyboard.includes (completedCharacters (loaded_ledger env w))
             (Storyboard.name c) = true) ->
        forall sc rest,
          pending Storyboard.scene_title
            (completedScenes (loaded_ledger env w)) (Storyboard.scenes st)
          = sc :: rest ->
          hd_error (imagine_prompts e_scenes)
          = Some (Storyboard.render refs1 (Storyboard.scene_prompt sc)))
    /\ (NoDup (map Storyboard.scene_title (Storyboard.scenes st)) ->
        In EConnect (events (Storyboard.main_of env st w)) ->
        ~ In (EError "Error generating storyboard:")
            (events (Storyboard.main_of env st w)) ->
        imagine_prompts e_scenes
        = map (fun sc => Storyboard.render refs1 (Storyboard.scene_prompt sc))
            (pending Storyboard.scene_title
               (completedScenes (loaded_ledger env w)) (Storyboard.scenes st))).
Proof.
  destruct (main_of_run env st w)
    as [(err & w' & e & -> & Hsetup)
       |[(w0 & r & w1 & e & Hfs & Hstory & ->)
        |(w1 & e_load & Hempty & _ & Hlogs & _ & ->)]];
    cbn [events snd].
  - exists e, [], [], [],
      (Storyboard.characterRefs (loaded_state env (loaded_ledger env w) w)).
    assert (~ In EConnect e) as Hno.
    { intros Hin. rewrite List.Forall_forall in Hsetup.
      by destruct (Hsetup _ Hin) as (dir & ok & ?). }
    rewrite !app_nil_r. split; [done|].
    split; [by apply mkdir_events_no_prompt|]. split; [done|].
    split; [by intros ? ? []|]. split; [by intros ? ? []|].
    split; [intros n _; by apply loaded_state_handle|].
    split.
    { intros n u Hu. left.
      by rewrite <- (loaded_state_handle env (loaded_ledger env w) w w n eq_refl). }
    split; [done|]. split; [by intros ?|by intros _ ?].
  - set (p := loaded_ledger env w) in *.
    set (setup := [ EMkdir "output/character_images" true;
                    EMkdir "output/scene_images" true; EConnect ]).
    set (closing := match r with
                    | Ok _ => []
                    | Thrown _ => [EError "Error generating storyboard:"]
                    end ++ [EClose]).
    assert (Hcl : imagine_prompts closing = []) by (subst closing; by destruct r).
    assert (Herr : forall x l, r = Thrown x ->
                     In (EError "Error generating storyboard:")
                       (setup ++ l ++ closing)).
    { intros x l ->. apply in_or_app. right. apply in_or_app. right. by left. }
    destruct (storyboard_outcome env st p w0)
      as (r' & w3 & e' & Hrun & e_load & r1 & w1' & e1 & Hlogs & Hchars & Hrest).
    rewrite Hstory in Hrun. injection Hrun as <- <- <-.
    pose proof (only_logs_no_prompt _ Hlogs) as Hl0.
    pose proof (characters_loop_refs env (Storyboard.mainCharacters st)
                  (loaded_state env p w0) (tick w0)) as Hrefs1.
    rewrite Hchars in Hrefs1. rewrite loaded_state_progress in Hrefs1.
    destruct r1 as [s1|err].
    2:{ destruct Hrest as (-> & _ & ->).
        exists (setup ++ e_load), e1, [], closing,
          (Storyboard.characterRefs (loaded_state env p w0)).
        split; [by rewrite <- !app_assoc|].
        split; [by rewrite imagine_prompts_app, Hl0|]. split; [done|].
        split; [done|]. split; [by intros ? ? []|].
        split; [intros n _; by apply loaded_state_handle|].
        split.
        { intros n u Hu. left.
          by rewrite <- (loaded_state_handle env p w0 w n Hfs). }
        split; [done|]. split.
        - intros _ _ Hall. exfalso.
          rewrite characters_loop_all_done in Hchars; [done|].
          rewrite loaded_state_progress. apply forallb_forall. apply Hall.
        - intros _ _ Hno. by destruct (Hno (Herr err _ eq_refl)). }
    destruct Hrefs1 as (Hkeep & Hprompts & Hprov).
    destruct Hrest as (r2 & w2 & e2 & Hscenes & Hrest).
    pose proof (scenes_loop_refs env (Storyboard.scenes st) s1 w1') as Hrefs2.
    rewrite Hscenes in Hrefs2.
    assert (Hsc : forall P res,
              In (EImagine P res) e2 ->
              exists sc,
                In sc (Storyboard.scenes st)
                /\ P = Storyboard.render (Storyboard.characterRefs s1)
                         (Storyboard.scene_prompt sc))
      by (destruct r2; [apply Hrefs2|exact Hrefs2]).
    assert (Hk : forall n,
              Storyboard.includes (completedCharacters p) n = true
              \/ (forall c, In c (Storyboard.mainCharacters st) ->
                    Storyboard.name c <> n) ->
              Storyboard.characterRefs s1 !! n = loaded_handle env w n).
    { intros n [Hn|Hn].
      - destruct (Hkeep n Hn) as [_ ->]. by apply loaded_state_handle.
      - pose proof (characters_loop_outside (Storyboard.mainCharacters st)
                      (loaded_state env p w0) (tick w0) n Hn) as Ho.
        rewrite Hchars in Ho. rewrite Ho. by apply loaded_state_handle. }
    assert (Hpv : forall n u,
              Storyboard.characterRefs s1 !! n = Some u ->
              loaded_handle env w n = Some u
              \/ exists c i a b f up,
                   In c (Storyboard.mainCharacters st) /\ Storyboard.name c = n
                   /\ In (EUpscale i a b f up) e1 /\ upscale_uri up = Some u).
    { intros n u Hu. destruct (Hprov n u Hu) as [Hl|?]; [|by right].
      left. by rewrite <- (loaded_state_handle env p w0 w n Hfs). }
    assert (Hres : forall c,
              In c (Storyboard.mainCharacters st) ->
              Storyboard.includes (completedCharacters p) (Storyboard.name c)
              = false ->
              exists u i a b f up,
                Storyboard.characterRefs s1 !! Storyboard.name c = Some u
                /\ In (EUpscale i a b f up) e1 /\ upscale_uri up = Some u).
    { intros c Hc Hno.
      destruct (characters_loop_resolved _ _ _ _ _ _ Hchars c Hc) as [Hyes|?];
        [|done].
      rewrite loaded_state_progress in Hyes. congruence. }
    pose proof (characters_loop_scenes env (Storyboard.mainCharacters st)
                  (loaded_state env p w0) (tick w0)) as Hscs.
    rewrite Hchars, loaded_state_progress in Hscs.
    assert (Hfirst : forall sc rest,
              pending Storyboard.scene_title (completedScenes p)
                (Storyboard.scenes st) = sc :: rest ->
              hd_error (imagine_prompts e2)
              = Some (Storyboard.render (Storyboard.characterRefs s1)
                        (Storyboard.scene_prompt sc))).
    { intros sc rest Hp.
      pose proof (scenes_loop_first (Storyboard.scenes st) s1 w1' sc rest) as H.
      rewrite Hscs, Hscenes in H. by apply H. }
    destruct r2 as [s2|err].
    + cbv zeta in Hrest. destruct Hrest as [-> Hok].
      eexists (setup ++ e_load), e1, e2, (_ :: closing),
        (Storyboard.characterRefs s1).
      split; [by rewrite <- !app_assoc|].
      split; [by rewrite imagine_prompts_app, Hl0|].
      split; [by rewrite imagine_prompts_cons, Hcl|].
      split; [done|]. split; [done|]. split; [done|]. split; [done|].
      split; [by intros _|]. split; [by intros _ _ _|].
      intros Hnd _ _.
      pose proof (scenes_loop_pending env (Storyboard.scenes st) s1 w1' Hnd) as H.
      by rewrite Hscenes, Hscs in H.
    + destruct Hrest as (-> & _ & ->).
      exists (setup ++ e_load), e1, e2, closing, (Storyboard.characterRefs s1).
      split; [by rewrite <- !app_assoc|].
      split; [by rewrite imagine_prompts_app, Hl0|].
      split; [done|].
      split; [done|]. split; [done|]. split; [done|]. split; [done|].
      split; [by intros _|]. split; [by intros _ _ _|].
      intros _ _ Hno. by destruct (Hno (Herr err _ eq_refl)).
  - exists ([ EMkdir "output/character_images" true;
              EMkdir "output/scene_images" true; EConnect ]
            ++ e_load ++ [EError "Error generating storyboard:"; EClose]),
      [], [], [],
      (Storyboard.characterRefs (loaded_state env (loaded_ledger env w) w)).
    rewrite !app_nil_r. split; [done|].
    split; [by rewrite !imagine_prompts_app, (only_logs_no_prompt _ Hlogs)|].
    split; [done|].
    split; [by intros ? ? []|]. split; [by intros ? ? []|].
    split; [intros n _; by apply loaded_state_handle|].
    split.
    { intros n u Hu. left.
      by rewrite <- (loaded_state_handle env (loaded_ledger env w) w w n eq_refl). }
    split; [done|]. split.
    + intros _ Hne. by rewrite Hempty in Hne.
    + intros _ _ Hno. exfalso. apply Hno.
      apply in_or_app. right. apply in_or_app. right. by left.
Qed.
End StoryboardResolved.

(** *** Resuming without the reference summary *)

(** C10. When the ledger loaded at start-up holds a character's name and the
    reference summary is absent, or has no handle for that name, the run does
    not generate that character again (every prompt of its character loop is
    the prompt of a character the ledger lacks) and fills every scene prompt
    with a map that has no entry for the name: every scene prompt whose
    template interpolates the character's handle contains the text
    [undefined]. Such prompts are submitted: when the ledger holds every
    character of the story and the client connects, the first scene that the
    ledger lacks is submitted, first, with that map; and when the titles of
    the scenes differ, a connected run that logs no storyboard error has
    submitted in this way every scene that the ledger lacked. *)
Theorem resume_bakes_undefined (env : Env) (st : Storyboard.Story) (w : World)
    (charName : string) :
  Storyboard.includes (completedCharacters (loaded_ledger env w)) charName = true ->
  loaded_handle env w charName = None ->
  exists e_before e_chars e_scenes e_after charRefs,
    events (Storyboard.main_of env st w)
    = e_before ++ e_chars ++ e_scenes ++ e_after
    /\ imagine_prompts e_before = []
    /\ imagine_prompts e_after = []
    /\ charRefs !! charName = None
    /\ (forall n,
          Storyboard.includes (completedCharacters (loaded_ledger env w)) n = true ->
          charRefs !! n = loaded_handle env w n)
    /\ (forall P res,
          In (EImagine P res) e_chars ->
          exists c,
            In c (Storyboard.mainCharacters st) /\ P = Storyboard.prompt c
            /\ Storyboard.name c <> charName)
    /\ (forall P res,
          In (EImagine P res) e_scenes ->
          exists sc,
            In sc (Storyboard.scenes st)
            /\ P = Storyboard.render charRefs (Storyboard.scene_prompt sc)
            /\ (In (Storyboard.Ref charName) (Storyboard.scene_prompt sc) ->
                contains "undefined" P))
    /\ (In EConnect (events (Storyboard.main_of env st w)) ->
        (forall c, In c (Storyboard.mainCharacters st) ->
           Storyboard.includes (completedCharacters (loaded_ledger env w))
             (Storyboard.name c) = true) ->
        forall sc rest,
          pending Storyboard.scene_title (completedScenes (loaded_ledger env w))
            (Storyboard.scenes st)
          = sc :: rest ->
          hd_error (imagine_prompts (events (Storyboard.main_of env st w)))
          = Some (Storyboard.render charRefs (Storyboard.scene_prompt sc))
          /\ (In (Storyboard.Ref charName) (Storyboard.scene_prompt sc) ->
              contains "undefined"
                (Storyboard.render charRefs (Storyboard.scene_prompt sc))))
    /\ (NoDup (map Storyboard.scene_title (Storyboard.scenes st)) ->
        In EConnect (events (Storyboard.main_of env st w)) ->
        ~ In (EError "Error generating storyboard:")
            (events (Storyboard.main_of env st w)) ->
        forall sc,
          In sc (Storyboard.scenes st) ->
          Storyboard.includes (completedScenes (loaded_ledger env w))
            (Storyboard.scene_title sc) = false ->
          In (Storyboard.Ref charName) (Storyboard.scene_prompt sc) ->
          exists res,
            In (EImagine (Storyboard.render charRefs (Storyboard.scene_prompt sc))
                  res) e_scenes
            /\ contains "undefined"
                 (Storyboard.render charRefs (Storyboard.scene_prompt sc))).
Proof.
  intros Hledger Hnone.
  destruct (main_structure env st w)
    as (e_before & e_chars & e_scenes & e_after & refs1
        & Heq & Hb & Ha & Hc & Hs & Hkeep & _ & _ & Hfirst & Hall).
  exists e_before, e_chars, e_scenes, e_after, refs1.
  assert (Hrefs : refs1 !! charName = None).
  { rewrite <- Hnone. apply Hkeep. by left. }
  split; [done|]. split; [done|]. split; [done|]. split; [done|].
  split; [intros n Hn; apply Hkeep; by left|].
  split; [|split; [|split]].
  - intros P res Hin. destruct (Hc P res Hin) as (c & Hin' & -> & Hnot).
    exists c. repeat split; try done. intros Hname. rewrite Hname in Hnot. congruence.
  - intros P res Hin. destruct (Hs P res Hin) as (sc & Hin' & ->).
    exists sc. repeat split; try done. by apply (render_undefined refs1 _ charName).
  - intros Hconn Hcs sc rest Hp. split; [|by apply (render_undefined refs1 _ charName)].
    assert (completedCharacters (loaded_ledger env w) <> []) as Hne.
    { intros Hnil. by rewrite Hnil in Hledger. }
    assert (imagine_prompts e_chars = []) as Hnc.
    { destruct (imagine_prompts e_chars) as [|P l] eqn:HP; [done|]. exfalso.
      assert (In P (imagine_prompts e_chars)) as HinP by (rewrite HP; by left).
      apply in_imagine_prompts in HinP as [res Hin].
      destruct (Hc P res Hin) as (c & Hc' & _ & Hno).
      rewrite (Hcs c Hc') in Hno. discriminate Hno. }
    rewrite Heq, !imagine_prompts_app, Hb, Hnc, Ha, app_nil_r. cbn [app].
    by apply (Hfirst Hconn Hne Hcs sc rest).
  - intros Hnd Hconn Hno sc Hsc Hpending Href.
    assert (In (Storyboard.render refs1 (Storyboard.scene_prompt sc))
              (imagine_prompts e_scenes)) as Hin.
    { rewrite (Hall Hnd Hconn Hno).
      apply (in_map (fun sc => Storyboard.render refs1 (Storyboard.scene_prompt sc))).
      unfold pending. apply List.filter_In. split; [done|]. by rewrite Hpending. }
    apply in_imagine_prompts in Hin as [res Hin].
    exists res. split; [done|]. by apply (render_undefined refs1 _ charName).
Qed.

Lemma resume_bakes_undefined_witness :
  let env := sample_env always_succeeds true any_path in
  let w := world_with [("output/progress.json", CProgress all_characters_done)] in
  let first_scene :=
    hd {| Storyboard.scene_title := ""; Storyboard.scene_prompt := [] |}
      (Storyboard.scenes Storyboard.story) in
  Storyboard.includes (completedCharacters (loaded_ledger env w)) "Zoey" = true
  /\ loaded_handle env w "Zoey" = None
  /\ exists charRefs,
       charRefs !! "Zoey" = None
       /\ hd_error
            (imagine_prompts (events (Storyboard.main_of env Storyboard.story w)))
          = Some (Storyboard.render charRefs (Storyboard.scene_prompt first_scene))
       /\ contains "undefined"
            (Storyboard.render charRefs (Storyboard.scene_prompt first_scene)).
Proof.
  cbv zeta. split; [reflexivity|]. split; [reflexivity|].
  destruct (resume_bakes_undefined (sample_env always_succeeds true any_path)
              Storyboard.story
              (world_with [("output/progress.json", CProgress all_characters_done)])
              "Zoey" eq_refl eq_refl)
    as (e_before & e_chars & e_scenes & e_after & charRefs
        & Heq & _ & _ & Hzoey & Hkeep & _ & _ & Hfirst & _).
  exists charRefs. split; [exact Hzoey|].
  assert (In EConnect
            (events
               (Storyboard.main_of (sample_env always_succeeds true any_path)
                  Storyboard.story
                  (world_with
                     [("output/progress.json", CProgress all_characters_done)]))))
    as Hconn.
  { vm_compute. do 2 right. left. reflexivity. }
  assert (forall c, In c (Storyboard.mainCharacters Storyboard.story) ->
            Storyboard.includes
              (completedCharacters
                 (loaded_ledger (sample_env always_succeeds true any_path)
                    (world_with
                       [("output/progress.json", CProgress all_characters_done)])))
              (Storyboard.name c) = true) as Hcs.
  { intros c Hc.
    repeat (destruct Hc as [<-|Hc]; [vm_compute; reflexivity|]). destruct Hc. }
  destruct (Hfirst Hconn Hcs
              (hd {| Storyboard.scene_title := ""; Storyboard.scene_prompt := [] |}
                 (Storyboard.scenes Storyboard.story))
              (tl (Storyboard.scenes Storyboard.story)) eq_refl)
    as [Hhd Hundef].
  split; [exact Hhd|].
  apply Hundef. vm_compute. do 1 right. left. reflexivity.
Defined.

(** The run of the witness: the characters are skipped, and the first scene
    is submitted with [undefined] in place of both handles. *)
Example resumed_scene_prompt :
  hd_error
    (imagine_prompts
       (events
          (Storyboard.main (sample_env always_succeeds true any_path)
             (world_with [("output/progress.json", CProgress all_characters_done)]))))
  = Some
      "Intimate hospital room setting, Zoey (wearing professional attire, vulnerable expression) turning away from Blaine (in doctor's coat, intense gaze). Tension-filled atmosphere with medical equipment in background, dramatic shadows emphasizing their emotional connection, warm lighting highlighting their faces. Close physical proximity suggesting unresolved feelings --cref undefined undefined --ar 1:1 --v 6".
Proof. vm_compute. reflexivity. Qed.

(** *** [anime.ts], the storyboard program: handles in the scene prompts *)



(** *** The phases of a run and the references of the scene prompts *)

Section ExampleScriptResolved.
Variable env : Env.

(** The value of one iteration of the loop of
    [generateCharacterReferences], from the response of the generation. *)
Lemma generateCharacterReference_value c characterRefs w response :
  result (ExampleScript.generateAndSelectVariation env
            (ExampleScript.buildCharacterPrompt c)
            ("character_" +:+ toLowerCase env (name c))
            ExampleScript.character w)
  = Ok response ->
  result (ExampleScript.generateCharacterReference env c characterRefs w)
  = Ok match ExampleScript.response_uri response with
       | Some u => <[name c := u]> characterRefs
       | None => characterRefs
       end.
Proof.
  unfold ExampleScript.generateCharacterReference. cbv zeta. unfold bind.
  destruct (ExampleScript.generateAndSelectVariation env _ _ _ w)
    as [[[resp|err] w'] e]; cbn [result fst]; [|done].
  intros [= ->].
  by destruct (ExampleScript.response_uri response).
Qed.

(** The loop leaves the handle of a name that is not the name of one of
    its characters as it is. *)
Lemma character_references_outside cs s w n :
  (forall c, In c cs -> name c <> n) ->
  match for_of (ExampleScript.generateCharacterReference env) cs s w with
  | (Ok s', _, _) => s' !! n = s !! n
  | (Thrown _, _, _) => False
  end.
Proof.
  intros Hn.
  apply (for_of_rule (ExampleScript.generateCharacterReference env)
           (fun (a : gmap string string) _ (b : gmap string string) =>
              b !! n = a !! n)
           (fun _ _ => False)); try done.
  - intros a e1 b e2 c Hab Hbc. by rewrite Hbc.
  - intros c a wa Hc.
    destruct (generateCharacterReference_spec env c a wa)
      as (a' & Hres & _ & Hcase & _).
    destruct (ExampleScript.generateCharacterReference env c a wa)
      as [[[b|err] w'] e]; cbn [result fst] in Hres; [|done].
    injection Hres as ->.
    destruct Hcase as [->|(r & v0 & rest & _ & _ & ->)]; [done|].
    apply lookup_insert_ne. by apply Hn.
Qed.

(** The handle the character phase returns for the last character of a
    name: the address its generation resolved, or what the characters
    before it left when it resolved none. *)
Lemma generateCharacterReferences_exact script w_c characterRefs' w_s e_chars :
  ExampleScript.generateCharacterReferences env script ∅ w_c
  = (Ok characterRefs', w_s, e_chars) ->
  forall pre c post,
    characters script = pre ++ c :: post ->
    (forall c', In c' post -> name c' <> name c) ->
    exists refs1 w1 e1,
      for_of (ExampleScript.generateCharacterReference env) pre ∅ w_c
      = (Ok refs1, w1, e1)
      /\ forall response,
           result (ExampleScript.generateAndSelectVariation env
                     (ExampleScript.buildCharacterPrompt c)
                     ("character_" +:+ toLowerCase env (name c))
                     ExampleScript.character w1)
           = Ok response ->
           characterRefs' !! name c
           = match ExampleScript.response_uri response with
             | Some u => Some u
             | None => refs1 !! name c
             end.
Proof.
  unfold ExampleScript.generateCharacterReferences, bind, console_log, emit.
  intros Hrun pre c post Hsplit Hlast. rewrite Hsplit, for_of_app in Hrun.
  destruct (for_of (ExampleScript.generateCharacterReference env) pre ∅ w_c)
    as [[[refs1|err] w1] e1]; [|done].
  exists refs1, w1, e1. split; [done|]. intros response Hresp.
  cbn [for_of] in Hrun. unfold bind in Hrun.
  pose proof (generateCharacterReference_value c refs1 w1 response Hresp) as Hc.
  destruct (ExampleScript.generateCharacterReference env c refs1 w1)
    as [[[refs2|err] w2] e2]; cbn [result fst] in Hc; [|done].
  injection Hc as ->.
  pose proof (character_references_outside post
                match ExampleScript.response_uri response with
                | Some u => <[name c := u]> refs1
                | None => refs1
                end w2 (name c) Hlast) as Hout.
  destruct (for_of (ExampleScript.generateCharacterReference env) post _ w2)
    as [[[refs3|err] w3] e3]; [|done].
  cbn [result world events fst snd] in Hrun. injection Hrun as <- _ _.
  rewrite Hout.
  destruct (ExampleScript.response_uri response); [|done].
  apply lookup_insert_eq.
Qed.
End ExampleScriptResolved.

(** C4, as amended. In [exampleScript.ts] a run of [generate] on a new
    generator submits nothing when the file holds no script or the connection
    is not opened. Otherwise it creates the directories, connects, submits
    every character of the script, in order, and then every scene, in order,
    and closes; every scene prompt is built with the map the character phase
    returned. That map holds exactly the handles the phase resolved: every
    handle is the address of the first variation of a response that the
    phase got for a character of that name, and the last character of a name
    has the address its generation resolved, or, when it resolved none, what
    the characters before it left for the name. In the storyboard program of
    [anime.ts] the submissions of a run are those of the character loop, which
    are the prompts of characters that the loaded ledger lacks, followed by
    those of the scene loop; every scene prompt is filled with one map. In
    that map a name of the loaded ledger, and a name that is not the name of
    a character of the story, has the handle of the loaded reference summary,
    or none; every handle is one of the loaded summary or the address an
    [Upscale] of this run's character loop returned; and when the scene loop
    is entered, every character that the loaded ledger lacked has the address
    such an [Upscale] returned. *)
Theorem phase_ordering (env : Env) (scriptPath : string)
    (st : Storyboard.Story) (w : World) :
  (exists r w' e,
     ExampleScript.generate env scriptPath ∅ w = (r, w', e)
     /\ ((imagine_prompts e = []
          /\ r = Ok ∅
          /\ ((forall script, fs w !! scriptPath <> Some (CScript script))
              \/ ~ In EConnect e))
         \/ exists script characterRefs' e_dirs w_c w_s e_chars e_scenes,
              fs w !! scriptPath = Some (CScript script)
              /\ r = Ok characterRefs'
              /\ e = e_dirs ++ [EConnect] ++ e_chars ++ e_scenes ++ [EClose]
              /\ Forall (fun e => exists dir ok, e = EMkdir dir ok) e_dirs
              /\ ExampleScript.generateCharacterReferences env script ∅ w_c
                 = (Ok characterRefs', w_s, e_chars)
              /\ events (ExampleScript.generateScenes env script characterRefs' w_s)
                 = e_scenes
              /\ imagine_prompts e_chars
                 = map ExampleScript.buildCharacterPrompt (characters script)
              /\ imagine_prompts e_scenes
                 = map (fun sc =>
                          ExampleScript.buildScenePrompt sc script characterRefs')
                     (scenes script)
              /\ (forall n u,
                    characterRefs' !! n = Some u ->
                    exists c r v0 rest,
                      In c (characters script) /\ name c = n
                      /\ In (EImagine (ExampleScript.buildCharacterPrompt c)
                               (Ok (Some r))) e_chars
                      /\ options r = Some (v0 :: rest) /\ u = var_uri v0)
              /\ (forall pre c post,
                    characters script = pre ++ c :: post ->
                    (forall c', In c' post -> name c' <> name c) ->
                    exists refs1 w1 e1,
                      for_of (ExampleScript.generateCharacterReference env) pre ∅ w_c
                      = (Ok refs1, w1, e1)
                      /\ forall response,
                           result (ExampleScript.generateAndSelectVariation env
                                     (ExampleScript.buildCharacterPrompt c)
                                     ("character_" +:+ toLowerCase env (name c))
                                     ExampleScript.character w1)
                           = Ok response ->
                           characterRefs' !! name c
                           = match ExampleScript.response_uri response with
                             | Some u => Some u
                             | None => refs1 !! name c
                             end)))
  /\ (exists e_before e_chars e_scenes e_after refs1,
        events (Storyboard.main_of env st w)
        = e_before ++ e_chars ++ e_scenes ++ e_after
        /\ imagine_prompts e_before = []
        /\ imagine_prompts e_after = []
        /\ (forall P res,
              In (EImagine P res) e_chars ->
              exists c,
                In c (Storyboard.mainCharacters st) /\ P = Storyboard.prompt c
                /\ Storyboard.includes (completedCharacters (loaded_ledger env w))
                     (Storyboard.name c) = false)
        /\ (forall P res,
              In (EImagine P res) e_scenes ->
              exists sc,
                In sc (Storyboard.scenes st)
                /\ P = Storyboard.render refs1 (Storyboard.scene_prompt sc))
        /\ (forall n,
              Storyboard.includes (completedCharacters (loaded_ledger env w)) n
              = true
              \/ (forall c, In c (Storyboard.mainCharacters st) ->
                    Storyboard.name c <> n) ->
              refs1 !! n = loaded_handle env w n)
        /\ (forall n u,
              refs1 !! n = Some u ->
              loaded_handle env w n = Some u
              \/ exists c i a b f up,
                   In c (Storyboard.mainCharacters st) /\ Storyboard.name c = n
                   /\ In (EUpscale i a b f up) e_chars /\ upscale_uri up = Some u)
        /\ (e_scenes <> [] ->
            forall c,
              In c (Storyboard.mainCharacters st) ->
              Storyboard.includes (completedCharacters (loaded_ledger env w))
                (Storyboard.name c) = false ->
              exists u i a b f up,
                refs1 !! Storyboard.name c = Some u
                /\ In (EUpscale i a b f up) e_chars /\ upscale_uri up = Some u)).
Proof.
  split.
  - destruct (generate_run env scriptPath w)
      as (r & w' & e & Hrun
          & [?|(script & refs' & e_dirs & w_c & w_s & e_chars & e_scenes
                & Hfs & -> & -> & Hdirs & Hchars & Hscenes & Hp1 & Hp2)]).
    { exists r, w', e. split; [done|]. by left. }
    exists (Ok refs'), w', (e_dirs ++ [EConnect] ++ e_chars ++ e_scenes ++ [EClose]).
    split; [done|]. right.
    exists script, refs', e_dirs, w_c, w_s, e_chars, e_scenes.
    repeat (split; [done|]). split.
    + pose proof (generateCharacterReferences_provenance env script ∅ w_c) as Hprov.
      rewrite Hchars in Hprov. intros n u Hu.
      destruct (Hprov n u Hu) as [Habs|?]; [|done].
      by rewrite lookup_empty in Habs.
    + by apply (generateCharacterReferences_exact env script w_c refs' w_s e_chars).
  - destruct (main_structure env st w)
      as (e_before & e_chars & e_scenes & e_after & refs1
          & Heq & Hb & Ha & Hc & Hs & Hkeep & Hprov & Hres & _).
    exists e_before, e_chars, e_scenes, e_after, refs1. by repeat split.
Qed.

(** A run that finds every character in the ledger and their handles in the
    reference summary generates no character, and its first scene prompt
    carries the handles of the summary: C4 does not hold of the handles of the
    storyboard program. *)
Lemma phase_ordering_counterexample :
  let w :=
    world_with
      [ ("output/progress.json", CProgress all_characters_done);
        ("output/character_references.json",
         CReferences
           {| uris := {[ "Zoey" := "https://old.example/zoey.png";
                         "Blaine" := "https://old.example/blaine.png" ]};
              files := ∅ |}) ] in
  let evs :=
    events (Storyboard.main (sample_env always_null true any_path) w) in
  imagine_prompts evs
  = [ "Intimate hospital room setting, Zoey (wearing professional attire, vulnerable expression) turning away from Blaine (in doctor's coat, intense gaze). Tension-filled atmosphere with medical equipment in background, dramatic shadows emphasizing their emotional connection, warm lighting highlighting their faces. Close physical proximity suggesting unresolved feelings --cref https://old.example/zoey.png https://old.example/blaine.png --ar 1:1 --v 6" ]
  /\ List.filter (fun e => match e with EUpscale _ _ _ _ _ => true | _ => false end)
       evs = [].
Proof. split; vm_compute; reflexivity. Qed.
